(** * volk_32f_sin_32f: the sine kernels of VOLK, embedded and verified

    Source: [kernels/volk/volk_32f_sin_32f.h].  The header holds seven
    kernels with one signature, [(float* bVector, const float* aVector,
    unsigned int num_points)]:

    - [volk_32f_sin_32f_generic]: a loop over the C library's [sin];
    - [volk_32f_sin_32f_{a,u}_sse4_1]: four lanes, SSE4.1 intrinsics;
    - [volk_32f_sin_32f_{a,u}_avx2]: eight lanes, AVX2 intrinsics;
    - [volk_32f_sin_32f_{a,u}_avx2_fma]: eight lanes, fused multiply-add.

    The embedding keeps the shape of the C code.  A lane of a vector
    register is its 32-bit pattern (a [Z] in [0, 2^32)); an arithmetic
    intrinsic decodes the pattern to a binary32 value, computes with the
    IEEE-754 operations of [SpecFloat] (precision 24, [emax] 128) and encodes
    the result; a bitwise intrinsic works on the pattern itself.  Memory is a
    flat list of 32-bit cells addressed by cell index, and a kernel is a
    computation in a small state-and-fault monad.

    What the model takes for granted:

    - the MXCSR register has its default value: round to nearest even,
      denormals neither flushed nor read as zero;
    - a NaN has no payload: every NaN pattern decodes to the one NaN of
      [spec_float], and every NaN result is the default quiet NaN
      [0xFFC00000];
    - the C library's [sin] is a parameter of the kernels;
    - a counter of type [unsigned int] is a [nat]: the kernels count up to
      [num_points] and never wrap. *)

From Stdlib Require Import ZArith QArith Qabs Qreals Reals Machin Lra Lia Bool List
  SpecFloat.
From stdpp Require Import base tactics option list.

Local Open Scope Z_scope.

(** ** Binary32 values and their bit patterns *)

Module F32.

Definition prec : Z := 24.
Definition emax : Z := 128.

(** A lane: the 32 bits of a [float] or of an [int32_t]. *)
Abbreviation bits := Z (only parsing).

Definition sign_bit : Z := 0x80000000.
Definition exp_mask : Z := 0x7F800000.
Definition frac_mask : Z := 0x007FFFFF.
Definition all_ones : Z := 0xFFFFFFFF.

(** The default quiet NaN an x86 operation produces. *)
Definition default_nan : Z := 0xFFC00000.

Definition wrap32 (z : Z) : Z := z mod 2 ^ 32.

(** The three fields of a pattern. *)
Definition sign_field (w : bits) : bool := Z.testbit w 31.
Definition exp_field (w : bits) : Z := Z.shiftr (Z.land w exp_mask) 23.
Definition frac_field (w : bits) : Z := Z.land w frac_mask.

Definition decode (w : bits) : spec_float :=
  let s := sign_field w in
  let e := exp_field w in
  let m := frac_field w in
  if e =? 0 then
    match m with
    | Zpos p => S754_finite s p (-149)
    | _ => S754_zero s
    end
  else if e =? 255 then
    match m with
    | Z0 => S754_infinity s
    | _ => S754_nan
    end
  else
    match m + 2 ^ 23 with
    | Zpos p => S754_finite s p (e - 150)
    | _ => S754_nan
    end.

Definition sign_of (s : bool) : Z := if s then sign_bit else 0.

(** Packing: one sign bit, then eight bits of biased exponent and
    twenty-three bits of fraction.  A subnormal has exponent field 0; the
    NaN is the default one, sign bit set and quiet bit set. *)
Definition sign_of_float (x : spec_float) : bool :=
  match x with
  | S754_zero s | S754_infinity s | S754_finite s _ _ => s
  | S754_nan => true
  end.

Definition magnitude (x : spec_float) : Z :=
  match x with
  | S754_zero _ => 0
  | S754_infinity _ => exp_mask
  | S754_nan => 0x7FC00000      (* with the sign bit: [default_nan] *)
  | S754_finite _ m e =>
      if Zpos m <? 2 ^ 23 then Zpos m
      else Z.lor (Z.shiftl (Z.land (e + 150) 0xFF) 23)
                 (Z.land (Zpos m) frac_mask)
  end.

Definition encode (x : spec_float) : bits :=
  Z.lor (sign_of (sign_of_float x)) (magnitude x).

(** [m * 2^e] sits on the binary32 grid: [e] is the exponent the format
    gives a number with as many digits as [m]. *)
Abbreviation fexp32 := (fexp prec emax) (only parsing).

Definition on_grid (m : positive) (e : Z) : Prop :=
  fexp32 (Zpos (digits2_pos m) + e) = e.

(** *** Arithmetic, one rounding per operation *)

Definition add (a b : bits) : bits :=
  encode (SFadd prec emax (decode a) (decode b)).
Definition sub (a b : bits) : bits :=
  encode (SFsub prec emax (decode a) (decode b)).
Definition mul (a b : bits) : bits :=
  encode (SFmul prec emax (decode a) (decode b)).
Definition div (a b : bits) : bits :=
  encode (SFdiv prec emax (decode a) (decode b)).
Definition sqrt (a : bits) : bits :=
  encode (SFsqrt prec emax (decode a)).

(** Fused multiply-add [x * y + z]: the product is kept exact and the sum
    is rounded once.  [SpecFloat] has no such operation; this one follows
    IEEE-754 clause 5.4.1 case by case. *)
Definition SFfma (x y z : spec_float) : spec_float :=
  match x, y with
  | S754_nan, _ | _, S754_nan => S754_nan
  | S754_infinity _, S754_zero _ | S754_zero _, S754_infinity _ => S754_nan
  | S754_infinity sx, S754_infinity sy
  | S754_infinity sx, S754_finite sy _ _
  | S754_finite sx _ _, S754_infinity sy =>
      match z with
      | S754_nan => S754_nan
      | S754_infinity sz =>
          if Bool.eqb (xorb sx sy) sz then z else S754_nan
      | _ => S754_infinity (xorb sx sy)
      end
  | S754_zero sx, S754_zero sy
  | S754_zero sx, S754_finite sy _ _
  | S754_finite sx _ _, S754_zero sy =>
      match z with
      | S754_zero sz =>
          if Bool.eqb (xorb sx sy) sz then z else S754_zero false
      | _ => z
      end
  | S754_finite sx mx ex, S754_finite sy my ey =>
      match z with
      | S754_nan => S754_nan
      | S754_infinity _ => z
      | S754_zero _ => SFmul prec emax x y
      | S754_finite sz mz ez =>
          let ep := ex + ey in
          let e := Z.min ep ez in
          let p := cond_Zopp (xorb sx sy) (Zpos (mx * my)) * 2 ^ (ep - e) in
          let c := cond_Zopp sz (Zpos mz) * 2 ^ (ez - e) in
          binary_normalize prec emax (p + c) e false
      end
  end.

Definition fmadd (a b c : bits) : bits :=
  encode (SFfma (decode a) (decode b) (decode c)).
Definition fmsub (a b c : bits) : bits :=
  encode (SFfma (decode a) (decode b) (SFopp (decode c))).
Definition fnmadd (a b c : bits) : bits :=
  encode (SFfma (SFopp (decode a)) (decode b) (decode c)).

(** Round toward minus infinity to an integral value (ROUNDPS, mode 1). *)
Definition SFfloor (x : spec_float) : spec_float :=
  match x with
  | S754_finite s m e =>
      if 0 <=? e then x
      else
        match Z.shiftr (cond_Zopp s (Zpos m)) (- e) with
        | Z0 => S754_zero s
        | z => binary_normalize prec emax z 0 false
        end
  | _ => x
  end.

Definition floor (a : bits) : bits := encode (SFfloor (decode a)).

(** *** Conversions *)

(** Nearest integer, ties to even, of [m * 2^e]. *)
Definition rne_int (m : positive) (e : Z) : Z :=
  if 0 <=? e then Zpos m * 2 ^ e
  else
    let d := 2 ^ (- e) in
    let q := Zpos m / d in
    let r := Zpos m mod d in
    match 2 * r ?= d with
    | Lt => q
    | Gt => q + 1
    | Eq => if Z.even q then q else q + 1
    end.

(** CVTPS2DQ: a value that does not fit a signed 32-bit integer, an
    infinity or a NaN gives the integer indefinite [0x80000000]. *)
Definition cvt_f32_i32 (a : bits) : bits :=
  match decode a with
  | S754_zero _ => 0
  | S754_finite s m e =>
      let z := cond_Zopp s (rne_int m e) in
      if (- 2 ^ 31 <=? z) && (z <? 2 ^ 31) then wrap32 z else sign_bit
  | _ => sign_bit
  end.

Definition signed (w : bits) : Z := if w <? 2 ^ 31 then w else w - 2 ^ 32.

(** CVTDQ2PS: a signed 32-bit integer to the nearest binary32. *)
Definition cvt_i32_f32 (w : bits) : bits :=
  encode (binary_normalize prec emax (signed w) 0 false).

(** *** Comparisons, producing an all-ones or an all-zeros lane *)

Definition mask_of (b : bool) : bits := if b then all_ones else 0.

(** CMPPS with its immediate: sixteen value behaviours (bit 4 of the
    immediate only selects signalling).  The kernels use 1 (LT_OS) and 4
    (NEQ_UQ), the latter being true when either operand is a NaN. *)
Definition cmp_ps (imm : Z) (a b : bits) : bits :=
  let c := SFcompare (decode a) (decode b) in
  let rel o :=
    match c with
    | Some o' => if comparison_eq_dec o o' then true else false
    | None => false
    end in
  let unord := match c with None => true | Some _ => false end in
  mask_of
    match imm mod 16 with
    | 0 => rel Eq
    | 1 => rel Lt
    | 2 => rel Lt || rel Eq
    | 3 => unord
    | 4 => negb (rel Eq)
    | 5 => negb (rel Lt)
    | 6 => negb (rel Lt || rel Eq)
    | 7 => negb unord
    | 8 => rel Eq || unord
    | 9 => rel Lt || unord
    | 10 => negb (rel Gt)
    | 11 => false
    | 12 => rel Lt || rel Gt
    | 13 => rel Gt || rel Eq
    | 14 => rel Gt
    | _ => true
    end.

(** CMPLTPS and CMPNEQPS are CMPPS with immediates 1 and 4. *)
Definition cmp_lt : bits -> bits -> bits := cmp_ps 1.
Definition cmp_neq : bits -> bits -> bits := cmp_ps 4.

(** *** C literals *)

Definition SFof_Z (p e : Z) (z : Z) : spec_float :=
  binary_normalize p e z 0 false.

(** A decimal constant [n / 10^k] without suffix has type [double];
    [n] and [10^k] are below [2^53] at every use, so the correctly rounded
    quotient is the double nearest to the decimal value. *)
Definition double_lit (n : Z) (k : Z) : spec_float :=
  SFdiv 53 1024 (SFof_Z 53 1024 n) (SFof_Z 53 1024 (10 ^ k)).

(** The conversion from [double] to [float] at a call such as
    [_mm_set1_ps(1.273239545)]. *)
Definition of_double (d : spec_float) : bits :=
  encode
    match d with
    | S754_finite s m e => binary_normalize prec emax (cond_Zopp s (Zpos m)) e false
    | _ => d
    end.

(** A constant with the [f] suffix, rounded to binary32 directly. *)
Definition float_lit (n : Z) (k : Z) : bits :=
  encode (SFdiv prec emax (SFof_Z prec emax n) (SFof_Z prec emax (10 ^ k))).

(** *** Reading a pattern *)

(** The sign bit flipped and cleared: what [-x] and [fabsf(x)] are. *)
Definition opp (a : bits) : bits := Z.lxor a sign_bit.
Definition abs (a : bits) : bits := Z.land a 0x7FFFFFFF.

(** [x < 0] as CMPLTPS decides it: false on both zeros and on a NaN. *)
Definition lt_zero (a : bits) : bool :=
  SFltb (decode a) (S754_zero false).

Definition is_nan (a : bits) : bool :=
  match decode a with
  | S754_nan => true
  | _ => false
  end.

(** The rational a pattern stands for; [None] on an infinity or a NaN. *)
Definition value (a : bits) : option Q :=
  match decode a with
  | S754_zero _ => Some (0 # 1)
  | S754_finite s m e =>
      Some (if 0 <=? e then (cond_Zopp s (Zpos m) * 2 ^ e # 1)
            else (cond_Zopp s (Zpos m) # Z.to_pos (2 ^ (- e))))
  | _ => None
  end.

(** [exactly a q]: the pattern [a] stands for the rational [q]. *)
Definition exactly (a : bits) (q : Q) : Prop :=
  match value a with
  | Some v => Qeq v q
  | None => False
  end.

(** [within a q eps]: the pattern [a] stands for a rational at most [eps]
    away from [q]. *)
Definition within (a : bits) (q eps : Q) : Prop :=
  match value a with
  | Some v => Qle (Qabs (v - q)) eps
  | None => False
  end.

Definition pos_zero : bits := 0.
Definition neg_zero : bits := 0x80000000.

End F32.
(** ** Vector registers and intrinsics

    An [__m128] or [__m128i] is a list of four lanes, an [__m256] or
    [__m256i] a list of eight; lane 0 is the element at the lowest
    address.  Each intrinsic acts on every lane alone. *)

Abbreviation vec := (list F32.bits) (only parsing).

Definition lift1 (f : F32.bits -> F32.bits) (a : vec) : vec := f <$> a.
Definition lift2 (f : F32.bits -> F32.bits -> F32.bits) (a b : vec) : vec :=
  zip_with f a b.
Definition lift3 (f : F32.bits -> F32.bits -> F32.bits -> F32.bits)
    (a b c : vec) : vec :=
  zip_with (fun g z => g z) (zip_with f a b) c.

Definition add_epi32 (a b : F32.bits) : F32.bits := F32.wrap32 (a + b).

Definition _mm_set1_ps (c : F32.bits) : vec := replicate 4 c.
Definition _mm_setzero_ps : vec := replicate 4 0.
Definition _mm_set1_epi32 (n : Z) : vec := replicate 4 (F32.wrap32 n).
Definition _mm_add_ps := lift2 F32.add.
Definition _mm_sub_ps := lift2 F32.sub.
Definition _mm_mul_ps := lift2 F32.mul.
Definition _mm_div_ps := lift2 F32.div.
Definition _mm_sqrt_ps := lift1 F32.sqrt.
Definition _mm_floor_ps := lift1 F32.floor.
Definition _mm_and_ps := lift2 Z.land.
Definition _mm_and_si128 := lift2 Z.land.
Definition _mm_add_epi32 := lift2 add_epi32.
Definition _mm_cvtps_epi32 := lift1 F32.cvt_f32_i32.
Definition _mm_cvtepi32_ps := lift1 F32.cvt_i32_f32.
Definition _mm_cmplt_ps := lift2 F32.cmp_lt.
Definition _mm_cmpneq_ps := lift2 F32.cmp_neq.

Definition _mm256_set1_ps (c : F32.bits) : vec := replicate 8 c.
Definition _mm256_setzero_ps : vec := replicate 8 0.
Definition _mm256_set1_epi32 (n : Z) : vec := replicate 8 (F32.wrap32 n).
Definition _mm256_add_ps := lift2 F32.add.
Definition _mm256_sub_ps := lift2 F32.sub.
Definition _mm256_mul_ps := lift2 F32.mul.
Definition _mm256_div_ps := lift2 F32.div.
Definition _mm256_sqrt_ps := lift1 F32.sqrt.
Definition _mm256_floor_ps := lift1 F32.floor.
Definition _mm256_and_ps := lift2 Z.land.
Definition _mm256_and_si256 := lift2 Z.land.
Definition _mm256_add_epi32 := lift2 add_epi32.
Definition _mm256_cvtps_epi32 := lift1 F32.cvt_f32_i32.
Definition _mm256_cvtepi32_ps := lift1 F32.cvt_i32_f32.
Definition _mm256_cmp_ps (a b : vec) (imm : Z) : vec := lift2 (F32.cmp_ps imm) a b.
Definition _mm256_fmadd_ps := lift3 F32.fmadd.
Definition _mm256_fmsub_ps := lift3 F32.fmsub.
Definition _mm256_fnmadd_ps := lift3 F32.fnmadd.

(** The body of a C loop [for (i = 0; i < n; i++)] that only updates
    locals. *)
Fixpoint iterate {A : Type} (n : nat) (f : A -> A) (x : A) : A :=
  match n with
  | O => x
  | S n' => iterate n' f (f x)
  end.

(** ** Memory and the kernel monad

    Memory is a list of 32-bit cells; a [float*] is a cell index (the byte
    address divided by four, cell 0 sitting on a 32-byte boundary).  A load
    or a store outside the list faults, and so does an aligned vector access
    at a misaligned address. *)

Abbreviation mem := (list F32.bits) (only parsing).
Abbreviation ptr := nat (only parsing).

Definition M (A : Type) : Type := mem -> option (A * mem).

Definition ret {A} (x : A) : M A := fun m => Some (x, m).
Definition fault {A} : M A := fun _ => None.
Definition bind {A B} (c : M A) (k : A -> M B) : M B :=
  fun m => match c m with
           | Some (x, m') => k x m'
           | None => None
           end.

Declare Scope kernel_scope.
Delimit Scope kernel_scope with kernel.
Notation "'let*' x ':=' c 'in' k" := (bind c (fun x => k))
  (at level 10, x name, c at level 100, k at level 200) : kernel_scope.
Notation "'let*' ' p ':=' c 'in' k" := (bind c (fun x => match x with p => k end))
  (at level 10, p pattern, c at level 100, k at level 200) : kernel_scope.
Notation "c ';;;' k" := (bind c (fun _ => k))
  (at level 100, k at level 200, right associativity) : kernel_scope.
Local Open Scope kernel_scope.

(** The final memory of a run, [None] after a fault. *)
Definition exec {A} (c : M A) (m : mem) : option mem := snd <$> c m.

Definition load (p : ptr) : M F32.bits :=
  fun m => match m !! p with
           | Some v => Some (v, m)
           | None => None
           end.

Definition store (p : ptr) (v : F32.bits) : M unit :=
  fun m => if decide (p < length m)%nat then Some (tt, <[p := v]> m) else None.

Definition loadv (W : nat) (p : ptr) : M vec :=
  fun m => if decide (p + W <= length m)%nat
           then Some (take W (drop p m), m) else None.

Definition storev (p : ptr) (v : vec) : M unit :=
  fun m => if decide (p + length v <= length m)%nat
           then Some (tt, list_inserts p v m) else None.

(** [aligned W p]: the address of cell [p] is a multiple of [4 * W]. *)
Definition aligned (W : nat) (p : ptr) : bool := (p mod W =? 0)%nat.

Definition _mm_loadu_ps (p : ptr) : M vec := loadv 4 p.
Definition _mm_load_ps (p : ptr) : M vec :=
  if aligned 4 p then loadv 4 p else fault.
Definition _mm_storeu_ps (p : ptr) (v : vec) : M unit := storev p v.
Definition _mm_store_ps (p : ptr) (v : vec) : M unit :=
  if aligned 4 p then storev p v else fault.
Definition _mm256_loadu_ps (p : ptr) : M vec := loadv 8 p.
Definition _mm256_load_ps (p : ptr) : M vec :=
  if aligned 8 p then loadv 8 p else fault.
Definition _mm256_storeu_ps (p : ptr) (v : vec) : M unit := storev p v.
Definition _mm256_store_ps (p : ptr) (v : vec) : M unit :=
  if aligned 8 p then storev p v else fault.

(** [for (; number < bound; number++) body], the body threading the two
    cursors [aPtr] and [bPtr].  An [unsigned int] counter is a [nat]: the
    kernels only count up to [num_points], so nothing wraps. *)
Fixpoint repeatM {S : Type} (n : nat) (body : S -> M S) (s : S) : M S :=
  match n with
  | O => ret s
  | S n' => let* s' := body s in repeatM n' body s'
  end.

Definition for_lt {S : Type} (number bound : nat) (body : S -> M S) (s : S) : M S :=
  repeatM (bound - number) body s.

(** ** The kernels *)

(** [lit n k] is the unsuffixed C constant [n * 10^-k] passed where a
    [float] is expected. *)
Definition lit (n k : Z) : F32.bits := F32.of_double (F32.double_lit n k).

(** The locals of one iteration of a vector loop, in single-assignment
    form: the C variable [s] is assigned six times and [sine] three times,
    and each assignment gets a field of its own. *)
Record locals : Type := Locals {
  l_aVal : vec;        (* the loaded lanes *)
  l_s_abs : vec;       (* s, sign stripped *)
  l_q : vec;
  l_r : vec;
  l_s_red : vec;       (* s after the two-constant reduction *)
  l_s_sq : vec;        (* s after the division by 8 and the squaring *)
  l_s_poly : vec;      (* s after the series *)
  l_s_dbl : vec;       (* s after the three doublings *)
  l_s : vec;           (* s after the division by 2 *)
  l_sine0 : vec;       (* sine = sqrt((2 - s) * s) *)
  l_cosine : vec;
  l_condition1 : vec;
  l_condition2 : vec;
  l_sine1 : vec;       (* sine after the first blend *)
  l_sine : vec         (* sine as stored *)
}.

Definition a_sse4_1_iteration (aVal : vec) : locals :=
  let m4pi := _mm_set1_ps (lit 1273239545 9) in
  let pio4A := _mm_set1_ps (lit 78515625 8) in
  let pio4B := _mm_set1_ps (lit 241876 9) in
  let ffours := _mm_set1_ps (lit 4 0) in
  let ftwos := _mm_set1_ps (lit 2 0) in
  let fones := _mm_set1_ps (lit 1 0) in
  let fzeroes := _mm_setzero_ps in
  let ones := _mm_set1_epi32 1 in
  let twos := _mm_set1_epi32 2 in
  let fours := _mm_set1_epi32 4 in
  let cp1 := _mm_set1_ps (lit 1 0) in
  let cp2 := _mm_set1_ps (lit 83333333 9) in
  let cp3 := _mm_set1_ps (lit 2777778 9) in
  let cp4 := _mm_set1_ps (lit 49603 9) in
  let cp5 := _mm_set1_ps (lit 551 9) in
  let s_abs := _mm_sub_ps aVal (_mm_and_ps (_mm_mul_ps aVal ftwos) (_mm_cmplt_ps aVal fzeroes)) in
  let q := _mm_cvtps_epi32 (_mm_floor_ps (_mm_mul_ps s_abs m4pi)) in
  let r := _mm_add_epi32 q (_mm_and_si128 q ones) in
  let s := _mm_sub_ps s_abs (_mm_mul_ps (_mm_cvtepi32_ps r) pio4A) in
  let s_red := _mm_sub_ps s (_mm_mul_ps (_mm_cvtepi32_ps r) pio4B) in
  let s := _mm_div_ps s_red (_mm_set1_ps (lit 8 0)) in
  let s_sq := _mm_mul_ps s s in
  let s_poly := _mm_mul_ps (_mm_add_ps (_mm_mul_ps (_mm_sub_ps (_mm_mul_ps (_mm_add_ps (_mm_mul_ps (_mm_sub_ps (_mm_mul_ps s_sq cp5) cp4) s_sq) cp3) s_sq) cp2) s_sq) cp1) s_sq in
  let s_dbl := iterate 3 (fun s => _mm_mul_ps s (_mm_sub_ps ffours s)) s_poly in
  let s := _mm_div_ps s_dbl ftwos in
  let sine0 := _mm_sqrt_ps (_mm_mul_ps (_mm_sub_ps ftwos s) s) in
  let cosine := _mm_sub_ps fones s in
  let condition1 := _mm_cmpneq_ps (_mm_cvtepi32_ps (_mm_and_si128 (_mm_add_epi32 q ones) twos)) fzeroes in
  let condition2 := _mm_cmpneq_ps (_mm_cmpneq_ps (_mm_cvtepi32_ps (_mm_and_si128 q fours)) fzeroes) (_mm_cmplt_ps aVal fzeroes) in
  let sine1 := _mm_add_ps sine0 (_mm_and_ps (_mm_sub_ps cosine sine0) condition1) in
  let sine := _mm_sub_ps sine1 (_mm_and_ps (_mm_mul_ps sine1 (_mm_set1_ps (F32.float_lit 2 0))) condition2) in
  Locals aVal s_abs q r s_red s_sq s_poly s_dbl s sine0 cosine
         condition1 condition2 sine1 sine.

Definition u_sse4_1_iteration (aVal : vec) : locals :=
  let m4pi := _mm_set1_ps (lit 1273239545 9) in
  let pio4A := _mm_set1_ps (lit 78515625 8) in
  let pio4B := _mm_set1_ps (lit 241876 9) in
  let ffours := _mm_set1_ps (lit 4 0) in
  let ftwos := _mm_set1_ps (lit 2 0) in
  let fones := _mm_set1_ps (lit 1 0) in
  let fzeroes := _mm_setzero_ps in
  let ones := _mm_set1_epi32 1 in
  let twos := _mm_set1_epi32 2 in
  let fours := _mm_set1_epi32 4 in
  let cp1 := _mm_set1_ps (lit 1 0) in
  let cp2 := _mm_set1_ps (lit 83333333 9) in
  let cp3 := _mm_set1_ps (lit 2777778 9) in
  let cp4 := _mm_set1_ps (lit 49603 9) in
  let cp5 := _mm_set1_ps (lit 551 9) in
  let s_abs := _mm_sub_ps aVal (_mm_and_ps (_mm_mul_ps aVal ftwos) (_mm_cmplt_ps aVal fzeroes)) in
  let q := _mm_cvtps_epi32 (_mm_floor_ps (_mm_mul_ps s_abs m4pi)) in
  let r := _mm_add_epi32 q (_mm_and_si128 q ones) in
  let s := _mm_sub_ps s_abs (_mm_mul_ps (_mm_cvtepi32_ps r) pio4A) in
  let s_red := _mm_sub_ps s (_mm_mul_ps (_mm_cvtepi32_ps r) pio4B) in
  let s := _mm_div_ps s_red (_mm_set1_ps (lit 8 0)) in
  let s_sq := _mm_mul_ps s s in
  let s_poly := _mm_mul_ps (_mm_add_ps (_mm_mul_ps (_mm_sub_ps (_mm_mul_ps (_mm_add_ps (_mm_mul_ps (_mm_sub_ps (_mm_mul_ps s_sq cp5) cp4) s_sq) cp3) s_sq) cp2) s_sq) cp1) s_sq in
  let s_dbl := iterate 3 (fun s => _mm_mul_ps s (_mm_sub_ps ffours s)) s_poly in
  let s := _mm_div_ps s_dbl ftwos in
  let sine0 := _mm_sqrt_ps (_mm_mul_ps (_mm_sub_ps ftwos s) s) in
  let cosine := _mm_sub_ps fones s in
  let condition1 := _mm_cmpneq_ps (_mm_cvtepi32_ps (_mm_and_si128 (_mm_add_epi32 q ones) twos)) fzeroes in
  let condition2 := _mm_cmpneq_ps (_mm_cmpneq_ps (_mm_cvtepi32_ps (_mm_and_si128 q fours)) fzeroes) (_mm_cmplt_ps aVal fzeroes) in
  let sine1 := _mm_add_ps sine0 (_mm_and_ps (_mm_sub_ps cosine sine0) condition1) in
  let sine := _mm_sub_ps sine1 (_mm_and_ps (_mm_mul_ps sine1 (_mm_set1_ps (F32.float_lit 2 0))) condition2) in
  Locals aVal s_abs q r s_red s_sq s_poly s_dbl s sine0 cosine
         condition1 condition2 sine1 sine.

Definition a_avx2_iteration (aVal : vec) : locals :=
  let m4pi := _mm256_set1_ps (lit 1273239545 9) in
  let pio4A := _mm256_set1_ps (lit 78515625 8) in
  let pio4B := _mm256_set1_ps (lit 241876 9) in
  let ffours := _mm256_set1_ps (lit 4 0) in
  let ftwos := _mm256_set1_ps (lit 2 0) in
  let fones := _mm256_set1_ps (lit 1 0) in
  let fzeroes := _mm256_setzero_ps in
  let ones := _mm256_set1_epi32 1 in
  let twos := _mm256_set1_epi32 2 in
  let fours := _mm256_set1_epi32 4 in
  let cp1 := _mm256_set1_ps (lit 1 0) in
  let cp2 := _mm256_set1_ps (lit 83333333 9) in
  let cp3 := _mm256_set1_ps (lit 2777778 9) in
  let cp4 := _mm256_set1_ps (lit 49603 9) in
  let cp5 := _mm256_set1_ps (lit 551 9) in
  let s_abs := _mm256_sub_ps aVal (_mm256_and_ps (_mm256_mul_ps aVal ftwos) (_mm256_cmp_ps aVal fzeroes 1)) in
  let q := _mm256_cvtps_epi32 (_mm256_floor_ps (_mm256_mul_ps s_abs m4pi)) in
  let r := _mm256_add_epi32 q (_mm256_and_si256 q ones) in
  let s := _mm256_sub_ps s_abs (_mm256_mul_ps (_mm256_cvtepi32_ps r) pio4A) in
  let s_red := _mm256_sub_ps s (_mm256_mul_ps (_mm256_cvtepi32_ps r) pio4B) in
  let s := _mm256_div_ps s_red (_mm256_set1_ps (lit 8 0)) in
  let s_sq := _mm256_mul_ps s s in
  let s_poly := _mm256_mul_ps (_mm256_add_ps (_mm256_mul_ps (_mm256_sub_ps (_mm256_mul_ps (_mm256_add_ps (_mm256_mul_ps (_mm256_sub_ps (_mm256_mul_ps s_sq cp5) cp4) s_sq) cp3) s_sq) cp2) s_sq) cp1) s_sq in
  let s_dbl := iterate 3 (fun s => _mm256_mul_ps s (_mm256_sub_ps ffours s)) s_poly in
  let s := _mm256_div_ps s_dbl ftwos in
  let sine0 := _mm256_sqrt_ps (_mm256_mul_ps (_mm256_sub_ps ftwos s) s) in
  let cosine := _mm256_sub_ps fones s in
  let condition1 := _mm256_cmp_ps (_mm256_cvtepi32_ps (_mm256_and_si256 (_mm256_add_epi32 q ones) twos)) fzeroes 4 in
  let condition2 := _mm256_cmp_ps (_mm256_cmp_ps (_mm256_cvtepi32_ps (_mm256_and_si256 q fours)) fzeroes 4) (_mm256_cmp_ps aVal fzeroes 1) 4 in
  let sine1 := _mm256_add_ps sine0 (_mm256_and_ps (_mm256_sub_ps cosine sine0) condition1) in
  let sine := _mm256_sub_ps sine1 (_mm256_and_ps (_mm256_mul_ps sine1 (_mm256_set1_ps (F32.float_lit 2 0))) condition2) in
  Locals aVal s_abs q r s_red s_sq s_poly s_dbl s sine0 cosine
         condition1 condition2 sine1 sine.

Definition u_avx2_iteration (aVal : vec) : locals :=
  let m4pi := _mm256_set1_ps (lit 1273239545 9) in
  let pio4A := _mm256_set1_ps (lit 78515625 8) in
  let pio4B := _mm256_set1_ps (lit 241876 9) in
  let ffours := _mm256_set1_ps (lit 4 0) in
  let ftwos := _mm256_set1_ps (lit 2 0) in
  let fones := _mm256_set1_ps (lit 1 0) in
  let fzeroes := _mm256_setzero_ps in
  let ones := _mm256_set1_epi32 1 in
  let twos := _mm256_set1_epi32 2 in
  let fours := _mm256_set1_epi32 4 in
  let cp1 := _mm256_set1_ps (lit 1 0) in
  let cp2 := _mm256_set1_ps (lit 83333333 9) in
  let cp3 := _mm256_set1_ps (lit 2777778 9) in
  let cp4 := _mm256_set1_ps (lit 49603 9) in
  let cp5 := _mm256_set1_ps (lit 551 9) in
  let s_abs := _mm256_sub_ps aVal (_mm256_and_ps (_mm256_mul_ps aVal ftwos) (_mm256_cmp_ps aVal fzeroes 1)) in
  let q := _mm256_cvtps_epi32 (_mm256_floor_ps (_mm256_mul_ps s_abs m4pi)) in
  let r := _mm256_add_epi32 q (_mm256_and_si256 q ones) in
  let s := _mm256_sub_ps s_abs (_mm256_mul_ps (_mm256_cvtepi32_ps r) pio4A) in
  let s_red := _mm256_sub_ps s (_mm256_mul_ps (_mm256_cvtepi32_ps r) pio4B) in
  let s := _mm256_div_ps s_red (_mm256_set1_ps (lit 8 0)) in
  let s_sq := _mm256_mul_ps s s in
  let s_poly := _mm256_mul_ps (_mm256_add_ps (_mm256_mul_ps (_mm256_sub_ps (_mm256_mul_ps (_mm256_add_ps (_mm256_mul_ps (_mm256_sub_ps (_mm256_mul_ps s_sq cp5) cp4) s_sq) cp3) s_sq) cp2) s_sq) cp1) s_sq in
  let s_dbl := iterate 3 (fun s => _mm256_mul_ps s (_mm256_sub_ps ffours s)) s_poly in
  let s := _mm256_div_ps s_dbl ftwos in
  let sine0 := _mm256_sqrt_ps (_mm256_mul_ps (_mm256_sub_ps ftwos s) s) in
  let cosine := _mm256_sub_ps fones s in
  let condition1 := _mm256_cmp_ps (_mm256_cvtepi32_ps (_mm256_and_si256 (_mm256_add_epi32 q ones) twos)) fzeroes 4 in
  let condition2 := _mm256_cmp_ps (_mm256_cmp_ps (_mm256_cvtepi32_ps (_mm256_and_si256 q fours)) fzeroes 4) (_mm256_cmp_ps aVal fzeroes 1) 4 in
  let sine1 := _mm256_add_ps sine0 (_mm256_and_ps (_mm256_sub_ps cosine sine0) condition1) in
  let sine := _mm256_sub_ps sine1 (_mm256_and_ps (_mm256_mul_ps sine1 (_mm256_set1_ps (F32.float_lit 2 0))) condition2) in
  Locals aVal s_abs q r s_red s_sq s_poly s_dbl s sine0 cosine
         condition1 condition2 sine1 sine.

Definition a_avx2_fma_iteration (aVal : vec) : locals :=
  let m4pi := _mm256_set1_ps (lit 1273239545 9) in
  let pio4A := _mm256_set1_ps (lit 78515625 8) in
  let pio4B := _mm256_set1_ps (lit 241876 9) in
  let ffours := _mm256_set1_ps (lit 4 0) in
  let ftwos := _mm256_set1_ps (lit 2 0) in
  let fones := _mm256_set1_ps (lit 1 0) in
  let fzeroes := _mm256_setzero_ps in
  let ones := _mm256_set1_epi32 1 in
  let twos := _mm256_set1_epi32 2 in
  let fours := _mm256_set1_epi32 4 in
  let cp1 := _mm256_set1_ps (lit 1 0) in
  let cp2 := _mm256_set1_ps (lit 83333333 9) in
  let cp3 := _mm256_set1_ps (lit 2777778 9) in
  let cp4 := _mm256_set1_ps (lit 49603 9) in
  let cp5 := _mm256_set1_ps (lit 551 9) in
  let s_abs := _mm256_sub_ps aVal (_mm256_and_ps (_mm256_mul_ps aVal ftwos) (_mm256_cmp_ps aVal fzeroes 1)) in
  let q := _mm256_cvtps_epi32 (_mm256_floor_ps (_mm256_mul_ps s_abs m4pi)) in
  let r := _mm256_add_epi32 q (_mm256_and_si256 q ones) in
  let s := _mm256_fnmadd_ps (_mm256_cvtepi32_ps r) pio4A s_abs in
  let s_red := _mm256_fnmadd_ps (_mm256_cvtepi32_ps r) pio4B s in
  let s := _mm256_div_ps s_red (_mm256_set1_ps (lit 8 0)) in
  let s_sq := _mm256_mul_ps s s in
  let s_poly := _mm256_mul_ps (_mm256_fmadd_ps (_mm256_fmsub_ps (_mm256_fmadd_ps (_mm256_fmsub_ps s_sq cp5 cp4) s_sq cp3) s_sq cp2) s_sq cp1) s_sq in
  let s_dbl := iterate 3 (fun s => _mm256_mul_ps s (_mm256_sub_ps ffours s)) s_poly in
  let s := _mm256_div_ps s_dbl ftwos in
  let sine0 := _mm256_sqrt_ps (_mm256_mul_ps (_mm256_sub_ps ftwos s) s) in
  let cosine := _mm256_sub_ps fones s in
  let condition1 := _mm256_cmp_ps (_mm256_cvtepi32_ps (_mm256_and_si256 (_mm256_add_epi32 q ones) twos)) fzeroes 4 in
  let condition2 := _mm256_cmp_ps (_mm256_cmp_ps (_mm256_cvtepi32_ps (_mm256_and_si256 q fours)) fzeroes 4) (_mm256_cmp_ps aVal fzeroes 1) 4 in
  let sine1 := _mm256_add_ps sine0 (_mm256_and_ps (_mm256_sub_ps cosine sine0) condition1) in
  let sine := _mm256_sub_ps sine1 (_mm256_and_ps (_mm256_mul_ps sine1 (_mm256_set1_ps (F32.float_lit 2 0))) condition2) in
  Locals aVal s_abs q r s_red s_sq s_poly s_dbl s sine0 cosine
         condition1 condition2 sine1 sine.

Definition u_avx2_fma_iteration (aVal : vec) : locals :=
  let m4pi := _mm256_set1_ps (lit 1273239545 9) in
  let pio4A := _mm256_set1_ps (lit 78515625 8) in
  let pio4B := _mm256_set1_ps (lit 241876 9) in
  let ffours := _mm256_set1_ps (lit 4 0) in
  let ftwos := _mm256_set1_ps (lit 2 0) in
  let fones := _mm256_set1_ps (lit 1 0) in
  let fzeroes := _mm256_setzero_ps in
  let ones := _mm256_set1_epi32 1 in
  let twos := _mm256_set1_epi32 2 in
  let fours := _mm256_set1_epi32 4 in
  let cp1 := _mm256_set1_ps (lit 1 0) in
  let cp2 := _mm256_set1_ps (lit 83333333 9) in
  let cp3 := _mm256_set1_ps (lit 2777778 9) in
  let cp4 := _mm256_set1_ps (lit 49603 9) in
  let cp5 := _mm256_set1_ps (lit 551 9) in
  let s_abs := _mm256_sub_ps aVal (_mm256_and_ps (_mm256_mul_ps aVal ftwos) (_mm256_cmp_ps aVal fzeroes 1)) in
  let q := _mm256_cvtps_epi32 (_mm256_floor_ps (_mm256_mul_ps s_abs m4pi)) in
  let r := _mm256_add_epi32 q (_mm256_and_si256 q ones) in
  let s := _mm256_fnmadd_ps (_mm256_cvtepi32_ps r) pio4A s_abs in
  let s_red := _mm256_fnmadd_ps (_mm256_cvtepi32_ps r) pio4B s in
  let s := _mm256_div_ps s_red (_mm256_set1_ps (lit 8 0)) in
  let s_sq := _mm256_mul_ps s s in
  let s_poly := _mm256_mul_ps (_mm256_fmadd_ps (_mm256_fmsub_ps (_mm256_fmadd_ps (_mm256_fmsub_ps s_sq cp5 cp4) s_sq cp3) s_sq cp2) s_sq cp1) s_sq in
  let s_dbl := iterate 3 (fun s => _mm256_mul_ps s (_mm256_sub_ps ffours s)) s_poly in
  let s := _mm256_div_ps s_dbl ftwos in
  let sine0 := _mm256_sqrt_ps (_mm256_mul_ps (_mm256_sub_ps ftwos s) s) in
  let cosine := _mm256_sub_ps fones s in
  let condition1 := _mm256_cmp_ps (_mm256_cvtepi32_ps (_mm256_and_si256 (_mm256_add_epi32 q ones) twos)) fzeroes 4 in
  let condition2 := _mm256_cmp_ps (_mm256_cmp_ps (_mm256_cvtepi32_ps (_mm256_and_si256 q fours)) fzeroes 4) (_mm256_cmp_ps aVal fzeroes 1) 4 in
  let sine1 := _mm256_add_ps sine0 (_mm256_and_ps (_mm256_sub_ps cosine sine0) condition1) in
  let sine := _mm256_sub_ps sine1 (_mm256_and_ps (_mm256_mul_ps sine1 (_mm256_set1_ps (F32.float_lit 2 0))) condition2) in
  Locals aVal s_abs q r s_red s_sq s_poly s_dbl s sine0 cosine
         condition1 condition2 sine1 sine.

Section Kernels.

(** The C library's sine as the kernels call it: [sin] is the [double]
    function of [<math.h>], applied to a [float] promoted to [double], and
    its result is converted back at the assignment to [*bPtr].  The
    library is not part of the repository, so the composite is a
    parameter. *)
Variable sin : F32.bits -> F32.bits.

(** [*bPtr++ = sin( *aPtr++ )]. *)
Definition scalar_step '((aPtr, bPtr) : ptr * ptr) : M (ptr * ptr) :=
  let* x := load aPtr in
  store bPtr (sin x) ;;;
  ret (S aPtr, S bPtr).

Definition volk_32f_sin_32f_generic (bVector aVector : ptr) (num_points : nat) : M unit :=
  let bPtr := bVector in
  let aPtr := aVector in
  let number := 0%nat in
  let* _ := for_lt number num_points scalar_step (aPtr, bPtr) in
  ret tt.

Definition volk_32f_sin_32f_a_sse4_1 (bVector aVector : ptr) (num_points : nat) : M unit :=
  let bPtr := bVector in
  let aPtr := aVector in
  let number := 0%nat in
  let quarterPoints := (num_points / 4)%nat in
  let* '(aPtr, bPtr) :=
    for_lt number quarterPoints (fun '(aPtr, bPtr) =>
      let* aVal := _mm_load_ps aPtr in
      _mm_store_ps bPtr (l_sine (a_sse4_1_iteration aVal)) ;;;
      ret ((aPtr + 4)%nat, (bPtr + 4)%nat)) (aPtr, bPtr) in
  let number := (quarterPoints * 4)%nat in
  let* _ := for_lt number num_points scalar_step (aPtr, bPtr) in
  ret tt.

Definition volk_32f_sin_32f_u_sse4_1 (bVector aVector : ptr) (num_points : nat) : M unit :=
  let bPtr := bVector in
  let aPtr := aVector in
  let number := 0%nat in
  let quarterPoints := (num_points / 4)%nat in
  let* '(aPtr, bPtr) :=
    for_lt number quarterPoints (fun '(aPtr, bPtr) =>
      let* aVal := _mm_loadu_ps aPtr in
      _mm_storeu_ps bPtr (l_sine (u_sse4_1_iteration aVal)) ;;;
      ret ((aPtr + 4)%nat, (bPtr + 4)%nat)) (aPtr, bPtr) in
  let number := (quarterPoints * 4)%nat in
  let* _ := for_lt number num_points scalar_step (aPtr, bPtr) in
  ret tt.

Definition volk_32f_sin_32f_a_avx2 (bVector aVector : ptr) (num_points : nat) : M unit :=
  let bPtr := bVector in
  let aPtr := aVector in
  let number := 0%nat in
  let eighthPoints := (num_points / 8)%nat in
  let* '(aPtr, bPtr) :=
    for_lt number eighthPoints (fun '(aPtr, bPtr) =>
      let* aVal := _mm256_load_ps aPtr in
      _mm256_store_ps bPtr (l_sine (a_avx2_iteration aVal)) ;;;
      ret ((aPtr + 8)%nat, (bPtr + 8)%nat)) (aPtr, bPtr) in
  let number := (eighthPoints * 8)%nat in
  let* _ := for_lt number num_points scalar_step (aPtr, bPtr) in
  ret tt.

Definition volk_32f_sin_32f_u_avx2 (bVector aVector : ptr) (num_points : nat) : M unit :=
  let bPtr := bVector in
  let aPtr := aVector in
  let number := 0%nat in
  let eighthPoints := (num_points / 8)%nat in
  let* '(aPtr, bPtr) :=
    for_lt number eighthPoints (fun '(aPtr, bPtr) =>
      let* aVal := _mm256_loadu_ps aPtr in
      _mm256_storeu_ps bPtr (l_sine (u_avx2_iteration aVal)) ;;;
      ret ((aPtr + 8)%nat, (bPtr + 8)%nat)) (aPtr, bPtr) in
  let number := (eighthPoints * 8)%nat in
  let* _ := for_lt number num_points scalar_step (aPtr, bPtr) in
  ret tt.

Definition volk_32f_sin_32f_a_avx2_fma (bVector aVector : ptr) (num_points : nat) : M unit :=
  let bPtr := bVector in
  let aPtr := aVector in
  let number := 0%nat in
  let eighthPoints := (num_points / 8)%nat in
  let* '(aPtr, bPtr) :=
    for_lt number eighthPoints (fun '(aPtr, bPtr) =>
      let* aVal := _mm256_load_ps aPtr in
      _mm256_store_ps bPtr (l_sine (a_avx2_fma_iteration aVal)) ;;;
      ret ((aPtr + 8)%nat, (bPtr + 8)%nat)) (aPtr, bPtr) in
  let number := (eighthPoints * 8)%nat in
  let* _ := for_lt number num_points scalar_step (aPtr, bPtr) in
  ret tt.

Definition volk_32f_sin_32f_u_avx2_fma (bVector aVector : ptr) (num_points : nat) : M unit :=
  let bPtr := bVector in
  let aPtr := aVector in
  let number := 0%nat in
  let eighthPoints := (num_points / 8)%nat in
  let* '(aPtr, bPtr) :=
    for_lt number eighthPoints (fun '(aPtr, bPtr) =>
      let* aVal := _mm256_loadu_ps aPtr in
      _mm256_storeu_ps bPtr (l_sine (u_avx2_fma_iteration aVal)) ;;;
      ret ((aPtr + 8)%nat, (bPtr + 8)%nat)) (aPtr, bPtr) in
  let number := (eighthPoints * 8)%nat in
  let* _ := for_lt number num_points scalar_step (aPtr, bPtr) in
  ret tt.

End Kernels.

(** The six vector kernels, their lane count and whether they fuse
    multiplications with additions. *)
Inductive variant : Type :=
  | a_sse4_1 | u_sse4_1 | a_avx2 | u_avx2 | a_avx2_fma | u_avx2_fma.

Definition width (v : variant) : nat :=
  match v with
  | a_sse4_1 | u_sse4_1 => 4%nat
  | _ => 8%nat
  end.

Definition fused (v : variant) : bool :=
  match v with
  | a_avx2_fma | u_avx2_fma => true
  | _ => false
  end.

Definition needs_alignment (v : variant) : bool :=
  match v with
  | a_sse4_1 | a_avx2 | a_avx2_fma => true
  | _ => false
  end.

Definition iteration (v : variant) : vec -> locals :=
  match v with
  | a_sse4_1 => a_sse4_1_iteration
  | u_sse4_1 => u_sse4_1_iteration
  | a_avx2 => a_avx2_iteration
  | u_avx2 => u_avx2_iteration
  | a_avx2_fma => a_avx2_fma_iteration
  | u_avx2_fma => u_avx2_fma_iteration
  end.

Definition kernel (sin : F32.bits -> F32.bits) (v : variant) : ptr -> ptr -> nat -> M unit :=
  match v with
  | a_sse4_1 => volk_32f_sin_32f_a_sse4_1 sin
  | u_sse4_1 => volk_32f_sin_32f_u_sse4_1 sin
  | a_avx2 => volk_32f_sin_32f_a_avx2 sin
  | u_avx2 => volk_32f_sin_32f_u_avx2 sin
  | a_avx2_fma => volk_32f_sin_32f_a_avx2_fma sin
  | u_avx2_fma => volk_32f_sin_32f_u_avx2_fma sin
  end.


(** ** One lane of a vector iteration

  The constants of the kernels and the steps of an iteration as they act
  on a single lane.  [Lane.run] collects the value of every local of the
  lane; [iteration_lanes] below proves that a vector iteration is [Lane.run]
  on each of its lanes. *)

Module Lane.

Definition m4pi : F32.bits := lit 1273239545 9.    (* 1.273239545 *)
Definition pio4A : F32.bits := lit 78515625 8.     (* 0.78515625 *)
Definition pio4B : F32.bits := lit 241876 9.       (* 0.241876e-3 *)
Definition cp1 : F32.bits := lit 1 0.              (* 1.0 *)
Definition cp2 : F32.bits := lit 83333333 9.       (* 0.83333333e-1 *)
Definition cp3 : F32.bits := lit 2777778 9.        (* 0.2777778e-2 *)
Definition cp4 : F32.bits := lit 49603 9.          (* 0.49603e-4 *)
Definition cp5 : F32.bits := lit 551 9.            (* 0.551e-6 *)
Definition zero : F32.bits := 0.
Definition one : F32.bits := lit 1 0.
Definition two : F32.bits := lit 2 0.
Definition four : F32.bits := lit 4 0.
Definition eight : F32.bits := lit 8 0.
Definition two_f : F32.bits := F32.float_lit 2 0.  (* 2.0f *)

(** Line 268: [x - ((x * 2) & (x < 0))]. *)
Definition strip_sign (x : F32.bits) : F32.bits :=
  F32.sub x (Z.land (F32.mul x two) (F32.cmp_lt x zero)).

Definition floor_index (a : F32.bits) : F32.bits :=
  F32.cvt_f32_i32 (F32.floor (F32.mul a m4pi)).

Definition odd_round (q : F32.bits) : F32.bits :=
  add_epi32 q (Z.land q (F32.wrap32 1)).

(** [s - q * c], with one rounding when fused and two otherwise. *)
Definition mul_sub (fma : bool) (s q c : F32.bits) : F32.bits :=
  if fma then F32.fnmadd q c s else F32.sub s (F32.mul q c).

Definition reduce (fma : bool) (a r : F32.bits) : F32.bits :=
  mul_sub fma (mul_sub fma a (F32.cvt_i32_f32 r) pio4A) (F32.cvt_i32_f32 r) pio4B.

Definition eighth_squared (s : F32.bits) : F32.bits :=
  F32.mul (F32.div s eight) (F32.div s eight).

(** [((((u*cp5 - cp4)*u + cp3)*u - cp2)*u + cp1)*u]. *)
Definition series (fma : bool) (u : F32.bits) : F32.bits :=
  if fma then
    F32.mul (F32.fmadd (F32.fmsub (F32.fmadd (F32.fmsub u cp5 cp4) u cp3) u cp2) u cp1) u
  else
    F32.mul (F32.add (F32.mul (F32.sub (F32.mul (F32.add (F32.mul
      (F32.sub (F32.mul u cp5) cp4) u) cp3) u) cp2) u) cp1) u.

Definition double_angle (t : F32.bits) : F32.bits :=
  F32.mul t (F32.sub four t).

Definition sine_reduced (t : F32.bits) : F32.bits :=
  F32.sqrt (F32.mul (F32.sub two t) t).

Definition cosine_reduced (t : F32.bits) : F32.bits := F32.sub one t.

(** [condition1]: bit 1 of [q + 1], tested as a float against zero. *)
Definition swap_mask (q : F32.bits) : F32.bits :=
  F32.cmp_neq
    (F32.cvt_i32_f32 (Z.land (add_epi32 q (F32.wrap32 1)) (F32.wrap32 2))) zero.

(** [condition2]: the two masks are compared as floats. *)
Definition negate_mask (q x : F32.bits) : F32.bits :=
  F32.cmp_neq
    (F32.cmp_neq (F32.cvt_i32_f32 (Z.land q (F32.wrap32 4))) zero)
    (F32.cmp_lt x zero).

Definition blend (s c mask : F32.bits) : F32.bits :=
  F32.add s (Z.land (F32.sub c s) mask).

Definition negate_under (v mask : F32.bits) : F32.bits :=
  F32.sub v (Z.land (F32.mul v two_f) mask).

Record t : Type := Build {
  aVal : F32.bits; s_abs : F32.bits; q : F32.bits; r : F32.bits;
  s_red : F32.bits; s_sq : F32.bits; s_poly : F32.bits; s_dbl : F32.bits;
  s : F32.bits; sine0 : F32.bits; cosine : F32.bits;
  condition1 : F32.bits; condition2 : F32.bits;
  sine1 : F32.bits; sine : F32.bits
}.

Definition run (fma : bool) (x : F32.bits) : t :=
  let a := strip_sign x in
  let q := floor_index a in
  let r := odd_round q in
  let s_red := reduce fma a r in
  let u := eighth_squared s_red in
  let p := series fma u in
  let d := iterate 3 double_angle p in
  let t := F32.div d two in
  let s0 := sine_reduced t in
  let c := cosine_reduced t in
  let c1 := swap_mask q in
  let c2 := negate_mask q x in
  let s1 := blend s0 c c1 in
  Build x a q r s_red u p d t s0 c c1 c2 s1 (negate_under s1 c2).

Definition gather (ls : list t) : locals :=
  Locals (aVal <$> ls) (s_abs <$> ls) (q <$> ls) (r <$> ls) (s_red <$> ls)
         (s_sq <$> ls) (s_poly <$> ls) (s_dbl <$> ls) (s <$> ls)
         (sine0 <$> ls) (cosine <$> ls) (condition1 <$> ls)
         (condition2 <$> ls) (sine1 <$> ls) (sine <$> ls).

End Lane.


(** ** The common shape of the vector kernels

    Every vector kernel is a loop over [num_points / W] groups of [W] lanes
    followed by the scalar loop over what is left; the aligned kernels check
    the two addresses of each group. *)

Definition vector_step (W : nat) (chk : bool) (f : vec -> vec)
    '((aPtr, bPtr) : ptr * ptr) : M (ptr * ptr) :=
  let* aVal := (if chk then (if aligned W aPtr then loadv W aPtr else fault)
                else loadv W aPtr) in
  (if chk then (if aligned W bPtr then storev bPtr (f aVal) else fault)
   else storev bPtr (f aVal)) ;;;
  ret ((aPtr + W)%nat, (bPtr + W)%nat).

Definition vector_kernel (sin : F32.bits -> F32.bits) (W : nat) (chk : bool)
    (f : vec -> vec) (bVector aVector : ptr) (num_points : nat) : M unit :=
  let* '(aPtr, bPtr) :=
    for_lt 0 (num_points / W) (vector_step W chk f) (aVector, bVector) in
  let* _ := for_lt (num_points / W * W) num_points (scalar_step sin) (aPtr, bPtr) in
  ret tt.


(** ** Preconditions of a call

    The buffers lie inside memory; the output does not start inside the
    part of the input that is still to be read (it may coincide with the
    input, or lie below or beyond it); an aligned kernel is given aligned
    addresses. *)

Definition in_bounds (m : mem) (bVector aVector : ptr) (num_points : nat) : Prop :=
  (aVector + num_points <= length m)%nat /\ (bVector + num_points <= length m)%nat.

Definition no_overlap (bVector aVector : ptr) (num_points : nat) : Prop :=
  (bVector <= aVector)%nat \/ (aVector + num_points <= bVector)%nat.

Definition alignment_ok (v : variant) (bVector aVector : ptr) : Prop :=
  needs_alignment v = true ->
  aligned (width v) aVector = true /\ aligned (width v) bVector = true.

(** The unaligned entry point of the same instruction set. *)
Definition unaligned (v : variant) : variant :=
  match v with
  | a_sse4_1 | u_sse4_1 => u_sse4_1
  | a_avx2 | u_avx2 => u_avx2
  | a_avx2_fma | u_avx2_fma => u_avx2_fma
  end.

(** ** The series as the specification words it

    "Evaluate a fixed-coefficient degree-5 polynomial in [s²] via nested
    multiply-adds (Horner form) with literal coefficients [{1, 0.0833333,
    0.0027778, 0.0000496, 0.000000551}]", then "multiply the polynomial
    result by [s²]": every step an addition, the constants as printed. *)

Module Claimed.

Definition cp1 : F32.bits := lit 1 0.           (* 1 *)
Definition cp2 : F32.bits := lit 833333 7.      (* 0.0833333 *)
Definition cp3 : F32.bits := lit 27778 7.       (* 0.0027778 *)
Definition cp4 : F32.bits := lit 496 7.         (* 0.0000496 *)
Definition cp5 : F32.bits := lit 551 9.         (* 0.000000551 *)

Definition series (fma : bool) (u : F32.bits) : F32.bits :=
  if fma then
    F32.mul (F32.fmadd (F32.fmadd (F32.fmadd (F32.fmadd u cp5 cp4) u cp3) u cp2) u cp1) u
  else
    F32.mul (F32.add (F32.mul (F32.add (F32.mul (F32.add (F32.mul
      (F32.add (F32.mul u cp5) cp4) u) cp3) u) cp2) u) cp1) u.

End Claimed.

(** ** Sample data for the examples *)

(** Any function can stand for the library's sine in an example run; the
    identity, the first term of the sine series, maps each zero to itself
    as a conforming [sin] does. *)
Definition sample_sin : F32.bits -> F32.bits := fun x => x.

Definition f_one : F32.bits := 0x3F800000.           (* 1.0f *)
Definition f_minus_five : F32.bits := 0xC0A00000.    (* -5.0f *)
Definition f_five : F32.bits := 0x40A00000.          (* 5.0f *)
Definition f_1_22 : F32.bits := 0x3F9C28F6.          (* 1.22f *)
Definition f_2_5 : F32.bits := 0x40200000.           (* 2.5f *)
Definition f_huge_negative : F32.bits := 0xFF000000. (* -2^127 *)

(** Sixteen cells: eight inputs at cell 0, eight outputs at cell 8. *)
Definition sample_mem : mem :=
  [f_one; f_minus_five; F32.neg_zero; f_1_22; f_2_5; f_five; f_one; f_2_5;
   0; 0; 0; 0; 0; 0; 0; 0].

(** ** Orders of magnitude

    [SFat_least k f]: [f] is plus infinity or a positive normal number with
    exponent at least [k], that is a number of at least [2^(k+23)]. *)

Definition SFat_least (k : Z) (f : spec_float) : bool :=
  match f with
  | S754_infinity false => true
  | S754_finite false m e =>
      (Zpos (digits2_pos m) =? 24) && (k <=? e) && (e <=? 104)
  | _ => false
  end.

Definition at_least (k : Z) (w : F32.bits) : bool := SFat_least k (F32.decode w).

(** A finite result as the operations give it: [e] checked against the
    largest exponent. *)
Definition finite_or_infinity (m : positive) (e : Z) : spec_float :=
  if e <=? 104 then S754_finite false m e else S754_infinity false.

(** ** The octants of the first periods

    The non-negative patterns from the first binary32 above [pi/4] on, cut
    into runs of consecutive patterns of one binade; each run is listed as
    its first pattern, its last pattern and the octant of its angles. *)
Definition octant_runs : list (Z * Z * Z) :=
  [ (0x3F490FDB, 0x3F490FDB, 1);
    (0x3F490FDC, 0x3F7FFFFF, 1);
    (0x3F800000, 0x3FC90FDA, 1);
    (0x3FC90FDB, 0x3FC90FDB, 2);
    (0x3FC90FDC, 0x3FFFFFFF, 2);
    (0x40000000, 0x4016CBE3, 2);
    (0x4016CBE4, 0x4016CBE4, 3);
    (0x4016CBE5, 0x40490FDA, 3);
    (0x40490FDB, 0x40490FDB, 4);
    (0x40490FDC, 0x407B53D0, 4);
    (0x407B53D1, 0x407B53D1, 4);
    (0x407B53D2, 0x407FFFFF, 5);
    (0x40800000, 0x4096CBE3, 5);
    (0x4096CBE4, 0x4096CBE4, 6);
    (0x4096CBE5, 0x40AFEDDE, 6);
    (0x40AFEDDF, 0x40AFEDDF, 6);
    (0x40AFEDE0, 0x40C90FDA, 7);
    (0x40C90FDB, 0x40C90FDB, 8);
    (0x40C90FDC, 0x40E231D4, 8);
    (0x40E231D5, 0x40E231D5, 8);
    (0x40E231D6, 0x40E231D6, 9);
    (0x40E231D7, 0x40FB53D0, 9);
    (0x40FB53D1, 0x40FB53D1, 9);
    (0x40FB53D2, 0x40FFFFFF, 10);
    (0x41000000, 0x410A3AE5, 10);
    (0x410A3AE6, 0x410A3AE6, 10);
    (0x410A3AE7, 0x4116CBE3, 11);
    (0x4116CBE4, 0x4116CBE4, 12);
    (0x4116CBE5, 0x41235CE1, 12);
    (0x41235CE2, 0x41235CE2, 13);
    (0x41235CE3, 0x412FEDDE, 13);
    (0x412FEDDF, 0x412FEDDF, 13);
    (0x412FEDE0, 0x413C7EDC, 14) ].

(** What is checked of a run [(lo, hi, k)] by evaluation.  A run of one
    pattern is checked on the kernel's own arithmetic.  For a longer run
    the exact products of its two ends with the kernel's [4/pi] (mantissa
    [10680707], exponent [-23]) are compared with the smallest and the
    largest binary32 in [k, k + 1).  The ends themselves are compared with
    [k] and [k + 1] times a decimal above and below [pi/4]. *)
Definition run_checked (r : Z * Z * Z) : bool :=
  let '(lo, hi, k) := r in
  let E := F32.exp_field lo in
  let s := Z.log2 k in
  let N := s + 150 - E in
  (0 <=? lo) && (hi <? 2 ^ 31)
  && (F32.exp_field hi =? E) && (1 <=? E) && (E <=? 149)
  && (1 <=? k) && (k <? 16) && (0 <=? N)
  && (if lo =? hi then Lane.floor_index lo =? k
      else (k * 2 ^ (23 - s) * 2 ^ N <=? (F32.frac_field lo + 2 ^ 23) * 10680707)
           && ((F32.frac_field hi + 2 ^ 23) * 10680707
               <=? ((k + 1) * 2 ^ (23 - s) - 1) * 2 ^ N))
  && (k * 7853981635 * 2 ^ (150 - E) <=? (F32.frac_field lo + 2 ^ 23) * 10 ^ 10)
  && ((F32.frac_field hi + 2 ^ 23) * 10 ^ 10 <? (k + 1) * 7853981633 * 2 ^ (150 - E)).

(** The runs follow one another from [from] on, and each one is checked. *)
Fixpoint runs_chained (from : Z) (rs : list (Z * Z * Z)) : bool :=
  match rs with
  | [] => true
  | (lo, hi, k) :: rs' =>
      (lo =? from) && (lo <=? hi) && run_checked (lo, hi, k)
      && runs_chained (hi + 1) rs'
  end.

Fixpoint chain_top (from : Z) (rs : list (Z * Z * Z)) : Z :=
  match rs with
  | [] => from - 1
  | (_, hi, _) :: rs' => chain_top (hi + 1) rs'
  end.

(** ** Nearest numbers of the format

    [nearest base n N]: among the numbers [mr * 2^s] with [mr] of at most
    24 bits and [s >= base], [N] is one nearest to [n >= 0], the one with
    the even [mr] when [n] lies half-way; [s] is the least exponent that
    leaves [n] 24 bits, or [base].  Both [n] and [N] count units of
    [2^(-149 - base)]. *)
Definition nearest (base n N : Z) : Prop :=
  exists mr s,
    N = mr * 2 ^ s /\ base <= s /\ 0 <= mr <= 2 ^ 24
    /\ (2 ^ 23 <= mr \/ s = base)
    /\ 2 * Z.abs (N - n) <= 2 ^ s
    /\ (2 * Z.abs (N - n) = 2 ^ s -> Z.even mr = true)
    /\ (s = base \/ 2 ^ (s + 23) <= n).

(** The value of a finite number in units of [2^-149], the least positive
    binary32; [0] for the others. *)
Definition SFscaled (f : spec_float) : Z :=
  match f with
  | S754_finite s m e => cond_Zopp s (Zpos m * 2 ^ (e + 149))
  | _ => 0
  end.

(** A number as the format has it: a finite one is on the grid and not
    above the largest exponent. *)
Definition SFvalid (f : spec_float) : Prop :=
  match f with
  | S754_finite _ m e => F32.on_grid m e /\ e <= 104
  | _ => True
  end.

(** A zero or a finite number of the format. *)
Definition SFfin (f : spec_float) : Prop :=
  match f with
  | S754_zero _ => True
  | S754_finite _ m e => F32.on_grid m e /\ e <= 104
  | _ => False
  end.

(** A zero, or a finite number of the format of magnitude at most
    [B * 2^-149]. *)
Definition SFsmall (B : Z) (f : spec_float) : Prop :=
  match f with
  | S754_zero _ => True
  | S754_finite _ m e => F32.on_grid m e /\ Zpos m * 2 ^ (e + 149) <= B
  | _ => False
  end.

(** [rounds n r]: [r] is the binary32 nearest to [n * 2^-149], ties to
    even, with the sign of [n]; a zero of either sign when [n] is [0]. *)
Definition rounds (n : Z) (r : spec_float) : Prop :=
  (n = 0 -> exists s, r = S754_zero s)
  /\ (n <> 0 ->
      exists m e, r = S754_finite (n <? 0) m e /\ F32.on_grid m e /\ e <= 104
        /\ nearest 0 (Z.abs n) (Zpos m * 2 ^ (e + 149))).

(** A number, negated or not. *)
Definition SFopp_if (s : bool) (f : spec_float) : spec_float :=
  if s then SFopp f else f.

(** * Facts about the binary32 layer *)

Lemma lor_range n a b :
  0 <= n -> 0 <= a < 2 ^ n -> 0 <= b < 2 ^ n -> 0 <= Z.lor a b < 2 ^ n.
Proof.
  intros Hn Ha Hb.
  assert (Hmod : Z.lor a b = Z.lor a b mod 2 ^ n).
  { rewrite <- (Z.land_ones _ n) by exact Hn.
    rewrite Z.land_lor_distr_l, !Z.land_ones by exact Hn.
    rewrite !Z.mod_small by assumption. reflexivity. }
  rewrite Hmod. apply Z.mod_pos_bound. apply Z.pow_pos_nonneg; lia.
Qed.

Lemma land_range n a :
  0 <= n -> 0 <= Z.land a (Z.ones n) < 2 ^ n.
Proof.
  intros Hn. rewrite Z.land_ones by exact Hn.
  apply Z.mod_pos_bound. apply Z.pow_pos_nonneg; lia.
Qed.

Lemma sign_of_range s : 0 <= F32.sign_of s < 2 ^ 32.
Proof. destruct s; unfold F32.sign_of, F32.sign_bit; lia. Qed.

Lemma magnitude_range x : 0 <= F32.magnitude x < 2 ^ 31.
Proof.
  destruct x as [s|s| |s m e]; cbn [F32.magnitude];
    [lia | unfold F32.exp_mask; lia | lia |].
  destruct (Z.ltb_spec (Zpos m) (2 ^ 23)) as [Hm|Hm]; [lia|].
  apply lor_range; [lia | |].
  - change 0xFF with (Z.ones 8).
    pose proof (land_range 8 (e + 150) ltac:(lia)) as H8.
    rewrite Z.shiftl_mul_pow2 by lia. lia.
  - change F32.frac_mask with (Z.ones 23).
    pose proof (land_range 23 (Zpos m) ltac:(lia)). lia.
Qed.

(** Every encoded value is a 32-bit pattern. *)
Lemma encode_range x : 0 <= F32.encode x < 2 ^ 32.
Proof.
  unfold F32.encode. pose proof (magnitude_range x).
  apply lor_range; [lia | apply sign_of_range | lia].
Qed.

Lemma land_all_ones w : 0 <= w < 2 ^ 32 -> Z.land w F32.all_ones = w.
Proof.
  intros H. change F32.all_ones with (Z.ones 32).
  rewrite Z.land_ones by lia. apply Z.mod_small, H.
Qed.

(** ANDing an encoded value with a comparison mask keeps it or clears it. *)
Lemma and_mask x b :
  Z.land (F32.encode x) (F32.mask_of b)
  = if b then F32.encode x else F32.pos_zero.
Proof.
  destruct b; cbn [F32.mask_of].
  - apply land_all_ones, encode_range.
  - apply Z.land_0_r.
Qed.

Lemma land_pow2 q k :
  0 <= k -> Z.land q (2 ^ k) = if Z.testbit q k then 2 ^ k else 0.
Proof.
  intros Hk. apply Z.bits_inj'. intros n Hn.
  rewrite Z.land_spec, Z.pow2_bits_eqb by exact Hk.
  destruct (Z.eqb_spec k n) as [->|Hne].
  - destruct (Z.testbit q n); cbn.
    + rewrite Z.pow2_bits_true by exact Hn. reflexivity.
    + rewrite Z.bits_0. reflexivity.
  - rewrite andb_false_r.
    destruct (Z.testbit q k).
    + rewrite Z.pow2_bits_false by lia. reflexivity.
    + rewrite Z.bits_0. reflexivity.
Qed.


(** *** Fields of a pattern *)

Lemma frac_field_mod w : F32.frac_field w = w mod 2 ^ 23.
Proof.
  unfold F32.frac_field. change F32.frac_mask with (Z.ones 23).
  apply Z.land_ones. lia.
Qed.

Lemma exp_field_div w : F32.exp_field w = (w / 2 ^ 23) mod 2 ^ 8.
Proof.
  unfold F32.exp_field.
  rewrite Z.shiftr_land.
  change (Z.shiftr F32.exp_mask 23) with (Z.ones 8).
  rewrite Z.land_ones by lia. rewrite Z.shiftr_div_pow2 by lia. reflexivity.
Qed.

Lemma sign_field_div w :
  0 <= w < 2 ^ 32 -> F32.sign_field w = (w / 2 ^ 31 =? 1).
Proof.
  intros Hw. unfold F32.sign_field.
  rewrite Z.testbit_eqb by lia.
  rewrite (Z.mod_small (w / 2 ^ 31) 2); [reflexivity|].
  split; [apply Z.div_pos; lia|].
  apply Z.div_lt_upper_bound; lia.
Qed.

(** A pattern is the sum of its three fields. *)
Lemma fields_sum w :
  0 <= w < 2 ^ 32 ->
  w = F32.sign_of (F32.sign_field w) + 2 ^ 23 * F32.exp_field w + F32.frac_field w
  /\ 0 <= F32.exp_field w < 256 /\ 0 <= F32.frac_field w < 2 ^ 23.
Proof.
  intros Hw. rewrite sign_field_div, exp_field_div, frac_field_mod by exact Hw.
  unfold F32.sign_of, F32.sign_bit.
  destruct (Z.eqb_spec (w / 2 ^ 31) 1) as [H1|H1];
    Z.div_mod_to_equations; lia.
Qed.

Lemma land_disjoint hi lo k :
  0 <= k -> 0 <= lo < 2 ^ k -> Z.land (hi * 2 ^ k) lo = 0.
Proof.
  intros Hk Hlo.
  rewrite <- (Z.mod_small lo (2 ^ k)) by exact Hlo.
  rewrite <- Z.land_ones by exact Hk.
  rewrite (Z.land_comm lo), Z.land_assoc, Z.land_ones by exact Hk.
  rewrite Z.mod_mul by lia. reflexivity.
Qed.

Lemma lor_disjoint hi lo k :
  0 <= k -> 0 <= lo < 2 ^ k -> Z.lor (hi * 2 ^ k) lo = hi * 2 ^ k + lo.
Proof.
  intros Hk Hlo.
  pose proof (Z.add_lor_land (hi * 2 ^ k) lo) as H.
  rewrite (land_disjoint hi lo k Hk Hlo) in H. lia.
Qed.

Lemma lxor_disjoint hi lo k :
  0 <= k -> 0 <= lo < 2 ^ k -> Z.lxor (hi * 2 ^ k) lo = hi * 2 ^ k + lo.
Proof.
  intros Hk Hlo. symmetry. apply Z.add_nocarry_lxor.
  apply land_disjoint; assumption.
Qed.

(** Bits 0 to 30 of a pattern, as a number: what carries the magnitude. *)
Lemma sign_of_lor s r :
  0 <= r < 2 ^ 31 -> Z.lor (F32.sign_of s) r = F32.sign_of s + r.
Proof.
  intros Hr. destruct s; unfold F32.sign_of, F32.sign_bit.
  - change 0x80000000 with (1 * 2 ^ 31). apply lor_disjoint; lia.
  - rewrite Z.lor_0_l. lia.
Qed.

(** *** Rounding on the binary32 grid *)


Lemma digits2_size m : digits2_pos m = Pos.size m.
Proof. induction m as [m IH|m IH|]; cbn; rewrite ?IH; reflexivity. Qed.

Lemma digits2_bounds m :
  2 ^ (Zpos (digits2_pos m) - 1) <= Zpos m < 2 ^ Zpos (digits2_pos m).
Proof.
  rewrite digits2_size.
  pose proof (Pos.size_gt m) as Hgt. pose proof (Pos.size_le m) as Hle.
  apply Pos2Z.pos_lt_pos in Hgt. apply Pos2Z.pos_le_pos in Hle.
  rewrite Pos2Z.inj_pow in Hgt, Hle.
  change (Z.pos 2) with 2 in *.
  split; [|exact Hgt].
  rewrite (Pos2Z.inj_xO m) in Hle.
  assert (E : 2 ^ Z.pos (Pos.size m) = 2 * 2 ^ (Z.pos (Pos.size m) - 1)).
  { rewrite <- Z.pow_succ_r by lia. f_equal. lia. }
  lia.
Qed.

Lemma digits2_of_range m k :
  0 < k -> 2 ^ (k - 1) <= Zpos m < 2 ^ k -> Zpos (digits2_pos m) = k.
Proof.
  intros Hk [Hlo Hhi]. destruct (digits2_bounds m) as [Dlo Dhi].
  set (d := Zpos (digits2_pos m)) in *.
  assert (Hd : 0 < d) by (unfold d; lia).
  destruct (Z.lt_trichotomy d k) as [Hlt|[Heq|Hgt]]; [|exact Heq|].
  - assert (2 ^ d <= 2 ^ (k - 1)) by (apply Z.pow_le_mono_r; lia). lia.
  - assert (2 ^ k <= 2 ^ (d - 1)) by (apply Z.pow_le_mono_r; lia). lia.
Qed.

Lemma digits2_le m k :
  0 <= k -> Zpos m < 2 ^ k -> Zpos (digits2_pos m) <= k.
Proof.
  intros Hk Hhi. destruct (digits2_bounds m) as [Dlo _].
  set (d := Zpos (digits2_pos m)) in *.
  destruct (Z.le_gt_cases d k) as [H|H]; [exact H|].
  assert (2 ^ k <= 2 ^ (d - 1)) by (apply Z.pow_le_mono_r; lia). lia.
Qed.

(** Shifting a mantissa right by as many zeros as were appended is exact. *)
Lemma shr_zeros n m :
  SpecFloat.iter_pos shr_1 n (Build_shr_record (Zpos (Pos.iter xO m n)) false false)
  = Build_shr_record (Zpos m) false false.
Proof.
  revert m. induction n as [n IH|n IH|]; intros m; cbn [SpecFloat.iter_pos Pos.iter].
  - cbn [shr_1 orb]. rewrite IH, IH. reflexivity.
  - rewrite IH, IH. reflexivity.
  - reflexivity.
Qed.


Lemma fexp32_eq z : F32.fexp32 z = Z.max (z - 24) (-149).
Proof. reflexivity. Qed.

Lemma digits2_iter_xO m p :
  Zpos (digits2_pos (Pos.iter xO m p)) = Zpos (digits2_pos m) + Zpos p.
Proof.
  revert m. induction p as [|p IH] using Pos.peano_ind; intros m.
  - cbn. lia.
  - rewrite Pos.iter_succ. cbn [digits2_pos]. rewrite Pos2Z.inj_succ, IH. lia.
Qed.

Lemma shr_fexp_on_grid m e :
  F32.on_grid m e ->
  shr_fexp F32.prec F32.emax (Zpos m) e loc_Exact
  = (Build_shr_record (Zpos m) false false, e).
Proof.
  intros Hg. unfold F32.on_grid in Hg. unfold shr_fexp.
  cbn [Zdigits2 shr_record_of_loc]. rewrite Hg, Z.sub_diag. reflexivity.
Qed.

Lemma shr_fexp_trailing_zeros m e p :
  F32.on_grid m (e + Zpos p) ->
  shr_fexp F32.prec F32.emax (Zpos (Pos.iter xO m p)) e loc_Exact
  = (Build_shr_record (Zpos m) false false, e + Zpos p).
Proof.
  intros Hg. unfold F32.on_grid in Hg. unfold shr_fexp.
  cbn [Zdigits2 shr_record_of_loc]. rewrite digits2_iter_xO.
  replace (Zpos (digits2_pos m) + Zpos p + e)
    with (Zpos (digits2_pos m) + (e + Zpos p)) by lia.
  rewrite Hg. replace (e + Zpos p - e) with (Zpos p) by lia.
  cbn [shr]. rewrite shr_zeros. reflexivity.
Qed.

(** Rounding a number that is on the grid leaves it alone. *)
Lemma round_on_grid sx m e :
  F32.on_grid m e ->
  binary_round_aux F32.prec F32.emax sx (Zpos m) e loc_Exact
  = if e <=? 104 then S754_finite sx m e else S754_infinity sx.
Proof.
  intros Hg. unfold binary_round_aux.
  rewrite (shr_fexp_on_grid m e Hg).
  cbn [shr_m loc_of_shr_record round_nearest_even].
  rewrite (shr_fexp_on_grid m e Hg). reflexivity.
Qed.

(** The same with trailing zeros to shift out first. *)
Lemma round_trailing_zeros sx m e p :
  F32.on_grid m (e + Zpos p) ->
  binary_round_aux F32.prec F32.emax sx (Zpos (Pos.iter xO m p)) e loc_Exact
  = if e + Zpos p <=? 104 then S754_finite sx m (e + Zpos p)
    else S754_infinity sx.
Proof.
  intros Hg. unfold binary_round_aux.
  rewrite (shr_fexp_trailing_zeros m e p Hg).
  cbn [shr_m loc_of_shr_record round_nearest_even].
  rewrite (shr_fexp_on_grid m _ Hg). reflexivity.
Qed.

Lemma mul_pow2_23 m : (m * 8388608)%positive = Pos.iter xO m 23.
Proof. rewrite Pos.mul_comm. reflexivity. Qed.

Lemma on_grid_normal m e :
  Zpos (digits2_pos m) = 24 -> -149 <= e -> F32.on_grid m e.
Proof. intros Hd He. unfold F32.on_grid. rewrite fexp32_eq, Hd. lia. Qed.

Lemma on_grid_subnormal m :
  Zpos (digits2_pos m) <= 24 -> F32.on_grid m (-149).
Proof. intros Hd. unfold F32.on_grid. rewrite fexp32_eq. lia. Qed.

(** Doubling. *)
Lemma SFmul_two_normal s m e :
  Zpos (digits2_pos m) = 24 -> -149 <= e ->
  SFmul F32.prec F32.emax (S754_finite s m e) (S754_finite false 8388608 (-22))
  = if e + 1 <=? 104 then S754_finite s m (e + 1) else S754_infinity s.
Proof.
  intros Hd He. unfold SFmul. rewrite xorb_false_r, mul_pow2_23.
  rewrite (round_trailing_zeros s m (e + -22) 23).
  - replace (e + -22 + 23) with (e + 1) by lia. reflexivity.
  - apply on_grid_normal; [exact Hd | lia].
Qed.

Lemma SFmul_two_subnormal s m :
  Zpos (digits2_pos m) <= 23 ->
  SFmul F32.prec F32.emax (S754_finite s m (-149))
    (S754_finite false 8388608 (-22))
  = S754_finite s (xO m) (-149).
Proof.
  intros Hd. unfold SFmul. rewrite xorb_false_r, mul_pow2_23.
  change (Pos.iter xO m 23) with (Pos.iter xO (xO m) 22).
  rewrite (round_trailing_zeros s (xO m) (-149 + -22) 22).
  - reflexivity.
  - change (-149 + -22 + 22) with (-149). apply on_grid_subnormal.
    cbn [digits2_pos]. lia.
Qed.

(** Subtracting from [x] a number of the same sign and twice the size
    gives [-x]. *)
Lemma binary_round_on_grid sx m e :
  F32.on_grid m e ->
  binary_round F32.prec F32.emax sx m e
  = if e <=? 104 then S754_finite sx m e else S754_infinity sx.
Proof.
  intros Hg. unfold binary_round. unfold F32.on_grid in Hg. rewrite Hg.
  unfold shl_align. rewrite Z.sub_diag. apply round_on_grid, Hg.
Qed.

Lemma SFsub_twice_normal s m e :
  F32.on_grid m e -> e <= 104 ->
  SFsub F32.prec F32.emax (S754_finite s m e) (S754_finite s m (e + 1))
  = S754_finite (negb s) m e.
Proof.
  intros Hg He. unfold SFsub.
  replace (Z.min e (e + 1)) with e by lia.
  unfold shl_align. rewrite Z.sub_diag.
  replace (e - (e + 1)) with (Zneg 1) by lia. cbn [fst Pos.iter].
  replace (cond_Zopp s (Zpos m) - cond_Zopp s (Zpos (xO m)))
    with (cond_Zopp (negb s) (Zpos m)) by (destruct s; cbn [cond_Zopp negb]; lia).
  destruct s; cbn [cond_Zopp negb];
    [|change (- Z.pos m) with (Zneg m)]; cbn [binary_normalize];
    rewrite binary_round_on_grid by exact Hg;
    destruct (Z.leb_spec e 104); try lia; reflexivity.
Qed.

Lemma SFsub_twice_subnormal s m :
  F32.on_grid m (-149) ->
  SFsub F32.prec F32.emax (S754_finite s m (-149)) (S754_finite s (xO m) (-149))
  = S754_finite (negb s) m (-149).
Proof.
  intros Hg. unfold SFsub. cbn [Z.min Z.compare Pos.compare Pos.compare_cont].
  change (Z.min (-149) (-149)) with (-149).
  unfold shl_align. cbn [Z.sub Z.add Z.opp Z.pos_sub Pos.compare fst].
  change (-149 - -149) with 0. cbn [fst].
  replace (cond_Zopp s (Zpos m) - cond_Zopp s (Zpos (xO m)))
    with (cond_Zopp (negb s) (Zpos m)) by (destruct s; cbn [cond_Zopp negb]; lia).
  destruct s; cbn [cond_Zopp negb];
    [|change (- Z.pos m) with (Zneg m)]; cbn [binary_normalize];
    rewrite binary_round_on_grid by exact Hg; reflexivity.
Qed.

(** *** Decoding, case by case *)

Lemma fields_of_sum s E M :
  0 <= E < 256 -> 0 <= M < 2 ^ 23 ->
  let w := F32.sign_of s + 2 ^ 23 * E + M in
  0 <= w < 2 ^ 32 /\ F32.sign_field w = s
  /\ F32.exp_field w = E /\ F32.frac_field w = M.
Proof.
  intros HE HM w.
  assert (Hw : 0 <= w < 2 ^ 32).
  { subst w. destruct s; unfold F32.sign_of, F32.sign_bit; lia. }
  split; [exact Hw|].
  rewrite sign_field_div, exp_field_div, frac_field_mod by exact Hw.
  subst w. destruct s; unfold F32.sign_of, F32.sign_bit in *.
  - repeat apply conj; [apply Z.eqb_eq| |]; Z.div_mod_to_equations; lia.
  - repeat apply conj; [apply Z.eqb_neq| |]; Z.div_mod_to_equations; lia.
Qed.

Lemma decode_zero w :
  F32.exp_field w = 0 -> F32.frac_field w = 0 ->
  F32.decode w = S754_zero (F32.sign_field w).
Proof. intros HE HM. unfold F32.decode. rewrite HE, HM. reflexivity. Qed.

Lemma decode_subnormal w :
  F32.exp_field w = 0 -> 0 < F32.frac_field w ->
  exists m, Zpos m = F32.frac_field w
    /\ F32.decode w = S754_finite (F32.sign_field w) m (-149).
Proof.
  intros HE HM. unfold F32.decode. rewrite HE. cbn [Z.eqb].
  destruct (F32.frac_field w) as [|m|m]; try lia.
  exists m. split; reflexivity.
Qed.

Lemma decode_normal w :
  0 < F32.exp_field w < 255 -> 0 <= F32.frac_field w ->
  exists m, Zpos m = F32.frac_field w + 2 ^ 23
    /\ F32.decode w = S754_finite (F32.sign_field w) m (F32.exp_field w - 150).
Proof.
  intros HE HM. unfold F32.decode.
  destruct (Z.eqb_spec (F32.exp_field w) 0) as [E0|_]; [lia|].
  destruct (Z.eqb_spec (F32.exp_field w) 255) as [E1|_]; [lia|].
  destruct (F32.frac_field w + 2 ^ 23) as [|m|m] eqn:Em; try lia.
  exists m. split; reflexivity.
Qed.

Lemma decode_infinity w :
  F32.exp_field w = 255 -> F32.frac_field w = 0 ->
  F32.decode w = S754_infinity (F32.sign_field w).
Proof. intros HE HM. unfold F32.decode. rewrite HE, HM. reflexivity. Qed.

Lemma decode_nan w :
  F32.exp_field w = 255 -> F32.frac_field w <> 0 -> F32.decode w = S754_nan.
Proof.
  intros HE HM. unfold F32.decode. rewrite HE. cbn [Z.eqb].
  destruct (F32.frac_field w); [contradiction | reflexivity | reflexivity].
Qed.

(** *** Encoding *)

Lemma encode_sum x :
  F32.encode x = F32.sign_of (F32.sign_of_float x) + F32.magnitude x.
Proof. unfold F32.encode. apply sign_of_lor, magnitude_range. Qed.

Lemma magnitude_subnormal s m :
  Zpos m < 2 ^ 23 -> F32.magnitude (S754_finite s m (-149)) = Zpos m.
Proof.
  intros Hm. cbn [F32.magnitude].
  destruct (Z.ltb_spec (Zpos m) (2 ^ 23)); [reflexivity | lia].
Qed.

Lemma magnitude_normal s m e :
  2 ^ 23 <= Zpos m < 2 ^ 24 -> 0 <= e + 150 < 256 ->
  F32.magnitude (S754_finite s m e) = 2 ^ 23 * (e + 150) + (Zpos m - 2 ^ 23).
Proof.
  intros Hm He. cbn [F32.magnitude].
  destruct (Z.ltb_spec (Zpos m) (2 ^ 23)); [lia|].
  change 0xFF with (Z.ones 8). change F32.frac_mask with (Z.ones 23).
  rewrite !Z.land_ones by lia. rewrite Z.shiftl_mul_pow2 by lia.
  rewrite (Z.mod_small (e + 150)) by lia.
  assert (Hmod : Zpos m mod 2 ^ 23 = Zpos m - 2 ^ 23)
    by (Z.div_mod_to_equations; lia).
  rewrite Hmod. rewrite lor_disjoint by lia. lia.
Qed.

(** A pattern that is not a NaN is the encoding of what it decodes to. *)
Lemma encode_decode w :
  0 <= w < 2 ^ 32 -> F32.is_nan w = false -> F32.encode (F32.decode w) = w.
Proof.
  intros Hw Hnan. destruct (fields_sum w Hw) as (Hsum & HE & HM).
  rewrite encode_sum. unfold F32.is_nan in Hnan.
  destruct (Z.eq_dec (F32.exp_field w) 0) as [E0|E0].
  - destruct (Z.eq_dec (F32.frac_field w) 0) as [M0|M0].
    + rewrite (decode_zero w E0 M0). cbn [F32.sign_of_float F32.magnitude]. lia.
    + destruct (decode_subnormal w E0 ltac:(lia)) as (m & Hm & ->).
      rewrite magnitude_subnormal by lia. cbn [F32.sign_of_float]. lia.
  - destruct (Z.eq_dec (F32.exp_field w) 255) as [E1|E1].
    + destruct (Z.eq_dec (F32.frac_field w) 0) as [M0|M0].
      * rewrite (decode_infinity w E1 M0).
        cbn [F32.sign_of_float F32.magnitude]. unfold F32.exp_mask. lia.
      * rewrite (decode_nan w E1 M0) in Hnan. discriminate.
    + destruct (decode_normal w ltac:(lia) ltac:(lia)) as (m & Hm & ->).
      rewrite magnitude_normal by lia. cbn [F32.sign_of_float]. lia.
Qed.

(** Conversely for the finite floats of the format. *)
Lemma decode_encode_subnormal s m :
  Zpos m < 2 ^ 23 ->
  F32.decode (F32.encode (S754_finite s m (-149))) = S754_finite s m (-149).
Proof.
  intros Hm. rewrite encode_sum, magnitude_subnormal by exact Hm.
  cbn [F32.sign_of_float].
  destruct (fields_of_sum s 0 (Zpos m) ltac:(lia) ltac:(lia))
    as (_ & Hs & HE & HM).
  cbv zeta in Hs, HE, HM. rewrite Z.mul_0_r, Z.add_0_r in Hs, HE, HM.
  destruct (decode_subnormal _ HE ltac:(lia)) as (m' & Hm' & ->).
  rewrite Hs. f_equal. lia.
Qed.

Lemma decode_encode_normal s m e :
  2 ^ 23 <= Zpos m < 2 ^ 24 -> -149 <= e <= 104 ->
  F32.decode (F32.encode (S754_finite s m e)) = S754_finite s m e.
Proof.
  intros Hm He. rewrite encode_sum, magnitude_normal by lia.
  cbn [F32.sign_of_float].
  destruct (fields_of_sum s (e + 150) (Zpos m - 2 ^ 23) ltac:(lia) ltac:(lia))
    as (_ & Hs & HE & HM).
  cbv zeta in Hs, HE, HM. rewrite Z.add_assoc.
  destruct (decode_normal _ ltac:(rewrite HE; lia) ltac:(rewrite HM; lia))
    as (m' & Hm' & ->).
  rewrite Hs, HE. rewrite HM in Hm'. f_equal; lia.
Qed.

(** *** Negation and absolute value on patterns *)

Lemma opp_sum s r :
  0 <= r < 2 ^ 31 -> F32.opp (F32.sign_of s + r) = F32.sign_of (negb s) + r.
Proof.
  intros Hr. unfold F32.opp, F32.sign_of, F32.sign_bit.
  change 0x80000000 with (1 * 2 ^ 31).
  destruct s; cbn [negb].
  - rewrite <- (lxor_disjoint 1 r 31) by lia.
    rewrite Z.lxor_comm, <- Z.lxor_assoc, Z.lxor_nilpotent, Z.lxor_0_l. lia.
  - rewrite Z.add_0_l, Z.lxor_comm. apply lxor_disjoint; lia.
Qed.

Lemma abs_sum s r :
  0 <= r < 2 ^ 31 -> F32.abs (F32.sign_of s + r) = r.
Proof.
  intros Hr. unfold F32.abs. change 0x7FFFFFFF with (Z.ones 31).
  rewrite Z.land_ones by lia.
  destruct s; unfold F32.sign_of, F32.sign_bit; Z.div_mod_to_equations; lia.
Qed.

Lemma encode_opp x :
  x <> S754_nan -> F32.encode (SFopp x) = F32.opp (F32.encode x).
Proof.
  intros Hx. rewrite !encode_sum, opp_sum by apply magnitude_range.
  destruct x; try contradiction; reflexivity.
Qed.

Lemma encode_abs x :
  x <> S754_nan -> F32.encode (SFabs x) = F32.abs (F32.encode x).
Proof.
  intros Hx. rewrite !encode_sum, abs_sum by apply magnitude_range.
  destruct x; try contradiction; cbn [SFabs F32.sign_of_float F32.sign_of];
    reflexivity.
Qed.

(** *** Adding and subtracting zero *)

Lemma decode_pos_zero : F32.decode F32.pos_zero = S754_zero false.
Proof. reflexivity. Qed.

Lemma sub_pos_zero v :
  0 <= v < 2 ^ 32 -> F32.is_nan v = false -> F32.sub v F32.pos_zero = v.
Proof.
  intros Hv Hnan. unfold F32.sub. rewrite decode_pos_zero.
  rewrite <- (encode_decode v Hv Hnan) at 2. f_equal.
  destruct (F32.decode v) as [[]|[]| |]; reflexivity.
Qed.

Lemma add_pos_zero v :
  0 <= v < 2 ^ 32 -> F32.is_nan v = false -> v <> F32.neg_zero ->
  F32.add v F32.pos_zero = v.
Proof.
  intros Hv Hnan Hnz. unfold F32.add. rewrite decode_pos_zero.
  rewrite <- (encode_decode v Hv Hnan) at 2.
  destruct (F32.decode v) as [[]|[]| |] eqn:E; try reflexivity.
  exfalso. apply Hnz. rewrite <- (encode_decode v Hv Hnan), E. reflexivity.
Qed.

(** *** Subtracting the double *)

Lemma decode_two : F32.decode (F32.float_lit 2 0) = S754_finite false 8388608 (-22).
Proof. vm_compute. reflexivity. Qed.

Lemma two_patterns : lit 2 0 = F32.float_lit 2 0.
Proof. vm_compute. reflexivity. Qed.

(** [v - 2 v] is [-v]: exactly so for every finite [v] other than [+0.0]
    whose double does not overflow. *)
Lemma sub_twice v :
  0 <= v < 2 ^ 32 -> F32.exp_field v < 254 -> v <> F32.pos_zero ->
  F32.sub v (F32.mul v (F32.float_lit 2 0)) = F32.opp v.
Proof.
  intros Hv HE Hnz. destruct (fields_sum v Hv) as (Hsum & HE' & HM).
  unfold F32.sub, F32.mul. rewrite decode_two.
  destruct (Z.eq_dec (F32.exp_field v) 0) as [E0|E0].
  - destruct (Z.eq_dec (F32.frac_field v) 0) as [M0|M0].
    + (* -0.0 *)
      assert (Hvz : v = F32.neg_zero).
      { rewrite E0, M0 in Hsum. destruct (F32.sign_field v);
          unfold F32.sign_of, F32.sign_bit in Hsum.
        - rewrite Hsum. reflexivity.
        - exfalso. apply Hnz. rewrite Hsum. reflexivity. }
      subst v. vm_compute. reflexivity.
    + destruct (decode_subnormal v E0 ltac:(lia)) as (m & Hm & Hd).
      assert (Hnan : F32.is_nan v = false) by (unfold F32.is_nan; rewrite Hd; reflexivity).
      rewrite Hd.
      assert (Hdig : Zpos (digits2_pos m) <= 23) by (apply digits2_le; lia).
      rewrite SFmul_two_subnormal by exact Hdig.
      assert (Hdd : F32.decode (F32.encode (S754_finite (F32.sign_field v) (xO m) (-149)))
                    = S754_finite (F32.sign_field v) (xO m) (-149)).
      { destruct (Z.lt_ge_cases (Zpos (xO m)) (2 ^ 23)).
        - apply decode_encode_subnormal. assumption.
        - apply decode_encode_normal; lia. }
      rewrite Hdd, SFsub_twice_subnormal by (apply on_grid_subnormal; lia).
      change (S754_finite (negb (F32.sign_field v)) m (-149))
        with (SFopp (S754_finite (F32.sign_field v) m (-149))).
      rewrite encode_opp by discriminate. rewrite <- Hd.
      rewrite encode_decode by assumption. reflexivity.
  - destruct (decode_normal v ltac:(lia) ltac:(lia)) as (m & Hm & Hd).
    assert (Hnan : F32.is_nan v = false) by (unfold F32.is_nan; rewrite Hd; reflexivity).
    rewrite Hd.
    assert (Hdig : Zpos (digits2_pos m) = 24) by (apply digits2_of_range; lia).
    rewrite SFmul_two_normal by (try exact Hdig; lia).
    destruct (Z.leb_spec (F32.exp_field v - 150 + 1) 104) as [_|Hbig]; [|lia].
    rewrite decode_encode_normal by lia.
    rewrite SFsub_twice_normal by (try apply on_grid_normal; lia).
    change (S754_finite (negb (F32.sign_field v)) m (F32.exp_field v - 150))
      with (SFopp (S754_finite (F32.sign_field v) m (F32.exp_field v - 150))).
    rewrite encode_opp by discriminate. rewrite <- Hd.
    rewrite encode_decode by assumption. reflexivity.
Qed.
(** *** Comparisons *)

Lemma cmp_lt_spec a b :
  F32.cmp_lt a b = F32.mask_of (SFltb (F32.decode a) (F32.decode b)).
Proof.
  unfold F32.cmp_lt, F32.cmp_ps, SFltb.
  destruct (SFcompare (F32.decode a) (F32.decode b)) as [[]|]; reflexivity.
Qed.

Lemma cmp_neq_spec a b :
  F32.cmp_neq a b = F32.mask_of (negb (SFeqb (F32.decode a) (F32.decode b))).
Proof.
  unfold F32.cmp_neq, F32.cmp_ps, SFeqb.
  destruct (SFcompare (F32.decode a) (F32.decode b)) as [[]|]; reflexivity.
Qed.

Lemma cmp_lt_zero x : F32.cmp_lt x Lane.zero = F32.mask_of (F32.lt_zero x).
Proof. rewrite cmp_lt_spec. reflexivity. Qed.

(** An all-ones lane read as a float is a NaN, and NEQ holds as soon as one
    operand is a NaN: comparing two masks with NEQ gives their
    disjunction, not their exclusive or. *)
Lemma cmp_neq_masks b1 b2 :
  F32.cmp_neq (F32.mask_of b1) (F32.mask_of b2) = F32.mask_of (b1 || b2).
Proof. destruct b1, b2; vm_compute; reflexivity. Qed.

Lemma all_ones_is_nan : F32.decode F32.all_ones = S754_nan.
Proof. vm_compute. reflexivity. Qed.

(** Bit [k] of an integer lane, tested the way the kernels do: mask it,
    convert to float, compare with zero. *)
Lemma bit_test q k :
  (k = 1 \/ k = 2) ->
  F32.cmp_neq (F32.cvt_i32_f32 (Z.land q (F32.wrap32 (2 ^ k)))) Lane.zero
  = F32.mask_of (Z.testbit q k).
Proof.
  intros [-> | ->].
  - change (F32.wrap32 (2 ^ 1)) with (2 ^ 1).
    rewrite land_pow2 by lia. destruct (Z.testbit q 1); vm_compute; reflexivity.
  - change (F32.wrap32 (2 ^ 2)) with (2 ^ 2).
    rewrite land_pow2 by lia. destruct (Z.testbit q 2); vm_compute; reflexivity.
Qed.

Lemma add_epi32_low_bit q k :
  0 <= k < 32 -> Z.testbit (add_epi32 q (F32.wrap32 1)) k = Z.testbit (q + 1) k.
Proof.
  intros Hk. unfold add_epi32, F32.wrap32.
  rewrite Z.mod_pow2_bits_low by lia.
  change (1 mod 2 ^ 32) with 1. reflexivity.
Qed.

(** *** The two masks and the two blends of a lane *)

Lemma swap_mask_spec q :
  Lane.swap_mask q = F32.mask_of (Z.testbit (q + 1) 1).
Proof.
  unfold Lane.swap_mask.
  change (F32.wrap32 2) with (F32.wrap32 (2 ^ 1)).
  rewrite bit_test by auto. rewrite add_epi32_low_bit by lia. reflexivity.
Qed.

Lemma negate_mask_spec q x :
  Lane.negate_mask q x = F32.mask_of (Z.testbit q 2 || F32.lt_zero x).
Proof.
  unfold Lane.negate_mask.
  change (F32.wrap32 4) with (F32.wrap32 (2 ^ 2)).
  rewrite bit_test by auto. rewrite cmp_lt_zero. apply cmp_neq_masks.
Qed.

Lemma blend_spec s c b :
  Lane.blend s c (F32.mask_of b)
  = if b then F32.add s (F32.sub c s) else F32.add s F32.pos_zero.
Proof.
  unfold Lane.blend, F32.sub at 1. rewrite and_mask. destruct b; reflexivity.
Qed.

Lemma negate_under_spec v b :
  Lane.negate_under v (F32.mask_of b)
  = if b then F32.sub v (F32.mul v Lane.two_f) else F32.sub v F32.pos_zero.
Proof.
  unfold Lane.negate_under, F32.mul at 1. rewrite and_mask.
  destruct b; reflexivity.
Qed.


(** *** The sign test and the sign bit *)

Lemma decode_cases w :
  0 <= w < 2 ^ 32 ->
  F32.decode w = S754_nan
  \/ F32.decode w = S754_zero (F32.sign_field w)
  \/ F32.decode w = S754_infinity (F32.sign_field w)
  \/ exists m e, F32.decode w = S754_finite (F32.sign_field w) m e.
Proof.
  intros Hw. destruct (fields_sum w Hw) as (_ & HE & HM).
  destruct (Z.eq_dec (F32.exp_field w) 0) as [E0|E0].
  - destruct (Z.eq_dec (F32.frac_field w) 0) as [M0|M0].
    + right. left. apply decode_zero; assumption.
    + destruct (decode_subnormal w E0 ltac:(lia)) as (m & _ & Hd).
      right. right. right. eauto.
  - destruct (Z.eq_dec (F32.exp_field w) 255) as [E1|E1].
    + destruct (Z.eq_dec (F32.frac_field w) 0) as [M0|M0].
      * right. right. left. apply decode_infinity; assumption.
      * left. apply decode_nan; assumption.
    + destruct (decode_normal w ltac:(lia) ltac:(lia)) as (m & _ & Hd).
      right. right. right. eauto.
Qed.

(** [x < 0] holds of the patterns with the sign bit set, the NaNs and
    [-0.0] apart. *)
Lemma lt_zero_true w :
  0 <= w < 2 ^ 32 -> F32.lt_zero w = true ->
  F32.sign_field w = true /\ F32.is_nan w = false /\ w <> F32.pos_zero.
Proof.
  intros Hw Hlt. unfold F32.lt_zero, F32.is_nan in *.
  assert (Hnz : w <> F32.pos_zero) by (intros ->; discriminate Hlt).
  destruct (decode_cases w Hw) as [H|[H|[H|(m & e & H)]]];
    rewrite H in *; destruct (F32.sign_field w);
    cbn in Hlt; try discriminate Hlt;
    repeat apply conj; try reflexivity; assumption.
Qed.

Lemma lt_zero_false w :
  0 <= w < 2 ^ 32 -> F32.lt_zero w = false ->
  F32.is_nan w = false -> w <> F32.neg_zero ->
  F32.sign_field w = false.
Proof.
  intros Hw Hlt Hnan Hnz. unfold F32.lt_zero, F32.is_nan in *.
  destruct (decode_cases w Hw) as [H|[H|[H|(m & e & H)]]];
    rewrite H in *; try discriminate Hnan.
  - destruct (F32.sign_field w) eqn:Hs; [|reflexivity].
    exfalso. apply Hnz.
    rewrite <- (encode_decode w Hw) by (unfold F32.is_nan; rewrite H; reflexivity).
    rewrite H. reflexivity.
  - destruct (F32.sign_field w); [discriminate Hlt | reflexivity].
  - destruct (F32.sign_field w); [discriminate Hlt | reflexivity].
Qed.

Lemma opp_is_abs w :
  0 <= w < 2 ^ 32 -> F32.sign_field w = true -> F32.opp w = F32.abs w.
Proof.
  intros Hw Hs. destruct (fields_sum w Hw) as (Hsum & HE & HM).
  rewrite Hs in Hsum.
  remember (F32.exp_field w) as E. remember (F32.frac_field w) as M.
  rewrite Hsum, <- Z.add_assoc.
  rewrite opp_sum, abs_sum by lia. reflexivity.
Qed.

Lemma abs_of_positive w :
  0 <= w < 2 ^ 32 -> F32.sign_field w = false -> F32.abs w = w.
Proof.
  intros Hw Hs. destruct (fields_sum w Hw) as (Hsum & HE & HM).
  rewrite Hs in Hsum.
  remember (F32.exp_field w) as E. remember (F32.frac_field w) as M.
  rewrite Hsum, <- Z.add_assoc.
  rewrite abs_sum by lia. reflexivity.
Qed.

(** *** The first statement of an iteration *)

Lemma strip_sign_spec x :
  Lane.strip_sign x
  = if F32.lt_zero x then F32.sub x (F32.mul x Lane.two)
    else F32.sub x F32.pos_zero.
Proof.
  unfold Lane.strip_sign. rewrite cmp_lt_zero. unfold F32.mul at 1.
  rewrite and_mask. destruct (F32.lt_zero x); reflexivity.
Qed.

(** Line 268 computes [|x|] for every pattern that is not a NaN, is not
    [-0.0] and, when negative, is above [-2^127]. *)
Lemma strip_sign_abs x :
  0 <= x < 2 ^ 32 -> F32.is_nan x = false -> x <> F32.neg_zero ->
  (F32.lt_zero x = true -> F32.exp_field x < 254) ->
  Lane.strip_sign x = F32.abs x.
Proof.
  intros Hx Hnan Hnz Hbig. rewrite strip_sign_spec.
  destruct (F32.lt_zero x) eqn:Hlt.
  - destruct (lt_zero_true x Hx Hlt) as (Hs & _ & Hpz).
    unfold Lane.two. rewrite two_patterns.
    rewrite sub_twice by auto. apply opp_is_abs; assumption.
  - rewrite sub_pos_zero by assumption. symmetry.
    apply abs_of_positive; [assumption|].
    apply lt_zero_false; assumption.
Qed.

(** Where it does not: [-0.0] stays [-0.0], and [-2^127] becomes
    [+infinity]. *)
Lemma strip_sign_edge :
  Lane.strip_sign F32.neg_zero = F32.neg_zero
  /\ F32.abs F32.neg_zero = F32.pos_zero
  /\ Lane.strip_sign f_huge_negative = 0x7F800000
  /\ F32.abs f_huge_negative = 0x7F000000.
Proof. repeat apply conj; vm_compute; reflexivity. Qed.

(** Results of the arithmetic are patterns. *)
Lemma add_range a b : 0 <= F32.add a b < 2 ^ 32.
Proof. apply encode_range. Qed.

Lemma sub_range a b : 0 <= F32.sub a b < 2 ^ 32.
Proof. apply encode_range. Qed.

Lemma sqrt_range a : 0 <= F32.sqrt a < 2 ^ 32.
Proof. apply encode_range. Qed.

(** *** The absolute value of a pattern *)

Lemma abs_fields w :
  0 <= w < 2 ^ 32 ->
  0 <= F32.abs w < 2 ^ 32
  /\ F32.sign_field (F32.abs w) = false
  /\ F32.exp_field (F32.abs w) = F32.exp_field w
  /\ F32.frac_field (F32.abs w) = F32.frac_field w.
Proof.
  intros Hw. destruct (fields_sum w Hw) as (Hsum & HE & HM).
  remember (F32.exp_field w) as E. remember (F32.frac_field w) as M.
  remember (F32.sign_field w) as s.
  assert (Habs : F32.abs w = F32.sign_of false + 2 ^ 23 * E + M).
  { rewrite Hsum, <- Z.add_assoc, abs_sum by lia. reflexivity. }
  rewrite Habs. apply (fields_of_sum false E M HE HM).
Qed.

Lemma decode_abs w :
  0 <= w < 2 ^ 32 -> F32.decode (F32.abs w) = SFabs (F32.decode w).
Proof.
  intros Hw. destruct (abs_fields w Hw) as (_ & Hs & HE & HM).
  unfold F32.decode. rewrite Hs, HE, HM.
  destruct (F32.exp_field w =? 0).
  - destruct (F32.frac_field w); reflexivity.
  - destruct (F32.exp_field w =? 255).
    + destruct (F32.frac_field w); reflexivity.
    + destruct (F32.frac_field w + 2 ^ 23); reflexivity.
Qed.

Lemma abs_not_negative w :
  0 <= w < 2 ^ 32 -> F32.lt_zero (F32.abs w) = false.
Proof.
  intros Hw. unfold F32.lt_zero. rewrite decode_abs by exact Hw.
  destruct (F32.decode w) as [[]|[]| |[] ? ?]; reflexivity.
Qed.

Lemma abs_is_nan w :
  0 <= w < 2 ^ 32 -> F32.is_nan (F32.abs w) = F32.is_nan w.
Proof.
  intros Hw. unfold F32.is_nan. rewrite decode_abs by exact Hw.
  destruct (F32.decode w); reflexivity.
Qed.

Lemma strip_sign_of_abs x :
  0 <= x < 2 ^ 32 -> F32.is_nan x = false ->
  Lane.strip_sign (F32.abs x) = F32.abs x.
Proof.
  intros Hx Hnan. destruct (abs_fields x Hx) as (Hr & _).
  rewrite strip_sign_spec, abs_not_negative by exact Hx.
  apply sub_pos_zero; [exact Hr|]. rewrite abs_is_nan; assumption.
Qed.


(** *** NaN operands *)

Lemma is_nan_decode a : F32.is_nan a = true -> F32.decode a = S754_nan.
Proof.
  unfold F32.is_nan. destruct (F32.decode a); try discriminate. reflexivity.
Qed.

Lemma default_nan_is_nan : F32.is_nan F32.default_nan = true.
Proof. reflexivity. Qed.

Lemma sub_nan_l a b : F32.is_nan a = true -> F32.sub a b = F32.default_nan.
Proof.
  intros H. unfold F32.sub. rewrite (is_nan_decode a H). reflexivity.
Qed.

Lemma is_nan_sub_l a b : F32.is_nan (F32.sub a b) = false -> F32.is_nan a = false.
Proof.
  intros H. destruct (F32.is_nan a) eqn:E; [|reflexivity].
  rewrite (sub_nan_l a b E) in H. discriminate H.
Qed.

(** *** Patterns of the conversions *)

Lemma wrap32_range z : 0 <= F32.wrap32 z < 2 ^ 32.
Proof. unfold F32.wrap32. apply Z.mod_pos_bound. lia. Qed.

Lemma cvt_f32_i32_range a : 0 <= F32.cvt_f32_i32 a < 2 ^ 32.
Proof.
  unfold F32.cvt_f32_i32.
  destruct (F32.decode a) as [s|s| |s m e]; try (unfold F32.sign_bit; lia).
  destruct (_ && _); [apply wrap32_range | unfold F32.sign_bit; lia].
Qed.

(** *** A negative number whose double overflows *)

Lemma all_finite_bits_normal w :
  0 <= w < 2 ^ 32 -> F32.exp_field w = 254 ->
  exists m, Zpos (digits2_pos m) = 24
    /\ F32.decode w = S754_finite (F32.sign_field w) m 104.
Proof.
  intros Hw HE. destruct (fields_sum w Hw) as (_ & _ & HM).
  destruct (decode_normal w ltac:(lia) ltac:(lia)) as (m & Hm & Hd).
  exists m. split; [apply digits2_of_range; lia|].
  rewrite Hd, HE. reflexivity.
Qed.

Lemma strip_sign_overflows x :
  0 <= x < 2 ^ 32 -> F32.sign_field x = true -> F32.exp_field x = 254 ->
  F32.sub x (Z.land (F32.mul x Lane.two) (F32.cmp_lt x Lane.zero)) = 0x7F800000.
Proof.
  intros Hx Hs HE.
  destruct (all_finite_bits_normal x Hx HE) as (m & Hd & Hx').
  rewrite Hs in Hx'.
  rewrite cmp_lt_zero. unfold F32.lt_zero. rewrite Hx'.
  unfold F32.mul. rewrite and_mask. cbn [SFltb SFcompare].
  unfold Lane.two. rewrite two_patterns, decode_two, Hx'.
  rewrite SFmul_two_normal by (try exact Hd; lia).
  unfold F32.sub. rewrite Hx'. reflexivity.
Qed.

(** *** Orders of magnitude *)

Lemma SFat_least_inv k f :
  SFat_least k f = true ->
  f = S754_infinity false
  \/ exists m e, f = S754_finite false m e
       /\ Zpos (digits2_pos m) = 24 /\ k <= e <= 104.
Proof.
  destruct f as [s|[]| |[] m e]; cbn [SFat_least]; try discriminate; intros H.
  - left. reflexivity.
  - right. exists m, e. apply andb_prop in H. destruct H as [H H3].
    apply andb_prop in H. destruct H as [H1 H2].
    apply Z.eqb_eq in H1. apply Z.leb_le in H2, H3. auto.
Qed.

Lemma SFat_least_finite k m e :
  Zpos (digits2_pos m) = 24 -> k <= e <= 104 ->
  SFat_least k (S754_finite false m e) = true.
Proof.
  intros Hd He. cbn [SFat_least]. rewrite Hd.
  destruct (Z.leb_spec k e); [|lia]. destruct (Z.leb_spec e 104); [|lia].
  reflexivity.
Qed.

Lemma SFat_least_weaken k k' f :
  k' <= k -> SFat_least k f = true -> SFat_least k' f = true.
Proof.
  intros Hk H. destruct (SFat_least_inv k f H) as [->|(m & e & -> & Hd & He)];
    [reflexivity|].
  apply SFat_least_finite; [exact Hd | lia].
Qed.

Lemma SFat_least_overflow k f :
  104 < k -> SFat_least k f = true -> f = S754_infinity false.
Proof.
  intros Hk H. destruct (SFat_least_inv k f H) as [->|(m & e & _ & _ & He)];
    [reflexivity | lia].
Qed.

Lemma digits24_bounds m :
  Zpos (digits2_pos m) = 24 -> 2 ^ 23 <= Zpos m < 2 ^ 24.
Proof. intros H. pose proof (digits2_bounds m) as B. rewrite H in B. exact B. Qed.

Lemma SFat_least_round_trip k f :
  -149 <= k -> SFat_least k f = true -> F32.decode (F32.encode f) = f.
Proof.
  intros Hk H. destruct (SFat_least_inv k f H) as [->|(m & e & -> & Hd & He)];
    [reflexivity|].
  apply decode_encode_normal; [apply digits24_bounds, Hd | lia].
Qed.

(** Shifting right divides. *)
Lemma shr_1_m mrs : 0 <= shr_m mrs -> shr_m (shr_1 mrs) = shr_m mrs / 2.
Proof.
  destruct mrs as [m r s]. cbn [shr_m]. intros Hm.
  destruct m as [|[p|p|]|p]; cbn [shr_1 shr_m]; try lia;
    Z.div_mod_to_equations; lia.
Qed.

Lemma iter_shr_m p : forall mrs,
  0 <= shr_m mrs ->
  shr_m (SpecFloat.iter_pos shr_1 p mrs) = shr_m mrs / 2 ^ Zpos p.
Proof.
  assert (Hnn : forall q mrs, 0 <= shr_m mrs ->
            0 <= shr_m mrs / 2 ^ Zpos q)
    by (intros; apply Z.div_pos; lia).
  induction p as [p IH|p IH|]; intros mrs Hm; cbn [SpecFloat.iter_pos].
  - assert (H1 : 0 <= shr_m (shr_1 mrs)) by (rewrite shr_1_m; [apply Z.div_pos|]; lia).
    rewrite IH; [rewrite IH by exact H1|rewrite IH by exact H1; apply Hnn, H1].
    rewrite shr_1_m by exact Hm. rewrite !Z.div_div by lia.
    f_equal. rewrite (Pos2Z.inj_xI p).
    replace (2 * Zpos p + 1) with (1 + Zpos p + Zpos p) by lia.
    rewrite !Z.pow_add_r by lia. lia.
  - rewrite IH; [rewrite IH by exact Hm|rewrite IH by exact Hm; apply Hnn, Hm].
    rewrite !Z.div_div by lia. f_equal. rewrite (Pos2Z.inj_xO p).
    replace (2 * Zpos p) with (Zpos p + Zpos p) by lia.
    rewrite !Z.pow_add_r by lia. lia.
  - apply shr_1_m, Hm.
Qed.

Lemma round_nearest_even_bounds m l :
  m <= round_nearest_even m l <= m + 1.
Proof.
  destruct l as [|[]]; cbn [round_nearest_even]; try lia.
  destruct (Z.even m); lia.
Qed.

(** Rounding keeps the order of magnitude: a mantissa of [d >= 24] digits
    at exponent [e] rounds to a normal number of exponent at least
    [d + e - 24], or overflows. *)
Lemma round_aux_at_least m e :
  24 <= Zpos (digits2_pos m) -> -149 <= Zpos (digits2_pos m) + e - 24 ->
  SFat_least (Zpos (digits2_pos m) + e - 24)
    (binary_round_aux F32.prec F32.emax false (Zpos m) e loc_Exact) = true.
Proof.
  intros Hd He. set (d := Zpos (digits2_pos m)) in *.
  destruct (Z.eq_dec d 24) as [E|E].
  - rewrite round_on_grid by (apply on_grid_normal; [exact E | lia]).
    destruct (Z.leb_spec e 104); [|reflexivity].
    apply SFat_least_finite; [exact E | lia].
  - pose proof (digits2_bounds m) as Hm. fold d in Hm.
    assert (Hn : exists p, d - 24 = Zpos p).
    { destruct (d - 24) as [|p|p] eqn:En; try lia. exists p. reflexivity. }
    destruct Hn as [p Hp].
    unfold binary_round_aux.
    assert (H1 : shr_fexp F32.prec F32.emax (Zpos m) e loc_Exact
                 = (SpecFloat.iter_pos shr_1 p
                      (Build_shr_record (Zpos m) false false), e + Zpos p)).
    { unfold shr_fexp. cbn [Zdigits2 shr_record_of_loc]. fold d.
      rewrite fexp32_eq.
      replace (Z.max (d + e - 24) (-149) - e) with (Zpos p) by lia.
      reflexivity. }
    rewrite H1.
    set (mrs := SpecFloat.iter_pos shr_1 p (Build_shr_record (Zpos m) false false)).
    assert (Hm1 : shr_m mrs = Zpos m / 2 ^ Zpos p).
    { unfold mrs. rewrite iter_shr_m by (cbn; lia). reflexivity. }
    assert (Hr1 : 2 ^ 23 <= shr_m mrs < 2 ^ 24).
    { rewrite Hm1. replace d with (24 + Zpos p) in Hm by lia.
      replace (24 + Zpos p - 1) with (23 + Zpos p) in Hm by lia.
      rewrite !Z.pow_add_r in Hm by lia.
      assert (0 < 2 ^ Zpos p) by (apply Z.pow_pos_nonneg; lia).
      split.
      - apply Z.div_le_lower_bound; lia.
      - apply Z.div_lt_upper_bound; lia. }
    pose proof (round_nearest_even_bounds (shr_m mrs) (loc_of_shr_record mrs)) as Hr.
    destruct (round_nearest_even (shr_m mrs) (loc_of_shr_record mrs))
      as [|q|q] eqn:Eq; try lia.
    destruct (Z.eq_dec (Zpos q) (2 ^ 24)) as [Etop|Etop].
    + assert (q = 16777216%positive) by lia. subst q.
      unfold shr_fexp. cbn [Zdigits2 shr_record_of_loc].
      change (Zpos (digits2_pos 16777216)) with 25.
      rewrite fexp32_eq.
      replace (Z.max (25 + (e + Zpos p) - 24) (-149) - (e + Zpos p)) with 1 by lia.
      cbn [shr SpecFloat.iter_pos shr_1 orb shr_m].
      destruct (Z.leb_spec (e + Z.pos p + 1) (F32.emax - F32.prec)) as [Hle|Hgt];
        [|reflexivity].
      change (F32.emax - F32.prec) with 104 in Hle.
      apply SFat_least_finite; [reflexivity | lia].
    + assert (Hq : Zpos (digits2_pos q) = 24) by (apply digits2_of_range; lia).
      rewrite shr_fexp_on_grid by (apply on_grid_normal; [exact Hq | lia]).
      cbn [shr_m].
      destruct (Z.leb_spec (e + Z.pos p) (F32.emax - F32.prec)) as [Hle|Hgt];
        [|reflexivity].
      change (F32.emax - F32.prec) with 104 in Hle.
      apply SFat_least_finite; [exact Hq | lia].
Qed.

Lemma digits2_lower m j : 0 <= j -> 2 ^ j <= Zpos m -> j + 1 <= Zpos (digits2_pos m).
Proof.
  intros Hj Hm. destruct (digits2_bounds m) as [_ Hhi].
  destruct (Z.lt_ge_cases j (Zpos (digits2_pos m))) as [H|H]; [lia|].
  assert (2 ^ Zpos (digits2_pos m) <= 2 ^ j) by (apply Z.pow_le_mono_r; lia).
  lia.
Qed.

Lemma iter_xO_value m p : Zpos (Pos.iter xO m p) = Zpos m * 2 ^ Zpos p.
Proof.
  induction p as [|p IH] using Pos.peano_ind.
  - cbn [Pos.iter]. rewrite (Pos2Z.inj_xO m). lia.
  - rewrite Pos.iter_succ, (Pos2Z.inj_xO (Pos.iter xO m p)), IH.
    rewrite Pos2Z.inj_succ, Z.pow_succ_r by lia. lia.
Qed.

Lemma shl_align_fst m e ez :
  ez <= e -> Zpos (fst (shl_align m e ez)) = Zpos m * 2 ^ (e - ez).
Proof.
  intros H. unfold shl_align.
  destruct (ez - e) as [|p|p] eqn:E; try lia.
  - replace (e - ez) with 0 by lia. cbn [fst]. lia.
  - cbn [fst]. rewrite iter_xO_value. f_equal. f_equal. lia.
Qed.

Lemma binary_round_at_least m e k :
  -149 <= k -> k + 24 <= Zpos (digits2_pos m) + e ->
  SFat_least k (binary_round F32.prec F32.emax false m e) = true.
Proof.
  intros Hk Hd. unfold binary_round. rewrite fexp32_eq.
  replace (Z.max (Zpos (digits2_pos m) + e - 24) (-149))
    with (Zpos (digits2_pos m) + e - 24) by lia.
  unfold shl_align.
  destruct (Zpos (digits2_pos m) + e - 24 - e) as [|p|p] eqn:E.
  - apply (SFat_least_weaken (Zpos (digits2_pos m) + e - 24)); [lia|].
    apply round_aux_at_least; lia.
  - apply (SFat_least_weaken (Zpos (digits2_pos m) + e - 24)); [lia|].
    apply round_aux_at_least; lia.
  - pose proof (digits2_iter_xO m p) as Hs.
    apply (SFat_least_weaken
             (Zpos (digits2_pos (Pos.iter xO m p))
              + (Zpos (digits2_pos m) + e - 24) - 24)); [lia|].
    apply round_aux_at_least; lia.
Qed.

(** A positive integer [M >= 2^j] at exponent [e] normalises to a number
    of exponent at least [j + e - 23]. *)
Lemma normalize_at_least M e j k :
  0 <= j -> 2 ^ j <= M -> -149 <= k -> k + 23 <= j + e ->
  SFat_least k (binary_normalize F32.prec F32.emax M e false) = true.
Proof.
  intros Hj HM Hk Hke.
  assert (0 < 2 ^ j) by (apply Z.pow_pos_nonneg; lia).
  destruct M as [|m|m]; try lia. cbn [binary_normalize].
  apply binary_round_at_least; [exact Hk|].
  pose proof (digits2_lower m j Hj HM). lia.
Qed.

Lemma SFmul_at_least k1 k2 x y :
  SFat_least k1 x = true -> SFat_least k2 y = true -> -172 <= k1 + k2 ->
  SFat_least (k1 + k2 + 23) (SFmul F32.prec F32.emax x y) = true.
Proof.
  intros Hx Hy Hk.
  destruct (SFat_least_inv k1 x Hx) as [->|(m1 & e1 & -> & Hd1 & He1)];
    destruct (SFat_least_inv k2 y Hy) as [->|(m2 & e2 & -> & Hd2 & He2)];
    try reflexivity.
  cbn [SFmul xorb].
  pose proof (digits24_bounds m1 Hd1) as B1.
  pose proof (digits24_bounds m2 Hd2) as B2.
  assert (HD : 47 <= Zpos (digits2_pos (m1 * m2))).
  { apply (digits2_lower (m1 * m2) 46); [lia|].
    rewrite Pos2Z.inj_mul. change (2 ^ 46) with (2 ^ 23 * 2 ^ 23). nia. }
  apply (SFat_least_weaken (Zpos (digits2_pos (m1 * m2)) + (e1 + e2) - 24)); [lia|].
  apply round_aux_at_least; lia.
Qed.

Lemma at_least_round_trip k f :
  -149 <= k -> SFat_least k f = true -> at_least k (F32.encode f) = true.
Proof.
  intros Hk H. unfold at_least. rewrite (SFat_least_round_trip k f Hk H). exact H.
Qed.

Lemma mul_at_least k1 k2 a b :
  at_least k1 a = true -> at_least k2 b = true -> -172 <= k1 + k2 ->
  at_least (k1 + k2 + 23) (F32.mul a b) = true.
Proof.
  intros Ha Hb Hk. unfold F32.mul. apply at_least_round_trip; [lia|].
  apply SFmul_at_least; assumption.
Qed.

Lemma at_least_weaken k k' a :
  k' <= k -> at_least k a = true -> at_least k' a = true.
Proof. apply SFat_least_weaken. Qed.

(** Subtracting a negative number, or adding a positive one, does not
    lower the order of magnitude. *)
Lemma SFsub_negative_at_least k x mc ec :
  -149 <= k -> SFat_least k x = true ->
  SFat_least k (SFsub F32.prec F32.emax x (S754_finite true mc ec)) = true.
Proof.
  intros Hk Hx.
  destruct (SFat_least_inv k x Hx) as [->|(m & e & -> & Hd & He)];
    [reflexivity|].
  cbn [SFsub cond_Zopp].
  pose proof (digits24_bounds m Hd) as B.
  set (ez := Z.min e ec).
  rewrite !shl_align_fst by (unfold ez; lia).
  assert (0 < 2 ^ (ec - ez)) by (apply Z.pow_pos_nonneg; unfold ez; lia).
  apply (normalize_at_least _ ez (23 + (e - ez))); try (unfold ez; lia).
  rewrite Z.pow_add_r by (unfold ez; lia).
  assert (0 < 2 ^ (e - ez)) by (apply Z.pow_pos_nonneg; unfold ez; lia).
  nia.
Qed.

Lemma SFadd_positive_at_least k x mc ec :
  -149 <= k -> SFat_least k x = true ->
  SFat_least k (SFadd F32.prec F32.emax x (S754_finite false mc ec)) = true.
Proof.
  intros Hk Hx.
  destruct (SFat_least_inv k x Hx) as [->|(m & e & -> & Hd & He)];
    [reflexivity|].
  cbn [SFadd cond_Zopp].
  pose proof (digits24_bounds m Hd) as B.
  set (ez := Z.min e ec).
  rewrite !shl_align_fst by (unfold ez; lia).
  assert (0 < 2 ^ (ec - ez)) by (apply Z.pow_pos_nonneg; unfold ez; lia).
  apply (normalize_at_least _ ez (23 + (e - ez))); try (unfold ez; lia).
  rewrite Z.pow_add_r by (unfold ez; lia).
  assert (0 < 2 ^ (e - ez)) by (apply Z.pow_pos_nonneg; unfold ez; lia).
  nia.
Qed.

(** Subtracting a much smaller positive number lowers it by one at most. *)
Lemma SFsub_small_at_least k x mc ec :
  -148 <= k -> SFat_least k x = true ->
  Zpos (digits2_pos mc) <= 24 -> ec + 2 <= k ->
  SFat_least (k - 1) (SFsub F32.prec F32.emax x (S754_finite false mc ec)) = true.
Proof.
  intros Hk Hx Hc Hec.
  destruct (SFat_least_inv k x Hx) as [->|(m & e & -> & Hd & He)];
    [reflexivity|].
  cbn [SFsub cond_Zopp].
  pose proof (digits24_bounds m Hd) as B.
  assert (Bc : Zpos mc < 2 ^ 24).
  { destruct (digits2_bounds mc) as [_ Hhi].
    assert (2 ^ Zpos (digits2_pos mc) <= 2 ^ 24) by (apply Z.pow_le_mono_r; lia).
    lia. }
  replace (Z.min e ec) with ec by lia.
  rewrite !shl_align_fst by lia.
  rewrite Z.sub_diag, Z.mul_1_r.
  apply (normalize_at_least _ ec (22 + (e - ec))); try lia.
  rewrite Z.pow_add_r by lia.
  assert (2 ^ 2 <= 2 ^ (e - ec)) by (apply Z.pow_le_mono_r; lia).
  nia.
Qed.

(** The fused operation, when its addend carries the magnitude... *)
Lemma SFfma_addend_at_least k mx ex my ey z :
  -149 <= k -> SFat_least k z = true ->
  SFat_least k (F32.SFfma (S754_finite false mx ex) (S754_finite false my ey) z)
  = true.
Proof.
  intros Hk Hz.
  destruct (SFat_least_inv k z Hz) as [->|(m & e & -> & Hd & He)];
    [reflexivity|].
  cbn [F32.SFfma xorb cond_Zopp].
  pose proof (digits24_bounds m Hd) as B.
  set (ep := ex + ey). set (ez := Z.min ep e).
  assert (0 < 2 ^ (ep - ez)) by (apply Z.pow_pos_nonneg; unfold ez; lia).
  assert (0 < 2 ^ (e - ez)) by (apply Z.pow_pos_nonneg; unfold ez; lia).
  apply (normalize_at_least _ ez (23 + (e - ez))); try (unfold ez; lia).
  rewrite Z.pow_add_r by (unfold ez; lia).
  nia.
Qed.

(** ... and when its product does. *)
Lemma SFfma_product_at_least k1 k2 x y sz mz ez :
  -149 <= k1 + k2 + 22 ->
  SFat_least k1 x = true -> SFat_least k2 y = true ->
  Zpos (digits2_pos mz) <= 24 -> ez <= k1 + k2 + 21 ->
  SFat_least (k1 + k2 + 22) (F32.SFfma x y (S754_finite sz mz ez)) = true.
Proof.
  intros Hk Hx Hy Hc Hez.
  destruct (SFat_least_inv k1 x Hx) as [->|(m1 & e1 & -> & Hd1 & He1)];
    destruct (SFat_least_inv k2 y Hy) as [->|(m2 & e2 & -> & Hd2 & He2)];
    try reflexivity.
  cbn [F32.SFfma xorb cond_Zopp].
  pose proof (digits24_bounds m1 Hd1) as B1.
  pose proof (digits24_bounds m2 Hd2) as B2.
  assert (Bc : Zpos mz < 2 ^ 24).
  { destruct (digits2_bounds mz) as [_ Hhi].
    assert (2 ^ Zpos (digits2_pos mz) <= 2 ^ 24) by (apply Z.pow_le_mono_r; lia).
    lia. }
  set (ep := e1 + e2). set (e := Z.min ep ez).
  assert (Hp : 0 < 2 ^ (ep - e)) by (apply Z.pow_pos_nonneg; unfold e; lia).
  assert (Hz : 0 < 2 ^ (ez - e)) by (apply Z.pow_pos_nonneg; unfold e; lia).
  assert (Hzp : 2 ^ (ez - e) * 2 ^ 24 <= 2 ^ (ep - e) * 2 ^ 45).
  { rewrite <- !Z.pow_add_r by (unfold e; lia).
    apply Z.pow_le_mono_r; unfold e; lia. }
  assert (Hprod : 2 ^ 46 <= Zpos (m1 * m2)).
  { rewrite Pos2Z.inj_mul. change (2 ^ 46) with (2 ^ 23 * 2 ^ 23). nia. }
  apply (normalize_at_least _ e (45 + (ep - e))); try (unfold ep, e; lia).
  rewrite Z.pow_add_r by (unfold e; lia).
  assert (Hc1 : - (Zpos mz * 2 ^ (ez - e)) <= cond_Zopp sz (Zpos mz) * 2 ^ (ez - e)).
  { destruct sz; cbn [cond_Zopp]; nia. }
  change (2 ^ 46) with (2 * 2 ^ 45) in Hprod.
  nia.
Qed.

(** Dividing by eight lowers the exponent by three. *)
Lemma SFdiv_eight_at_least k x :
  -145 <= k -> SFat_least k x = true ->
  SFat_least (k - 3)
    (SFdiv F32.prec F32.emax x (S754_finite false 8388608 (-20))) = true.
Proof.
  intros Hk Hx.
  destruct (SFat_least_inv k x Hx) as [->|(m & e & -> & Hd & He)];
    [reflexivity|].
  cbn [SFdiv xorb]. unfold SFdiv_core_binary. cbn [Zdigits2]. rewrite Hd.
  change (Zpos (digits2_pos 8388608)) with 24.
  rewrite fexp32_eq.
  replace (Z.min (Z.max (24 + e - (24 + -20) - 24) (-149)) (e - -20))
    with (e - 4) by lia.
  replace (e - -20 - (e - 4)) with 24 by lia.
  assert (Hq : Z.div_eucl (Z.shiftl (Zpos m) 24) (Zpos 8388608)
               = (Zpos (xO m), 0)).
  { rewrite Z.shiftl_mul_pow2 by lia.
    pose proof (Z.div_eucl_eq (Zpos m * 2 ^ 24) (Zpos 8388608) ltac:(lia)) as Heq.
    pose proof (Z.mod_pos_bound (Zpos m * 2 ^ 24) (Zpos 8388608) ltac:(lia)) as Hb.
    unfold Z.modulo in Hb.
    destruct (Z.div_eucl (Zpos m * 2 ^ 24) (Zpos 8388608)) as [q r].
    rewrite (Pos2Z.inj_xO m). f_equal; lia. }
  rewrite Hq. cbn [new_location Z.even new_location_even Z.eqb].
  apply (SFat_least_weaken (Zpos (digits2_pos (xO m)) + (e - 4) - 24)).
  - cbn [digits2_pos]. rewrite Pos2Z.inj_succ, Hd. lia.
  - apply round_aux_at_least; cbn [digits2_pos];
      rewrite Pos2Z.inj_succ, Hd; lia.
Qed.

(** A number of at least [2^31] has no 32-bit integer part. *)
Lemma floor_index_saturates p :
  at_least 8 p = true -> F32.cvt_f32_i32 (F32.floor p) = F32.sign_bit.
Proof.
  unfold at_least. intros H.
  destruct (SFat_least_inv 8 _ H) as [E|(m & e & E & Hd & He)].
  - unfold F32.floor. rewrite E. reflexivity.
  - unfold F32.floor. rewrite E. cbn [F32.SFfloor].
    destruct (Z.leb_spec 0 e) as [_|]; [|lia].
    assert (Hrt : F32.decode (F32.encode (S754_finite false m e))
                  = S754_finite false m e).
    { apply (SFat_least_round_trip 8); [lia|]. rewrite <- E. exact H. }
    unfold F32.cvt_f32_i32. rewrite Hrt.
    unfold F32.rne_int. destruct (Z.leb_spec 0 e) as [_|]; [|lia].
    cbn [cond_Zopp].
    pose proof (digits24_bounds m Hd) as B.
    assert (2 ^ 8 <= 2 ^ e) by (apply Z.pow_le_mono_r; lia).
    destruct (Z.ltb_spec (Zpos m * 2 ^ e) (2 ^ 31)) as [Hlt|_]; [nia|].
    rewrite andb_false_r. reflexivity.
Qed.

(** *** The same on patterns *)

Lemma sub_negative_at_least k a c mc ec :
  -149 <= k -> at_least k a = true -> F32.decode c = S754_finite true mc ec ->
  at_least k (F32.sub a c) = true.
Proof.
  intros Hk Ha Hc. unfold F32.sub. rewrite Hc.
  apply at_least_round_trip; [exact Hk|].
  apply SFsub_negative_at_least; assumption.
Qed.

Lemma add_positive_at_least k a c mc ec :
  -149 <= k -> at_least k a = true -> F32.decode c = S754_finite false mc ec ->
  at_least k (F32.add a c) = true.
Proof.
  intros Hk Ha Hc. unfold F32.add. rewrite Hc.
  apply at_least_round_trip; [exact Hk|].
  apply SFadd_positive_at_least; assumption.
Qed.

Lemma sub_small_at_least k a c mc ec :
  -148 <= k -> at_least k a = true -> F32.decode c = S754_finite false mc ec ->
  Zpos (digits2_pos mc) <= 24 -> ec + 2 <= k ->
  at_least (k - 1) (F32.sub a c) = true.
Proof.
  intros Hk Ha Hc Hd He. unfold F32.sub. rewrite Hc.
  apply at_least_round_trip; [lia|].
  apply SFsub_small_at_least; assumption.
Qed.

Lemma fnmadd_addend_at_least k q c a mq eq mc ec :
  -149 <= k -> F32.decode q = S754_finite true mq eq ->
  F32.decode c = S754_finite false mc ec -> at_least k a = true ->
  at_least k (F32.fnmadd q c a) = true.
Proof.
  intros Hk Hq Hc Ha. unfold F32.fnmadd. rewrite Hq, Hc. cbn [SFopp negb].
  apply at_least_round_trip; [exact Hk|].
  apply SFfma_addend_at_least; assumption.
Qed.

Lemma fmadd_product_at_least k1 k2 a b c sc mc ec :
  -149 <= k1 + k2 + 22 -> at_least k1 a = true -> at_least k2 b = true ->
  F32.decode c = S754_finite sc mc ec ->
  Zpos (digits2_pos mc) <= 24 -> ec <= k1 + k2 + 21 ->
  at_least (k1 + k2 + 22) (F32.fmadd a b c) = true.
Proof.
  intros Hk Ha Hb Hc Hd He. unfold F32.fmadd. rewrite Hc.
  apply at_least_round_trip; [exact Hk|].
  apply SFfma_product_at_least; assumption.
Qed.

Lemma fmsub_product_at_least k1 k2 a b c sc mc ec :
  -149 <= k1 + k2 + 22 -> at_least k1 a = true -> at_least k2 b = true ->
  F32.decode c = S754_finite sc mc ec ->
  Zpos (digits2_pos mc) <= 24 -> ec <= k1 + k2 + 21 ->
  at_least (k1 + k2 + 22) (F32.fmsub a b c) = true.
Proof.
  intros Hk Ha Hb Hc Hd He. unfold F32.fmsub. rewrite Hc. cbn [SFopp].
  apply at_least_round_trip; [exact Hk|].
  apply SFfma_product_at_least; assumption.
Qed.

Lemma div_eight_at_least k a :
  -145 <= k -> at_least k a = true ->
  at_least (k - 3) (F32.div a Lane.eight) = true.
Proof.
  intros Hk Ha. unfold F32.div.
  replace (F32.decode Lane.eight) with (S754_finite false 8388608 (-20))
    by (vm_compute; reflexivity).
  apply at_least_round_trip; [lia|].
  apply SFdiv_eight_at_least; assumption.
Qed.

(** Past the largest exponent only infinity is left. *)
Lemma at_least_infinity k w :
  104 < k -> 0 <= w < 2 ^ 32 -> at_least k w = true -> w = 0x7F800000.
Proof.
  intros Hk Hw H. unfold at_least in H.
  pose proof (SFat_least_overflow k _ Hk H) as E.
  rewrite <- (encode_decode w Hw) by (unfold F32.is_nan; rewrite E; reflexivity).
  rewrite E. reflexivity.
Qed.

Lemma mul_range a b : 0 <= F32.mul a b < 2 ^ 32.
Proof. apply encode_range. Qed.

Lemma fmsub_range a b c : 0 <= F32.fmsub a b c < 2 ^ 32.
Proof. apply encode_range. Qed.

(** Infinity times a large number, plus or minus a finite one. *)
Lemma mul_infinity k b :
  at_least k b = true -> F32.mul 0x7F800000 b = 0x7F800000.
Proof.
  unfold at_least. intros H. unfold F32.mul.
  change (F32.decode 0x7F800000) with (S754_infinity false).
  destruct (SFat_least_inv k _ H) as [->|(m & e & -> & _)]; reflexivity.
Qed.

Lemma fmadd_infinity k b c sc mc ec :
  at_least k b = true -> F32.decode c = S754_finite sc mc ec ->
  F32.fmadd 0x7F800000 b c = 0x7F800000.
Proof.
  unfold at_least. intros H Hc. unfold F32.fmadd. rewrite Hc.
  change (F32.decode 0x7F800000) with (S754_infinity false).
  destruct (SFat_least_inv k _ H) as [->|(m & e & -> & _)]; reflexivity.
Qed.

Lemma abs_at_least x :
  0 <= x < 2 ^ 32 -> 158 <= F32.exp_field x <= 254 ->
  at_least 8 (F32.abs x) = true.
Proof.
  intros Hx HE. destruct (abs_fields x Hx) as (Hr & Hs & HE' & HM).
  destruct (fields_sum (F32.abs x) Hr) as (_ & _ & HMr).
  destruct (decode_normal (F32.abs x) ltac:(lia) ltac:(lia)) as (m & Hm & Hd).
  unfold at_least. rewrite Hd, Hs.
  apply SFat_least_finite; [apply digits2_of_range; lia | lia].
Qed.

(** *** Rounding, mantissa by mantissa *)

Lemma round_aux_unshifted P E :
  F32.fexp32 (Zpos (digits2_pos P) + E) - E <= 0 ->
  binary_round_aux F32.prec F32.emax false (Zpos P) E loc_Exact
  = finite_or_infinity P E.
Proof.
  intros Hn. unfold binary_round_aux.
  assert (H1 : shr_fexp F32.prec F32.emax (Zpos P) E loc_Exact
               = (Build_shr_record (Zpos P) false false, E)).
  { unfold shr_fexp. cbn [Zdigits2 shr_record_of_loc].
    destruct (F32.fexp32 (Zpos (digits2_pos P) + E) - E) as [|p|p];
      try lia; reflexivity. }
  rewrite H1. cbn [shr_m loc_of_shr_record round_nearest_even].
  rewrite H1. reflexivity.
Qed.

(** *** Rounding to nearest, ties to even *)

Lemma iter_pos_iter {A : Type} (f : A -> A) p : forall x,
  SpecFloat.iter_pos f p x = Pos.iter f x p.
Proof.
  induction p as [p IH|p IH|]; intros x; cbn [SpecFloat.iter_pos Pos.iter].
  - rewrite !IH. rewrite <- !Pos.iter_swap. reflexivity.
  - rewrite !IH. reflexivity.
  - reflexivity.
Qed.

Lemma shr_1_record m r s :
  0 <= m ->
  shr_1 (Build_shr_record m r s) = Build_shr_record (m / 2) (Z.odd m) (r || s).
Proof.
  intros Hm. destruct m as [|[p|p|]|p]; cbn [shr_1 Z.odd]; try lia.
  - reflexivity.
  - f_equal. rewrite (Pos2Z.inj_xI p). Z.div_mod_to_equations. lia.
  - f_equal. rewrite (Pos2Z.inj_xO p). Z.div_mod_to_equations. lia.
  - reflexivity.
Qed.

(** What is left of a mantissa after [p] bits are shifted out: the
    quotient, whether the remainder reaches the half, and whether it is
    neither nothing nor the half. *)
Lemma shr_record_after p : forall m,
  0 <= m ->
  SpecFloat.iter_pos shr_1 p (Build_shr_record m false false)
  = Build_shr_record (m / 2 ^ Zpos p)
      (2 ^ (Zpos p - 1) <=? m mod 2 ^ Zpos p)
      (negb (m mod 2 ^ Zpos p =? 0) && negb (m mod 2 ^ Zpos p =? 2 ^ (Zpos p - 1))).
Proof.
  intros m Hm. rewrite iter_pos_iter.
  induction p as [|p IH] using Pos.peano_ind.
  - cbn [Pos.iter]. rewrite shr_1_record by exact Hm.
    change (2 ^ 1) with 2. change (2 ^ (1 - 1)) with 1.
    pose proof (Z.mod_pos_bound m 2 ltac:(lia)) as Hb.
    rewrite Zodd_mod. f_equal.
    + destruct (Z.eqb_spec (m mod 2) 1), (Z.leb_spec 1 (m mod 2)); lia || reflexivity.
    + destruct (Z.eqb_spec (m mod 2) 0), (Z.eqb_spec (m mod 2) 1); lia || reflexivity.
  - rewrite Pos.iter_succ, IH.
    assert (Hp : 0 < 2 ^ Zpos p) by (apply Z.pow_pos_nonneg; lia).
    assert (Hh : 0 < 2 ^ (Zpos p - 1)) by (apply Z.pow_pos_nonneg; lia).
    assert (Hq : 0 <= m / 2 ^ Zpos p) by (apply Z.div_pos; lia).
    rewrite shr_1_record by exact Hq.
    rewrite Pos2Z.inj_succ.
    replace (Z.succ (Zpos p) - 1) with (Zpos p) by lia.
    rewrite Z.pow_succ_r by lia.
    assert (Hpp : 2 ^ Zpos p = 2 * 2 ^ (Zpos p - 1)).
    { rewrite <- Z.pow_succ_r by lia. f_equal. lia. }
    pose proof (Z.div_mod m (2 ^ Zpos p) ltac:(lia)) as E1.
    pose proof (Z.mod_pos_bound m (2 ^ Zpos p) Hp) as B1.
    pose proof (Z.div_mod (m / 2 ^ Zpos p) 2 ltac:(lia)) as E2.
    pose proof (Z.mod_pos_bound (m / 2 ^ Zpos p) 2 ltac:(lia)) as B2.
    set (q := m / 2 ^ Zpos p) in *. set (rem := m mod 2 ^ Zpos p) in *.
    set (P := 2 ^ Zpos p) in *. set (h := 2 ^ (Zpos p - 1)) in *.
    assert (Hm2 : m = 2 * P * (q / 2) + (rem + P * (q mod 2))).
    { transitivity (P * q + rem); [exact E1|].
      transitivity (P * (2 * (q / 2) + q mod 2) + rem); [|ring].
      f_equal. f_equal. exact E2. }
    assert (Hb : q mod 2 = 0 \/ q mod 2 = 1) by lia.
    assert (Hrb : 0 <= rem + P * (q mod 2) < 2 * P)
      by (destruct Hb as [Hb|Hb]; rewrite Hb; lia).
    assert (Hdiv : m / (2 * P) = q / 2).
    { symmetry. apply (Z.div_unique m (2 * P) (q / 2) (rem + P * (q mod 2)));
        [left; exact Hrb | exact Hm2]. }
    assert (Hmod : m mod (2 * P) = rem + P * (q mod 2)).
    { symmetry. apply (Z.mod_unique m (2 * P) (q / 2) (rem + P * (q mod 2)));
        [left; exact Hrb | exact Hm2]. }
    rewrite Hdiv, Hmod, Zodd_mod. clear Hdiv Hmod Hm2 E2.
    destruct Hb as [Hb|Hb]; rewrite Hb in *; f_equal.
    + destruct (Z.leb_spec P (rem + P * 0)); lia || reflexivity.
    + destruct (Z.leb_spec h rem), (Z.eqb_spec rem 0), (Z.eqb_spec rem h),
        (Z.eqb_spec (rem + P * 0) 0), (Z.eqb_spec (rem + P * 0) P);
        cbn [negb andb orb]; try reflexivity; lia.
    + destruct (Z.leb_spec P (rem + P * 1)); lia || reflexivity.
    + destruct (Z.leb_spec h rem), (Z.eqb_spec rem 0), (Z.eqb_spec rem h),
        (Z.eqb_spec (rem + P * 1) 0), (Z.eqb_spec (rem + P * 1) P);
        cbn [negb andb orb]; try reflexivity; lia.
Qed.

(** The mantissa rounding to nearest gives, from the quotient and the
    remainder. *)
Lemma round_after_shift p m :
  0 <= m ->
  let mrs := SpecFloat.iter_pos shr_1 p (Build_shr_record m false false) in
  let mr := round_nearest_even (shr_m mrs) (loc_of_shr_record mrs) in
  (mr = m / 2 ^ Zpos p \/ mr = m / 2 ^ Zpos p + 1)
  /\ 2 * Z.abs (mr * 2 ^ Zpos p - m) <= 2 ^ Zpos p
  /\ (2 * Z.abs (mr * 2 ^ Zpos p - m) = 2 ^ Zpos p -> Z.even mr = true).
Proof.
  intros Hm mrs mr. subst mr mrs. rewrite shr_record_after by exact Hm.
  assert (Hp : 0 < 2 ^ Zpos p) by (apply Z.pow_pos_nonneg; lia).
  assert (Hpp : 2 ^ Zpos p = 2 * 2 ^ (Zpos p - 1)).
  { rewrite <- Z.pow_succ_r by lia. f_equal. lia. }
  pose proof (Z.div_mod m (2 ^ Zpos p) ltac:(lia)) as E1.
  pose proof (Z.mod_pos_bound m (2 ^ Zpos p) Hp) as B1.
  set (q := m / 2 ^ Zpos p) in *. set (rem := m mod 2 ^ Zpos p) in *.
  set (P := 2 ^ Zpos p) in *. set (h := 2 ^ (Zpos p - 1)) in *.
  cbn [shr_m loc_of_shr_record].
  destruct (Z.leb_spec h rem) as [Hr|Hr];
    destruct (Z.eqb_spec rem 0) as [H0|H0];
    destruct (Z.eqb_spec rem h) as [Hh|Hh];
    cbn [negb andb round_nearest_even]; try lia.
  (* what is left is the tie *)
  destruct (Z.even q) eqn:Ev.
  - split; [left; reflexivity|]. split; [lia|]. intros _. exact Ev.
  - split; [right; reflexivity|]. split; [lia|]. intros _.
    rewrite Z.even_add, Ev. reflexivity.
Qed.

(** With [p] bits to shift out, the mantissa of the result is the integer
    nearest to [P / 2^p], the even one of the two when [P] lies half-way;
    a mantissa that reaches [2^24] is renormalised. *)
Lemma round_aux_nearest P E p :
  F32.fexp32 (Zpos (digits2_pos P) + E) - E = Zpos p ->
  exists mr,
    Zpos P / 2 ^ Zpos p <= mr <= Zpos P / 2 ^ Zpos p + 1
    /\ 2 * Z.abs (mr * 2 ^ Zpos p - Zpos P) <= 2 ^ Zpos p
    /\ (2 * Z.abs (mr * 2 ^ Zpos p - Zpos P) = 2 ^ Zpos p -> Z.even mr = true)
    /\ mr <= 2 ^ 24
    /\ (2 ^ 23 <= mr \/ E + Zpos p = -149)
    /\ binary_round_aux F32.prec F32.emax false (Zpos P) E loc_Exact
       = match mr with
         | Z0 => S754_zero false
         | Zpos q =>
             if Zpos q =? 2 ^ 24
             then finite_or_infinity 8388608 (E + Zpos p + 1)
             else finite_or_infinity q (E + Zpos p)
         | Zneg _ => S754_nan
         end.
Proof.
  intros Hn. rewrite fexp32_eq in Hn.
  set (d := Zpos (digits2_pos P)) in *.
  pose proof (digits2_bounds P) as Hb. fold d in Hb.
  assert (Hpow : 0 < 2 ^ Zpos p) by (apply Z.pow_pos_nonneg; lia).
  unfold binary_round_aux.
  assert (H1 : shr_fexp F32.prec F32.emax (Zpos P) E loc_Exact
               = (SpecFloat.iter_pos shr_1 p
                    (Build_shr_record (Zpos P) false false), E + Zpos p)).
  { unfold shr_fexp. cbn [Zdigits2 shr_record_of_loc]. fold d.
    rewrite fexp32_eq, Hn. reflexivity. }
  rewrite H1.
  pose proof (round_after_shift p (Zpos P) ltac:(lia)) as Hnear.
  cbv zeta in Hnear.
  set (mrs := SpecFloat.iter_pos shr_1 p (Build_shr_record (Zpos P) false false))
    in *.
  set (mr := round_nearest_even (shr_m mrs) (loc_of_shr_record mrs)) in *.
  destruct Hnear as (Hcase & Herr & Htie).
  assert (Hm1pos : 0 <= Zpos P / 2 ^ Zpos p) by (apply Z.div_pos; lia).
  assert (Hm1hi : Zpos P / 2 ^ Zpos p < 2 ^ 24).
  { apply Z.div_lt_upper_bound; [lia|].
    rewrite <- Z.pow_add_r by lia.
    assert (2 ^ d <= 2 ^ (Zpos p + 24)) by (apply Z.pow_le_mono_r; lia). lia. }
  assert (Hnorm : 2 ^ 23 <= mr \/ E + Zpos p = -149).
  { destruct (Z.eq_dec (E + Zpos p) (-149)) as [Es|Es]; [right; exact Es|left].
    assert (Hd : d = 24 + Zpos p) by lia.
    assert (2 ^ 23 <= Zpos P / 2 ^ Zpos p); [|lia].
    apply Z.div_le_lower_bound; [lia|].
    rewrite <- Z.pow_add_r by lia.
    replace (Zpos p + 23) with (d - 1) by lia. lia. }
  exists mr. split; [lia|]. split; [exact Herr|]. split; [exact Htie|].
  split; [lia|]. split; [exact Hnorm|].
  destruct mr as [|q|q] eqn:Emr; try lia.
  - unfold shr_fexp. cbn [Zdigits2 shr_record_of_loc].
    rewrite fexp32_eq.
    destruct (Z.max (0 + (E + Zpos p) - 24) (-149) - (E + Zpos p)) as [|n|n] eqn:En;
      try lia; reflexivity.
  - destruct (Z.eqb_spec (Zpos q) (2 ^ 24)) as [Etop|Etop].
    + assert (q = 16777216%positive) by lia. subst q.
      unfold shr_fexp. cbn [Zdigits2 shr_record_of_loc].
      change (Zpos (digits2_pos 16777216)) with 25.
      rewrite fexp32_eq.
      replace (Z.max (25 + (E + Zpos p) - 24) (-149) - (E + Zpos p)) with 1 by lia.
      reflexivity.
    + assert (Hq : Zpos (digits2_pos q) <= 24) by (apply digits2_le; lia).
      unfold shr_fexp. cbn [Zdigits2 shr_record_of_loc].
      rewrite fexp32_eq.
      destruct (Z.max (Zpos (digits2_pos q) + (E + Zpos p) - 24) (-149)
                - (E + Zpos p)) as [|n|n] eqn:En; try lia; reflexivity.
Qed.

(** The sign of a rounded number is the sign it is given. *)
Lemma round_aux_sign s m e l :
  binary_round_aux F32.prec F32.emax s m e l
  = SFopp_if s (binary_round_aux F32.prec F32.emax false m e l).
Proof.
  unfold binary_round_aux.
  destruct (shr_fexp F32.prec F32.emax m e l) as [mrs' e'].
  destruct (shr_fexp F32.prec F32.emax _ e' loc_Exact) as [mrs'' e''].
  destruct s; cbn [SFopp_if]; [|reflexivity].
  destruct (shr_m mrs'') as [|q|q]; try reflexivity.
  destruct (e'' <=? F32.emax - F32.prec); reflexivity.
Qed.

(** With [p] bits to shift out, the mantissa of the result is [P / 2^p]
    or the next integer, and [P / 2^p] itself when the division is exact;
    a mantissa that reaches [2^24] is renormalised. *)
Lemma round_aux_shifted P E p :
  F32.fexp32 (Zpos (digits2_pos P) + E) - E = Zpos p ->
  exists mr,
    Zpos P / 2 ^ Zpos p <= mr <= Zpos P / 2 ^ Zpos p + 1
    /\ (Zpos P mod 2 ^ Zpos p = 0 -> mr = Zpos P / 2 ^ Zpos p)
    /\ mr <= 2 ^ 24
    /\ (2 ^ 23 <= mr \/ E + Zpos p = -149)
    /\ binary_round_aux F32.prec F32.emax false (Zpos P) E loc_Exact
       = match mr with
         | Z0 => S754_zero false
         | Zpos q =>
             if Zpos q =? 2 ^ 24
             then finite_or_infinity 8388608 (E + Zpos p + 1)
             else finite_or_infinity q (E + Zpos p)
         | Zneg _ => S754_nan
         end.
Proof.
  intros Hn.
  destruct (round_aux_nearest P E p Hn)
    as (mr & Hr & Herr & _ & Htop & Hnorm & Hres).
  exists mr. split; [exact Hr|]. split; [|auto].
  intros Hmod.
  assert (Hpow : 0 < 2 ^ Zpos p) by (apply Z.pow_pos_nonneg; lia).
  pose proof (Z.div_mod (Zpos P) (2 ^ Zpos p) ltac:(lia)) as Hdm.
  rewrite Hmod, Z.add_0_r in Hdm.
  destruct (Z.eq_dec mr (Zpos P / 2 ^ Zpos p)) as [E1|E1]; [exact E1|exfalso].
  assert (E2 : mr = Zpos P / 2 ^ Zpos p + 1) by lia.
  rewrite E2 in Herr. nia.
Qed.

Lemma on_grid_of_rounded q e :
  Zpos q < 2 ^ 24 -> -149 <= e -> (2 ^ 23 <= Zpos q \/ e = -149) ->
  F32.on_grid q e.
Proof.
  intros Hq He [Hn| ->].
  - apply on_grid_normal; [apply digits2_of_range; lia | exact He].
  - apply on_grid_subnormal. apply digits2_le; lia.
Qed.

Lemma fexp32_shift P E :
  24 <= Zpos (digits2_pos P) -> 0 <= F32.fexp32 (Zpos (digits2_pos P) + E) - E.
Proof. intros H. rewrite fexp32_eq. lia. Qed.

(** Rounding does not pass a number of the format: from below ... *)
Lemma round_aux_at_most P E B F :
  24 <= Zpos (digits2_pos P) ->
  E <= F -> -149 <= F <= 104 -> 0 < B < 2 ^ 24 ->
  Zpos P <= B * 2 ^ (F - E) ->
  let r := binary_round_aux F32.prec F32.emax false (Zpos P) E loc_Exact in
  r = S754_zero false
  \/ exists m' e', r = S754_finite false m' e'
       /\ F32.on_grid m' e' /\ e' <= F /\ Zpos m' <= B * 2 ^ (F - e').
Proof.
  intros Hd HEF HF HB HP r. subst r.
  set (d := Zpos (digits2_pos P)) in *.
  assert (HdF : d <= 24 + (F - E)).
  { apply digits2_le; [lia|].
    rewrite Z.pow_add_r by lia.
    assert (0 < 2 ^ (F - E)) by (apply Z.pow_pos_nonneg; lia). nia. }
  pose proof (fexp32_shift P E Hd) as Hn0. fold d in Hn0.
  destruct (F32.fexp32 (d + E) - E) as [|p|p] eqn:En; try lia.
  - right. rewrite round_aux_unshifted by (fold d; lia).
    unfold finite_or_infinity. destruct (Z.leb_spec E 104); [|lia].
    exists P, E. split; [reflexivity|]. split; [|split; [lia | exact HP]].
    unfold F32.on_grid. fold d. lia.
  - destruct (round_aux_shifted P E p En) as (mr & Hr & Hexact & Htop & Hnorm & ->).
    rewrite fexp32_eq in En.
    assert (He1 : E + Zpos p <= F) by lia.
    assert (Hpow : 0 < 2 ^ Zpos p) by (apply Z.pow_pos_nonneg; lia).
    assert (Hsplit : 2 ^ (F - E) = 2 ^ (F - (E + Zpos p)) * 2 ^ Zpos p).
    { rewrite <- Z.pow_add_r by lia. f_equal. lia. }
    set (K := B * 2 ^ (F - (E + Zpos p))).
    assert (HK : Zpos P <= K * 2 ^ Zpos p) by (unfold K; rewrite Hsplit in HP; lia).
    assert (HmrK : mr <= K).
    { destruct (Z.eq_dec (Zpos P mod 2 ^ Zpos p) 0) as [Hmod|Hmod].
      - rewrite (Hexact Hmod). apply Z.div_le_upper_bound; lia.
      - pose proof (Z.div_mod (Zpos P) (2 ^ Zpos p) ltac:(lia)) as Hdm.
        pose proof (Z.mod_pos_bound (Zpos P) (2 ^ Zpos p) Hpow) as Hmb.
        assert (Zpos P / 2 ^ Zpos p < K); [|lia].
        apply Z.div_lt_upper_bound; [lia|].
        destruct (Z.eq_dec (Zpos P) (K * 2 ^ Zpos p)) as [Heq|Hne]; [|lia].
        exfalso. apply Hmod. rewrite Heq. apply Z.mod_mul. lia. }
    assert (Hm1pos : 0 <= Zpos P / 2 ^ Zpos p) by (apply Z.div_pos; lia).
    destruct mr as [|q|q]; try lia; [left; reflexivity|right].
    destruct (Z.eqb_spec (Zpos q) (2 ^ 24)) as [Etop|Etop].
    + assert (Hstep : 1 <= F - (E + Zpos p)).
      { destruct (Z.le_gt_cases 1 (F - (E + Zpos p))) as [H|H]; [exact H|].
        exfalso. assert (HF0 : F - (E + Zpos p) = 0) by lia.
        unfold K in HmrK. rewrite HF0 in HmrK. lia. }
      unfold finite_or_infinity.
      destruct (Z.leb_spec (E + Zpos p + 1) 104); [|lia].
      exists 8388608%positive, (E + Zpos p + 1).
      split; [reflexivity|]. split; [apply on_grid_normal; [reflexivity | lia]|].
      split; [lia|].
      assert (Hhalf : 2 ^ (F - (E + Zpos p)) = 2 * 2 ^ (F - (E + Zpos p + 1))).
      { rewrite <- Z.pow_succ_r by lia. f_equal. lia. }
      unfold K in HmrK. rewrite Hhalf in HmrK. lia.
    + unfold finite_or_infinity.
      destruct (Z.leb_spec (E + Zpos p) 104); [|lia].
      exists q, (E + Zpos p).
      split; [reflexivity|]. split; [apply on_grid_of_rounded; lia|].
      split; [lia | exact HmrK].
Qed.

(** ... nor from above. *)
Lemma round_aux_at_least_value P E B F :
  E <= F -> -149 <= F -> 2 ^ 23 <= B < 2 ^ 24 ->
  B * 2 ^ (F - E) <= Zpos P ->
  let r := binary_round_aux F32.prec F32.emax false (Zpos P) E loc_Exact in
  r = S754_infinity false
  \/ exists m' e', r = S754_finite false m' e'
       /\ F32.on_grid m' e' /\ F <= e' <= 104 /\ B <= Zpos m' * 2 ^ (e' - F).
Proof.
  intros HEF HF HB HP r. subst r.
  set (d := Zpos (digits2_pos P)) in *.
  assert (Hpw : 0 < 2 ^ (F - E)) by (apply Z.pow_pos_nonneg; lia).
  assert (HdF : 24 + (F - E) <= d).
  { assert (23 + (F - E) + 1 <= Zpos (digits2_pos P)); [|unfold d; lia].
    apply (digits2_lower P (23 + (F - E))); [lia|].
    rewrite Z.pow_add_r by lia. nia. }
  pose proof (digits2_bounds P) as Hb. fold d in Hb.
  destruct (F32.fexp32 (d + E) - E) as [|p|p] eqn:En;
    rewrite fexp32_eq in En; try lia.
  - rewrite round_aux_unshifted by (fold d; rewrite fexp32_eq; lia).
    unfold finite_or_infinity. destruct (Z.leb_spec E 104); [right|left; reflexivity].
    exists P, E. split; [reflexivity|].
    split; [unfold F32.on_grid; fold d; rewrite fexp32_eq; lia|].
    split; [lia|]. replace (E - F) with 0 by lia.
    replace (F - E) with 0 in HP by lia. lia.
  - destruct (round_aux_shifted P E p) as (mr & Hr & Hexact & Htop & Hnorm & ->);
      [fold d; rewrite fexp32_eq; exact En|].
    assert (Hpow : 0 < 2 ^ Zpos p) by (apply Z.pow_pos_nonneg; lia).
    assert (Hd : d = 24 + Zpos p) by lia.
    assert (Hm1 : 2 ^ 23 <= Zpos P / 2 ^ Zpos p).
    { apply Z.div_le_lower_bound; [lia|].
      rewrite <- Z.pow_add_r by lia.
      replace (Zpos p + 23) with (d - 1) by lia. lia. }
    assert (Hbound : B <= mr * 2 ^ (E + Zpos p - F)).
    { destruct (Z.eq_dec (E + Zpos p) F) as [Ej|Ej].
      - replace (E + Zpos p - F) with 0 by lia. rewrite Z.mul_1_r.
        assert (B <= Zpos P / 2 ^ Zpos p); [|lia].
        apply Z.div_le_lower_bound; [lia|].
        replace (F - E) with (Zpos p) in HP by lia. lia.
      - assert (2 ^ 1 <= 2 ^ (E + Zpos p - F)) by (apply Z.pow_le_mono_r; lia).
        nia. }
    destruct mr as [|q|q]; try lia.
    destruct (Z.eqb_spec (Zpos q) (2 ^ 24)) as [Etop|Etop].
    + unfold finite_or_infinity.
      destruct (Z.leb_spec (E + Zpos p + 1) 104); [right|left; reflexivity].
      exists 8388608%positive, (E + Zpos p + 1).
      split; [reflexivity|]. split; [apply on_grid_normal; [reflexivity | lia]|].
      split; [lia|].
      assert (0 < 2 ^ (E + Zpos p + 1 - F)) by (apply Z.pow_pos_nonneg; lia).
      assert (2 ^ 1 <= 2 ^ (E + Zpos p + 1 - F)) by (apply Z.pow_le_mono_r; lia).
      nia.
    + unfold finite_or_infinity.
      destruct (Z.leb_spec (E + Zpos p) 104); [right|left; reflexivity].
      exists q, (E + Zpos p).
      split; [reflexivity|]. split; [apply on_grid_of_rounded; lia|].
      split; [lia | exact Hbound].
Qed.

Lemma decode_encode_on_grid s m e :
  F32.on_grid m e -> e <= 104 ->
  F32.decode (F32.encode (S754_finite s m e)) = S754_finite s m e.
Proof.
  intros Hg He. unfold F32.on_grid in Hg. rewrite fexp32_eq in Hg.
  pose proof (digits2_bounds m) as Hb.
  destruct (Z.eq_dec (Zpos (digits2_pos m)) 24) as [Hd|Hd].
  - rewrite Hd in Hb. apply decode_encode_normal; lia.
  - assert (He' : e = -149) by lia. subst e.
    apply decode_encode_subnormal.
    assert (2 ^ Zpos (digits2_pos m) <= 2 ^ 23) by (apply Z.pow_le_mono_r; lia).
    lia.
Qed.

(** The integer part of a small positive number, as [floor] and the
    conversion give it. *)
Lemma floor_index_of_small m e z :
  F32.on_grid m e -> e < 0 -> z = Zpos m / 2 ^ (- e) -> 0 <= z < 16 ->
  F32.cvt_f32_i32 (F32.floor (F32.encode (S754_finite false m e))) = z.
Proof.
  intros Hg He Hz Hr. unfold F32.floor.
  rewrite decode_encode_on_grid by (try exact Hg; lia).
  cbn [F32.SFfloor cond_Zopp].
  destruct (Z.leb_spec 0 e) as [|_]; [lia|].
  rewrite Z.shiftr_div_pow2 by lia. rewrite <- Hz.
  assert (Hc : z = 0 \/ z = 1 \/ z = 2 \/ z = 3 \/ z = 4 \/ z = 5 \/ z = 6 \/ z = 7
               \/ z = 8 \/ z = 9 \/ z = 10 \/ z = 11 \/ z = 12 \/ z = 13
               \/ z = 14 \/ z = 15)
    by lia.
  repeat (destruct Hc as [-> | Hc]; [vm_compute; reflexivity|]).
  rewrite Hc. vm_compute. reflexivity.
Qed.

Lemma m4pi_product a m e :
  F32.decode a = S754_finite false m e ->
  F32.mul a Lane.m4pi
  = F32.encode (binary_round_aux F32.prec F32.emax false
                  (Zpos (m * 10680707)) (e + -23) loc_Exact)
  /\ 24 <= Zpos (digits2_pos (m * 10680707)).
Proof.
  intros Ha. split.
  - unfold F32.mul. rewrite Ha.
    replace (F32.decode Lane.m4pi) with (S754_finite false 10680707 (-23))
      by (vm_compute; reflexivity).
    reflexivity.
  - assert (23 + 1 <= Zpos (digits2_pos (m * 10680707))); [|lia].
    apply digits2_lower; [lia|]. rewrite Pos2Z.inj_mul. lia.
Qed.

(** The floored index stays below [2^t] when the product stays at or
    below the largest binary32 under [2^t]. *)
Lemma floor_index_upper a m e t :
  F32.decode a = S754_finite false m e ->
  0 <= t <= 3 -> e + -23 <= t - 24 ->
  Zpos (m * 10680707) <= (2 ^ 24 - 1) * 2 ^ (t - 24 - (e + -23)) ->
  0 <= Lane.floor_index a < 2 ^ t.
Proof.
  intros Ha Ht He HP.
  destruct (m4pi_product a m e Ha) as [Hmul Hd].
  unfold Lane.floor_index. rewrite Hmul.
  assert (Hpt : 0 < 2 ^ t) by (apply Z.pow_pos_nonneg; lia).
  assert (Ht8 : 2 ^ t <= 2 ^ 3) by (apply Z.pow_le_mono_r; lia).
  destruct (round_aux_at_most (m * 10680707) (e + -23) (2 ^ 24 - 1) (t - 24)
              Hd He ltac:(lia) ltac:(lia) HP)
    as [-> | (m' & e' & -> & Hg & He' & Hm')].
  - replace (F32.cvt_f32_i32 (F32.floor (F32.encode (S754_zero false)))) with 0
      by (vm_compute; reflexivity).
    lia.
  - assert (Hpos : 0 < 2 ^ (- e')) by (apply Z.pow_pos_nonneg; lia).
    assert (Hz : 0 <= Zpos m' / 2 ^ (- e') < 2 ^ t).
    { split; [apply Z.div_pos; lia|].
      apply Z.div_lt_upper_bound; [lia|].
      assert (Hs : 2 ^ (- e') * 2 ^ t = 2 ^ 24 * 2 ^ (t - 24 - e')).
      { rewrite <- !Z.pow_add_r by lia. f_equal. lia. }
      rewrite Hs.
      assert (0 < 2 ^ (t - 24 - e')) by (apply Z.pow_pos_nonneg; lia).
      nia. }
    rewrite (floor_index_of_small m' e' (Zpos m' / 2 ^ (- e')));
      try assumption; try reflexivity; try lia.
Qed.

(** The floored index is [k] when the exact product lies between the
    smallest and the largest binary32 in [[k, k + 1)]; [s] is the exponent
    of [k]. *)
Lemma floor_index_exact a m e k s :
  F32.decode a = S754_finite false m e ->
  0 <= s <= 3 -> 2 ^ s <= k < 2 ^ (s + 1) ->
  e + -23 <= s - 23 ->
  k * 2 ^ (23 - s) * 2 ^ (s - 23 - (e + -23)) <= Zpos (m * 10680707) ->
  Zpos (m * 10680707) <= ((k + 1) * 2 ^ (23 - s) - 1) * 2 ^ (s - 23 - (e + -23)) ->
  Lane.floor_index a = k.
Proof.
  intros Ha Hs Hk He Hlo Hhi.
  destruct (m4pi_product a m e Ha) as [Hmul Hd].
  unfold Lane.floor_index. rewrite Hmul.
  assert (Hp : 0 < 2 ^ (23 - s)) by (apply Z.pow_pos_nonneg; lia).
  assert (Hsplit : 2 ^ s * 2 ^ (23 - s) = 2 ^ 23).
  { rewrite <- Z.pow_add_r by lia. f_equal. lia. }
  assert (Hsplit' : 2 ^ (s + 1) * 2 ^ (23 - s) = 2 ^ 24).
  { rewrite <- Z.pow_add_r by lia. f_equal. lia. }
  assert (HBlo : 2 ^ 23 <= k * 2 ^ (23 - s) < 2 ^ 24) by nia.
  assert (HBhi : 0 < (k + 1) * 2 ^ (23 - s) - 1 < 2 ^ 24) by nia.
  pose proof (round_aux_at_most (m * 10680707) (e + -23)
                ((k + 1) * 2 ^ (23 - s) - 1) (s - 23)
                Hd He ltac:(lia) HBhi Hhi) as Hup.
  pose proof (round_aux_at_least_value (m * 10680707) (e + -23)
                (k * 2 ^ (23 - s)) (s - 23)
                He ltac:(lia) HBlo Hlo) as Hdn.
  cbv zeta in Hup, Hdn.
  destruct Hdn as [Hinf | (m' & e' & Hr & Hg & He' & Hm')].
  { destruct Hup as [Hz | (m2 & e2 & Hr2 & _)]; congruence. }
  destruct Hup as [Hz | (m2 & e2 & Hr2 & _ & He2 & Hm2)]; [congruence|].
  rewrite Hr in Hr2. injection Hr2 as <- <-.
  assert (Ee : e' = s - 23) by lia. subst e'.
  replace (s - 23 - (s - 23)) with 0 in Hm', Hm2 by lia.
  change (2 ^ 0) with 1 in Hm', Hm2. rewrite Hr.
  replace (- (s - 23)) with (23 - s) in * by lia.
  assert (Hz : Zpos m' / 2 ^ (23 - s) = k).
  { apply Z.le_antisymm.
    - assert (Zpos m' / 2 ^ (23 - s) < k + 1); [|lia].
      apply Z.div_lt_upper_bound; lia.
    - apply Z.div_le_lower_bound; lia. }
  assert (H16 : 2 ^ (s + 1) <= 16).
  { change 16 with (2 ^ 4). apply Z.pow_le_mono_r; lia. }
  assert (0 < 2 ^ s) by (apply Z.pow_pos_nonneg; lia).
  apply floor_index_of_small; try assumption; try lia.
  replace (- (s - 23)) with (23 - s) by lia. symmetry. exact Hz.
Qed.

(** *** The fields of a non-negative pattern *)

Lemma unsigned_pattern a :
  0 <= a < 2 ^ 31 ->
  F32.sign_field a = false
  /\ a = 2 ^ 23 * F32.exp_field a + F32.frac_field a
  /\ 0 <= F32.exp_field a < 256 /\ 0 <= F32.frac_field a < 2 ^ 23.
Proof.
  intros Ha. destruct (fields_sum a ltac:(lia)) as (Hsum & HE & HM).
  destruct (F32.sign_field a); unfold F32.sign_of, F32.sign_bit in Hsum.
  - lia.
  - repeat split; lia.
Qed.

(** *** Arithmetic of nearest numbers *)

Lemma pow2_split a b : 0 <= a -> 0 <= b -> 2 ^ (a + b) = 2 ^ a * 2 ^ b.
Proof. intros. apply Z.pow_add_r; assumption. Qed.

Lemma pow2_pos a : 0 <= a -> 0 < 2 ^ a.
Proof. intros. apply Z.pow_pos_nonneg; lia. Qed.

(** A number at most half a step above a power of two rounds to the power
    of two at most. *)
Lemma nearest_mid base n N j :
  nearest base n N -> 0 <= base -> base + 24 <= j ->
  0 <= n <= 2 ^ j + 2 ^ (j - 24) -> 0 <= N <= 2 ^ j.
Proof.
  intros (mr & s & HN & Hs & Hmr & Hnorm & Herr & Htie & Hbig) Hb Hj Hn.
  assert (Hps : 0 < 2 ^ s) by (apply pow2_pos; lia).
  split; [rewrite HN; apply Z.mul_nonneg_nonneg; lia|].
  destruct (Z.le_gt_cases (s + 24) j) as [Hlow|Hhigh].
  - (* the format reaches [2^j] with room to spare *)
    assert (H : 2 ^ 24 * 2 ^ s <= 2 ^ j).
    { rewrite <- pow2_split by lia. apply Z.pow_le_mono_r; lia. }
    rewrite HN. nia.
  - assert (Hs0 : s <> base) by lia.
    destruct Hbig as [Hbig|Hbig]; [contradiction|].
    destruct Hnorm as [Hnorm|Hnorm]; [|contradiction].
    destruct (Z.eq_dec (s + 23) j) as [Ej|Ej].
    + (* [n] is in the binade of [2^j] *)
      subst j. replace (s + 23 - 24) with (s - 1) in Hn by lia.
      assert (Hh : 2 ^ s = 2 * 2 ^ (s - 1)).
      { rewrite <- Z.pow_succ_r by lia. f_equal. lia. }
      assert (Hj2 : 2 ^ (s + 23) = 2 ^ 23 * 2 ^ s)
        by (rewrite Z.add_comm; apply pow2_split; lia).
      assert (Hph : 0 < 2 ^ (s - 1)) by (apply pow2_pos; lia).
      set (X := 2 ^ (s - 1)) in *.
      rewrite Hj2. rewrite Hj2 in Hn. rewrite Hh in *.
      assert (Hle : mr <= 2 ^ 23 + 1) by nia.
      destruct (Z.eq_dec mr (2 ^ 23 + 1)) as [Emr|Emr].
      * exfalso. subst mr.
        assert (Hev : Z.even (2 ^ 23 + 1) = true) by (apply Htie; nia).
        discriminate Hev.
      * rewrite HN. nia.
    + (* [n] would be above the binade *)
      exfalso.
      assert (H : 2 ^ (j + 1) <= 2 ^ (s + 23)) by (apply Z.pow_le_mono_r; lia).
      assert (H2 : 2 ^ (j - 24) < 2 ^ j) by (apply Z.pow_lt_mono_r; lia).
      rewrite Z.pow_add_r in H by lia. change (2 ^ 1) with 2 in H. lia.
Qed.

(** The error is at most half a step of the binade of [n]. *)
Lemma nearest_err base n N D :
  nearest base n N -> 0 <= base -> base + 24 <= D -> 0 <= n < 2 ^ D ->
  2 * Z.abs (N - n) <= 2 ^ (D - 24).
Proof.
  intros (mr & s & HN & Hs & Hmr & Hnorm & Herr & Htie & Hbig) Hb HD Hn.
  assert (Hle : s <= D - 24).
  { destruct Hbig as [->|Hbig]; [lia|].
    destruct (Z.le_gt_cases s (D - 24)) as [H|H]; [exact H|exfalso].
    assert (2 ^ D <= 2 ^ (s + 23)) by (apply Z.pow_le_mono_r; lia). lia. }
  assert (2 ^ s <= 2 ^ (D - 24)) by (apply Z.pow_le_mono_r; lia). lia.
Qed.

(** A number of the format is its own nearest number. *)
Lemma nearest_exact base n N c q :
  nearest base n N -> 0 <= base -> base <= q ->
  n = c * 2 ^ q -> 0 <= c < 2 ^ 24 -> N = n.
Proof.
  intros (mr & s & HN & Hs & Hmr & Hnorm & Herr & Htie & Hbig) Hb Hq Hn Hc.
  assert (Hps : 0 < 2 ^ s) by (apply pow2_pos; lia).
  assert (Hsq : s <= q).
  { destruct Hbig as [->|Hbig]; [lia|].
    destruct (Z.le_gt_cases s q) as [H|H]; [exact H|exfalso].
    assert (Hq1 : 2 ^ (q + 24) <= 2 ^ (s + 23)) by (apply Z.pow_le_mono_r; lia).
    rewrite (Z.add_comm q), pow2_split in Hq1 by lia.
    assert (0 < 2 ^ q) by (apply pow2_pos; lia). nia. }
  assert (Hdiv : 2 ^ q = 2 ^ (q - s) * 2 ^ s).
  { rewrite <- pow2_split by lia. f_equal. lia. }
  assert (Hpd : 0 < 2 ^ (q - s)) by (apply pow2_pos; lia).
  rewrite Hn, Hdiv in *. rewrite HN in *.
  set (X := 2 ^ s) in *. set (k := c * 2 ^ (q - s)).
  assert (Hk : c * (2 ^ (q - s) * X) = k * X) by (unfold k; ring).
  rewrite Hk in *.
  assert (Hd : 2 * Z.abs ((mr - k) * X) <= X).
  { replace ((mr - k) * X) with (mr * X - k * X) by ring. exact Herr. }
  assert (mr = k); [|subst mr; reflexivity].
  rewrite Z.abs_mul, (Z.abs_eq X) in Hd by lia.
  destruct (Z.eq_dec mr k) as [E|E]; [exact E|exfalso].
  assert (1 <= Z.abs (mr - k)) by lia. nia.
Qed.

(** It is not zero unless [n] is below the least number of the format. *)
Lemma nearest_pos base n N :
  nearest base n N -> 0 <= base -> 2 ^ base <= n -> 0 < N.
Proof.
  intros (mr & s & HN & Hs & Hmr & Hnorm & Herr & Htie & Hbig) Hb Hn.
  assert (Hps : 0 < 2 ^ s) by (apply pow2_pos; lia).
  destruct Hnorm as [Hnorm| ->].
  - rewrite HN. nia.
  - assert (Hpb : 0 < 2 ^ base) by (apply pow2_pos; lia).
    destruct (Z.eq_dec mr 0) as [E|E]; [exfalso|rewrite HN; nia].
    subst mr. rewrite Z.mul_0_l in HN. subst N. lia.
Qed.

(** It is at least half of [n]. *)
Lemma nearest_half base n N :
  nearest base n N -> 0 <= base -> 2 ^ base <= n -> n <= 2 * N.
Proof.
  intros (mr & s & HN & Hs & Hmr & Hnorm & Herr & Htie & Hbig) Hb Hn.
  assert (Hps : 0 < 2 ^ s) by (apply pow2_pos; lia).
  destruct Hbig as [->|Hbig]; [lia|].
  rewrite (Z.add_comm s), pow2_split in Hbig by lia.
  assert (2 <= 2 ^ 23) by (change 2 with (2 ^ 1) at 1; apply Z.pow_le_mono_r; lia).
  nia.
Qed.

(** *** The operations round to nearest *)

Lemma on_grid_exponent m e : F32.on_grid m e -> -149 <= e.
Proof. unfold F32.on_grid. rewrite fexp32_eq. lia. Qed.

Lemma on_grid_digits m e :
  F32.on_grid m e -> Zpos m < 2 ^ 24 /\ (2 ^ 23 <= Zpos m \/ e = -149).
Proof.
  unfold F32.on_grid. rewrite fexp32_eq. intros Hg.
  pose proof (digits2_bounds m) as [Hlo Hhi].
  set (d := Zpos (digits2_pos m)) in *.
  assert (Hd : 0 < d) by (unfold d; lia).
  split.
  - assert (2 ^ d <= 2 ^ 24) by (apply Z.pow_le_mono_r; lia). lia.
  - destruct (Z.eq_dec e (-149)) as [E|E]; [right; exact E|left].
    assert (d = 24) by lia.
    assert (2 ^ 23 <= 2 ^ (d - 1)) by (apply Z.pow_le_mono_r; lia). lia.
Qed.

(** The rounding of [P * 2^E], in units of [2^-K]. *)
Lemma round_aux_scaled P E K :
  149 <= K -> 0 <= E + K ->
  (24 <= Zpos (digits2_pos P) \/ E <= -149) ->
  let r := binary_round_aux F32.prec F32.emax false (Zpos P) E loc_Exact in
  (r = S754_infinity false /\ 128 <= Zpos (digits2_pos P) + E)
  \/ ((r = S754_zero false
       \/ exists m e, r = S754_finite false m e /\ F32.on_grid m e /\ e <= 104)
      /\ nearest (K - 149) (Zpos P * 2 ^ (E + K)) (SFscaled r * 2 ^ (K - 149))).
Proof.
  intros HK HEK Hd r. subst r.
  set (d := Zpos (digits2_pos P)) in *.
  pose proof (digits2_bounds P) as Hb. fold d in Hb.
  assert (Hd0 : 0 < d) by (unfold d; lia).
  destruct (F32.fexp32 (d + E) - E) as [|p|p] eqn:En;
    pose proof En as En'; rewrite fexp32_eq in En'; try lia.
  - (* nothing to shift out *)
    rewrite round_aux_unshifted by (fold d; lia).
    unfold finite_or_infinity.
    destruct (Z.leb_spec E 104) as [HE104|HE104];
      [right | left; split; [reflexivity | lia]].
    assert (Hg : F32.on_grid P E) by (unfold F32.on_grid; fold d; lia).
    split; [right; exists P, E; auto|].
    cbn [SFscaled cond_Zopp].
    assert (HE : -149 <= E) by lia.
    assert (Hval : Zpos P * 2 ^ (E + 149) * 2 ^ (K - 149) = Zpos P * 2 ^ (E + K)).
    { rewrite <- Z.mul_assoc, <- pow2_split by lia. do 2 f_equal. lia. }
    rewrite Hval.
    assert (Hps : 0 < 2 ^ (E + K)) by (apply pow2_pos; lia).
    exists (Zpos P), (E + K).
    split; [reflexivity|]. split; [lia|].
    assert (Hd24 : d <= 24) by lia.
    assert (HP24 : Zpos P < 2 ^ 24).
    { assert (2 ^ d <= 2 ^ 24) by (apply Z.pow_le_mono_r; lia). lia. }
    split; [lia|].
    assert (Hcase : d = 24 \/ E = -149) by lia.
    assert (Hn23 : d = 24 -> 2 ^ 23 <= Zpos P).
    { intros E24. rewrite E24 in Hb. exact (proj1 Hb). }
    split; [destruct Hcase as [Hc|Hc]; [left; auto | right; lia]|].
    rewrite Z.sub_diag. cbn [Z.abs Z.mul].
    split; [lia|]. split; [lia|].
    destruct Hcase as [Hc|Hc]; [right | left; lia].
    rewrite (Z.add_comm (E + K)), pow2_split by lia.
    specialize (Hn23 Hc). nia.
  - (* [p] bits to shift out *)
    destruct (round_aux_nearest P E p En)
      as (mr & Hr & Herr & Htie & Htop & Hnorm & ->).
    assert (HF : -149 <= E + Zpos p) by lia.
    assert (Hpp : 0 < 2 ^ Zpos p) by (apply pow2_pos; lia).
    assert (Hfl : 0 <= Zpos P / 2 ^ Zpos p) by (apply Z.div_pos; lia).
    (* the result, and its value in units of [2^-149] *)
    assert (Hres :
      let r := match mr with
               | 0 => S754_zero false
               | Zpos q =>
                   if Zpos q =? 2 ^ 24
                   then finite_or_infinity 8388608 (E + Zpos p + 1)
                   else finite_or_infinity q (E + Zpos p)
               | Zneg _ => S754_nan
               end in
      (r = S754_infinity false /\ 128 <= d + E)
      \/ ((r = S754_zero false
           \/ exists m e, r = S754_finite false m e /\ F32.on_grid m e /\ e <= 104)
          /\ SFscaled r = mr * 2 ^ (E + Zpos p + 149))).
    { cbv zeta. destruct mr as [|q|q]; try lia.
      - right. split; [left; reflexivity | reflexivity].
      - unfold finite_or_infinity.
        destruct (Z.eqb_spec (Zpos q) (2 ^ 24)) as [Etop|Etop].
        + destruct (Z.leb_spec (E + Zpos p + 1) 104) as [H104|H104];
            [right | left; split; [reflexivity | lia]].
          split.
          * right. exists 8388608%positive, (E + Zpos p + 1).
            split; [reflexivity|]. split; [|lia].
            apply on_grid_normal; [reflexivity | lia].
          * cbn [SFscaled cond_Zopp]. rewrite Etop.
            replace (E + Zpos p + 1 + 149) with (1 + (E + Zpos p + 149)) by lia.
            rewrite pow2_split by lia. change (2 ^ 1) with 2. lia.
        + destruct (Z.leb_spec (E + Zpos p) 104) as [H104|H104];
            [right | left; split; [reflexivity | lia]].
          split; [|reflexivity].
          right. exists q, (E + Zpos p). split; [reflexivity|]. split; [|lia].
          apply on_grid_of_rounded; lia. }
    cbv zeta in Hres.
    destruct Hres as [Hinf | [Hfin Hscaled]]; [left; exact Hinf | right].
    split; [exact Hfin|].
    rewrite Hscaled.
    assert (Hval : mr * 2 ^ (E + Zpos p + 149) * 2 ^ (K - 149)
                   = mr * 2 ^ (E + Zpos p + K)).
    { rewrite <- Z.mul_assoc, <- pow2_split by lia. do 2 f_equal. lia. }
    rewrite Hval.
    assert (Hsp : 2 ^ (E + Zpos p + K) = 2 ^ Zpos p * 2 ^ (E + K)).
    { rewrite <- pow2_split by lia. f_equal. lia. }
    assert (Hps : 0 < 2 ^ (E + K)) by (apply pow2_pos; lia).
    assert (Hdiff : mr * 2 ^ (E + Zpos p + K) - Zpos P * 2 ^ (E + K)
                    = (mr * 2 ^ Zpos p - Zpos P) * 2 ^ (E + K)).
    { rewrite Hsp. ring. }
    exists mr, (E + Zpos p + K).
    split; [reflexivity|]. split; [lia|]. split; [lia|].
    split; [destruct Hnorm as [Hc|Hc]; [left; exact Hc | right; lia]|].
    rewrite Hdiff, Z.abs_mul, (Z.abs_eq (2 ^ (E + K))) by lia.
    split; [rewrite Hsp; nia|].
    split; [intros Heq; apply Htie; rewrite Hsp in Heq; nia|].
    destruct (Z.eq_dec (E + Zpos p) (-149)) as [Es|Es]; [left; lia|right].
    assert (HdE : d = 24 + Zpos p) by lia.
    replace (E + Zpos p + K + 23) with ((d - 1) + (E + K)) by lia.
    rewrite pow2_split by lia. nia.
Qed.

Lemma nearest_self m e :
  F32.on_grid m e ->
  nearest 0 (Zpos m * 2 ^ (e + 149)) (Zpos m * 2 ^ (e + 149)).
Proof.
  intros Hg. pose proof (on_grid_exponent m e Hg) as He.
  destruct (on_grid_digits m e Hg) as [Hhi Hlo].
  assert (Hps : 0 < 2 ^ (e + 149)) by (apply pow2_pos; lia).
  exists (Zpos m), (e + 149).
  split; [reflexivity|]. split; [lia|]. split; [lia|].
  split; [destruct Hlo as [Hc|Hc]; [left; exact Hc | right; lia]|].
  rewrite Z.sub_diag. cbn [Z.abs Z.mul].
  split; [lia|]. split; [lia|].
  destruct Hlo as [Hc|Hc]; [right | left; lia].
  rewrite (Z.add_comm (e + 149)), pow2_split by lia. nia.
Qed.

Lemma binary_round_sign s m e :
  binary_round F32.prec F32.emax s m e
  = SFopp_if s (binary_round F32.prec F32.emax false m e).
Proof.
  unfold binary_round.
  destruct (shl_align m e _) as [mz ez]. apply round_aux_sign.
Qed.

Lemma binary_round_scaled m e :
  -149 <= e ->
  (binary_round F32.prec F32.emax false m e = S754_infinity false
   /\ 128 <= Zpos (digits2_pos m) + e)
  \/ exists m' e',
       binary_round F32.prec F32.emax false m e = S754_finite false m' e'
       /\ F32.on_grid m' e' /\ e' <= 104
       /\ nearest 0 (Zpos m * 2 ^ (e + 149)) (Zpos m' * 2 ^ (e' + 149)).
Proof.
  intros He. unfold binary_round.
  set (d := Zpos (digits2_pos m)) in *.
  assert (Hd0 : 0 < d) by (unfold d; lia).
  assert (Hps : 0 < 2 ^ (e + 149)) by (apply pow2_pos; lia).
  assert (Hfin : forall P E,
            0 <= E + 149 ->
            (24 <= Zpos (digits2_pos P) \/ E <= -149) ->
            Zpos (digits2_pos P) + E = d + e ->
            Zpos P * 2 ^ (E + 149) = Zpos m * 2 ^ (e + 149) ->
            (binary_round_aux F32.prec F32.emax false (Zpos P) E loc_Exact
             = S754_infinity false /\ 128 <= d + e)
            \/ exists m' e',
              binary_round_aux F32.prec F32.emax false (Zpos P) E loc_Exact
              = S754_finite false m' e'
              /\ F32.on_grid m' e' /\ e' <= 104
              /\ nearest 0 (Zpos m * 2 ^ (e + 149)) (Zpos m' * 2 ^ (e' + 149))).
  { intros P E H2 H3 Hdig Hval.
    destruct (round_aux_scaled P E 149 ltac:(lia) H2 H3) as [[Hi Ho]|[Hr Hn]].
    { left. split; [exact Hi | lia]. }
    right. cbv zeta in Hr, Hn. change (149 - 149) with 0 in Hn.
    change (2 ^ 0) with 1 in Hn. rewrite Z.mul_1_r, Hval in Hn.
    pose proof (nearest_pos 0 _ _ Hn ltac:(lia) ltac:(change (2 ^ 0) with 1; lia))
      as Hpos.
    destruct Hr as [Hz | (m' & e' & Hr & Hg & He')].
    - rewrite Hz in Hpos. cbn [SFscaled] in Hpos. lia.
    - exists m', e'. rewrite Hr in Hn. cbn [SFscaled cond_Zopp] in Hn. auto. }
  unfold shl_align.
  destruct (F32.fexp32 (d + e) - e) as [|p|p] eqn:En;
    pose proof En as En'; rewrite fexp32_eq in En'.
  - apply Hfin; first [lia | reflexivity].
  - apply Hfin; first [lia | reflexivity].
  - apply Hfin; try lia.
    + rewrite digits2_iter_xO. fold d. lia.
    + rewrite digits2_iter_xO. fold d. lia.
    + rewrite iter_xO_value, <- Z.mul_assoc, <- pow2_split by lia.
      do 2 f_equal. lia.
Qed.

Lemma normalize_rounds n e :
  -149 <= e ->
  (binary_normalize F32.prec F32.emax n e false = S754_infinity (n <? 0)
   /\ 2 ^ 276 <= Z.abs n * 2 ^ (e + 149))
  \/ rounds (n * 2 ^ (e + 149)) (binary_normalize F32.prec F32.emax n e false).
Proof.
  intros He.
  assert (Hps : 0 < 2 ^ (e + 149)) by (apply pow2_pos; lia).
  assert (Hbig : forall p, 128 <= Zpos (digits2_pos p) + e ->
                 2 ^ 276 <= Zpos p * 2 ^ (e + 149)).
  { intros p Hp. pose proof (digits2_bounds p) as [Hlo _].
    assert (H : 2 ^ 276 <= 2 ^ (Zpos (digits2_pos p) - 1) * 2 ^ (e + 149)).
    { rewrite <- pow2_split by lia. apply Z.pow_le_mono_r; lia. }
    nia. }
  destruct n as [|p|p]; cbn [binary_normalize].
  - right. split; [intros _; exists false; reflexivity
                  | intros H; exfalso; apply H; reflexivity].
  - destruct (binary_round_scaled p e He)
      as [[Hi Ho] | (m' & e' & Hr & Hg & He' & Hn)].
    { left. split; [exact Hi | exact (Hbig p Ho)]. }
    right. split; [lia|]. intros _. exists m', e'.
    replace (Zpos p * 2 ^ (e + 149) <? 0) with false
      by (symmetry; apply Z.ltb_ge; lia).
    rewrite Z.abs_eq by lia. auto.
  - rewrite binary_round_sign.
    destruct (binary_round_scaled p e He)
      as [[Hi Ho] | (m' & e' & Hr & Hg & He' & Hn)].
    { left. rewrite Hi. split; [reflexivity | exact (Hbig p Ho)]. }
    right. split; [lia|]. intros _. exists m', e'.
    replace (Zneg p * 2 ^ (e + 149) <? 0) with true
      by (symmetry; apply Z.ltb_lt; lia).
    rewrite Hr. cbn [SFopp_if SFopp negb].
    replace (Z.abs (Zneg p * 2 ^ (e + 149))) with (Zpos p * 2 ^ (e + 149)) by lia.
    auto.
Qed.

Lemma scaled_aligned s m e ez :
  -149 <= ez <= e ->
  cond_Zopp s (Zpos (fst (shl_align m e ez))) * 2 ^ (ez + 149)
  = SFscaled (S754_finite s m e).
Proof.
  intros H. rewrite shl_align_fst by lia. cbn [SFscaled].
  assert (Hs : 2 ^ (e + 149) = 2 ^ (e - ez) * 2 ^ (ez + 149)).
  { rewrite <- pow2_split by lia. f_equal. lia. }
  rewrite Hs. destruct s; cbn [cond_Zopp]; ring.
Qed.

Lemma rounds_self s m e :
  F32.on_grid m e -> e <= 104 ->
  rounds (SFscaled (S754_finite s m e)) (S754_finite s m e).
Proof.
  intros Hg He. pose proof (on_grid_exponent m e Hg) as Hlo.
  assert (Hps : 0 < 2 ^ (e + 149)) by (apply pow2_pos; lia).
  cbn [SFscaled]. split.
  - destruct s; cbn [cond_Zopp]; lia.
  - intros _. exists m, e.
    split; [f_equal; destruct s; cbn [cond_Zopp]; symmetry;
            [apply Z.ltb_lt | apply Z.ltb_ge]; lia|].
    split; [exact Hg|]. split; [exact He|].
    replace (Z.abs (cond_Zopp s (Zpos m * 2 ^ (e + 149))))
      with (Zpos m * 2 ^ (e + 149)) by (destruct s; cbn [cond_Zopp]; lia).
    apply nearest_self, Hg.
Qed.

Lemma small_exponent B s m e :
  SFsmall B (S754_finite s m e) -> B <= 2 ^ 150 -> -149 <= e <= 1.
Proof.
  cbn [SFsmall]. intros [Hg Hv] HB.
  pose proof (on_grid_exponent m e Hg) as Hlo. split; [exact Hlo|].
  destruct (Z.le_gt_cases e 1) as [H|H]; [exact H|exfalso].
  assert (2 ^ 151 <= 2 ^ (e + 149)) by (apply Z.pow_le_mono_r; lia).
  assert (2 ^ 150 < 2 ^ 151) by (apply Z.pow_lt_mono_r; lia).
  nia.
Qed.

Lemma small_scaled B f : SFsmall B f -> Z.abs (SFscaled f) <= Z.max B 0.
Proof.
  destruct f as [s|s| |s m e]; cbn [SFsmall SFscaled]; try contradiction; try lia.
  intros [Hg Hv]. pose proof (on_grid_exponent m e Hg) as Hlo.
  assert (Hps : 0 < 2 ^ (e + 149)) by (apply pow2_pos; lia).
  destruct s; cbn [cond_Zopp]; lia.
Qed.

Lemma small_fin B f : SFsmall B f -> B <= 2 ^ 150 -> SFfin f.
Proof.
  destruct f as [s|s| |s m e]; cbn [SFsmall SFfin]; auto.
  intros [Hg Hv] HB. split; [exact Hg|].
  pose proof (small_exponent B s m e (conj Hg Hv) HB). lia.
Qed.

Lemma fin_exponent s m e : SFfin (S754_finite s m e) -> -149 <= e <= 104.
Proof.
  cbn [SFfin]. intros [Hg He]. pose proof (on_grid_exponent m e Hg). lia.
Qed.

(** Subtraction of two numbers of the format: the nearest number, or an
    infinity past the largest one. *)
Lemma SFsub_rounds x y :
  SFfin x -> SFfin y ->
  (SFsub F32.prec F32.emax x y = S754_infinity (SFscaled x - SFscaled y <? 0)
   /\ 2 ^ 276 <= Z.abs (SFscaled x - SFscaled y))
  \/ rounds (SFscaled x - SFscaled y) (SFsub F32.prec F32.emax x y).
Proof.
  intros Hx Hy.
  destruct x as [sx|sx| |sx mx ex]; try contradiction;
    destruct y as [sy|sy| |sy my ey]; try contradiction.
  - right. cbn [SFscaled SFsub]. split; [|lia]. intros _.
    destruct sx, sy; eexists; reflexivity.
  - right. cbn [SFsub]. destruct Hy as [Hg Hv].
    replace (SFscaled (S754_zero sx) - SFscaled (S754_finite sy my ey))
      with (SFscaled (S754_finite (negb sy) my ey))
      by (cbn [SFscaled]; destruct sy; cbn [cond_Zopp negb]; lia).
    apply rounds_self; assumption.
  - right. cbn [SFsub]. destruct Hx as [Hg Hv].
    replace (SFscaled (S754_finite sx mx ex) - SFscaled (S754_zero sy))
      with (SFscaled (S754_finite sx mx ex)) by (cbn [SFscaled]; lia).
    apply rounds_self; assumption.
  - pose proof (fin_exponent _ _ _ Hx) as Hex.
    pose proof (fin_exponent _ _ _ Hy) as Hey.
    unfold SFsub. set (ez := Z.min ex ey).
    rewrite <- (scaled_aligned sx mx ex ez), <- (scaled_aligned sy my ey ez)
      by (unfold ez; lia).
    rewrite <- Z.mul_sub_distr_r.
    set (a := cond_Zopp sx (Zpos (fst (shl_align mx ex ez)))).
    set (b := cond_Zopp sy (Zpos (fst (shl_align my ey ez)))).
    assert (Hps : 0 < 2 ^ (ez + 149)) by (apply pow2_pos; unfold ez; lia).
    destruct (normalize_rounds (a - b) ez ltac:(unfold ez; lia)) as [[Hi Ho]|Hr].
    + left. rewrite Hi. split.
      * f_equal. destruct (Z.ltb_spec (a - b) 0), (Z.ltb_spec ((a - b) * 2 ^ (ez + 149)) 0);
          try reflexivity; nia.
      * rewrite Z.abs_mul, (Z.abs_eq (2 ^ (ez + 149))) by lia. exact Ho.
    + right. exact Hr.
Qed.

Lemma SFadd_rounds x y :
  SFfin x -> SFfin y ->
  (SFadd F32.prec F32.emax x y = S754_infinity (SFscaled x + SFscaled y <? 0)
   /\ 2 ^ 276 <= Z.abs (SFscaled x + SFscaled y))
  \/ rounds (SFscaled x + SFscaled y) (SFadd F32.prec F32.emax x y).
Proof.
  intros Hx Hy.
  destruct x as [sx|sx| |sx mx ex]; try contradiction;
    destruct y as [sy|sy| |sy my ey]; try contradiction.
  - right. cbn [SFscaled SFadd]. split; [|lia]. intros _.
    destruct sx, sy; eexists; reflexivity.
  - right. cbn [SFadd]. destruct Hy as [Hg Hv].
    replace (SFscaled (S754_zero sx) + SFscaled (S754_finite sy my ey))
      with (SFscaled (S754_finite sy my ey)) by (cbn [SFscaled]; lia).
    apply rounds_self; assumption.
  - right. cbn [SFadd]. destruct Hx as [Hg Hv].
    replace (SFscaled (S754_finite sx mx ex) + SFscaled (S754_zero sy))
      with (SFscaled (S754_finite sx mx ex)) by (cbn [SFscaled]; lia).
    apply rounds_self; assumption.
  - pose proof (fin_exponent _ _ _ Hx) as Hex.
    pose proof (fin_exponent _ _ _ Hy) as Hey.
    unfold SFadd. set (ez := Z.min ex ey).
    rewrite <- (scaled_aligned sx mx ex ez), <- (scaled_aligned sy my ey ez)
      by (unfold ez; lia).
    rewrite <- Z.mul_add_distr_r.
    set (a := cond_Zopp sx (Zpos (fst (shl_align mx ex ez)))).
    set (b := cond_Zopp sy (Zpos (fst (shl_align my ey ez)))).
    assert (Hps : 0 < 2 ^ (ez + 149)) by (apply pow2_pos; unfold ez; lia).
    destruct (normalize_rounds (a + b) ez ltac:(unfold ez; lia)) as [[Hi Ho]|Hr].
    + left. rewrite Hi. split.
      * f_equal. destruct (Z.ltb_spec (a + b) 0), (Z.ltb_spec ((a + b) * 2 ^ (ez + 149)) 0);
          try reflexivity; nia.
      * rewrite Z.abs_mul, (Z.abs_eq (2 ^ (ez + 149))) by lia. exact Ho.
    + right. exact Hr.
Qed.

(** Numbers of magnitude at most 2 do not overflow. *)
Lemma SFsub_small x y :
  SFsmall (2 ^ 150) x -> SFsmall (2 ^ 150) y ->
  rounds (SFscaled x - SFscaled y) (SFsub F32.prec F32.emax x y).
Proof.
  intros Hx Hy.
  pose proof (small_scaled _ x Hx) as Bx. pose proof (small_scaled _ y Hy) as By.
  destruct (SFsub_rounds x y) as [[_ Ho]|Hr];
    [apply (small_fin _ _ Hx); lia | apply (small_fin _ _ Hy); lia | | exact Hr].
  exfalso.
  assert (2 ^ 150 + 2 ^ 150 < 2 ^ 276).
  { change (2 ^ 150 + 2 ^ 150) with (2 ^ 151). apply Z.pow_lt_mono_r; lia. }
  lia.
Qed.

Lemma SFadd_small x y :
  SFsmall (2 ^ 150) x -> SFsmall (2 ^ 150) y ->
  rounds (SFscaled x + SFscaled y) (SFadd F32.prec F32.emax x y).
Proof.
  intros Hx Hy.
  pose proof (small_scaled _ x Hx) as Bx. pose proof (small_scaled _ y Hy) as By.
  destruct (SFadd_rounds x y) as [[_ Ho]|Hr];
    [apply (small_fin _ _ Hx); lia | apply (small_fin _ _ Hy); lia | | exact Hr].
  exfalso.
  assert (2 ^ 150 + 2 ^ 150 < 2 ^ 276).
  { change (2 ^ 150 + 2 ^ 150) with (2 ^ 151). apply Z.pow_lt_mono_r; lia. }
  lia.
Qed.

(** *** What follows for the result *)

Lemma rounds_cases n r :
  rounds n r ->
  (n = 0 /\ exists s, r = S754_zero s)
  \/ (n <> 0 /\ exists m e N,
        r = S754_finite (n <? 0) m e /\ F32.on_grid m e /\ e <= 104
        /\ N = Zpos m * 2 ^ (e + 149) /\ 0 < N
        /\ SFscaled r = (if n <? 0 then - N else N)
        /\ nearest 0 (Z.abs n) N).
Proof.
  intros [H0 H1]. destruct (Z.eq_dec n 0) as [E|E].
  - left. split; [exact E | exact (H0 E)].
  - right. split; [exact E|].
    destruct (H1 E) as (m & e & Hr & Hg & He & Hn).
    exists m, e, (Zpos m * 2 ^ (e + 149)).
    pose proof (on_grid_exponent m e Hg) as Hlo.
    assert (Hps : 0 < 2 ^ (e + 149)) by (apply pow2_pos; lia).
    repeat split; try assumption; try lia.
    rewrite Hr. cbn [SFscaled]. destruct (n <? 0); reflexivity.
Qed.

Lemma rounds_small n r j :
  rounds n r -> 24 <= j -> Z.abs n <= 2 ^ j + 2 ^ (j - 24) ->
  SFsmall (2 ^ j) r.
Proof.
  intros H Hj Hn.
  destruct (rounds_cases n r H)
    as [[_ [s ->]] | (Hne & m & e & N & -> & Hg & He & HN & Hpos & _ & Hnear)].
  - exact I.
  - cbn [SFsmall]. split; [exact Hg|]. rewrite <- HN.
    apply (nearest_mid 0 (Z.abs n) N j Hnear); lia.
Qed.

Lemma rounds_err n r :
  rounds n r -> Z.abs n <= 2 ^ 150 -> Z.abs (SFscaled r - n) <= 2 ^ 125.
Proof.
  intros H Hn.
  destruct (rounds_cases n r H)
    as [[-> [s ->]] | (Hne & m & e & N & Hr & Hg & He & HN & Hpos & Hs & Hnear)].
  - cbn [SFscaled]. lia.
  - rewrite Hs.
    assert (Hd : Z.abs ((if n <? 0 then - N else N) - n) = Z.abs (N - Z.abs n)).
    { destruct (Z.ltb_spec n 0); lia. }
    rewrite Hd. clear Hd Hs.
    destruct (Z.eq_dec (Z.abs n) (2 ^ 150)) as [E|E].
    + assert (N = Z.abs n); [|lia].
      apply (nearest_exact 0 (Z.abs n) N (2 ^ 23) 127 Hnear);
        first [lia | rewrite E; reflexivity].
    + pose proof (nearest_err 0 (Z.abs n) N 150 Hnear ltac:(lia) ltac:(lia)
                    ltac:(lia)) as Herr.
      change (2 ^ (150 - 24)) with (2 * 2 ^ 125) in Herr. lia.
Qed.

Lemma rounds_exact n r c q :
  rounds n r -> 0 <= q -> Z.abs n = c * 2 ^ q -> 0 <= c < 2 ^ 24 ->
  SFscaled r = n.
Proof.
  intros H Hq Hn Hc.
  destruct (rounds_cases n r H)
    as [[-> [s ->]] | (Hne & m & e & N & Hr & Hg & He & HN & Hpos & Hs & Hnear)].
  - reflexivity.
  - rewrite Hs.
    assert (N = Z.abs n)
      by (apply (nearest_exact 0 (Z.abs n) N c q Hnear); lia).
    destruct (Z.ltb_spec n 0); lia.
Qed.

Lemma rounds_sign n r :
  rounds n r ->
  (0 <= n -> 0 <= SFscaled r) /\ (n <= 0 -> SFscaled r <= 0)
  /\ (0 < n -> exists m e, r = S754_finite false m e /\ F32.on_grid m e)
  /\ (n < 0 -> exists m e, r = S754_finite true m e /\ F32.on_grid m e).
Proof.
  intros H.
  destruct (rounds_cases n r H)
    as [[-> [s ->]] | (Hne & m & e & N & Hr & Hg & He & HN & Hpos & Hs & Hnear)].
  - cbn [SFscaled]. repeat split; lia.
  - rewrite Hs. destruct (Z.ltb_spec n 0) as [Hl|Hl].
    + repeat split; try lia. intros _. exists m, e. auto.
    + repeat split; try lia. intros _. exists m, e. auto.
Qed.

(** *** Products and square roots in the unit interval *)

Lemma SFmul_unit sx mx ex sy my ey :
  F32.on_grid mx ex -> F32.on_grid my ey -> ex <= 1 -> ey <= 1 ->
  (Zpos mx * 2 ^ (ex + 149)) * (Zpos my * 2 ^ (ey + 149))
  <= (2 ^ 149 + 2 ^ 125) * 2 ^ 149 ->
  let r := SFmul F32.prec F32.emax (S754_finite sx mx ex) (S754_finite sy my ey) in
  r = S754_zero (xorb sx sy)
  \/ exists m e, r = S754_finite (xorb sx sy) m e /\ F32.on_grid m e
       /\ Zpos m * 2 ^ (e + 149) <= 2 ^ 149.
Proof.
  intros Hgx Hgy Hex Hey Hv r. subst r. unfold SFmul.
  rewrite round_aux_sign.
  pose proof (on_grid_exponent _ _ Hgx) as Hlx.
  pose proof (on_grid_exponent _ _ Hgy) as Hly.
  destruct (on_grid_digits _ _ Hgx) as [Hxhi Hxlo].
  destruct (on_grid_digits _ _ Hgy) as [Hyhi Hylo].
  assert (Hd : 24 <= Zpos (digits2_pos (mx * my)) \/ ex + ey <= -149).
  { destruct Hxlo as [Hx|Hx]; [|destruct Hylo as [Hy|Hy]; [|right; lia]];
      left; (assert (23 + 1 <= Zpos (digits2_pos (mx * my))); [|lia]);
      (apply digits2_lower; [lia|]); rewrite Pos2Z.inj_mul; nia. }
  assert (Hmax : Zpos (digits2_pos (mx * my)) + (ex + ey) <= 127).
  { assert (Zpos (digits2_pos (mx * my)) <= 48); [|lia].
    apply digits2_le; [lia|]. rewrite Pos2Z.inj_mul.
    change (2 ^ 48) with (2 ^ 24 * 2 ^ 24). nia. }
  destruct (round_aux_scaled (mx * my) (ex + ey) 298 ltac:(lia) ltac:(lia) Hd)
    as [[_ Ho]|[Hr Hn]]; [lia|].
  cbv zeta in Hr, Hn. change (298 - 149) with 149 in Hn.
  assert (Hval : Zpos (mx * my) * 2 ^ (ex + ey + 298)
                 = (Zpos mx * 2 ^ (ex + 149)) * (Zpos my * 2 ^ (ey + 149))).
  { rewrite Pos2Z.inj_mul.
    replace (ex + ey + 298) with ((ex + 149) + (ey + 149)) by lia.
    rewrite pow2_split by lia. ring. }
  rewrite Hval in Hn.
  assert (Hn0 : 0 <= Zpos mx * 2 ^ (ex + 149) * (Zpos my * 2 ^ (ey + 149))).
  { assert (0 < 2 ^ (ex + 149)) by (apply pow2_pos; lia).
    assert (0 < 2 ^ (ey + 149)) by (apply pow2_pos; lia). nia. }
  pose proof (nearest_mid 149 _ _ 298 Hn ltac:(lia) ltac:(lia)) as Hmid.
  change (2 ^ 298 + 2 ^ (298 - 24)) with ((2 ^ 149 + 2 ^ 125) * 2 ^ 149) in Hmid.
  specialize (Hmid (conj Hn0 Hv)).
  destruct Hr as [Hr | (m & e & Hr & Hg & He)]; rewrite Hr in Hmid |- *.
  - left. destruct (xorb sx sy); reflexivity.
  - right. exists m, e.
    split; [destruct (xorb sx sy); reflexivity|]. split; [exact Hg|].
    cbn [SFscaled cond_Zopp] in Hmid.
    change (2 ^ 298) with (2 ^ 149 * 2 ^ 149) in Hmid.
    apply (Z.mul_le_mono_pos_r _ _ (2 ^ 149)); [apply pow2_pos; lia|].
    exact (proj2 Hmid).
Qed.

(** The product of two numbers of the format is not a zero unless it
    is below the least positive number. *)
Lemma SFmul_large sx mx ex sy my ey :
  F32.on_grid mx ex -> F32.on_grid my ey ->
  2 ^ 149 <= (Zpos mx * 2 ^ (ex + 149)) * (Zpos my * 2 ^ (ey + 149)) ->
  let r := SFmul F32.prec F32.emax (S754_finite sx mx ex) (S754_finite sy my ey) in
  r = S754_infinity (xorb sx sy)
  \/ exists m e, r = S754_finite (xorb sx sy) m e /\ F32.on_grid m e /\ e <= 104.
Proof.
  intros Hgx Hgy Hv r. subst r. unfold SFmul.
  rewrite round_aux_sign.
  pose proof (on_grid_exponent _ _ Hgx) as Hlx.
  pose proof (on_grid_exponent _ _ Hgy) as Hly.
  destruct (on_grid_digits _ _ Hgx) as [Hxhi Hxlo].
  destruct (on_grid_digits _ _ Hgy) as [Hyhi Hylo].
  assert (Hd : 24 <= Zpos (digits2_pos (mx * my)) \/ ex + ey <= -149).
  { destruct Hxlo as [Hx|Hx]; [|destruct Hylo as [Hy|Hy]; [|right; lia]];
      left; (assert (23 + 1 <= Zpos (digits2_pos (mx * my))); [|lia]);
      (apply digits2_lower; [lia|]); rewrite Pos2Z.inj_mul; nia. }
  destruct (round_aux_scaled (mx * my) (ex + ey) 298 ltac:(lia) ltac:(lia) Hd)
    as [[Hi _]|[Hr Hn]].
  { left. rewrite Hi. destruct (xorb sx sy); reflexivity. }
  cbv zeta in Hr, Hn. change (298 - 149) with 149 in Hn.
  assert (Hval : Zpos (mx * my) * 2 ^ (ex + ey + 298)
                 = (Zpos mx * 2 ^ (ex + 149)) * (Zpos my * 2 ^ (ey + 149))).
  { rewrite Pos2Z.inj_mul.
    replace (ex + ey + 298) with ((ex + 149) + (ey + 149)) by lia.
    rewrite pow2_split by lia. ring. }
  rewrite Hval in Hn.
  pose proof (nearest_pos 149 _ _ Hn ltac:(lia) Hv) as Hpos.
  destruct Hr as [Hr | (m & e & Hr & Hg & He)]; rewrite Hr in Hpos |- *.
  - cbn [SFscaled] in Hpos. lia.
  - right. exists m, e. split; [destruct (xorb sx sy); reflexivity | auto].
Qed.

Lemma sqrt_exponent d e :
  0 < d <= 24 -> -148 <= d + e ->
  Z.min (F32.fexp32 (Z.div2 (d + e + 1))) (Z.div2 e) = (d + e + 1) / 2 - 24.
Proof.
  intros Hd He. rewrite !Z.div2_div, fexp32_eq.
  assert (H1 : -74 <= (d + e + 1) / 2) by (apply Z.div_le_lower_bound; lia).
  assert (H2 : (d + e + 1) / 2 - 24 <= e / 2).
  { assert (H : (d + e + 1) / 2 - 24 = (d + e + 1 - 48) / 2).
    { replace (d + e + 1 - 48) with (d + e + 1 + (-24) * 2) by lia.
      rewrite Z.div_add by lia. lia. }
    rewrite H. apply Z.div_le_mono; lia. }
  lia.
Qed.

Lemma SFsqrt_unit m e :
  F32.on_grid m e -> Zpos m * 2 ^ (e + 149) <= 2 ^ 149 ->
  exists m' e',
    SFsqrt F32.prec F32.emax (S754_finite false m e) = S754_finite false m' e'
    /\ F32.on_grid m' e' /\ Zpos m' * 2 ^ (e' + 149) <= 2 ^ 149.
Proof.
  intros Hg Hv.
  pose proof (on_grid_exponent _ _ Hg) as Hlo.
  destruct (on_grid_digits _ _ Hg) as [Hhi Hnorm].
  pose proof (digits2_bounds m) as Hb.
  set (d := Zpos (digits2_pos m)) in *.
  assert (Hd0 : 0 < d) by (unfold d; lia).
  assert (Hd24 : d <= 24).
  { unfold d. apply digits2_le; lia. }
  assert (He0 : e + 149 <= 149).
  { destruct (Z.le_gt_cases (e + 149) 149) as [H|H]; [exact H|exfalso].
    assert (2 ^ 150 <= 2 ^ (e + 149)) by (apply Z.pow_le_mono_r; lia).
    assert (2 ^ 149 < 2 ^ 150) by (apply Z.pow_lt_mono_r; lia). nia. }
  unfold SFsqrt, SFsqrt_core_binary. cbn [Zdigits2]. fold d.
  rewrite sqrt_exponent by lia.
  set (e' := (d + e + 1) / 2 - 24).
  assert (Hh : d + e <= 2 * ((d + e + 1) / 2) <= d + e + 1)
    by (Z.div_mod_to_equations; lia).
  assert (Hs : 23 <= e - 2 * e' <= 48 - d) by (unfold e'; lia).
  assert (Hs' : d + (e - 2 * e') = 47 \/ d + (e - 2 * e') = 48) by (unfold e'; lia).
  destruct (e - 2 * e') as [|p|p] eqn:Es; try lia.
  rewrite Z.shiftl_mul_pow2 by lia.
  set (m2 := Zpos m * 2 ^ Zpos p).
  assert (Hpp : 0 < 2 ^ Zpos p) by (apply pow2_pos; lia).
  assert (Hm2lo : 2 ^ 46 <= m2).
  { unfold m2.
    assert (2 ^ 46 <= 2 ^ (d - 1) * 2 ^ Zpos p); [|nia].
    rewrite <- pow2_split by lia. apply Z.pow_le_mono_r; lia. }
  assert (Hm2hi : m2 < 2 ^ 48).
  { unfold m2.
    assert (2 ^ d * 2 ^ Zpos p <= 2 ^ 48); [|nia].
    rewrite <- pow2_split by lia. apply Z.pow_le_mono_r; lia. }
  (* the value is at most one: [m2 <= (2^(-e'))^2] *)
  assert (He'neg : e' <= 0) by (unfold e'; Z.div_mod_to_equations; lia).
  assert (Hm2one : m2 <= 2 ^ (- e') * 2 ^ (- e')).
  { unfold m2. rewrite <- pow2_split by lia.
    replace (- e' + - e') with (Zpos p + - e) by lia.
    assert (He : e <= 0) by lia.
    rewrite pow2_split by lia.
    assert (Hme : Zpos m <= 2 ^ (- e)).
    { assert (Hsp : 2 ^ 149 = 2 ^ (- e) * 2 ^ (e + 149)).
      { rewrite <- pow2_split by lia. f_equal. lia. }
      rewrite Hsp in Hv.
      assert (0 < 2 ^ (e + 149)) by (apply pow2_pos; lia). nia. }
    nia. }
  pose proof (Z.sqrtrem_spec m2 ltac:(lia)) as Hsq.
  destruct (Z.sqrtrem m2) as [q r]. destruct Hsq as [Hm2 Hr].
  assert (Hq : 2 ^ 23 <= q < 2 ^ 24).
  { change (2 ^ 46) with (2 ^ 23 * 2 ^ 23) in Hm2lo.
    change (2 ^ 48) with (2 ^ 24 * 2 ^ 24) in Hm2hi. nia. }
  assert (Hpe : 0 < 2 ^ (- e')) by (apply pow2_pos; lia).
  assert (Hqone : q <= 2 ^ (- e')) by nia.
  assert (Hexact : q = 2 ^ (- e') -> r = 0) by nia.
  set (l := if r =? 0 then loc_Exact
            else loc_Inexact (if r <=? q then Lt else Gt)).
  assert (Hround : round_nearest_even q l = q
                   \/ (round_nearest_even q l = q + 1 /\ r <> 0)).
  { unfold l. destruct (Z.eqb_spec r 0) as [E|E]; [left; reflexivity|].
    destruct (r <=? q); cbn [round_nearest_even]; [left; reflexivity|].
    right. split; [reflexivity | exact E]. }
  destruct q as [|qp|qp]; try lia.
  assert (Hdq : Zpos (digits2_pos qp) = 24) by (apply digits2_of_range; lia).
  assert (He'lo : -149 <= e') by (unfold e'; Z.div_mod_to_equations; lia).
  unfold binary_round_aux.
  assert (H1 : shr_fexp F32.prec F32.emax (Zpos qp) e' l
               = (shr_record_of_loc (Zpos qp) l, e')).
  { unfold shr_fexp. cbn [Zdigits2]. rewrite Hdq, fexp32_eq.
    replace (Z.max (24 + e' - 24) (-149) - e') with 0 by lia. reflexivity. }
  rewrite H1.
  assert (H2 : shr_m (shr_record_of_loc (Zpos qp) l) = Zpos qp)
    by (destruct l as [|[]]; reflexivity).
  assert (H3 : loc_of_shr_record (shr_record_of_loc (Zpos qp) l) = l)
    by (destruct l as [|[]]; reflexivity).
  rewrite H2, H3.
  assert (Hps : 0 < 2 ^ (e' + 149)) by (apply pow2_pos; lia).
  assert (Hone : 2 ^ 149 = 2 ^ (- e') * 2 ^ (e' + 149)).
  { rewrite <- pow2_split by lia. f_equal. lia. }
  destruct Hround as [-> | [-> Hr0]].
  - (* rounded down *)
    rewrite (shr_fexp_on_grid qp e') by (apply on_grid_normal; assumption).
    cbn [shr_m]. destruct (Z.leb_spec e' (F32.emax - F32.prec)) as [_|Hbad];
      [|unfold F32.emax, F32.prec in Hbad; lia].
    exists qp, e'. split; [reflexivity|].
    split; [apply on_grid_normal; assumption|].
    rewrite Hone. nia.
  - (* rounded up *)
    assert (Hq1 : Zpos qp + 1 <= 2 ^ (- e')).
    { destruct (Z.eq_dec (Zpos qp) (2 ^ (- e'))) as [E|E]; [|lia].
      exfalso. apply Hr0, Hexact, E. }
    destruct (Z.eq_dec (Zpos qp + 1) (2 ^ 24)) as [Etop|Etop].
    + rewrite Etop. change (2 ^ 24) with 16777216.
      unfold shr_fexp. cbn [Zdigits2 shr_record_of_loc].
      change (Zpos (digits2_pos 16777216)) with 25. rewrite fexp32_eq.
      replace (Z.max (25 + e' - 24) (-149) - e') with 1 by lia.
      cbn [shr SpecFloat.iter_pos shr_1 shr_m].
      destruct (Z.leb_spec (e' + 1) (F32.emax - F32.prec)) as [_|Hbad];
        [|unfold F32.emax, F32.prec in Hbad; lia].
      exists 8388608%positive, (e' + 1). split; [reflexivity|].
      split; [apply on_grid_normal; [reflexivity | lia]|].
      replace (e' + 1 + 149) with (1 + (e' + 149)) by lia.
      rewrite pow2_split by lia. rewrite Hone. rewrite Etop in Hq1.
      change (2 ^ 1) with 2. nia.
    + assert (Hq2 : exists q2, Zpos qp + 1 = Zpos q2).
      { exists (qp + 1)%positive. lia. }
      destruct Hq2 as [q2 Eq2]. rewrite Eq2.
      assert (Hdq2 : Zpos (digits2_pos q2) = 24) by (apply digits2_of_range; lia).
      rewrite (shr_fexp_on_grid q2 e') by (apply on_grid_normal; assumption).
      cbn [shr_m]. destruct (Z.leb_spec e' (F32.emax - F32.prec)) as [_|Hbad];
        [|unfold F32.emax, F32.prec in Hbad; lia].
      exists q2, e'. split; [reflexivity|].
      split; [apply on_grid_normal; assumption|].
      rewrite Hone. nia.
Qed.

(** *** From the halved angle to the result *)

Lemma scaled_two : SFscaled (S754_finite false 8388608 (-22)) = 2 ^ 150.
Proof. reflexivity. Qed.

Lemma scaled_one : SFscaled (S754_finite false 8388608 (-23)) = 2 ^ 149.
Proof. reflexivity. Qed.

Lemma small_two : SFsmall (2 ^ 150) (S754_finite false 8388608 (-22)).
Proof. split; [reflexivity | cbv; discriminate]. Qed.

Lemma small_one : SFsmall (2 ^ 150) (S754_finite false 8388608 (-23)).
Proof. split; [reflexivity | cbv; discriminate]. Qed.

Lemma small_weaken B B' f : SFsmall B f -> B <= B' -> SFsmall B' f.
Proof.
  destruct f as [s|s| |s m e]; cbn [SFsmall]; auto.
  intros [Hg Hv] HB. split; [exact Hg | lia].
Qed.

(** [2 - t] for [0 <= t <= 2]: at most [2], and so near [2 - t] that the
    product with [t] stays at or below the middle of [1] and the next
    binary32. *)
Lemma two_minus T :
  SFsmall (2 ^ 150) T -> 0 <= SFscaled T ->
  let Y := SFsub F32.prec F32.emax (S754_finite false 8388608 (-22)) T in
  SFsmall (2 ^ 150) Y /\ 0 <= SFscaled Y
  /\ SFscaled Y * SFscaled T <= (2 ^ 149 + 2 ^ 125) * 2 ^ 149.
Proof.
  intros HT Hpos Y.
  assert (P149 : 0 < 2 ^ 149) by (apply pow2_pos; lia).
  assert (P125 : 0 < 2 ^ 125) by (apply pow2_pos; lia).
  assert (P126 : 0 < 2 ^ (150 - 24)) by (apply pow2_pos; lia).
  assert (U2 : 2 ^ 150 = 2 * 2 ^ 149) by reflexivity.
  pose proof (small_scaled _ T HT) as BT.
  pose proof (SFsub_small _ T small_two HT) as Hr. fold Y in Hr.
  rewrite scaled_two in Hr.
  set (t := SFscaled T) in *.
  assert (Ht : 0 <= t <= 2 ^ 150) by lia.
  split; [apply (rounds_small _ _ 150 Hr); lia|].
  destruct (rounds_sign _ _ Hr) as (Hs & _).
  split; [apply Hs; lia|].
  destruct (Z.le_gt_cases (2 ^ 149) t) as [Hbig|Hlow].
  - (* [t >= 1]: the difference is exact *)
    assert (Hex : SFscaled Y = 2 ^ 150 - t).
    { destruct T as [s|s| |s m e]; try contradiction.
      destruct HT as [Hg Hv]. unfold t in *.
      pose proof (on_grid_exponent m e Hg) as Hlo.
      destruct (on_grid_digits m e Hg) as [Hhi _].
      assert (Hps : 0 < 2 ^ (e + 149)) by (apply pow2_pos; lia).
      destruct s; cbn [SFscaled cond_Zopp] in *; [lia|].
      assert (He : 126 <= e + 149 <= 150).
      { split.
        - destruct (Z.le_gt_cases 126 (e + 149)) as [H|H]; [exact H|exfalso].
          assert (2 ^ (e + 149) <= 2 ^ 125) by (apply Z.pow_le_mono_r; lia).
          assert (2 ^ 149 = 2 ^ 24 * 2 ^ 125) by reflexivity. nia.
        - destruct (Z.le_gt_cases (e + 149) 150) as [H|H]; [exact H|exfalso].
          assert (2 ^ 151 <= 2 ^ (e + 149)) by (apply Z.pow_le_mono_r; lia).
          assert (2 ^ 151 = 2 * 2 ^ 150) by reflexivity. nia. }
      assert (Hsp : 2 ^ 150 = 2 ^ (1 - e) * 2 ^ (e + 149)).
      { rewrite <- pow2_split by lia. f_equal. lia. }
      assert (Hc : 2 ^ (1 - e) <= 2 ^ 24) by (apply Z.pow_le_mono_r; lia).
      assert (Hc0 : 0 < 2 ^ (1 - e)) by (apply pow2_pos; lia).
      apply (rounds_exact _ _ (2 ^ (1 - e) - Zpos m) (e + 149) Hr); try lia.
      split; [|lia]. rewrite Hsp in Hv. nia. }
    rewrite Hex.
    set (U := 2 ^ 149) in *.
    change (2 ^ 150) with (2 * U) in *.
    assert (0 < 2 ^ 125) by (apply pow2_pos; lia). nia.
  - (* [t < 1]: the difference is off by half a step of [[1, 2)] at most *)
    pose proof (rounds_err _ _ Hr ltac:(lia)) as Herr.
    set (U := 2 ^ 149) in *. set (h := 2 ^ 125) in *.
    change (2 ^ 150) with (2 * U) in *.
    assert (0 < h) by (apply pow2_pos; lia).
    assert (0 < U) by (apply pow2_pos; lia).
    assert (HY : SFscaled Y <= 2 * U - t + h) by lia.
    assert (Hprod : SFscaled Y * t <= (2 * U - t + h) * t).
    { apply Z.mul_le_mono_nonneg_r; lia. }
    nia.
Qed.

(** The sine of the reduced angle: [sqrt ((2 - t) * t)] is in [[0, 1]]. *)
Lemma sine_reduced_unit T :
  SFsmall (2 ^ 150) T -> 0 <= SFscaled T ->
  let Y := SFsub F32.prec F32.emax (S754_finite false 8388608 (-22)) T in
  let P := SFmul F32.prec F32.emax Y T in
  let S0 := SFsqrt F32.prec F32.emax P in
  SFsmall (2 ^ 150) Y /\ SFsmall (2 ^ 149) P /\ SFsmall (2 ^ 149) S0.
Proof.
  intros HT Hpos Y P S0.
  destruct (two_minus T HT Hpos) as (HY & HYpos & Hprod). fold Y in HY, HYpos, Hprod.
  split; [exact HY|].
  assert (HP : SFsmall (2 ^ 149) P
               /\ ((exists s, P = S754_zero s)
                   \/ exists m e, P = S754_finite false m e)).
  { subst P. destruct Y as [sy|sy| |sy my ey]; try contradiction;
      destruct T as [st|st| |st mt et]; try contradiction.
    - cbn [SFmul SFsmall]. split; [exact I | left; eauto].
    - cbn [SFmul SFsmall]. split; [exact I | left; eauto].
    - cbn [SFmul SFsmall]. split; [exact I | left; eauto].
    - destruct HY as [Hgy Hvy]. destruct HT as [Hgt Hvt].
      pose proof (on_grid_exponent _ _ Hgy) as Hly.
      pose proof (on_grid_exponent _ _ Hgt) as Hlt.
      assert (Hpy : 0 < 2 ^ (ey + 149)) by (apply pow2_pos; lia).
      assert (Hpt : 0 < 2 ^ (et + 149)) by (apply pow2_pos; lia).
      assert (sy = false) by (destruct sy; cbn [SFscaled cond_Zopp] in HYpos; [lia|reflexivity]).
      assert (st = false) by (destruct st; cbn [SFscaled cond_Zopp] in Hpos; [lia|reflexivity]).
      subst sy st. cbn [SFscaled cond_Zopp] in Hprod.
      pose proof (small_exponent (2 ^ 150) false my ey (conj Hgy Hvy) ltac:(lia))
        as Hey.
      pose proof (small_exponent (2 ^ 150) false mt et (conj Hgt Hvt) ltac:(lia))
        as Het.
      destruct (SFmul_unit false my ey false mt et Hgy Hgt ltac:(lia) ltac:(lia) Hprod)
        as [Hz | (m & e & Hr & Hg & Hv)]; cbn [xorb] in *.
      + rewrite Hz. split; [exact I | left; eauto].
      + rewrite Hr. split; [split; assumption | right; eauto]. }
  destruct HP as [HPs HPc]. split; [exact HPs|].
  subst S0. destruct HPc as [[s E] | (m & e & E)]; rewrite E in *.
  - exact I.
  - destruct HPs as [Hg Hv].
    destruct (SFsqrt_unit m e Hg Hv) as (m' & e' & Hr & Hg' & Hv').
    rewrite Hr. split; assumption.
Qed.

(** The cosine, the blend and the sign flip stay in [[-1, 1]]. *)
Lemma blend_unit S0 C (b1 b2 : bool) :
  SFsmall (2 ^ 149) S0 -> SFsmall (2 ^ 149) C ->
  let D := SFsub F32.prec F32.emax C S0 in
  let S1 := SFadd F32.prec F32.emax S0 (if b1 then D else S754_zero false) in
  SFsmall (2 ^ 150) D /\ SFsmall (2 ^ 149) S1.
Proof.
  intros HS HC D S1.
  pose proof (small_scaled _ _ HS) as BS. pose proof (small_scaled _ _ HC) as BC.
  assert (HS2 : SFsmall (2 ^ 150) S0) by (apply (small_weaken _ _ _ HS); lia).
  assert (HC2 : SFsmall (2 ^ 150) C) by (apply (small_weaken _ _ _ HC); lia).
  pose proof (SFsub_small C S0 HC2 HS2) as HrD. fold D in HrD.
  assert (U2 : 2 ^ 150 = 2 * 2 ^ 149) by reflexivity.
  assert (HD : SFsmall (2 ^ 150) D).
  { apply (rounds_small _ _ 150 HrD); [lia|].
    assert (0 < 2 ^ (150 - 24)) by (apply pow2_pos; lia). lia. }
  split; [exact HD|].
  pose proof (rounds_err _ _ HrD ltac:(lia)) as Herr.
  destruct b1.
  - pose proof (SFadd_small S0 D HS2 HD) as Hr. fold S1 in Hr.
    apply (rounds_small _ _ 149 Hr); [lia|].
    change (2 ^ (149 - 24)) with (2 ^ 125). lia.
  - pose proof (SFadd_small S0 (S754_zero false) HS2 I) as Hr. fold S1 in Hr.
    apply (rounds_small _ _ 149 Hr); [lia|].
    cbn [SFscaled]. assert (0 < 2 ^ (149 - 24)) by (apply pow2_pos; lia). lia.
Qed.

Lemma double_small S1 :
  SFsmall (2 ^ 149) S1 ->
  let M := SFmul F32.prec F32.emax S1 (S754_finite false 8388608 (-22)) in
  SFsmall (2 ^ 150) M /\ SFscaled M = 2 * SFscaled S1.
Proof.
  intros HS M. subst M.
  destruct S1 as [s|s| |s m e]; try contradiction.
  - cbn [SFmul SFsmall SFscaled]. split; [exact I | reflexivity].
  - destruct HS as [Hg Hv].
    pose proof (on_grid_exponent m e Hg) as Hlo.
    assert (Hps : 0 < 2 ^ (e + 149)) by (apply pow2_pos; lia).
    pose proof Hg as Hg'. unfold F32.on_grid in Hg'. rewrite fexp32_eq in Hg'.
    pose proof (digits2_bounds m) as Hb.
    destruct (Z.eq_dec (Zpos (digits2_pos m)) 24) as [Hd|Hd].
    + rewrite SFmul_two_normal by assumption.
      assert (He1 : e + 1 <= 104).
      { destruct (Z.le_gt_cases (e + 1) 104) as [H|H]; [exact H|exfalso].
        assert (2 ^ 150 <= 2 ^ (e + 149)) by (apply Z.pow_le_mono_r; lia).
        assert (2 ^ 149 < 2 ^ 150) by (apply Z.pow_lt_mono_r; lia). nia. }
      destruct (Z.leb_spec (e + 1) 104); [|lia].
      assert (Hsp : 2 ^ (e + 1 + 149) = 2 * 2 ^ (e + 149)).
      { replace (e + 1 + 149) with (1 + (e + 149)) by lia.
        rewrite pow2_split by lia. reflexivity. }
      cbn [SFsmall SFscaled]. rewrite Hsp. split.
      * split; [apply on_grid_normal; [exact Hd | lia]|].
        change (2 ^ 150) with (2 * 2 ^ 149). lia.
      * destruct s; cbn [cond_Zopp]; lia.
    + assert (He : e = -149) by lia. subst e.
      assert (Hd23 : Zpos (digits2_pos m) <= 23) by lia.
      rewrite SFmul_two_subnormal by exact Hd23.
      cbn [SFsmall SFscaled]. rewrite (Pos2Z.inj_xO m). split.
      * split; [apply on_grid_subnormal; cbn [digits2_pos]; lia|].
        change (2 ^ 150) with (2 * 2 ^ 149). lia.
      * destruct s; cbn [cond_Zopp]; lia.
Qed.

Lemma negate_unit S1 (b2 : bool) :
  SFsmall (2 ^ 149) S1 ->
  let M := SFmul F32.prec F32.emax S1 (S754_finite false 8388608 (-22)) in
  let R := SFsub F32.prec F32.emax S1 (if b2 then M else S754_zero false) in
  SFsmall (2 ^ 150) M /\ SFsmall (2 ^ 149) R.
Proof.
  intros HS M R.
  pose proof (small_scaled _ _ HS) as BS.
  destruct (double_small S1 HS) as [HM HMv]. fold M in HM, HMv.
  split; [exact HM|].
  assert (HS2 : SFsmall (2 ^ 150) S1) by (apply (small_weaken _ _ _ HS); lia).
  assert (0 < 2 ^ (149 - 24)) by (apply pow2_pos; lia).
  destruct b2.
  - pose proof (SFsub_small S1 M HS2 HM) as Hr. fold R in Hr.
    apply (rounds_small _ _ 149 Hr); [lia|]. lia.
  - pose proof (SFsub_small S1 (S754_zero false) HS2 I) as Hr. fold R in Hr.
    apply (rounds_small _ _ 149 Hr); [lia|]. cbn [SFscaled]. lia.
Qed.

Lemma cosine_reduced_unit T :
  SFsmall (2 ^ 150) T -> 0 <= SFscaled T ->
  SFsmall (2 ^ 149) (SFsub F32.prec F32.emax (S754_finite false 8388608 (-23)) T).
Proof.
  intros HT Hpos. pose proof (small_scaled _ T HT) as BT.
  pose proof (SFsub_small _ T small_one HT) as Hr. rewrite scaled_one in Hr.
  apply (rounds_small _ _ 149 Hr); [lia|].
  assert (0 < 2 ^ (149 - 24)) by (apply pow2_pos; lia).
  change (2 ^ 150) with (2 * 2 ^ 149) in BT. lia.
Qed.

(** *** Angles outside [[0, 2]] *)

Lemma fin_scaled_pos s m e :
  SFfin (S754_finite s m e) -> 0 < Zpos m * 2 ^ (e + 149).
Proof.
  intros H. pose proof (fin_exponent _ _ _ H) as He.
  assert (0 < 2 ^ (e + 149)) by (apply pow2_pos; lia). lia.
Qed.

(** For [t] negative, above [2], infinite or not a number, the square
    root is taken of a negative number or of a NaN. *)
Lemma sine_reduced_nan T :
  SFvalid T ->
  ~ (SFsmall (2 ^ 150) T /\ 0 <= SFscaled T) ->
  let Y := SFsub F32.prec F32.emax (S754_finite false 8388608 (-22)) T in
  let P := SFmul F32.prec F32.emax Y T in
  SFvalid Y /\ SFvalid P /\ SFsqrt F32.prec F32.emax P = S754_nan.
Proof.
  intros HT Hout Y P.
  assert (P149 : 0 < 2 ^ 149) by (apply pow2_pos; lia).
  assert (U2 : 2 ^ 150 = 2 * 2 ^ 149) by reflexivity.
  assert (Htwo : SFfin (S754_finite false 8388608 (-22)))
    by (split; [reflexivity | lia]).
  destruct T as [s|s| |s m e].
  - exfalso. apply Hout. split; [exact I | cbn [SFscaled]; lia].
  - subst P Y. destruct s; cbn [SFsub SFmul negb xorb SFsqrt SFvalid]; auto.
  - subst P Y. cbn [SFsub SFmul SFsqrt SFvalid]. auto.
  - destruct HT as [Hg He].
    pose proof (fin_scaled_pos s m e (conj Hg He)) as Hpos.
    assert (HTf : SFfin (S754_finite s m e)) by (split; assumption).
    (* the sign of [2 - t] and of the product *)
    assert (Hn : (s = true /\ 2 ^ 150 < 2 ^ 150 - SFscaled (S754_finite s m e))
                 \/ (s = false /\ 2 ^ 150 - SFscaled (S754_finite s m e) < 0)).
    { destruct s; cbn [SFscaled cond_Zopp]; [left; split; [reflexivity | lia]|].
      right. split; [reflexivity|].
      destruct (Z.lt_ge_cases (2 ^ 150) (Zpos m * 2 ^ (e + 149))) as [H|H]; [lia|].
      exfalso. apply Hout. cbn [SFsmall SFscaled cond_Zopp]. repeat split; try assumption; lia. }
    pose proof (SFsub_rounds _ _ Htwo HTf) as HY. fold Y in HY.
    rewrite scaled_two in HY.
    set (n := 2 ^ 150 - SFscaled (S754_finite s m e)) in *.
    assert (HYc : Y = S754_infinity (n <? 0)
                  \/ exists my ey, Y = S754_finite (n <? 0) my ey
                       /\ F32.on_grid my ey /\ ey <= 104
                       /\ Z.abs n <= 2 * (Zpos my * 2 ^ (ey + 149))).
    { destruct HY as [[Hi _]|Hr]; [left; exact Hi|right].
      destruct (rounds_cases _ _ Hr)
        as [[E _] | (Hne & my & ey & N & Hr' & Hgy & Hey & HN & HNpos & _ & Hnear)];
        [lia|].
      exists my, ey. split; [exact Hr'|]. split; [exact Hgy|]. split; [exact Hey|].
      rewrite <- HN. apply (nearest_half 0 _ _ Hnear); [lia|].
      change (2 ^ 0) with 1. lia. }
    assert (Hsign : xorb (n <? 0) s = true).
    { destruct Hn as [[-> Hn]|[-> Hn]].
      - replace (n <? 0) with false by (symmetry; apply Z.ltb_ge; lia). reflexivity.
      - replace (n <? 0) with true by (symmetry; apply Z.ltb_lt; lia). reflexivity. }
    destruct HYc as [HYi | (my & ey & HYf & Hgy & Hey & Hhalf)].
    + subst P. rewrite HYi. cbn [SFmul SFvalid]. rewrite Hsign.
      split; [exact I|]. split; [exact I | reflexivity].
    + subst P. rewrite HYf. split; [split; assumption|].
      assert (Hbig : 2 ^ 149 <= (Zpos my * 2 ^ (ey + 149)) * (Zpos m * 2 ^ (e + 149))).
      { pose proof (fin_scaled_pos (n <? 0) my ey (conj Hgy Hey)) as HposY.
        destruct Hn as [[-> Hn]|[-> Hn]]; cbn [SFscaled cond_Zopp] in n, Hn.
        - assert (2 ^ 149 <= Zpos my * 2 ^ (ey + 149)) by lia. nia.
        - assert (2 ^ 150 <= Zpos m * 2 ^ (e + 149)) by lia. nia. }
      destruct (SFmul_large (n <? 0) my ey s m e Hgy Hg Hbig)
        as [Hi | (mp & ep & Hf & Hgp & Hep)]; rewrite Hsign in *.
      * rewrite Hi. split; [exact I | reflexivity].
      * rewrite Hf. split; [split; assumption | reflexivity].
Qed.

(** *** Patterns of numbers of the format *)

Lemma decode_encode_valid r : SFvalid r -> F32.decode (F32.encode r) = r.
Proof.
  destruct r as [[]|[]| |s m e]; cbn [SFvalid]; intros H;
    [vm_compute; reflexivity .. |].
  destruct H as [Hg He]. apply decode_encode_on_grid; assumption.
Qed.

Lemma decode_valid w : 0 <= w < 2 ^ 32 -> SFvalid (F32.decode w).
Proof.
  intros Hw. destruct (fields_sum w Hw) as (_ & HE & HM).
  destruct (Z.eq_dec (F32.exp_field w) 0) as [E0|E0].
  - destruct (Z.eq_dec (F32.frac_field w) 0) as [M0|M0].
    + rewrite (decode_zero w E0 M0). exact I.
    + destruct (decode_subnormal w E0 ltac:(lia)) as (m & Hm & ->).
      split; [|lia]. apply on_grid_subnormal. apply digits2_le; lia.
  - destruct (Z.eq_dec (F32.exp_field w) 255) as [E1|E1].
    + destruct (Z.eq_dec (F32.frac_field w) 0) as [M0|M0].
      * rewrite (decode_infinity w E1 M0). exact I.
      * rewrite (decode_nan w E1 M0). exact I.
    + destruct (decode_normal w ltac:(lia) ltac:(lia)) as (m & Hm & ->).
      split; [|lia]. apply on_grid_normal; [|lia].
      apply digits2_of_range; lia.
Qed.

Lemma small_valid B f : SFsmall B f -> B <= 2 ^ 150 -> SFvalid f.
Proof.
  destruct f as [s|s| |s m e]; cbn [SFsmall SFvalid]; auto.
  intros [Hg Hv] HB. split; [exact Hg|].
  pose proof (small_exponent B s m e (conj Hg Hv) HB). lia.
Qed.

Lemma decode_lane_constants :
  F32.decode Lane.two = S754_finite false 8388608 (-22)
  /\ F32.decode Lane.one = S754_finite false 8388608 (-23)
  /\ F32.decode Lane.two_f = S754_finite false 8388608 (-22)
  /\ F32.decode F32.default_nan = S754_nan
  /\ F32.encode S754_nan = F32.default_nan.
Proof. repeat split; vm_compute; reflexivity. Qed.

(** *** The result of a lane is a NaN or lies in [[-1, 1]] *)

Lemma tail_in_unit t (b1 b2 : bool) :
  0 <= t < 2 ^ 32 ->
  let s0 := Lane.sine_reduced t in
  let c := Lane.cosine_reduced t in
  let s1 := Lane.blend s0 c (F32.mask_of b1) in
  let y := Lane.negate_under s1 (F32.mask_of b2) in
  y = F32.default_nan \/ SFsmall (2 ^ 149) (F32.decode y).
Proof.
  intros Ht s0 c s1 y.
  destruct decode_lane_constants as (D2 & D1 & D2f & Dnan & Enan).
  pose proof (decode_valid t Ht) as HT.
  assert (P149 : 0 < 2 ^ 149) by (apply pow2_pos; lia).
  assert (U2 : 2 ^ 150 = 2 * 2 ^ 149) by reflexivity.
  set (T := F32.decode t) in *.
  assert (Hs1 : s1 = F32.add s0 (if b1 then F32.sub c s0 else F32.pos_zero)).
  { unfold s1. rewrite blend_spec. destruct b1; reflexivity. }
  assert (Hy : y = F32.sub s1 (if b2 then F32.mul s1 Lane.two_f else F32.pos_zero)).
  { unfold y. rewrite negate_under_spec. destruct b2; reflexivity. }
  assert (Hcase : (SFsmall (2 ^ 150) T /\ 0 <= SFscaled T)
                  \/ ~ (SFsmall (2 ^ 150) T /\ 0 <= SFscaled T)).
  { destruct T as [s|s| |s m e]; cbn [SFsmall SFscaled].
    - left. split; [exact I | lia].
    - right. intros [[] _].
    - right. intros [[] _].
    - destruct HT as [Hg He].
      pose proof (on_grid_exponent m e Hg) as Hlo.
      assert (0 < 2 ^ (e + 149)) by (apply pow2_pos; lia).
      destruct s; cbn [cond_Zopp]; [right; intros [_ H']; lia|].
      destruct (Z.le_gt_cases (Zpos m * 2 ^ (e + 149)) (2 ^ 150)) as [H'|H'].
      + left. repeat split; try assumption; lia.
      + right. intros [[_ H''] _]. lia. }
  destruct Hcase as [[HTs HTp] | Hout].
  - (* the halved angle is in [[0, 2]] *)
    right.
    destruct (sine_reduced_unit T HTs HTp) as (HY & HP & HS0).
    pose proof (cosine_reduced_unit T HTs HTp) as HC.
    cbv zeta in HY, HP, HS0.
    set (Y := SFsub F32.prec F32.emax (S754_finite false 8388608 (-22)) T) in *.
    set (P := SFmul F32.prec F32.emax Y T) in *.
    set (S0 := SFsqrt F32.prec F32.emax P) in *.
    set (C := SFsub F32.prec F32.emax (S754_finite false 8388608 (-23)) T) in *.
    assert (Es0 : F32.decode s0 = S0).
    { unfold s0, Lane.sine_reduced, F32.sqrt, F32.mul, F32.sub.
      rewrite D2. fold T. fold Y.
      rewrite (decode_encode_valid Y) by (apply (small_valid _ _ HY); lia).
      fold P.
      rewrite (decode_encode_valid P) by (apply (small_valid _ _ HP); lia).
      fold S0.
      apply decode_encode_valid. apply (small_valid _ _ HS0). lia. }
    assert (Ec : F32.decode c = C).
    { unfold c, Lane.cosine_reduced, F32.sub. rewrite D1. fold T. fold C.
      apply decode_encode_valid. apply (small_valid _ _ HC). lia. }
    destruct (blend_unit S0 C b1 b2 HS0 HC) as (HD & HS1).
    cbv zeta in HD, HS1.
    set (D := SFsub F32.prec F32.emax C S0) in *.
    set (S1 := SFadd F32.prec F32.emax S0 (if b1 then D else S754_zero false)) in *.
    assert (Es1 : F32.decode s1 = S1).
    { rewrite Hs1. unfold F32.add. rewrite Es0.
      assert (Earg : F32.decode (if b1 then F32.sub c s0 else F32.pos_zero)
                     = if b1 then D else S754_zero false).
      { destruct b1; [|reflexivity].
        unfold F32.sub. rewrite Ec, Es0. fold D.
        apply decode_encode_valid. apply (small_valid _ _ HD). lia. }
      rewrite Earg. fold S1.
      apply decode_encode_valid. apply (small_valid _ _ HS1). lia. }
    destruct (negate_unit S1 b2 HS1) as (HM & HR).
    cbv zeta in HM, HR.
    set (M := SFmul F32.prec F32.emax S1 (S754_finite false 8388608 (-22))) in *.
    set (R := SFsub F32.prec F32.emax S1 (if b2 then M else S754_zero false)) in *.
    assert (Ey : F32.decode y = R).
    { rewrite Hy. unfold F32.sub. rewrite Es1.
      assert (Earg : F32.decode (if b2 then F32.mul s1 Lane.two_f else F32.pos_zero)
                     = if b2 then M else S754_zero false).
      { destruct b2; [|reflexivity].
        unfold F32.mul. rewrite Es1, D2f. fold M.
        apply decode_encode_valid. apply (small_valid _ _ HM). lia. }
      rewrite Earg. fold R.
      apply decode_encode_valid. apply (small_valid _ _ HR). lia. }
    rewrite Ey. exact HR.
  - (* outside: the square root is the NaN, and it stays *)
    left.
    destruct (sine_reduced_nan T HT Hout) as (HY & HP & Hnan).
    cbv zeta in HY, HP, Hnan.
    assert (Es0 : s0 = F32.default_nan).
    { unfold s0, Lane.sine_reduced, F32.sqrt, F32.mul, F32.sub.
      rewrite D2. fold T.
      rewrite (decode_encode_valid _ HY), (decode_encode_valid _ HP), Hnan.
      exact Enan. }
    assert (Es1 : s1 = F32.default_nan).
    { rewrite Hs1, Es0. unfold F32.add. rewrite Dnan. exact Enan. }
    rewrite Hy, Es1. unfold F32.sub. rewrite Dnan. exact Enan.
Qed.

Lemma div_range a b : 0 <= F32.div a b < 2 ^ 32.
Proof. apply encode_range. Qed.
(** From here on the arithmetic of a lane is used through the facts above
    and through evaluation only. *)
Global Opaque F32.add F32.sub F32.mul F32.div F32.sqrt F32.floor F32.fmadd
  F32.fmsub F32.fnmadd F32.cvt_f32_i32 F32.cvt_i32_f32 F32.cmp_ps.

(** *** The sign fix-up on the negative side *)

(** Two inputs with the same absolute angle share every local up to the
    first blend. *)
Lemma same_angle_same_blend fma x y :
  Lane.strip_sign x = Lane.strip_sign y ->
  Lane.q (Lane.run fma x) = Lane.q (Lane.run fma y)
  /\ Lane.sine1 (Lane.run fma x) = Lane.sine1 (Lane.run fma y).
Proof.
  intros H. unfold Lane.run. cbn [Lane.q Lane.sine1]. rewrite H.
  split; reflexivity.
Qed.

Lemma sine_of_run fma x :
  Lane.sine (Lane.run fma x)
  = Lane.negate_under (Lane.sine1 (Lane.run fma x))
      (Lane.negate_mask (Lane.q (Lane.run fma x)) x).
Proof. reflexivity. Qed.

(** A lane holding a negative [x] (above [-2^127]) whose floored index has
    bit 2 set is given exactly the value of the lane holding [|x|]: the
    second mask is all ones in both. *)
Lemma negative_lane_mirrors fma x :
  0 <= x < 2 ^ 32 -> F32.lt_zero x = true -> F32.exp_field x < 254 ->
  Z.testbit (Lane.q (Lane.run fma x)) 2 = true ->
  Lane.sine (Lane.run fma x) = Lane.sine (Lane.run fma (F32.abs x)).
Proof.
  intros Hx Hlt HE Hbit.
  destruct (lt_zero_true x Hx Hlt) as (_ & Hnan & _).
  assert (Hnz : x <> F32.neg_zero) by (intros ->; discriminate Hlt).
  assert (Ha : Lane.strip_sign x = Lane.strip_sign (F32.abs x)).
  { rewrite strip_sign_abs, strip_sign_of_abs by auto. reflexivity. }
  destruct (same_angle_same_blend fma x (F32.abs x) Ha) as [Hq Hs].
  rewrite !sine_of_run, !negate_mask_spec, <- Hq, <- Hs, Hbit.
  reflexivity.
Qed.

(** *** Lanes that hold no angle *)

(** When the first statement of an iteration yields the same angle for
    [x] as for a [y] whose blend is a NaN, the lane of [x] ends as a NaN. *)
Lemma lost_angle_gives_nan fma x y :
  Lane.strip_sign x = Lane.strip_sign y ->
  Lane.sine1 (Lane.run fma y) = F32.default_nan ->
  Lane.sine (Lane.run fma x) = F32.default_nan.
Proof.
  intros Ha Hy. destruct (same_angle_same_blend fma x y Ha) as [_ Hs].
  rewrite sine_of_run, Hs, Hy. unfold Lane.negate_under.
  apply sub_nan_l. reflexivity.
Qed.

Lemma blend_without_angle fma :
  Lane.strip_sign F32.default_nan = F32.default_nan
  /\ Lane.sine1 (Lane.run fma F32.default_nan) = F32.default_nan
  /\ Lane.strip_sign 0x7F800000 = 0x7F800000
  /\ Lane.sine1 (Lane.run fma 0x7F800000) = F32.default_nan.
Proof. destruct fma; vm_compute; repeat split; reflexivity. Qed.

Lemma infinite_patterns x :
  0 <= x < 2 ^ 32 -> F32.exp_field x = 255 -> F32.frac_field x = 0 ->
  x = 0x7F800000 \/ x = 0xFF800000.
Proof.
  intros Hx HE HM. destruct (fields_sum x Hx) as (Hsum & _ & _).
  rewrite HE, HM in Hsum. rewrite Hsum.
  destruct (F32.sign_field x); [right | left]; reflexivity.
Qed.

Lemma non_finite_lane fma x :
  0 <= x < 2 ^ 32 ->
  F32.exp_field x = 255
  \/ (F32.sign_field x = true /\ F32.exp_field x = 254) ->
  Lane.sine (Lane.run fma x) = F32.default_nan.
Proof.
  intros Hx Hcase.
  destruct (blend_without_angle fma) as (Hn1 & Hn2 & Hi1 & Hi2).
  destruct Hcase as [HE|[Hs HE]].
  - destruct (Z.eq_dec (F32.frac_field x) 0) as [HM|HM].
    + destruct (infinite_patterns x Hx HE HM) as [-> | ->].
      * apply (lost_angle_gives_nan fma _ 0x7F800000); [reflexivity | exact Hi2].
      * destruct fma; vm_compute; reflexivity.
    + apply (lost_angle_gives_nan fma _ F32.default_nan); [|exact Hn2].
      rewrite Hn1. unfold Lane.strip_sign. apply sub_nan_l.
      unfold F32.is_nan. rewrite (decode_nan x HE HM). reflexivity.
  - apply (lost_angle_gives_nan fma _ 0x7F800000); [|exact Hi2].
    rewrite Hi1. unfold Lane.strip_sign.
    apply strip_sign_overflows; assumption.
Qed.

(** *** The lane of [x] and the lane of [|x|] *)

Lemma negative_lane_negates fma x :
  F32.lt_zero x = true ->
  Lane.sine (Lane.run fma x)
  = F32.sub (Lane.sine1 (Lane.run fma x))
      (F32.mul (Lane.sine1 (Lane.run fma x)) Lane.two_f).
Proof.
  intros Hlt.
  rewrite sine_of_run, negate_mask_spec, Hlt, orb_true_r.
  apply negate_under_spec.
Qed.

Lemma plain_lane_keeps fma x :
  F32.lt_zero x = false -> Z.testbit (Lane.q (Lane.run fma x)) 2 = false ->
  Lane.sine (Lane.run fma x) = F32.sub (Lane.sine1 (Lane.run fma x)) F32.pos_zero.
Proof.
  intros Hlt Hbit.
  rewrite sine_of_run, negate_mask_spec, Hlt, Hbit.
  apply negate_under_spec.
Qed.

Lemma sine1_range fma x : 0 <= Lane.sine1 (Lane.run fma x) < 2 ^ 32.
Proof. apply add_range. Qed.

Lemma negative_lane_is_odd fma x :
  0 <= x < 2 ^ 32 -> F32.lt_zero x = true -> F32.exp_field x < 254 ->
  Z.testbit (Lane.q (Lane.run fma x)) 2 = false ->
  let y := Lane.sine (Lane.run fma (F32.abs x)) in
  F32.is_nan y = false -> y <> F32.pos_zero -> F32.exp_field y < 254 ->
  Lane.sine (Lane.run fma x) = F32.opp y.
Proof.
  intros Hx Hlt HE Hbit y Hnan Hnz Hbig.
  destruct (lt_zero_true x Hx Hlt) as (_ & Hxnan & _).
  assert (Hxnz : x <> F32.neg_zero) by (intros ->; discriminate Hlt).
  assert (Ha : Lane.strip_sign x = Lane.strip_sign (F32.abs x)).
  { rewrite strip_sign_abs, strip_sign_of_abs by auto. reflexivity. }
  destruct (same_angle_same_blend fma x (F32.abs x) Ha) as [Hq Hs].
  assert (Hy : y = F32.sub (Lane.sine1 (Lane.run fma (F32.abs x))) F32.pos_zero).
  { subst y. apply plain_lane_keeps.
    - apply abs_not_negative, Hx.
    - rewrite <- Hq. exact Hbit. }
  pose proof (sine1_range fma (F32.abs x)) as Hr.
  assert (Hs1 : F32.is_nan (Lane.sine1 (Lane.run fma (F32.abs x))) = false).
  { apply (is_nan_sub_l _ F32.pos_zero). rewrite <- Hy. exact Hnan. }
  rewrite sub_pos_zero in Hy by assumption.
  rewrite negative_lane_negates by exact Hlt.
  rewrite Hs, <- Hy. apply sub_twice; [rewrite Hy; exact Hr | exact Hbig | exact Hnz].
Qed.

(** *** The rounded index *)

Lemma odd_round_parity q :
  0 <= q < 2 ^ 32 ->
  let r := Lane.odd_round q in
  0 <= r < 2 ^ 32
  /\ Z.even r = true
  /\ r = (if Z.even q then q else (q + 1) mod 2 ^ 32)
  /\ (q <> 0x7FFFFFFF ->
      F32.signed r = F32.signed q + (if Z.even q then 0 else 1)).
Proof.
  intros Hq r. subst r. unfold Lane.odd_round, add_epi32.
  change (F32.wrap32 1) with (Z.ones 1). rewrite Z.land_ones by lia.
  unfold F32.wrap32. change (2 ^ 1) with 2.
  rewrite (Zeven_mod q).
  pose proof (Z.mod_pos_bound q 2 ltac:(lia)) as Hm.
  split; [apply Z.mod_pos_bound; lia|].
  split; [rewrite Zeven_mod; apply Z.eqb_eq;
          Z.div_mod_to_equations; lia|].
  split.
  - destruct (Z.eqb_spec (q mod 2) 0) as [E|E].
    + rewrite E, Z.add_0_r. apply Z.mod_small, Hq.
    + replace (q mod 2) with 1 by lia. reflexivity.
  - intros Hmax. unfold F32.signed.
    destruct (Z.eqb_spec (q mod 2) 0) as [E|E].
    + rewrite E, !Z.add_0_r. rewrite Z.mod_small by exact Hq. reflexivity.
    + replace (q mod 2) with 1 in * by lia.
      destruct (Z.ltb_spec q (2 ^ 31)) as [Hlo|Hhi].
      * assert (q + 1 < 2 ^ 31) by (Z.div_mod_to_equations; lia).
        rewrite Z.mod_small by lia.
        destruct (Z.ltb_spec (q + 1) (2 ^ 31)); lia.
      * destruct (Z.eq_dec q (2 ^ 32 - 1)) as [->|Hne]; [reflexivity|].
        rewrite Z.mod_small by lia.
        destruct (Z.ltb_spec (q + 1) (2 ^ 31)); lia.
Qed.

(** *** Angles of at least [2^31] *)

Lemma constants_decoded :
  F32.decode Lane.m4pi = S754_finite false 10680707 (-23)
  /\ F32.decode Lane.pio4A = S754_finite false 13172736 (-24)
  /\ F32.decode Lane.pio4B = S754_finite false 16621592 (-36)
  /\ F32.decode Lane.cp1 = S754_finite false 8388608 (-23)
  /\ F32.decode Lane.cp2 = S754_finite false 11184811 (-27)
  /\ F32.decode Lane.cp3 = S754_finite false 11930466 (-32)
  /\ F32.decode Lane.cp4 = S754_finite false 13634769 (-38)
  /\ F32.decode Lane.cp5 = S754_finite false 9693295 (-44).
Proof. vm_compute. repeat split; reflexivity. Qed.

Lemma saturated_index :
  Lane.odd_round F32.sign_bit = F32.sign_bit
  /\ F32.decode (F32.cvt_i32_f32 F32.sign_bit) = S754_finite true 8388608 8
  /\ F32.decode (F32.mul (F32.cvt_i32_f32 F32.sign_bit) Lane.pio4A)
     = S754_finite true 13172736 7
  /\ F32.decode (F32.mul (F32.cvt_i32_f32 F32.sign_bit) Lane.pio4B)
     = S754_finite true 16621592 (-5).
Proof. vm_compute. repeat split; reflexivity. Qed.

Lemma floor_index_of_huge a :
  at_least 8 a = true -> Lane.floor_index a = F32.sign_bit.
Proof.
  intros Ha. unfold Lane.floor_index. apply floor_index_saturates.
  apply (mul_at_least 8 (-23)); [exact Ha | vm_compute; reflexivity | lia].
Qed.

Lemma reduce_of_huge fma a :
  at_least 8 a = true -> at_least 8 (Lane.reduce fma a F32.sign_bit) = true.
Proof.
  intros Ha.
  destruct constants_decoded as (_ & HA & HB & _).
  destruct saturated_index as (_ & Hrf & HcA & HcB).
  unfold Lane.reduce, Lane.mul_sub. destruct fma.
  - eapply fnmadd_addend_at_least; [lia | exact Hrf | exact HB |].
    eapply fnmadd_addend_at_least; [lia | exact Hrf | exact HA | exact Ha].
  - eapply sub_negative_at_least; [lia | | exact HcB].
    eapply sub_negative_at_least; [lia | exact Ha | exact HcA].
Qed.

Lemma eighth_squared_of_huge s :
  at_least 8 s = true -> at_least 33 (Lane.eighth_squared s) = true.
Proof.
  intros Hs. unfold Lane.eighth_squared.
  pose proof (div_eight_at_least 8 s ltac:(lia) Hs) as Hd.
  apply (mul_at_least 5 5 _ _ Hd Hd). lia.
Qed.

Lemma series_overflows fma u :
  at_least 33 u = true -> Lane.series fma u = 0x7F800000.
Proof.
  intros Hu.
  destruct constants_decoded as (_ & _ & _ & H1 & H2 & H3 & H4 & H5).
  assert (A5 : at_least (-44) Lane.cp5 = true) by (vm_compute; reflexivity).
  unfold Lane.series. destruct fma.
  - assert (F1 : at_least 11 (F32.fmsub u Lane.cp5 Lane.cp4) = true).
    { eapply (fmsub_product_at_least 33 (-44));
        [lia | exact Hu | exact A5 | exact H4 | vm_compute; discriminate | lia]. }
    assert (F2 : at_least 66 (F32.fmadd (F32.fmsub u Lane.cp5 Lane.cp4) u Lane.cp3)
                 = true).
    { eapply (fmadd_product_at_least 11 33);
        [lia | exact F1 | exact Hu | exact H3 | vm_compute; discriminate | lia]. }
    assert (F3 : F32.fmsub (F32.fmadd (F32.fmsub u Lane.cp5 Lane.cp4) u Lane.cp3)
                   u Lane.cp2 = 0x7F800000).
    { apply (at_least_infinity 121); [lia | apply fmsub_range|].
      eapply (fmsub_product_at_least 66 33);
        [lia | exact F2 | exact Hu | exact H2 | vm_compute; discriminate | lia]. }
    rewrite F3, (fmadd_infinity 33 u Lane.cp1 _ _ _ Hu H1).
    apply (mul_infinity 33 u Hu).
  - assert (T1 : at_least 12 (F32.mul u Lane.cp5) = true)
      by (apply (mul_at_least 33 (-44) _ _ Hu A5); lia).
    assert (T2 : at_least 11 (F32.sub (F32.mul u Lane.cp5) Lane.cp4) = true).
    { eapply (sub_small_at_least 12);
        [lia | exact T1 | exact H4 | vm_compute; discriminate | lia]. }
    assert (T3 : at_least 67 (F32.mul (F32.sub (F32.mul u Lane.cp5) Lane.cp4) u)
                 = true)
      by (apply (mul_at_least 11 33 _ _ T2 Hu); lia).
    assert (T4 : at_least 67
                   (F32.add (F32.mul (F32.sub (F32.mul u Lane.cp5) Lane.cp4) u)
                      Lane.cp3) = true)
      by (eapply (add_positive_at_least 67); [lia | exact T3 | exact H3]).
    assert (T5 : F32.mul (F32.add (F32.mul (F32.sub (F32.mul u Lane.cp5) Lane.cp4) u)
                            Lane.cp3) u = 0x7F800000).
    { apply (at_least_infinity 123); [lia | apply mul_range|].
      apply (mul_at_least 67 33 _ _ T4 Hu). lia. }
    rewrite T5.
    replace (F32.sub 0x7F800000 Lane.cp2) with 0x7F800000
      by (vm_compute; reflexivity).
    rewrite (mul_infinity 33 u Hu).
    replace (F32.add 0x7F800000 Lane.cp1) with 0x7F800000
      by (vm_compute; reflexivity).
    apply (mul_infinity 33 u Hu).
Qed.

Lemma blend_of_run fma x :
  Lane.q (Lane.run fma x) = Lane.floor_index (Lane.strip_sign x)
  /\ Lane.r (Lane.run fma x) = Lane.odd_round (Lane.floor_index (Lane.strip_sign x))
  /\ Lane.s_poly (Lane.run fma x)
     = Lane.series fma
         (Lane.eighth_squared
            (Lane.reduce fma (Lane.strip_sign x)
               (Lane.odd_round (Lane.floor_index (Lane.strip_sign x)))))
  /\ Lane.sine1 (Lane.run fma x)
     = (let t := F32.div (iterate 3 Lane.double_angle (Lane.s_poly (Lane.run fma x)))
                   Lane.two in
        Lane.blend (Lane.sine_reduced t) (Lane.cosine_reduced t)
          (Lane.swap_mask (Lane.q (Lane.run fma x)))).
Proof. repeat split; reflexivity. Qed.

Lemma blend_after_overflow :
  (let t := F32.div (iterate 3 Lane.double_angle 0x7F800000) Lane.two in
   Lane.blend (Lane.sine_reduced t) (Lane.cosine_reduced t)
     (Lane.swap_mask F32.sign_bit)) = F32.default_nan.
Proof. vm_compute. reflexivity. Qed.

Lemma huge_angle_lane fma a :
  at_least 8 a = true -> Lane.strip_sign a = a ->
  Lane.q (Lane.run fma a) = F32.sign_bit
  /\ Lane.r (Lane.run fma a) = F32.sign_bit
  /\ Lane.s_poly (Lane.run fma a) = 0x7F800000
  /\ Lane.sine1 (Lane.run fma a) = F32.default_nan.
Proof.
  intros Ha Hs.
  destruct (blend_of_run fma a) as (Hq & Hr & Hp & Hb).
  rewrite Hs in Hq, Hr, Hp.
  rewrite (floor_index_of_huge a Ha) in Hq, Hr, Hp.
  destruct saturated_index as (Hodd & _).
  rewrite Hodd in Hr, Hp.
  rewrite (series_overflows fma _
             (eighth_squared_of_huge _ (reduce_of_huge fma a Ha))) in Hp.
  rewrite Hp, Hq in Hb. rewrite blend_after_overflow in Hb.
  repeat split; assumption.
Qed.

Lemma index_without_angle :
  Lane.floor_index F32.default_nan = F32.sign_bit
  /\ Lane.floor_index 0x7F800000 = F32.sign_bit.
Proof. vm_compute. split; reflexivity. Qed.

(** Every lane whose input has a biased exponent of 158 or more: a NaN, an
    infinity, or a finite number of magnitude [2^31] or more. *)
Lemma huge_lane fma x :
  0 <= x < 2 ^ 32 -> 158 <= F32.exp_field x ->
  Lane.q (Lane.run fma x) = F32.sign_bit
  /\ Lane.sine (Lane.run fma x) = F32.default_nan.
Proof.
  intros Hx HE.
  destruct (fields_sum x Hx) as (_ & HEr & HMr).
  destruct (blend_without_angle fma) as (Hn1 & _ & Hi1 & _).
  destruct index_without_angle as [Hqn Hqi].
  destruct (Z.eq_dec (F32.exp_field x) 255) as [E255|E255].
  { split; [|apply non_finite_lane; auto].
    destruct (blend_of_run fma x) as (Hq & _). rewrite Hq.
    destruct (Z.eq_dec (F32.frac_field x) 0) as [HM|HM].
    - destruct (infinite_patterns x Hx E255 HM) as [-> | ->];
        vm_compute; reflexivity.
    - replace (Lane.strip_sign x) with F32.default_nan; [exact Hqn|].
      symmetry. unfold Lane.strip_sign. apply sub_nan_l.
      unfold F32.is_nan. rewrite (decode_nan x E255 HM). reflexivity. }
  destruct (F32.sign_field x && (F32.exp_field x =? 254)) eqn:Eover.
  { apply andb_prop in Eover. destruct Eover as [Hs E254].
    apply Z.eqb_eq in E254.
    split; [|apply non_finite_lane; auto].
    destruct (blend_of_run fma x) as (Hq & _). rewrite Hq.
    replace (Lane.strip_sign x) with 0x7F800000; [exact Hqi|].
    symmetry. unfold Lane.strip_sign. apply strip_sign_overflows; assumption. }
  destruct (decode_normal x ltac:(lia) ltac:(lia)) as (m & Hm & Hd).
  assert (Hnan : F32.is_nan x = false)
    by (unfold F32.is_nan; rewrite Hd; reflexivity).
  assert (Hnz : x <> F32.neg_zero).
  { intros ->. vm_compute in HE. apply HE. reflexivity. }
  assert (Hbig : F32.lt_zero x = true -> F32.exp_field x < 254).
  { intros Hlt. destruct (lt_zero_true x Hx Hlt) as (Hs & _).
    rewrite Hs in Eover. cbn [andb] in Eover.
    apply Z.eqb_neq in Eover. lia. }
  assert (Ha : Lane.strip_sign x = Lane.strip_sign (F32.abs x)).
  { rewrite strip_sign_abs, strip_sign_of_abs by auto. reflexivity. }
  destruct (same_angle_same_blend fma x (F32.abs x) Ha) as [Hq Hs1].
  destruct (huge_angle_lane fma (F32.abs x)) as (Hqa & _ & _ & Hb).
  { apply abs_at_least; [exact Hx | lia]. }
  { apply strip_sign_of_abs; assumption. }
  split; [rewrite Hq; exact Hqa|].
  rewrite sine_of_run, Hs1, Hb. unfold Lane.negate_under.
  apply sub_nan_l. reflexivity.
Qed.

(** *** A quarter of pi *)

(** From the series of [2 atan (1/3) + atan (1/7)], ten terms. *)
Lemma pi_over_4_bounds :
  (7853981633 / 10000000000 < PI / 4 < 7853981635 / 10000000000)%R.
Proof.
  pose proof (PI_2_3_7_ineq 4) as [Hlo Hhi].
  unfold sum_f_R0, tg_alt, PI_2_3_7_tg, Ratan_seq in Hlo, Hhi.
  simpl in Hlo, Hhi.
  split; lra.
Qed.

(** *** The octants, run by run *)

(** *** What a pattern stands for *)

Lemma value_of_finite a m e :
  F32.decode a = S754_finite false m e -> e < 0 ->
  exists v, F32.value a = Some v
    /\ (Q2R v * IZR (2 ^ (- e)) = IZR (Zpos m))%R
    /\ (0 < IZR (2 ^ (- e)))%R.
Proof.
  intros Hd He. unfold F32.value. rewrite Hd.
  destruct (Z.leb_spec 0 e); [lia|].
  eexists. split; [reflexivity|].
  assert (Hp : 0 < 2 ^ (- e)) by (apply Z.pow_pos_nonneg; lia).
  assert (Hr : (0 < IZR (2 ^ (- e)))%R) by (apply IZR_lt; exact Hp).
  unfold Q2R. cbn [Qnum Qden cond_Zopp]. rewrite Z2Pos.id by exact Hp.
  split; [field; lra | exact Hr].
Qed.

(** A run that is checked holds patterns of its octant only, and the
    kernel's index is that octant. *)
Lemma run_sound lo hi k a :
  run_checked (lo, hi, k) = true -> lo <= a <= hi ->
  Lane.floor_index a = k
  /\ 1 <= k < 16
  /\ exists v, F32.value a = Some v
       /\ (IZR k * (PI / 4) <= Q2R v < (IZR k + 1) * (PI / 4))%R.
Proof.
  unfold run_checked. intros Hc Ha.
  rewrite !andb_true_iff in Hc.
  destruct Hc as [[[[[[[[[[C1 C2] C3] C4] C5] C6] C7] C8] C9] C10] C11].
  apply Z.leb_le in C1, C4, C5, C6, C8, C10.
  apply Z.ltb_lt in C2, C7, C11. apply Z.eqb_eq in C3.
  set (E := F32.exp_field lo) in *. set (s := Z.log2 k) in *.
  destruct (Z.log2_spec k ltac:(lia)) as [Hs1 Hs2]. fold s in Hs1, Hs2.
  assert (Hs0 : 0 <= s) by apply Z.log2_nonneg.
  assert (Hs3 : s <= 3).
  { assert (s < 4); [|lia]. apply Z.log2_lt_pow2; [lia|]. exact C7. }
  replace (Z.succ s) with (s + 1) in Hs2 by lia.
  destruct (unsigned_pattern lo ltac:(lia)) as (_ & Hlo & _ & HMlo).
  destruct (unsigned_pattern hi ltac:(lia)) as (_ & Hhi & _ & HMhi).
  destruct (unsigned_pattern a ltac:(lia)) as (Hsa & Hsum & HEa & HMa).
  fold E in Hlo. rewrite C3 in Hhi.
  assert (HE : F32.exp_field a = E) by lia.
  assert (HM : F32.frac_field lo <= F32.frac_field a <= F32.frac_field hi) by lia.
  destruct (decode_normal a ltac:(lia) ltac:(lia)) as (m & Hm & Hd).
  rewrite Hsa, HE in Hd.
  split; [|split; [lia|]].
  - destruct (Z.eqb_spec lo hi) as [Heq|Hne].
    + apply Z.eqb_eq in C9. assert (a = lo) by lia. subst a. exact C9.
    + apply andb_prop in C9. destruct C9 as [C9a C9b].
      apply Z.leb_le in C9a, C9b.
      apply (floor_index_exact a m (E - 150) k s Hd); try lia;
        replace (s - 23 - (E - 150 + -23)) with (s + 150 - E) by lia;
        rewrite Pos2Z.inj_mul, Hm; lia.
  - destruct (value_of_finite a m (E - 150) Hd ltac:(lia)) as (v & Hv & Hvd & Hdpos).
    replace (- (E - 150)) with (150 - E) in Hvd, Hdpos by lia.
    exists v. split; [exact Hv|].
    pose proof pi_over_4_bounds as [Hpl Hph].
    assert (Hk0 : (1 <= IZR k)%R) by (apply IZR_le; lia).
    set (d := IZR (2 ^ (150 - E))) in *.
    assert (H1 : k * 7853981635 * 2 ^ (150 - E) <= Zpos m * 10 ^ 10) by lia.
    assert (H2 : Zpos m * 10 ^ 10 < (k + 1) * 7853981633 * 2 ^ (150 - E)) by lia.
    apply IZR_le in H1. apply IZR_lt in H2.
    change (10 ^ 10) with 10000000000 in H1, H2.
    rewrite !mult_IZR in H1, H2. rewrite plus_IZR in H2. fold d in H1, H2.
    rewrite <- Hvd in H1, H2.
    assert (Hlow : (IZR k * (7853981635 / 10000000000) <= Q2R v)%R).
    { apply (Rmult_le_reg_r d); [exact Hdpos|]. lra. }
    assert (Hupp : (Q2R v < (IZR k + 1) * (7853981633 / 10000000000))%R).
    { apply (Rmult_lt_reg_r d); [exact Hdpos|]. lra. }
    split.
    + apply Rle_trans with (IZR k * (7853981635 / 10000000000))%R; [|exact Hlow].
      apply Rmult_le_compat_l; lra.
    + apply Rlt_le_trans with ((IZR k + 1) * (7853981633 / 10000000000))%R;
        [exact Hupp|].
      apply Rmult_le_compat_l; lra.
Qed.

Lemma runs_cover rs : forall from a,
  runs_chained from rs = true -> from <= a <= chain_top from rs ->
  exists lo hi k, run_checked (lo, hi, k) = true /\ lo <= a <= hi.
Proof.
  induction rs as [|[[lo hi] k] rs IH]; intros from a Hc Ha;
    cbn [runs_chained chain_top] in Hc, Ha.
  - lia.
  - rewrite !andb_true_iff in Hc. destruct Hc as [[[H1 H2] H3] H4].
    apply Z.eqb_eq in H1. apply Z.leb_le in H2.
    destruct (Z.le_gt_cases a hi) as [Hle|Hgt].
    + exists lo, hi, k. split; [exact H3 | lia].
    + apply (IH (hi + 1) a H4). lia.
Qed.

Lemma octant_runs_checked :
  runs_chained 0x3F490FDB octant_runs = true
  /\ chain_top 0x3F490FDB octant_runs = 0x413C7EDC.
Proof. split; vm_compute; reflexivity. Qed.

(** Below the first run: octant 0. *)
Lemma first_octant_of_finite a m e :
  F32.decode a = S754_finite false m e ->
  e <= -24 -> Zpos m < 2 ^ 24 -> (e = -24 -> Zpos m <= 13176794) ->
  Lane.floor_index a = 0
  /\ exists v, F32.value a = Some v /\ (0 <= Q2R v < PI / 4)%R.
Proof.
  intros Hd He Hm Htop. split.
  - assert (H : 0 <= Lane.floor_index a < 2 ^ 0); [|change (2 ^ 0) with 1 in H; lia].
    apply (floor_index_upper a m e 0 Hd); [lia | lia |].
    rewrite Pos2Z.inj_mul.
    destruct (Z.eq_dec e (-24)) as [->|Hne].
    + specialize (Htop eq_refl).
      change (2 ^ (0 - 24 - (-24 + -23))) with (2 ^ 23). lia.
    + assert (2 ^ 24 <= 2 ^ (0 - 24 - (e + -23)))
        by (apply Z.pow_le_mono_r; lia).
      nia.
  - destruct (value_of_finite a m e Hd ltac:(lia)) as (v & Hv & Hvd & Hdpos).
    exists v. split; [exact Hv|].
    pose proof pi_over_4_bounds as [Hpl Hph].
    set (d := IZR (2 ^ (- e))) in *.
    assert (Hmpos : (0 < IZR (Zpos m))%R) by (apply IZR_lt; lia).
    split.
    + apply (Rmult_le_reg_r d); [exact Hdpos|]. lra.
    + apply Rlt_trans with (7853981633 / 10000000000)%R; [|exact Hpl].
      apply (Rmult_lt_reg_r d); [exact Hdpos|]. rewrite Hvd.
      destruct (Z.eq_dec e (-24)) as [->|Hne].
      * specialize (Htop eq_refl). apply IZR_le in Htop.
        unfold d. change (2 ^ (- -24)) with 16777216. lra.
      * assert (Hpw : 2 ^ 25 <= 2 ^ (- e)) by (apply Z.pow_le_mono_r; lia).
        apply IZR_le in Hpw. fold d in Hpw. apply IZR_lt in Hm.
        change (2 ^ 25) with 33554432 in Hpw.
        change (2 ^ 24) with 16777216 in Hm. lra.
Qed.

Lemma index_in_first_octant a :
  0 <= a <= 0x3F490FDA ->
  Lane.floor_index a = 0
  /\ exists v, F32.value a = Some v /\ (0 <= Q2R v < PI / 4)%R.
Proof.
  intros Ha. destruct (unsigned_pattern a ltac:(lia)) as (Hs & Hsum & HE & HM).
  destruct (Z.eq_dec (F32.exp_field a) 0) as [E0|E0].
  - destruct (Z.eq_dec (F32.frac_field a) 0) as [M0|M0].
    + assert (a = 0) by lia. subst a. split; [vm_compute; reflexivity|].
      exists (0 # 1)%Q. split; [vm_compute; reflexivity|].
      pose proof pi_over_4_bounds as [Hpl Hph].
      replace (Q2R (0 # 1)) with 0%R by (unfold Q2R; cbn [Qnum Qden]; lra).
      lra.
    + destruct (decode_subnormal a E0 ltac:(lia)) as (m & Hm & Hd).
      rewrite Hs in Hd.
      apply (first_octant_of_finite a m (-149) Hd); lia.
  - destruct (decode_normal a ltac:(lia) ltac:(lia)) as (m & Hm & Hd).
    rewrite Hs in Hd.
    apply (first_octant_of_finite a m (F32.exp_field a - 150) Hd); lia.
Qed.

(** From the first binary32 at or above [15 pi/4] on. *)
Lemma value_from_last_octant a v :
  0x413C7EDD <= a < 2 ^ 31 -> F32.value a = Some v ->
  (15 * (PI / 4) <= Q2R v)%R.
Proof.
  intros Ha Hv. destruct (unsigned_pattern a ltac:(lia)) as (Hs & Hsum & HE & HM).
  pose proof pi_over_4_bounds as [Hpl Hph].
  destruct (Z.eq_dec (F32.exp_field a) 255) as [E255|E255].
  { unfold F32.value in Hv.
    destruct (Z.eq_dec (F32.frac_field a) 0) as [M0|M0].
    - rewrite (decode_infinity a E255 M0) in Hv. discriminate Hv.
    - rewrite (decode_nan a E255 M0) in Hv. discriminate Hv. }
  destruct (decode_normal a ltac:(lia) ltac:(lia)) as (m & Hm & Hd).
  rewrite Hs in Hd.
  destruct (Z.lt_ge_cases (F32.exp_field a - 150) 0) as [Hneg|Hpos].
  - destruct (value_of_finite a m _ Hd Hneg) as (v' & Hv' & Hvd & Hdpos).
    rewrite Hv in Hv'. injection Hv' as <-.
    set (d := IZR (2 ^ (- (F32.exp_field a - 150)))) in *.
    apply Rle_trans with (15 * (7853981635 / 10000000000))%R; [lra|].
    apply (Rmult_le_reg_r d); [exact Hdpos|]. rewrite Hvd.
    destruct (Z.eq_dec (F32.exp_field a) 130) as [E130|E130].
    + assert (Hmz : 12353245 <= Zpos m) by lia. apply IZR_le in Hmz.
      unfold d. rewrite E130. change (2 ^ (- (130 - 150))) with 1048576. lra.
    + assert (Hmz : 2 ^ 23 <= Zpos m) by lia. apply IZR_le in Hmz.
      assert (Hpw : 2 ^ (- (F32.exp_field a - 150)) <= 2 ^ 19)
        by (apply Z.pow_le_mono_r; lia).
      apply IZR_le in Hpw. fold d in Hpw.
      change (2 ^ 23) with 8388608 in Hmz. change (2 ^ 19) with 524288 in Hpw.
      lra.
  - unfold F32.value in Hv. rewrite Hd in Hv.
    destruct (Z.leb_spec 0 (F32.exp_field a - 150)); [|lia].
    injection Hv as <-. unfold Q2R. cbn [Qnum Qden cond_Zopp].
    assert (Hpw : 0 < 2 ^ (F32.exp_field a - 150))
      by (apply Z.pow_pos_nonneg; lia).
    assert (Hmz : 2 ^ 23 <= Zpos m * 2 ^ (F32.exp_field a - 150)) by nia.
    apply IZR_le in Hmz. change (2 ^ 23) with 8388608 in Hmz. lra.
Qed.

(** The floored index of an angle below [15 pi/4] is its octant. *)
Lemma octant_of_angle a v :
  0 <= a < 2 ^ 31 -> F32.value a = Some v -> (Q2R v < 15 * (PI / 4))%R ->
  0 <= Lane.floor_index a <= 14
  /\ (IZR (Lane.floor_index a) * (PI / 4) <= Q2R v
      < (IZR (Lane.floor_index a) + 1) * (PI / 4))%R.
Proof.
  intros Ha Hv Hlt.
  pose proof pi_over_4_bounds as [Hpl Hph].
  destruct (Z.le_gt_cases 0x413C7EDD a) as [Hbig|Hsmall].
  { pose proof (value_from_last_octant a v ltac:(lia) Hv). lra. }
  destruct (Z.le_gt_cases a 0x3F490FDA) as [Hfirst|Hrest].
  - destruct (index_in_first_octant a ltac:(lia)) as (-> & v' & Hv' & Hb).
    rewrite Hv in Hv'. injection Hv' as <-. split; [lia|]. lra.
  - destruct octant_runs_checked as [Hchain Htop].
    destruct (runs_cover octant_runs 0x3F490FDB a Hchain ltac:(rewrite Htop; lia))
      as (lo & hi & k & Hc & Hin).
    destruct (run_sound lo hi k a Hc Hin) as (-> & Hk & v' & Hv' & Hb).
    rewrite Hv in Hv'. injection Hv' as <-. split; [|exact Hb].
    assert (Hk15 : (IZR k < 15)%R).
    { apply (Rmult_lt_reg_r (PI / 4)); lra. }
    apply lt_IZR in Hk15. lia.
Qed.

Lemma index_past_the_octants :
  Lane.floor_index 0x413C7EDD = 14
  /\ exists v, F32.value 0x413C7EDD = Some v /\ (15 * (PI / 4) <= Q2R v)%R.
Proof.
  split; [vm_compute; reflexivity|].
  eexists. split; [vm_compute; reflexivity|].
  apply (value_from_last_octant 0x413C7EDD); [lia | vm_compute; reflexivity].
Qed.

(** *** The index of a lane below [15 pi/4] *)

Lemma value_is_finite a v : F32.value a = Some v -> F32.is_nan a = false.
Proof.
  unfold F32.value, F32.is_nan.
  destruct (F32.decode a); intros H; try reflexivity; discriminate H.
Qed.

Lemma index_of_lane fma x a :
  0 <= x < 2 ^ 32 ->
  F32.value (F32.abs x) = Some a -> (Q2R a < 15 * (PI / 4))%R ->
  Lane.q (Lane.run fma x) = Lane.floor_index (F32.abs x)
  /\ 0 <= F32.abs x < 2 ^ 31 /\ F32.exp_field x < 254.
Proof.
  intros Hx Hv Hlt.
  destruct (abs_fields x Hx) as (Hr & Hs & HE & _).
  assert (Hr31 : 0 <= F32.abs x < 2 ^ 31).
  { destruct (fields_sum (F32.abs x) Hr) as (Hsum & HE' & HM').
    rewrite Hs in Hsum. unfold F32.sign_of in Hsum. lia. }
  assert (Hsmall : F32.abs x < 0x413C7EDD).
  { destruct (Z.lt_ge_cases (F32.abs x) 0x413C7EDD) as [H|H]; [exact H|].
    pose proof (value_from_last_octant (F32.abs x) a ltac:(lia) Hv). lra. }
  assert (Hexp : F32.exp_field x < 254).
  { rewrite <- HE.
    destruct (unsigned_pattern (F32.abs x) Hr31) as (_ & Hsum & HE' & HM').
    lia. }
  split; [|split; assumption].
  destruct (blend_of_run fma x) as (Hq & _). rewrite Hq.
  destruct (Z.eq_dec x F32.neg_zero) as [->|Hnz]; [vm_compute; reflexivity|].
  rewrite strip_sign_abs; try assumption; [reflexivity | | intros _; exact Hexp].
  rewrite <- (abs_is_nan x Hx). apply (value_is_finite _ a Hv).
Qed.

Lemma bit_two_by_half_period q n (a : R) :
  0 <= q <= 14 ->
  (IZR q * (PI / 4) <= a < (IZR q + 1) * (PI / 4))%R ->
  (IZR n * PI <= a < (IZR n + 1) * PI)%R ->
  Z.testbit q 2 = Z.odd n.
Proof.
  intros Hq Ha Hn.
  pose proof pi_over_4_bounds as [Hpl Hph].
  assert (Hp : (0 < PI / 4)%R) by lra.
  assert (H1 : (IZR (4 * n) < IZR (q + 1))%R).
  { rewrite mult_IZR, plus_IZR. apply (Rmult_lt_reg_r (PI / 4)); [exact Hp|]. lra. }
  assert (H2 : (IZR q < IZR (4 * (n + 1)))%R).
  { rewrite mult_IZR, plus_IZR. apply (Rmult_lt_reg_r (PI / 4)); [exact Hp|]. lra. }
  apply lt_IZR in H1, H2.
  assert (Hc : n = 0 \/ n = 1 \/ n = 2 \/ n = 3) by lia.
  assert (Hj : q = 4 * n \/ q = 4 * n + 1 \/ q = 4 * n + 2 \/ q = 4 * n + 3) by lia.
  destruct Hc as [->|[->|[->| ->]]];
    destruct Hj as [->|[->|[->| ->]]]; reflexivity.
Qed.

(** *** The result of a lane *)

Lemma lane_in_unit fma x :
  let y := Lane.sine (Lane.run fma x) in
  y = F32.default_nan \/ SFsmall (2 ^ 149) (F32.decode y).
Proof.
  cbv zeta. rewrite sine_of_run.
  destruct (blend_of_run fma x) as (_ & _ & _ & Hb). rewrite Hb. cbv zeta.
  rewrite swap_mask_spec, negate_mask_spec.
  apply tail_in_unit. apply div_range.
Qed.

(** A number of the format of magnitude at most [2^149] units of
    [2^-149] is a rational in [[-1, 1]]. *)
Lemma unit_value y :
  SFsmall (2 ^ 149) (F32.decode y) ->
  exists r, F32.value y = Some r /\ (-1 <= Q2R r <= 1)%R.
Proof.
  unfold F32.value. destruct (F32.decode y) as [s|s| |s m e]; cbn [SFsmall];
    try contradiction.
  - intros _. exists (0 # 1)%Q. split; [reflexivity|].
    unfold Q2R. cbn [Qnum Qden]. lra.
  - intros [Hg Hv]. pose proof (on_grid_exponent m e Hg) as Hlo.
    assert (Hps : 0 < 2 ^ (e + 149)) by (apply pow2_pos; lia).
    assert (He : e <= 0).
    { destruct (Z.le_gt_cases e 0) as [H|H]; [exact H|exfalso].
      assert (2 ^ 150 <= 2 ^ (e + 149)) by (apply Z.pow_le_mono_r; lia).
      assert (2 ^ 149 < 2 ^ 150) by (apply Z.pow_lt_mono_r; lia). nia. }
    assert (Hsp : 2 ^ 149 = 2 ^ (- e) * 2 ^ (e + 149)).
    { rewrite <- pow2_split by lia. f_equal. lia. }
    assert (Hpe : 0 < 2 ^ (- e)) by (apply pow2_pos; lia).
    assert (Hm : Zpos m <= 2 ^ (- e)) by (rewrite Hsp in Hv; nia).
    eexists. split; [reflexivity|].
    destruct (Z.leb_spec 0 e) as [H0|H0].
    + assert (e = 0) by lia. subst e. change (2 ^ (- 0)) with 1 in Hm.
      assert (m = 1%positive) by lia. subst m.
      change (2 ^ 0) with 1. rewrite Z.mul_1_r.
      unfold Q2R. cbn [Qnum Qden]. rewrite Rinv_1, Rmult_1_r.
      destruct s; cbn [cond_Zopp]; rewrite ?opp_IZR; lra.
    + unfold Q2R. cbn [Qnum Qden]. rewrite Z2Pos.id by exact Hpe.
      apply IZR_le in Hm. apply IZR_lt in Hpe.
      assert (Hm0 : (0 < IZR (Zpos m))%R) by (apply IZR_lt; lia).
      set (d := IZR (2 ^ (- e))) in *.
      assert (Hinv : (0 < / d)%R) by (apply Rinv_0_lt_compat; exact Hpe).
      assert (Hone : (d * / d = 1)%R) by (apply Rinv_r; lra).
      destruct s; cbn [cond_Zopp].
      * rewrite opp_IZR. split; nra.
      * split; nra.
Qed.
(** ** Lanes are independent *)

Ltac four_lanes aVal H :=
  do 4 (destruct aVal as [|? aVal]; [discriminate H|]);
  destruct aVal; [|discriminate H]; clear H.

Ltac eight_lanes aVal H :=
  do 8 (destruct aVal as [|? aVal]; [discriminate H|]);
  destruct aVal; [|discriminate H]; clear H.

(** A vector iteration computes [Lane.run] in each of its lanes. *)
Lemma iteration_lanes v aVal :
  length aVal = width v ->
  iteration v aVal = Lane.gather (Lane.run (fused v) <$> aVal).
Proof.
  intros Hlen. destruct v; cbn [width] in Hlen;
    first [four_lanes aVal Hlen | eight_lanes aVal Hlen];
    (* both sides unfold to the same lanes; the conversion is checked by
       the kernel, which shares the let-bound locals *)
    cbv beta iota delta [iteration fused];
    match goal with |- ?lhs = _ => exact_no_check (@eq_refl locals lhs) end.
Qed.

Lemma kernel_shape sin v :
  kernel sin v
  = vector_kernel sin (width v) (needs_alignment v)
      (fun aVal => l_sine (iteration v aVal)).
Proof. destruct v; reflexivity. Qed.

Lemma width_pos v : (0 < width v)%nat.
Proof. destruct v; simpl; lia. Qed.

Lemma iteration_length v aVal :
  length aVal = width v -> length (l_sine (iteration v aVal)) = width v.
Proof.
  intros H. rewrite (iteration_lanes v aVal H). simpl.
  rewrite !length_fmap. exact H.
Qed.

Local Open Scope nat_scope.

(** *** Loads and stores *)

Lemma load_Some p m x : m !! p = Some x -> load p m = Some (x, m).
Proof. unfold load. intros ->. reflexivity. Qed.

Lemma store_Some p v m :
  p < length m -> store p v m = Some (tt, <[p := v]> m).
Proof. unfold store. intros H. destruct (decide _); [reflexivity | lia]. Qed.

Lemma loadv_Some W p m :
  p + W <= length m -> loadv W p m = Some (take W (drop p m), m).
Proof. unfold loadv. intros H. destruct (decide _); [reflexivity | lia]. Qed.

Lemma storev_Some p v m :
  p + length v <= length m -> storev p v m = Some (tt, list_inserts p v m).
Proof. unfold storev. intros H. destruct (decide _); [reflexivity | lia]. Qed.

Lemma loaded_length W p (m : mem) :
  p + W <= length m -> length (take W (drop p m)) = W.
Proof. intros H. rewrite length_take, length_drop. lia. Qed.

Lemma loaded_lookup W p (m : mem) k :
  k < W -> take W (drop p m) !! k = m !! (p + k).
Proof. intros H. rewrite lookup_take_lt by exact H. apply lookup_drop. Qed.

(** Two memories that agree on a window yield the same loaded lanes. *)
Lemma loaded_ext W p (m m' : mem) :
  (forall k, k < W -> m' !! (p + k) = m !! (p + k)) ->
  take W (drop p m') = take W (drop p m).
Proof.
  intros H. apply list_eq. intros k.
  destruct (decide (k < W)) as [Hk|Hk].
  - rewrite !loaded_lookup by exact Hk. apply H, Hk.
  - rewrite !lookup_take_ge by lia. reflexivity.
Qed.

(** *** The scalar loop *)

Lemma scalar_loop sin n : forall a b m,
  a + n <= length m -> b + n <= length m -> (b <= a \/ a + n <= b) ->
  exists m',
    repeatM n (scalar_step sin) (a, b) m = Some ((a + n, b + n), m')
    /\ length m' = length m
    /\ (forall j, j < b \/ b + n <= j -> m' !! j = m !! j)
    /\ (forall i, i < n -> m' !! (b + i) = sin <$> m !! (a + i)).
Proof.
  induction n as [|n IH]; intros a b m Ha Hb Hov.
  - exists m. rewrite !Nat.add_0_r. repeat split; auto. intros i Hi. lia.
  - destruct (lookup_lt_is_Some_2 m a) as [x Hx]; [lia|].
    assert (Hst : b < length m) by lia.
    destruct (IH (S a) (S b) (<[b := sin x]> m)) as (m' & Hrun & Hlen & Hframe & Hout).
    { rewrite length_insert. lia. }
    { rewrite length_insert. lia. }
    { lia. }
    exists m'. split; [|split; [|split]].
    + cbn [repeatM]. unfold bind at 1. unfold scalar_step at 1.
      unfold bind at 1. rewrite (load_Some _ _ _ Hx).
      unfold bind at 1. rewrite (store_Some _ (sin x) _ Hst).
      unfold ret at 1. rewrite Hrun. do 2 f_equal. f_equal; lia.
    + rewrite Hlen. apply length_insert.
    + intros j Hj. rewrite Hframe by lia.
      apply list_lookup_insert_ne. lia.
    + intros i Hi. destruct i as [|i].
      * rewrite !Nat.add_0_r. rewrite Hframe by lia.
        rewrite list_lookup_insert_eq by exact Hst. rewrite Hx. reflexivity.
      * replace (b + S i) with (S b + i) by lia.
        replace (a + S i) with (S a + i) by lia.
        rewrite Hout by lia. f_equal.
        apply list_lookup_insert_ne. lia.
Qed.

(** *** The vector loop *)

Lemma vector_loop W f (Hf : forall v, length v = W -> length (f v) = W) g :
  forall a b m,
  a + W * g <= length m -> b + W * g <= length m ->
  (b <= a \/ a + W * g <= b) ->
  exists m',
    repeatM g (vector_step W false f) (a, b) m
      = Some ((a + W * g, b + W * g), m')
    /\ length m' = length m
    /\ (forall j, j < b \/ b + W * g <= j -> m' !! j = m !! j)
    /\ (forall i k, i < g -> k < W ->
         m' !! (b + W * i + k) = f (take W (drop (a + W * i) m)) !! k).
Proof.
  induction g as [|g IH]; intros a b m Ha Hb Hov.
  - exists m. rewrite Nat.mul_0_r, !Nat.add_0_r.
    repeat split; auto. intros i k Hi. lia.
  - set (aVal := take W (drop a m)).
    assert (HaVal : length aVal = W) by (apply loaded_length; lia).
    assert (Hres : length (f aVal) = W) by (apply Hf, HaVal).
    set (m1 := list_inserts b (f aVal) m).
    assert (Hm1 : length m1 = length m) by apply length_inserts.
    destruct (IH (a + W) (b + W) m1) as (m' & Hrun & Hlen & Hframe & Hout).
    { rewrite Hm1. lia. }
    { rewrite Hm1. lia. }
    { lia. }
    assert (Hin : forall j, a + W <= j < a + W * S g -> m1 !! j = m !! j).
    { intros j Hj. unfold m1.
      destruct (decide (j < b)) as [Hlt|Hge].
      - apply list_lookup_inserts_lt, Hlt.
      - apply list_lookup_inserts_ge. rewrite Hres. lia. }
    exists m'. split; [|split; [|split]].
    + cbn [repeatM]. unfold bind at 1. unfold vector_step at 1.
      unfold bind at 1. rewrite loadv_Some by lia. fold aVal.
      unfold bind at 1. rewrite storev_Some by (rewrite Hres; lia).
      fold m1. unfold ret at 1. rewrite Hrun. do 2 f_equal. f_equal; lia.
    + rewrite Hlen. exact Hm1.
    + intros j Hj. rewrite Hframe by lia. unfold m1.
      destruct Hj as [Hj|Hj].
      * apply list_lookup_inserts_lt, Hj.
      * apply list_lookup_inserts_ge. rewrite Hres. lia.
    + intros i k Hi Hk. destruct i as [|i].
      * rewrite Nat.mul_0_r, !Nat.add_0_r.
        rewrite Hframe by lia. unfold m1.
        rewrite list_lookup_inserts by (rewrite ?Hres; lia).
        f_equal. lia.
      * replace (b + W * S i + k) with (b + W + W * i + k) by lia.
        rewrite Hout by lia.
        replace (a + W * S i) with (a + W + W * i) by lia.
        f_equal. f_equal. apply loaded_ext. intros k' Hk'. apply Hin. nia.
Qed.



(** With both cursors aligned the checked loop is the unchecked one. *)
Lemma aligned_advance W p : aligned W p = true -> aligned W (p + W) = true.
Proof.
  unfold aligned. rewrite !Nat.eqb_eq. intros H.
  replace (p + W) with (p + 1 * W) by lia.
  rewrite Nat.Div0.mod_add. exact H.
Qed.

Lemma vector_step_checked W f a b :
  aligned W a = true -> aligned W b = true ->
  vector_step W true f (a, b) = vector_step W false f (a, b).
Proof. intros Ha Hb. unfold vector_step. rewrite Ha, Hb. reflexivity. Qed.

Lemma vector_step_cursors W chk f a b m s m' :
  vector_step W chk f (a, b) m = Some (s, m') -> s = (a + W, b + W).
Proof.
  unfold vector_step, bind, ret. intros H.
  destruct (_ m) as [[aVal m0]|] in H; [|discriminate].
  destruct (_ m0) as [[[] m1]|] in H; [|discriminate].
  congruence.
Qed.

Lemma checked_loop W f g : forall a b m,
  aligned W a = true -> aligned W b = true ->
  repeatM g (vector_step W true f) (a, b) m
  = repeatM g (vector_step W false f) (a, b) m.
Proof.
  induction g as [|g IH]; intros a b m Ha Hb; [reflexivity|].
  cbn [repeatM]. rewrite (vector_step_checked W f a b Ha Hb).
  unfold bind at 1 2.
  destruct (vector_step W false f (a, b) m) as [[s m1]|] eqn:E; [|reflexivity].
  apply vector_step_cursors in E. subst s.
  apply IH; apply aligned_advance; assumption.
Qed.

(** *** Whole kernels *)

Lemma generic_run sin m b a n :
  in_bounds m b a n -> no_overlap b a n ->
  exists m',
    volk_32f_sin_32f_generic sin b a n m = Some (tt, m')
    /\ length m' = length m
    /\ (forall j, j < b \/ b + n <= j -> m' !! j = m !! j)
    /\ (forall i, i < n -> m' !! (b + i) = sin <$> m !! (a + i)).
Proof.
  intros [Ha Hb] Hov.
  destruct (scalar_loop sin n a b m Ha Hb Hov) as (m' & Hrun & Hrest).
  exists m'. split; [|exact Hrest].
  unfold volk_32f_sin_32f_generic, for_lt. cbv zeta. unfold bind.
  rewrite Nat.sub_0_r, Hrun. reflexivity.
Qed.

Lemma group_split n W : 0 < W -> W * (n / W) <= n /\ n < W * (n / W) + W.
Proof.
  intros HW. pose proof (Nat.div_mod_eq n W).
  pose proof (Nat.mod_upper_bound n W). lia.
Qed.

Lemma kernel_run sin v m b a n :
  in_bounds m b a n -> no_overlap b a n -> alignment_ok v b a ->
  exists m',
    kernel sin v b a n m = Some (tt, m')
    /\ length m' = length m
    /\ (forall j, j < b \/ b + n <= j -> m' !! j = m !! j)
    /\ (forall g k, g < n / width v -> k < width v ->
         m' !! (b + width v * g + k)
         = l_sine (iteration v (take (width v) (drop (a + width v * g) m))) !! k)
    /\ (forall i, width v * (n / width v) <= i < n ->
         m' !! (b + i) = sin <$> m !! (a + i)).
Proof.
  intros [Ha Hb] Hov Hal.
  pose proof (width_pos v) as HW.
  destruct (group_split n (width v) HW) as [Hlo Hhi].
  set (W := width v) in *. set (G := n / W) in *.
  destruct (vector_loop W (fun aVal => l_sine (iteration v aVal))
              (iteration_length v) G a b m) as (m1 & Hrun1 & Hlen1 & Hfr1 & Hout1);
    [lia | lia | unfold no_overlap in Hov; lia |].
  destruct (scalar_loop sin (n - G * W) (a + W * G) (b + W * G) m1)
    as (m2 & Hrun2 & Hlen2 & Hfr2 & Hout2);
    [rewrite Hlen1; lia | rewrite Hlen1; lia | unfold no_overlap in Hov; lia |].
  exists m2. split; [|split; [|split; [|split]]].
  - rewrite kernel_shape. fold W. unfold vector_kernel, for_lt.
    rewrite Nat.sub_0_r. fold G. unfold bind at 1.
    assert (Hloop : repeatM G (vector_step W (needs_alignment v)
                     (fun aVal => l_sine (iteration v aVal))) (a, b) m
                   = Some ((a + W * G, b + W * G), m1)).
    { destruct (needs_alignment v) eqn:E; [|exact Hrun1].
      destruct (Hal E) as [Ha' Hb']. fold W in Ha', Hb'.
      rewrite checked_loop by assumption. exact Hrun1. }
    rewrite Hloop. unfold bind. rewrite Hrun2. reflexivity.
  - rewrite Hlen2. exact Hlen1.
  - intros j Hj. rewrite Hfr2 by lia. apply Hfr1. lia.
  - intros g k Hg Hk. rewrite Hfr2 by nia. apply Hout1; assumption.
  - intros i [Hi1 Hi2].
    replace (b + i) with (b + W * G + (i - W * G)) by lia.
    rewrite Hout2 by lia.
    replace (a + W * G + (i - W * G)) with (a + i) by lia.
    f_equal. apply Hfr1. unfold no_overlap in Hov. lia.
Qed.

(** *** Loops in sequence *)

Lemma repeatM_add {S : Type} (body : S -> M S) g1 g2 : forall s m,
  repeatM (g1 + g2) body s m = bind (repeatM g1 body s) (repeatM g2 body) m.
Proof.
  induction g1 as [|g1 IH]; intros s m; [reflexivity|].
  cbn [repeatM Nat.add]. unfold bind.
  destruct (body s m) as [[s' m']|]; [|reflexivity].
  rewrite IH. reflexivity.
Qed.

(** *** What a completed loop tells about memory *)

Lemma scalar_step_inv sin a b m s m' :
  scalar_step sin (a, b) m = Some (s, m') ->
  s = (S a, S b) /\ length m' = length m /\ a < length m /\ b < length m.
Proof.
  unfold scalar_step, bind, load, store, ret. intros H.
  destruct (m !! a) as [x|] eqn:Hx; [|discriminate].
  destruct (decide (b < length m)) as [Hb|]; [|discriminate].
  injection H as <- <-. rewrite length_insert.
  apply lookup_lt_Some in Hx. auto.
Qed.

Lemma scalar_loop_inv sin n : forall a b m s m',
  repeatM n (scalar_step sin) (a, b) m = Some (s, m') ->
  s = (a + n, b + n) /\ length m' = length m
  /\ forall i, i < n -> a + i < length m /\ b + i < length m.
Proof.
  induction n as [|n IH]; intros a b m s m' H.
  - injection H as <- <-. rewrite !Nat.add_0_r.
    split; [reflexivity|]. split; [reflexivity|]. intros i Hi. lia.
  - cbn [repeatM] in H. unfold bind at 1 in H.
    destruct (scalar_step sin (a, b) m) as [[s1 m1]|] eqn:E; [|discriminate].
    apply scalar_step_inv in E. destruct E as (-> & Hlen & Ha & Hb).
    apply IH in H. destruct H as (-> & Hlen' & Hin).
    split; [f_equal; lia|]. split; [congruence|].
    intros [|i] Hi; [rewrite !Nat.add_0_r; auto|].
    destruct (Hin i ltac:(lia)) as [Hai Hbi]. rewrite Hlen in Hai, Hbi. lia.
Qed.

Lemma vector_step_inv W chk f a b m s m' :
  (forall v, length v = W -> length (f v) = W) ->
  vector_step W chk f (a, b) m = Some (s, m') ->
  s = (a + W, b + W) /\ length m' = length m
  /\ a + W <= length m /\ b + W <= length m
  /\ (chk = true -> aligned W a = true /\ aligned W b = true).
Proof.
  intros Hf H.
  assert (Hl : forall p, (if chk then (if aligned W p then loadv W p else fault)
                          else loadv W p) m
               = if (if chk then aligned W p else true) then loadv W p m else None).
  { intros p. destruct chk; [destruct (aligned W p)|]; reflexivity. }
  assert (Hs : forall p v m0, (if chk then (if aligned W p then storev p v else fault)
                               else storev p v) m0
               = if (if chk then aligned W p else true) then storev p v m0 else None).
  { intros p v m0. destruct chk; [destruct (aligned W p)|]; reflexivity. }
  unfold vector_step, bind at 1 in H. rewrite Hl in H.
  destruct (if chk then aligned W a else true) eqn:Ea; [|discriminate].
  unfold loadv in H.
  destruct (decide (a + W <= length m)) as [Ha|]; [|discriminate].
  unfold bind at 1 in H. rewrite Hs in H.
  destruct (if chk then aligned W b else true) eqn:Eb; [|discriminate].
  unfold storev, ret in H.
  rewrite (Hf _ (loaded_length W a m Ha)) in H.
  destruct (decide (b + W <= length m)) as [Hb|]; [|discriminate].
  injection H as <- <-. rewrite length_inserts.
  repeat split; try assumption; try reflexivity; subst chk; assumption.
Qed.

Lemma vector_loop_inv W chk f g :
  (forall v, length v = W -> length (f v) = W) ->
  forall a b m s m',
  repeatM g (vector_step W chk f) (a, b) m = Some (s, m') ->
  s = (a + W * g, b + W * g) /\ length m' = length m
  /\ (0 < g -> a + W * g <= length m /\ b + W * g <= length m
              /\ (chk = true -> aligned W a = true /\ aligned W b = true)).
Proof.
  intros Hf. induction g as [|g IH]; intros a b m s m' H.
  - injection H as <- <-. rewrite Nat.mul_0_r, !Nat.add_0_r.
    split; [reflexivity|]. split; [reflexivity|]. intros Hg. lia.
  - cbn [repeatM] in H. unfold bind at 1 in H.
    destruct (vector_step W chk f (a, b) m) as [[s1 m1]|] eqn:E; [|discriminate].
    apply vector_step_inv in E; [|exact Hf].
    destruct E as (-> & Hlen & Ha & Hb & Hal).
    apply IH in H. destruct H as (-> & Hlen' & Hin).
    split; [f_equal; lia|]. split; [congruence|]. intros _.
    split; [|split; [|exact Hal]].
    + destruct g as [|g]; [lia|].
      destruct (Hin ltac:(lia)) as (H1 & _). rewrite Hlen in H1. lia.
    + destruct g as [|g]; [lia|].
      destruct (Hin ltac:(lia)) as (_ & H2 & _). rewrite Hlen in H2. lia.
Qed.

(** *** Output cell by output cell *)

(** The index of a cell inside the lane groups, as group and lane. *)
Lemma group_and_lane W n i :
  0 < W -> i < W * (n / W) ->
  i / W < n / W /\ i mod W < W /\ i = W * (i / W) + i mod W.
Proof.
  intros HW Hi. pose proof (Nat.div_mod_eq i W) as Hdm.
  pose proof (Nat.mod_upper_bound i W ltac:(lia)) as Hk.
  split; [|split; assumption].
  apply Nat.Div0.div_lt_upper_bound. lia.
Qed.

(** *** When a loop returns *)

Lemma scalar_loop_returns sin n : forall a b m,
  a + n <= length m -> b + n <= length m ->
  exists m', repeatM n (scalar_step sin) (a, b) m = Some ((a + n, b + n), m')
             /\ length m' = length m.
Proof.
  induction n as [|n IH]; intros a b m Ha Hb.
  - exists m. rewrite !Nat.add_0_r. split; reflexivity.
  - destruct (lookup_lt_is_Some_2 m a) as [x Hx]; [lia|].
    assert (Hst : b < length m) by lia.
    destruct (IH (S a) (S b) (<[b := sin x]> m)) as (m' & Hrun & Hlen);
      [rewrite length_insert; lia | rewrite length_insert; lia |].
    exists m'. split.
    + cbn [repeatM]. unfold bind at 1. unfold scalar_step at 1.
      unfold bind at 1. rewrite (load_Some _ _ _ Hx).
      unfold bind at 1. rewrite (store_Some _ (sin x) _ Hst).
      unfold ret at 1. rewrite Hrun. do 2 f_equal. f_equal; lia.
    + rewrite Hlen. apply length_insert.
Qed.

Lemma vector_loop_returns W f (Hf : forall v, length v = W -> length (f v) = W) g :
  forall a b m,
  a + W * g <= length m -> b + W * g <= length m ->
  exists m', repeatM g (vector_step W false f) (a, b) m
             = Some ((a + W * g, b + W * g), m')
             /\ length m' = length m.
Proof.
  induction g as [|g IH]; intros a b m Ha Hb.
  - exists m. rewrite Nat.mul_0_r, !Nat.add_0_r. split; reflexivity.
  - set (aVal := take W (drop a m)).
    assert (HaVal : length aVal = W) by (apply loaded_length; lia).
    assert (Hres : length (f aVal) = W) by (apply Hf, HaVal).
    set (m1 := list_inserts b (f aVal) m).
    assert (Hm1 : length m1 = length m) by apply length_inserts.
    destruct (IH (a + W) (b + W) m1) as (m' & Hrun & Hlen);
      [rewrite Hm1; lia | rewrite Hm1; lia |].
    exists m'. split.
    + cbn [repeatM]. unfold bind at 1. unfold vector_step at 1.
      unfold bind at 1. rewrite loadv_Some by lia. fold aVal.
      unfold bind at 1. rewrite storev_Some by (rewrite Hres; lia).
      fold m1. unfold ret at 1. rewrite Hrun. do 2 f_equal. f_equal; lia.
    + rewrite Hlen. exact Hm1.
Qed.

(** The checked loop faults at its first group when an address is
    misaligned. *)
Lemma checked_loop_faults W f g a b m :
  aligned W a = false \/ aligned W b = false ->
  repeatM (S g) (vector_step W true f) (a, b) m = None.
Proof.
  intros H. cbn [repeatM]. unfold bind at 1. unfold vector_step, bind.
  destruct (aligned W a); [|reflexivity].
  destruct H as [H|H]; [discriminate H|]. rewrite H.
  destruct (loadv W a m) as [[aVal m0]|]; reflexivity.
Qed.

(** *** The scalar loop on an output one cell ahead of the input *)

Lemma shifted_scalar_loop sin n : forall a m x0,
  a + 1 + n <= length m -> m !! a = Some x0 ->
  exists m',
    repeatM n (scalar_step sin) (a, a + 1) m = Some ((a + n, a + 1 + n), m')
    /\ length m' = length m
    /\ (forall j, j <= a -> m' !! j = m !! j)
    /\ (forall i, i < n -> m' !! (a + 1 + i) = Some (Nat.iter (S i) sin x0)).
Proof.
  induction n as [|n IH]; intros a m x0 Hlen Hx.
  - exists m. rewrite !Nat.add_0_r. repeat split; auto. intros i Hi. lia.
  - assert (Hst : a + 1 < length m) by lia.
    destruct (IH (a + 1) (<[a + 1 := sin x0]> m) (sin x0))
      as (m' & Hrun & Hlen' & Hframe & Hout).
    { rewrite length_insert. lia. }
    { apply list_lookup_insert_eq. exact Hst. }
    exists m'. split; [|split; [|split]].
    + cbn [repeatM]. unfold bind at 1. unfold scalar_step at 1.
      unfold bind at 1. rewrite (load_Some _ _ _ Hx).
      unfold bind at 1. rewrite (store_Some _ (sin x0) _ Hst).
      unfold ret at 1. replace (S a) with (a + 1) by lia.
      replace (S (a + 1)) with (a + 1 + 1) by lia.
      rewrite Hrun. do 2 f_equal. f_equal; lia.
    + rewrite Hlen'. apply length_insert.
    + intros j Hj. rewrite Hframe by lia.
      apply list_lookup_insert_ne. lia.
    + intros i Hi. destruct i as [|i].
      * rewrite Nat.add_0_r. rewrite Hframe by lia.
        apply list_lookup_insert_eq. exact Hst.
      * replace (a + 1 + S i) with (a + 1 + 1 + i) by lia.
        rewrite Hout by lia. f_equal.
        symmetry. apply Nat.iter_succ_r.
Qed.

(** * The claims *)

Local Open Scope Z_scope.

(** Reading one lane of one local of a vector iteration. *)
Ltac lane_field Hlen Hk :=
  rewrite (iteration_lanes _ _ Hlen); cbn [Lane.gather l_aVal l_s_abs l_q l_r
    l_s_red l_s_sq l_s_poly l_s_dbl l_s l_sine0 l_cosine l_condition1
    l_condition2 l_sine1 l_sine];
  rewrite !list_lookup_fmap, Hk; reflexivity.

Lemma lane_of_iteration v aVal k x :
  length aVal = width v -> aVal !! k = Some x ->
  let L := iteration v aVal in
  let l := Lane.run (fused v) x in
  l_s_abs L !! k = Some (Lane.s_abs l) /\ l_q L !! k = Some (Lane.q l)
  /\ l_r L !! k = Some (Lane.r l) /\ l_s_red L !! k = Some (Lane.s_red l)
  /\ l_s_sq L !! k = Some (Lane.s_sq l) /\ l_s_poly L !! k = Some (Lane.s_poly l)
  /\ l_s_dbl L !! k = Some (Lane.s_dbl l) /\ l_s L !! k = Some (Lane.s l)
  /\ l_sine0 L !! k = Some (Lane.sine0 l) /\ l_cosine L !! k = Some (Lane.cosine l)
  /\ l_condition1 L !! k = Some (Lane.condition1 l)
  /\ l_condition2 L !! k = Some (Lane.condition2 l)
  /\ l_sine1 L !! k = Some (Lane.sine1 l) /\ l_sine L !! k = Some (Lane.sine l).
Proof.
  intros Hlen Hk L l. subst L l. repeat apply conj; lane_field Hlen Hk.
Qed.

(** ** C5: range reduction *)

(** C5.  In every lane of every vector kernel, with [a] the absolute angle
    the kernel holds after its first statement: the floored index is
    [q0 = floor (a * 4/pi)] converted to an integer, the index used for the
    reduction is [q = q0 + (q0 & 1)], and the reduced angle is obtained in two
    steps, [a - q * 0.78515625] and then [- q * 0.241876e-3], never in one
    step with one constant (each step is a fused multiply-subtract in the FMA
    kernels and a product followed by a subtraction in the others).  [4/pi]
    is the binary32 nearest to the literal [1.273239545], the high part is
    [0.78515625] exactly and the low part the binary32 nearest to
    [0.241876e-3].  The
    angle [a] is [|x|], the pattern of [x] with its sign bit cleared, for
    every [x] that is not a NaN, is not [-0.0] and, when negative, is above
    [-2^127]. *)
Theorem range_reduction_steps v aVal k x :
  length aVal = width v -> aVal !! k = Some x ->
  let L := iteration v aVal in
  let a := F32.sub x (Z.land (F32.mul x Lane.two) (F32.cmp_lt x Lane.zero)) in
  let q0 := F32.cvt_f32_i32 (F32.floor (F32.mul a Lane.m4pi)) in
  let q := F32.wrap32 (q0 + Z.land q0 1) in
  let qf := F32.cvt_i32_f32 q in
  l_s_abs L !! k = Some a
  /\ l_q L !! k = Some q0
  /\ l_r L !! k = Some q
  /\ l_s_red L !! k
     = Some (if fused v
             then F32.fnmadd qf Lane.pio4B (F32.fnmadd qf Lane.pio4A a)
             else F32.sub (F32.sub a (F32.mul qf Lane.pio4A))
                    (F32.mul qf Lane.pio4B))
  /\ F32.within Lane.m4pi (1273239545 # 1000000000) (1 # 2 ^ 24)
  /\ F32.exactly Lane.pio4A (78515625 # 100000000)
  /\ F32.within Lane.pio4B (241876 # 1000000000) (1 # 2 ^ 37)
  /\ (0 <= x < 2 ^ 32 -> F32.is_nan x = false -> x <> F32.neg_zero ->
      (F32.lt_zero x = true -> F32.exp_field x < 254) ->
      a = F32.abs x).
Proof.
  intros Hlen Hk L a q0 q qf.
  destruct (lane_of_iteration v aVal k x Hlen Hk)
    as (Ha & Hq & Hr & Hs & _).
  do 3 (split; [assumption|]).
  split.
  { fold L in Hs. rewrite Hs. f_equal. subst qf q q0 a.
    unfold Lane.run, Lane.s_red, Lane.reduce, Lane.mul_sub.
    destruct (fused v); reflexivity. }
  split; [vm_compute; discriminate|].
  split; [vm_compute; reflexivity|].
  split; [vm_compute; discriminate|].
  apply strip_sign_abs.
Qed.

Lemma range_reduction_steps_witness :
  length [f_one; f_minus_five; f_1_22; f_2_5] = width a_sse4_1
  /\ [f_one; f_minus_five; f_1_22; f_2_5] !! 1%nat = Some f_minus_five
  /\ l_q (iteration a_sse4_1 [f_one; f_minus_five; f_1_22; f_2_5]) !! 1%nat
     = Some 6
  /\ l_r (iteration a_sse4_1 [f_one; f_minus_five; f_1_22; f_2_5]) !! 1%nat
     = Some 6.
Proof.
  split; [reflexivity|]. split; [reflexivity|].
  pose proof (range_reduction_steps a_sse4_1
                [f_one; f_minus_five; f_1_22; f_2_5] 1%nat f_minus_five
                eq_refl eq_refl) as H.
  cbv zeta in H. destruct H as (_ & Hq & Hr & _).
  split.
  - rewrite Hq. vm_compute. reflexivity.
  - rewrite Hr. vm_compute. reflexivity.
Defined.

(** ** C6: the series and the doublings *)

(** C6, as the code has it.  In every lane of every vector kernel, with [s]
    the reduced angle: [u = (s / 8) * (s / 8)]; the series is the Horner form
    of [1 - cp2 u + cp3 u^2 - cp4 u^3 + cp5 u^4] times [u], with alternating
    signs and the constants [1.0], [0.83333333e-1], [0.2777778e-2],
    [0.49603e-4] and [0.551e-6] (fused steps in the FMA kernels); the
    doubling [t <- t * (4 - t)] is applied exactly three times; the result is
    divided by 2; then [sine = sqrt ((2 - t) * t)] and [cosine = 1 - t]. *)
Theorem series_and_doublings v aVal k x :
  length aVal = width v -> aVal !! k = Some x ->
  let L := iteration v aVal in
  exists s u p d t,
    l_s_red L !! k = Some s
    /\ l_s_sq L !! k = Some u
    /\ l_s_poly L !! k = Some p
    /\ l_s_dbl L !! k = Some d
    /\ l_s L !! k = Some t
    /\ u = F32.mul (F32.div s Lane.eight) (F32.div s Lane.eight)
    /\ p = (if fused v then
             F32.mul (F32.fmadd (F32.fmsub (F32.fmadd (F32.fmsub
               u Lane.cp5 Lane.cp4) u Lane.cp3) u Lane.cp2) u Lane.cp1) u
           else
             F32.mul (F32.add (F32.mul (F32.sub (F32.mul (F32.add (F32.mul
               (F32.sub (F32.mul u Lane.cp5) Lane.cp4) u) Lane.cp3) u)
               Lane.cp2) u) Lane.cp1) u)
    /\ (let double t := F32.mul t (F32.sub Lane.four t) in
        d = double (double (double p)))
    /\ t = F32.div d Lane.two
    /\ l_sine0 L !! k = Some (F32.sqrt (F32.mul (F32.sub Lane.two t) t))
    /\ l_cosine L !! k = Some (F32.sub Lane.one t)
    /\ F32.exactly Lane.cp1 1
    /\ F32.within Lane.cp2 (83333333 # 1000000000) (1 # 2 ^ 28)
    /\ F32.within Lane.cp3 (2777778 # 1000000000) (1 # 2 ^ 33)
    /\ F32.within Lane.cp4 (49603 # 1000000000) (1 # 2 ^ 39)
    /\ F32.within Lane.cp5 (551 # 1000000000) (1 # 2 ^ 45)
    /\ F32.exactly Lane.eight 8 /\ F32.exactly Lane.four 4
    /\ F32.exactly Lane.two 2 /\ F32.exactly Lane.one 1.
Proof.
  intros Hlen Hk L.
  destruct (lane_of_iteration v aVal k x Hlen Hk)
    as (_ & _ & _ & Hs & Hu & Hp & Hd & Ht & Hs0 & Hc & _).
  set (l := Lane.run (fused v) x) in *.
  exists (Lane.s_red l), (Lane.s_sq l), (Lane.s_poly l), (Lane.s_dbl l), (Lane.s l).
  do 11 (split; [first [assumption | reflexivity]|]).
  do 8 (split; [first [vm_compute; reflexivity | vm_compute; discriminate]|]).
  vm_compute. reflexivity.
Qed.

Lemma series_and_doublings_witness :
  length [f_one; f_minus_five; f_1_22; f_2_5] = width u_sse4_1
  /\ [f_one; f_minus_five; f_1_22; f_2_5] !! 0%nat = Some f_one
  /\ exists s u p d t,
      l_s_red (iteration u_sse4_1 [f_one; f_minus_five; f_1_22; f_2_5]) !! 0%nat = Some s
      /\ l_s_poly (iteration u_sse4_1 [f_one; f_minus_five; f_1_22; f_2_5]) !! 0%nat = Some p
      /\ l_s (iteration u_sse4_1 [f_one; f_minus_five; f_1_22; f_2_5]) !! 0%nat = Some t
      /\ u = F32.mul (F32.div s Lane.eight) (F32.div s Lane.eight)
      /\ (let double t := F32.mul t (F32.sub Lane.four t) in
          d = double (double (double p)))
      /\ t = F32.div d Lane.two.
Proof.
  split; [reflexivity|]. split; [reflexivity|].
  destruct (series_and_doublings u_sse4_1
              [f_one; f_minus_five; f_1_22; f_2_5] 0%nat f_one eq_refl eq_refl)
    as (s & u & p & d & t & H1 & H2 & H3 & H4 & H5 & H6 & H7 & H8 & H9 & H10 & _).
  exists s, u, p, d, t. repeat apply conj; assumption.
Defined.

(** The series worded as in the specification (every step an addition, the
    constants [0.0833333], [0.0027778], [0.0000496], [0.000000551]) is not
    the one the kernels evaluate: at the input [1.0] both the plain and the
    fused kernels hold [u = 0x3BA6D05A] and compute [0x3BA6BE3D], where the
    specification's series gives [0x3BA6E278].  Three of the printed
    constants are also other binary32 numbers than the constants of the
    code. *)
Lemma series_as_specified_differs :
  (Claimed.cp2 = 0x3DAAAAA6 /\ Lane.cp2 = 0x3DAAAAAB
   /\ Claimed.cp3 = 0x3B360BC0 /\ Lane.cp3 = 0x3B360B62
   /\ Claimed.cp4 = 0x38500998 /\ Lane.cp4 = 0x38500CD1
   /\ Claimed.cp5 = Lane.cp5)
  /\
  (let L := iteration a_sse4_1 [f_one; f_one; f_one; f_one] in
   l_s_sq L = replicate 4%nat 0x3BA6D05A
   /\ l_s_poly L = replicate 4%nat 0x3BA6BE3D
   /\ Claimed.series false 0x3BA6D05A = 0x3BA6E278
   /\ l_s_poly L <> (Claimed.series false <$> l_s_sq L))
  /\ (let L := iteration a_avx2_fma (replicate 8%nat f_one) in
      l_s_sq L = replicate 8%nat 0x3BA6D05A
      /\ l_s_poly L = replicate 8%nat 0x3BA6BE3D
      /\ Claimed.series true 0x3BA6D05A = 0x3BA6E278
      /\ l_s_poly L <> (Claimed.series true <$> l_s_sq L)).
Proof.
  split; [|split]; cbv zeta; repeat apply conj;
    try (vm_compute; reflexivity); vm_compute; discriminate.
Qed.

(** ** C4: the first blend *)

Lemma first_blend_lane fma x :
  let l := Lane.run fma x in
  Lane.condition1 l = F32.mask_of (Z.testbit (Lane.q l + 1) 1)
  /\ Lane.sine1 l
     = (if Z.testbit (Lane.q l + 1) 1
        then F32.add (Lane.sine0 l) (F32.sub (Lane.cosine l) (Lane.sine0 l))
        else F32.add (Lane.sine0 l) F32.pos_zero).
Proof.
  cbv zeta. split.
  - apply swap_mask_spec.
  - cbn [Lane.run Lane.sine1 Lane.q Lane.sine0 Lane.cosine].
    rewrite swap_mask_spec. apply blend_spec.
Qed.

(** C4, as the code has it.  In every lane of every vector kernel the first
    blend is branchless, [sine + ((cosine - sine) & condition1)], where
    [condition1] is all ones exactly when bit 1 of [q + 1] is set ([q] the
    floored index): the lane becomes [sine + (cosine - sine)], which is the
    reduced cosine up to the rounding of the two operations, when the bit is
    set, and [sine + 0] otherwise, which is [sine] itself unless [sine] is a
    NaN or [-0.0]. *)
Theorem first_blend v aVal k x :
  length aVal = width v -> aVal !! k = Some x ->
  let L := iteration v aVal in
  exists q s c m,
    l_q L !! k = Some q /\ l_sine0 L !! k = Some s
    /\ l_cosine L !! k = Some c /\ l_condition1 L !! k = Some m
    /\ m = F32.mask_of (Z.testbit (q + 1) 1)
    /\ l_sine1 L !! k = Some (F32.add s (Z.land (F32.sub c s) m))
    /\ l_sine1 L !! k
       = Some (if Z.testbit (q + 1) 1 then F32.add s (F32.sub c s)
               else F32.add s F32.pos_zero)
    /\ (F32.is_nan s = false -> s <> F32.neg_zero ->
        F32.add s F32.pos_zero = s).
Proof.
  intros Hlen Hk L.
  destruct (lane_of_iteration v aVal k x Hlen Hk)
    as (_ & Hq & _ & _ & _ & _ & _ & _ & Hs0 & Hc & Hc1 & _ & Hs1 & _).
  destruct (first_blend_lane (fused v) x) as [Hm Hb]. cbv zeta in Hm, Hb.
  set (l := Lane.run (fused v) x) in *.
  exists (Lane.q l), (Lane.sine0 l), (Lane.cosine l), (Lane.condition1 l).
  repeat apply conj; try assumption.
  - fold L in Hs1. rewrite Hs1, Hb. reflexivity.
  - apply add_pos_zero. apply sqrt_range.
Qed.

Lemma first_blend_witness :
  length [f_one; f_minus_five; f_1_22; f_2_5] = width a_sse4_1
  /\ [f_one; f_minus_five; f_1_22; f_2_5] !! 3%nat = Some f_2_5
  /\ exists q s c m,
      l_q (iteration a_sse4_1 [f_one; f_minus_five; f_1_22; f_2_5]) !! 3%nat = Some q
      /\ q = 3 /\ m = 0
      /\ l_sine0 (iteration a_sse4_1 [f_one; f_minus_five; f_1_22; f_2_5]) !! 3%nat = Some s
      /\ l_cosine (iteration a_sse4_1 [f_one; f_minus_five; f_1_22; f_2_5]) !! 3%nat = Some c
      /\ l_sine1 (iteration a_sse4_1 [f_one; f_minus_five; f_1_22; f_2_5]) !! 3%nat
         = Some (F32.add s (Z.land (F32.sub c s) m)).
Proof.
  split; [reflexivity|]. split; [reflexivity|].
  destruct (first_blend a_sse4_1 [f_one; f_minus_five; f_1_22; f_2_5]
              3%nat f_2_5 eq_refl eq_refl)
    as (q & s & c & m & Hq & Hs & Hc & Hm & Hmq & Hb & _ & _).
  exists q, s, c, m.
  assert (Hq3 : q = 3).
  { vm_compute in Hq. injection Hq as <-. reflexivity. }
  repeat apply conj; try assumption.
  rewrite Hmq, Hq3. reflexivity.
Defined.

(** The blended lane is not always the reduced cosine itself: at the input
    [1.22] the floored index is 1, bit 1 of [1 + 1] is set, the reduced
    cosine is [0x3F7068D1] and the lane after the blend is [0x3F7068D2]. *)
Lemma blend_is_not_the_cosine :
  let L := iteration a_sse4_1 [f_1_22; f_1_22; f_1_22; f_1_22] in
  l_q L = replicate 4%nat 1
  /\ Z.testbit (1 + 1) 1 = true
  /\ l_condition1 L = replicate 4%nat F32.all_ones
  /\ l_cosine L = replicate 4%nat 0x3F7068D1
  /\ l_sine1 L = replicate 4%nat 0x3F7068D2
  /\ l_sine1 L <> l_cosine L.
Proof.
  cbv zeta. repeat apply conj;
    try (vm_compute; reflexivity); vm_compute; discriminate.
Qed.

(** ** C3: the sign fix-up *)

(** What the second mask is in every lane: the comparison of the two masks
    is a floating-point NEQ, true whenever either mask is all ones. *)
Lemma sign_fixup_lane fma x :
  let l := Lane.run fma x in
  Lane.condition2 l = F32.mask_of (Z.testbit (Lane.q l) 2 || F32.lt_zero x)
  /\ Lane.sine l
     = (if Z.testbit (Lane.q l) 2 || F32.lt_zero x
        then F32.sub (Lane.sine1 l) (F32.mul (Lane.sine1 l) Lane.two_f)
        else F32.sub (Lane.sine1 l) F32.pos_zero).
Proof.
  cbv zeta. split.
  - apply negate_mask_spec.
  - cbn [Lane.run Lane.sine Lane.sine1 Lane.q].
    rewrite negate_mask_spec. apply negate_under_spec.
Qed.

(** C3, as the code has it by design.  In every lane of every vector kernel
    in which bit 2 of the floored index [q] and the sign test [x < 0] are not
    both true, the blended value [v] is negated (replaced by [v - 2 v])
    exactly when (bit 2 of [q] is set) XOR ([x < 0]), and is left as [v - 0]
    otherwise.  [v - 2 v] is [v] with its sign bit flipped for every finite
    [v] below [2^127] in magnitude other than [+0.0], and [v - 0] is [v]
    unless [v] is a NaN. *)
Theorem sign_fixup v aVal k x q :
  length aVal = width v -> aVal !! k = Some x ->
  l_q (iteration v aVal) !! k = Some q ->
  Z.testbit q 2 && F32.lt_zero x = false ->
  exists s1,
    l_sine1 (iteration v aVal) !! k = Some s1
    /\ l_sine (iteration v aVal) !! k
       = Some (if xorb (Z.testbit q 2) (F32.lt_zero x)
               then F32.sub s1 (F32.mul s1 Lane.two_f)
               else F32.sub s1 F32.pos_zero)
    /\ (F32.exp_field s1 < 254 -> s1 <> F32.pos_zero ->
        F32.sub s1 (F32.mul s1 Lane.two_f) = F32.opp s1)
    /\ (F32.is_nan s1 = false -> F32.sub s1 F32.pos_zero = s1).
Proof.
  intros Hlen Hk Hq Hboth.
  destruct (lane_of_iteration v aVal k x Hlen Hk)
    as (_ & Hq' & _ & _ & _ & _ & _ & _ & _ & _ & _ & _ & Hs1 & Hs).
  cbv zeta in Hq', Hs1, Hs.
  assert (Hq2 : Lane.q (Lane.run (fused v) x) = q) by congruence.
  destruct (sign_fixup_lane (fused v) x) as [_ Hn]. cbv zeta in Hn.
  assert (Hr : 0 <= Lane.sine1 (Lane.run (fused v) x) < 2 ^ 32)
    by apply add_range.
  exists (Lane.sine1 (Lane.run (fused v) x)). split; [exact Hs1|].
  split; [|split].
  - rewrite Hs, Hn, Hq2. f_equal.
    generalize dependent (F32.lt_zero x). generalize (Z.testbit q 2).
    intros [] [] Hboth; try discriminate Hboth; reflexivity.
  - apply sub_twice, Hr.
  - apply sub_pos_zero, Hr.
Qed.

Lemma sign_fixup_witness :
  length [f_one; f_minus_five; f_1_22; f_2_5] = width a_sse4_1
  /\ [f_one; f_minus_five; f_1_22; f_2_5] !! 0%nat = Some f_one
  /\ l_q (iteration a_sse4_1 [f_one; f_minus_five; f_1_22; f_2_5]) !! 0%nat = Some 1
  /\ Z.testbit 1 2 && F32.lt_zero f_one = false
  /\ exists s1,
      l_sine1 (iteration a_sse4_1 [f_one; f_minus_five; f_1_22; f_2_5]) !! 0%nat = Some s1
      /\ l_sine (iteration a_sse4_1 [f_one; f_minus_five; f_1_22; f_2_5]) !! 0%nat
         = Some (F32.sub s1 F32.pos_zero).
Proof.
  split; [reflexivity|]. split; [reflexivity|].
  split; [vm_compute; reflexivity|]. split; [vm_compute; reflexivity|].
  destruct (sign_fixup a_sse4_1 [f_one; f_minus_five; f_1_22; f_2_5]
              0%nat f_one 1 eq_refl eq_refl eq_refl eq_refl)
    as (s1 & H1 & H2 & _).
  exists s1. split; [exact H1 | exact H2].
Defined.

(** The rule as the specification words it, negate when (bit 2 of [q] is
    zero) XOR ([x] negative), fails at the input [1.0]: the floored index is
    1 and the rounded index 2, bit 2 of both is zero and [x] is not negative,
    so the rule asks for a negation; the second mask is zero and the lane is
    stored as it is, [0x3F576AA5], about 0.8415. *)
Lemma sign_rule_as_specified_fails :
  let L := iteration a_sse4_1 [f_one; f_one; f_one; f_one] in
  l_q L = replicate 4%nat 1 /\ l_r L = replicate 4%nat 2
  /\ xorb (negb (Z.testbit 1 2)) (F32.lt_zero f_one) = true
  /\ xorb (negb (Z.testbit 2 2)) (F32.lt_zero f_one) = true
  /\ l_condition2 L = replicate 4%nat 0
  /\ l_sine1 L = replicate 4%nat 0x3F576AA5
  /\ l_sine L = l_sine1 L
  /\ l_sine L <> (F32.opp <$> l_sine1 L).
Proof.
  cbv zeta. repeat apply conj;
    try (vm_compute; reflexivity); vm_compute; discriminate.
Qed.

(** ** C2: the scalar reference kernel *)

(** C2.  For every memory holding the two buffers, the output not starting
    inside the unread input, and every index [i < num_points], the generic
    kernel returns and leaves in [bVector[i]] exactly the library sine of
    what [aVector[i]] held on entry. *)
Theorem generic_writes_platform_sine sin m b a n i x :
  in_bounds m b a n -> no_overlap b a n ->
  (i < n)%nat -> m !! (a + i)%nat = Some x ->
  exists m',
    volk_32f_sin_32f_generic sin b a n m = Some (tt, m')
    /\ m' !! (b + i)%nat = Some (sin x).
Proof.
  intros Hb Hov Hi Hx.
  destruct (generic_run sin m b a n Hb Hov) as (m' & Hrun & _ & _ & Hout).
  exists m'. split; [exact Hrun|].
  rewrite (Hout i Hi), Hx. reflexivity.
Qed.

Lemma generic_writes_platform_sine_witness :
  in_bounds sample_mem 8 0 8 /\ no_overlap 8 0 8 /\ (1 < 8)%nat
  /\ sample_mem !! (0 + 1)%nat = Some f_minus_five
  /\ exists m',
      volk_32f_sin_32f_generic sample_sin 8 0 8 sample_mem = Some (tt, m')
      /\ m' !! (8 + 1)%nat = Some (sample_sin f_minus_five).
Proof.
  assert (Hb : in_bounds sample_mem 8 0 8) by (unfold in_bounds; simpl; lia).
  assert (Hov : no_overlap 8 0 8) by (unfold no_overlap; lia).
  split; [exact Hb|]. split; [exact Hov|]. split; [lia|].
  split; [reflexivity|].
  apply (generic_writes_platform_sine sample_sin sample_mem 8 0 8 1 f_minus_five);
    [exact Hb | exact Hov | lia | reflexivity].
Defined.

(** ** C7: lane groups and remainder *)

(** C7.  For every vector kernel of width [W] and every [num_points], under
    the preconditions of the call, the kernel returns; each of the
    [num_points / W] full lane groups of the output holds the lanes of one
    vector iteration on the matching group of the input; and each trailing
    index [i], from [W * (num_points / W)] up to [num_points], holds the very
    pattern the generic kernel leaves there, the library sine of
    [aVector[i]]. *)
Theorem remainder_matches_generic sin v m b a n i :
  in_bounds m b a n -> no_overlap b a n -> alignment_ok v b a ->
  (width v * (n / width v) <= i < n)%nat ->
  exists mv mg,
    kernel sin v b a n m = Some (tt, mv)
    /\ volk_32f_sin_32f_generic sin b a n m = Some (tt, mg)
    /\ mv !! (b + i)%nat = mg !! (b + i)%nat
    /\ mv !! (b + i)%nat = sin <$> m !! (a + i)%nat
    /\ (forall g k, (g < n / width v)%nat -> (k < width v)%nat ->
         mv !! (b + width v * g + k)%nat
         = l_sine (iteration v (take (width v) (drop (a + width v * g) m))) !! k)
    /\ (n - width v * (n / width v) = n mod width v)%nat.
Proof.
  intros Hb Hov Hal Hi.
  destruct (kernel_run sin v m b a n Hb Hov Hal)
    as (mv & Hv & _ & _ & Hgroups & Htail).
  destruct (generic_run sin m b a n Hb Hov) as (mg & Hg & _ & _ & Hout).
  exists mv, mg. repeat apply conj; try assumption.
  - rewrite (Htail i Hi), (Hout i) by lia. reflexivity.
  - apply Htail, Hi.
  - pose proof (Nat.div_mod_eq n (width v)). lia.
Qed.

Lemma remainder_matches_generic_witness :
  in_bounds sample_mem 8 0 7 /\ no_overlap 8 0 7 /\ alignment_ok a_sse4_1 8 0
  /\ (width a_sse4_1 * (7 / width a_sse4_1) <= 5 < 7)%nat
  /\ exists mv mg,
      kernel sample_sin a_sse4_1 8 0 7 sample_mem = Some (tt, mv)
      /\ volk_32f_sin_32f_generic sample_sin 8 0 7 sample_mem = Some (tt, mg)
      /\ mv !! (8 + 5)%nat = mg !! (8 + 5)%nat.
Proof.
  assert (Hb : in_bounds sample_mem 8 0 7) by (unfold in_bounds; simpl; lia).
  assert (Hov : no_overlap 8 0 7) by (unfold no_overlap; lia).
  assert (Hal : alignment_ok a_sse4_1 8 0) by (intros _; split; reflexivity).
  assert (Hi : (width a_sse4_1 * (7 / width a_sse4_1) <= 5 < 7)%nat)
    by (simpl; lia).
  split; [exact Hb|]. split; [exact Hov|]. split; [exact Hal|].
  split; [exact Hi|].
  destruct (remainder_matches_generic sample_sin a_sse4_1 sample_mem 8 0 7 5
              Hb Hov Hal Hi) as (mv & mg & Hv & Hg & Heq & _).
  exists mv, mg. repeat apply conj; assumption.
Defined.

(** ** C8: aligned and unaligned entry points *)

Lemma unaligned_same_iteration v : iteration (unaligned v) = iteration v.
Proof. destruct v; reflexivity. Qed.

Lemma unaligned_same_width v : width (unaligned v) = width v.
Proof. destruct v; reflexivity. Qed.

Lemma unaligned_unchecked v : needs_alignment (unaligned v) = false.
Proof. destruct v; reflexivity. Qed.

(** C8.  Given addresses that meet its alignment requirement, an aligned
    kernel and the unaligned kernel of the same instruction set behave alike
    on every memory and every [num_points]: same fault or same final memory,
    hence the same output values. *)
Theorem aligned_and_unaligned_agree sin v m b a n :
  needs_alignment v = true ->
  aligned (width v) a = true -> aligned (width v) b = true ->
  kernel sin v b a n m = kernel sin (unaligned v) b a n m.
Proof.
  intros Hv Ha Hb. rewrite !kernel_shape.
  rewrite unaligned_same_iteration, unaligned_same_width, unaligned_unchecked, Hv.
  unfold vector_kernel, for_lt. unfold bind at 1 3.
  rewrite checked_loop by assumption. reflexivity.
Qed.

Lemma aligned_and_unaligned_agree_witness :
  needs_alignment a_avx2_fma = true
  /\ aligned (width a_avx2_fma) 0 = true /\ aligned (width a_avx2_fma) 8 = true
  /\ kernel sample_sin a_avx2_fma 8 0 8 sample_mem
     = kernel sample_sin u_avx2_fma 8 0 8 sample_mem.
Proof.
  split; [reflexivity|]. split; [reflexivity|]. split; [reflexivity|].
  apply (aligned_and_unaligned_agree sample_sin a_avx2_fma sample_mem 8 0 8);
    reflexivity.
Defined.

(** The alignment requirement is what separates the two: on a misaligned
    output the aligned kernel faults where the unaligned one runs. *)
Example misaligned_output :
  kernel sample_sin a_sse4_1 9 0 4 sample_mem = None
  /\ exec (kernel sample_sin u_sse4_1 9 0 4) sample_mem
     = Some (take 9 sample_mem
             ++ l_sine (iteration u_sse4_1 (take 4 sample_mem))
             ++ drop 13 sample_mem).
Proof. split; vm_compute; reflexivity. Qed.

(** ** C9: zero length *)

(** C9.  Called with [num_points = 0], each of the seven kernels returns
    without fault and leaves the whole memory, the output buffer included, as
    it was, whatever the two addresses are. *)
Theorem zero_length_is_noop sin m b a :
  volk_32f_sin_32f_generic sin b a 0 m = Some (tt, m)
  /\ forall v, kernel sin v b a 0 m = Some (tt, m).
Proof. split; [reflexivity|]. intros v. destruct v; reflexivity. Qed.

(** ** C10: negative zero *)

Lemma negative_zero_lane fma :
  Lane.sine (Lane.run fma F32.neg_zero) = F32.pos_zero.
Proof. destruct fma; vm_compute; reflexivity. Qed.

(** C10.  An input element equal to [-0.0] that falls in a full lane group
    of a vector kernel comes out as [+0.0]: the strict compare [x < 0] is
    false on [-0.0] and the square root of the zero product is [+0.0].  The
    generic kernel stores the library sine of [-0.0] there, which is [-0.0]
    for a library that keeps the sign of zero. *)
Theorem negative_zero_loses_its_sign sin v m b a n i :
  in_bounds m b a n -> no_overlap b a n -> alignment_ok v b a ->
  (i < width v * (n / width v))%nat ->
  m !! (a + i)%nat = Some F32.neg_zero ->
  sin F32.neg_zero = F32.neg_zero ->
  exists mv mg,
    kernel sin v b a n m = Some (tt, mv)
    /\ volk_32f_sin_32f_generic sin b a n m = Some (tt, mg)
    /\ mv !! (b + i)%nat = Some F32.pos_zero
    /\ mg !! (b + i)%nat = Some F32.neg_zero
    /\ F32.lt_zero F32.neg_zero = false
    /\ F32.sqrt F32.pos_zero = F32.pos_zero.
Proof.
  intros Hb Hov Hal Hi Hx Hsin.
  pose proof (width_pos v) as HW.
  destruct (kernel_run sin v m b a n Hb Hov Hal)
    as (mv & Hv & _ & _ & Hgroups & _).
  destruct (generic_run sin m b a n Hb Hov) as (mg & Hg & _ & _ & Hout).
  exists mv, mg. repeat apply conj; try assumption;
    try (vm_compute; reflexivity).
  - set (W := width v) in *.
    pose proof (Nat.div_mod_eq i W) as Hdm.
    pose proof (Nat.mod_upper_bound i W ltac:(lia)) as Hk.
    assert (Hgi : (i / W < n / W)%nat).
    { apply Nat.Div0.div_lt_upper_bound. lia. }
    replace (b + i)%nat with (b + W * (i / W) + i mod W)%nat by lia.
    rewrite (Hgroups (i / W)%nat (i mod W)%nat Hgi Hk).
    destruct Hb as [Ha _].
    pose proof (group_split n W HW) as [Hlo _].
    assert (Hlen : length (take W (drop (a + W * (i / W)) m)) = W).
    { apply loaded_length. nia. }
    assert (Hlane : take W (drop (a + W * (i / W)) m) !! (i mod W)%nat
                    = Some F32.neg_zero).
    { rewrite loaded_lookup by exact Hk. rewrite <- Hx. f_equal. lia. }
    destruct (lane_of_iteration v _ _ _ Hlen Hlane)
      as (_ & _ & _ & _ & _ & _ & _ & _ & _ & _ & _ & _ & _ & Hs).
    cbv zeta in Hs. rewrite Hs, negative_zero_lane. reflexivity.
  - assert (Hin : (i < n)%nat).
    { pose proof (group_split n (width v) HW). lia. }
    rewrite (Hout i Hin), Hx. cbn. rewrite Hsin. reflexivity.
Qed.

Lemma negative_zero_loses_its_sign_witness :
  in_bounds sample_mem 8 0 8 /\ no_overlap 8 0 8 /\ alignment_ok a_avx2 8 0
  /\ (2 < width a_avx2 * (8 / width a_avx2))%nat
  /\ sample_mem !! (0 + 2)%nat = Some F32.neg_zero
  /\ sample_sin F32.neg_zero = F32.neg_zero
  /\ exists mv mg,
      kernel sample_sin a_avx2 8 0 8 sample_mem = Some (tt, mv)
      /\ volk_32f_sin_32f_generic sample_sin 8 0 8 sample_mem = Some (tt, mg)
      /\ mv !! (8 + 2)%nat = Some F32.pos_zero
      /\ mg !! (8 + 2)%nat = Some F32.neg_zero.
Proof.
  assert (Hb : in_bounds sample_mem 8 0 8) by (unfold in_bounds; simpl; lia).
  assert (Hov : no_overlap 8 0 8) by (unfold no_overlap; lia).
  assert (Hal : alignment_ok a_avx2 8 0) by (intros _; split; reflexivity).
  assert (Hi : (2 < width a_avx2 * (8 / width a_avx2))%nat) by (simpl; lia).
  split; [exact Hb|]. split; [exact Hov|]. split; [exact Hal|].
  split; [exact Hi|]. split; [reflexivity|]. split; [reflexivity|].
  destruct (negative_zero_loses_its_sign sample_sin a_avx2 sample_mem 8 0 8 2
              Hb Hov Hal Hi eq_refl eq_refl)
    as (mv & mg & Hv & Hg & Hpos & Hneg & _).
  exists mv, mg. repeat apply conj; assumption.
Defined.

(** ** C1: accuracy against the library sine *)

Lemma real_sine_of_minus_five : (0 < Rtrigo_def.sin (-5))%R.
Proof.
  replace (-5)%R with (- (5))%R by lra.
  rewrite sin_neg. apply Ropp_0_gt_lt_contravar. apply sin_lt_0.
  - pose proof PI_4. lra.
  - pose proof PI2_3_2. lra.
Qed.

(** C1 does not hold of the code.  In every vector kernel a lane holding
    [-5.0] has floored index 6, so bit 2 of the index is set, and [x < 0]
    holds: the exclusive or of the two is false and the lane must keep its
    sign, yet the second mask is all ones, the lane is negated, and the
    kernel stores [0xBF757C0F], about -0.95892, the very pattern it stores for
    [+5.0].  The sine of -5 is positive, about +0.95892.  The same happens
    in every lane covered by [negative_lane_mirrors]. *)
Theorem minus_five_gets_the_wrong_sign :
  (forall v,
     let L := iteration v (replicate (width v) f_minus_five) in
     l_q L = replicate (width v) 6
     /\ l_condition2 L = replicate (width v) F32.all_ones
     /\ l_sine1 L = replicate (width v) 0x3F757C0F
     /\ l_sine L = replicate (width v) 0xBF757C0F)
  /\ (forall v,
        l_sine (iteration v (replicate (width v) f_five))
        = replicate (width v) 0xBF757C0F)
  /\ xorb (Z.testbit 6 2) (F32.lt_zero f_minus_five) = false
  /\ F32.exactly f_minus_five (-5 # 1)
  /\ F32.exactly 0xBF757C0F (-16088079 # 16777216)
  /\ (-16088079 # 16777216 < -95 # 100)%Q
  /\ (0 < Rtrigo_def.sin (-5))%R
  /\ (forall sin,
        exec (kernel sin a_sse4_1 4 0 4)
          (replicate 4%nat f_minus_five ++ replicate 4%nat 0)
        = Some (replicate 4%nat f_minus_five ++ replicate 4%nat 0xBF757C0F)).
Proof.
  repeat apply conj.
  - intros v. destruct v; cbv zeta; repeat apply conj; vm_compute; reflexivity.
  - intros v. destruct v; vm_compute; reflexivity.
  - vm_compute. reflexivity.
  - vm_compute. reflexivity.
  - vm_compute. reflexivity.
  - vm_compute. reflexivity.
  - exact real_sine_of_minus_five.
  - intros sin. vm_compute. reflexivity.
Qed.

(** * Further properties of the kernels *)

(** ** Calls and memory *)

Local Open Scope nat_scope.

(** Every output cell of a call, as a function of the matching input cell
    alone. *)
Lemma kernel_pointwise sin v m b a n :
  in_bounds m b a n -> no_overlap b a n -> alignment_ok v b a ->
  exists m',
    kernel sin v b a n m = Some (tt, m')
    /\ length m' = length m
    /\ (forall j, j < b \/ b + n <= j -> m' !! j = m !! j)
    /\ (forall i x, i < n -> m !! (a + i) = Some x ->
         m' !! (b + i)
         = Some (if decide (i < width v * (n / width v))
                 then Lane.sine (Lane.run (fused v) x) else sin x)).
Proof.
  intros Hb Hov Hal.
  destruct (kernel_run sin v m b a n Hb Hov Hal)
    as (m' & Hrun & Hlen & Hframe & Hgroups & Htail).
  exists m'. split; [exact Hrun|]. split; [exact Hlen|].
  split; [exact Hframe|].
  intros i x Hi Hx. pose proof (width_pos v) as HW.
  destruct (decide (i < width v * (n / width v))) as [Hv|Hs].
  - set (W := width v) in *.
    destruct (group_and_lane W n i HW Hv) as (Hg & Hk & Hdm).
    replace (b + i) with (b + W * (i / W) + i mod W) by lia.
    rewrite (Hgroups (i / W) (i mod W) Hg Hk).
    destruct Hb as [Ha _].
    pose proof (group_split n W HW) as [Hlo _].
    assert (Hlen' : length (take W (drop (a + W * (i / W)) m)) = W).
    { apply loaded_length. nia. }
    assert (Hlane : take W (drop (a + W * (i / W)) m) !! (i mod W) = Some x).
    { rewrite loaded_lookup by exact Hk. rewrite <- Hx. f_equal. lia. }
    destruct (lane_of_iteration v _ _ _ Hlen' Hlane)
      as (_ & _ & _ & _ & _ & _ & _ & _ & _ & _ & _ & _ & _ & Hs).
    exact Hs.
  - rewrite (Htail i) by lia. rewrite Hx. reflexivity.
Qed.

Lemma generic_pointwise sin m b a n :
  in_bounds m b a n -> no_overlap b a n ->
  exists m',
    volk_32f_sin_32f_generic sin b a n m = Some (tt, m')
    /\ forall i x, i < n -> m !! (a + i) = Some x ->
         m' !! (b + i) = Some (sin x).
Proof.
  intros Hb Hov.
  destruct (generic_run sin m b a n Hb Hov) as (m' & Hrun & _ & _ & Hout).
  exists m'. split; [exact Hrun|]. intros i x Hi Hx.
  rewrite (Hout i Hi), Hx. reflexivity.
Qed.

(** The lane of a register filled with copies of one value. *)
Lemma lane_of_copies v x :
  l_sine (iteration v (replicate (width v) x)) !! 0
  = Some (Lane.sine (Lane.run (fused v) x)).
Proof.
  assert (Hlen : length (replicate (width v) x) = width v)
    by apply length_replicate.
  assert (Hk : replicate (width v) x !! 0 = Some x).
  { apply lookup_replicate_2. apply width_pos. }
  destruct (lane_of_iteration v _ _ _ Hlen Hk)
    as (_ & _ & _ & _ & _ & _ & _ & _ & _ & _ & _ & _ & _ & Hs).
  exact Hs.
Qed.

(** X1.  Under the preconditions of a call each of the seven kernels
    returns, keeps the size of memory, and leaves every cell outside
    [bVector[0 .. num_points)] as it was; the input is among them when the
    output does not overlap it. *)
Theorem only_the_output_is_written sin m b a n :
  in_bounds m b a n -> no_overlap b a n ->
  (exists m',
     volk_32f_sin_32f_generic sin b a n m = Some (tt, m')
     /\ length m' = length m
     /\ (forall j, j < b \/ b + n <= j -> m' !! j = m !! j)
     /\ (a + n <= b \/ b + n <= a ->
         forall i, i < n -> m' !! (a + i) = m !! (a + i)))
  /\ forall v, alignment_ok v b a ->
     exists m',
       kernel sin v b a n m = Some (tt, m')
       /\ length m' = length m
       /\ (forall j, j < b \/ b + n <= j -> m' !! j = m !! j)
       /\ (a + n <= b \/ b + n <= a ->
           forall i, i < n -> m' !! (a + i) = m !! (a + i)).
Proof.
  intros Hb Hov. split.
  - destruct (generic_run sin m b a n Hb Hov) as (m' & Hrun & Hlen & Hfr & _).
    exists m'. repeat split; try assumption.
    intros Hd i Hi. apply Hfr. lia.
  - intros v Hal.
    destruct (kernel_run sin v m b a n Hb Hov Hal)
      as (m' & Hrun & Hlen & Hfr & _).
    exists m'. repeat split; try assumption.
    intros Hd i Hi. apply Hfr. lia.
Qed.

Lemma only_the_output_is_written_witness :
  in_bounds sample_mem 8 0 7 /\ no_overlap 8 0 7
  /\ alignment_ok a_avx2 8 0
  /\ exists m',
       kernel sample_sin a_avx2 8 0 7 sample_mem = Some (tt, m')
       /\ length m' = length sample_mem
       /\ take 8 m' = take 8 sample_mem
       /\ m' !! 15 = sample_mem !! 15.
Proof.
  assert (Hb : in_bounds sample_mem 8 0 7) by (unfold in_bounds; simpl; lia).
  assert (Hov : no_overlap 8 0 7) by (unfold no_overlap; lia).
  assert (Hal : alignment_ok a_avx2 8 0) by (intros _; split; reflexivity).
  split; [exact Hb|]. split; [exact Hov|]. split; [exact Hal|].
  destruct (only_the_output_is_written sample_sin sample_mem 8 0 7 Hb Hov)
    as [_ Hk].
  destruct (Hk a_avx2 Hal) as (m' & Hrun & Hlen & Hfr & _).
  exists m'. split; [exact Hrun|]. split; [exact Hlen|]. split.
  - apply list_eq. intros j. destruct (decide (j < 8)) as [Hj|Hj].
    + rewrite !lookup_take_lt by exact Hj. apply Hfr. lia.
    + rewrite !lookup_take_ge by lia. reflexivity.
  - apply Hfr. lia.
Defined.

(** X2.  A call of a vector kernel returns exactly when both buffers lie
    inside memory and, for an aligned kernel given at least one full lane
    group, both addresses are aligned; the generic kernel returns exactly
    when both buffers lie inside memory.  Otherwise the call faults.
    Whether the buffers overlap plays no part. *)
Theorem a_call_returns_exactly_when sin m b a n :
  let fits := forall i, i < n -> a + i < length m /\ b + i < length m in
  (is_Some (volk_32f_sin_32f_generic sin b a n m) <-> fits)
  /\ forall v,
       is_Some (kernel sin v b a n m)
       <-> fits /\ (needs_alignment v = true -> width v <= n ->
                    aligned (width v) a = true /\ aligned (width v) b = true).
Proof.
  intros fits.
  assert (Hfits : fits -> n = 0 \/ (a + n <= length m /\ b + n <= length m)).
  { intros H. destruct n as [|n]; [left; reflexivity|right].
    destruct (H n ltac:(lia)). lia. }
  split.
  - split.
    + intros [[[] m'] H]. revert H.
      unfold volk_32f_sin_32f_generic, for_lt. cbv zeta. unfold bind.
      rewrite Nat.sub_0_r.
      destruct (repeatM n (scalar_step sin) (a, b) m) as [[s m1]|] eqn:E;
        [|discriminate].
      intros _. apply scalar_loop_inv in E. destruct E as (_ & _ & E).
      exact E.
    + intros H. destruct (Hfits H) as [->|[Ha Hb]]; [eexists; reflexivity|].
      destruct (scalar_loop_returns sin n a b m Ha Hb) as (m' & Hrun & _).
      exists (tt, m').
      unfold volk_32f_sin_32f_generic, for_lt. cbv zeta. unfold bind.
      rewrite Nat.sub_0_r, Hrun. reflexivity.
  - intros v. pose proof (width_pos v) as HW.
    destruct (group_split n (width v) HW) as [Hlo Hhi].
    rewrite kernel_shape. unfold vector_kernel, for_lt. rewrite Nat.sub_0_r.
    set (W := width v) in *. set (G := n / W) in *.
    set (f := fun aVal => l_sine (iteration v aVal)).
    assert (Hf : forall x, length x = W -> length (f x) = W)
      by apply iteration_length.
    assert (HG1 : W <= n -> 1 <= G)
      by (intros; apply Nat.div_le_lower_bound; lia).
    assert (HG0 : n < W -> G = 0) by (intros; apply Nat.div_small; assumption).
    assert (HGn : n = 0 -> G = 0) by (intros ->; apply Nat.Div0.div_0_l).
    clearbody G.
    split.
    + intros [[[] m'] H]. revert H. unfold bind at 1.
      destruct (repeatM G (vector_step W (needs_alignment v) f) (a, b) m)
        as [[s m1]|] eqn:E1; [|discriminate].
      apply (vector_loop_inv W _ f G Hf) in E1.
      destruct E1 as (-> & Hlen1 & Hin1). unfold bind.
      destruct (repeatM (n - G * W) (scalar_step sin) (a + W * G, b + W * G) m1)
        as [[s m2]|] eqn:E2; [|discriminate].
      intros _. apply scalar_loop_inv in E2.
      destruct E2 as (_ & _ & Hin2). rewrite Hlen1 in Hin2. split.
      * intros i Hi. destruct (decide (i < W * G)) as [Hv|Hs].
        -- destruct (Hin1 ltac:(nia)) as (H1 & H2 & _). lia.
        -- destruct (Hin2 (i - W * G) ltac:(lia)). lia.
      * intros Hchk Hn. apply Hin1; [|exact Hchk].
        specialize (HG1 Hn). lia.
    + intros [Hfit Hal].
      destruct (Hfits Hfit) as [Hn|[Ha Hb]].
      { rewrite (HGn Hn). subst n. exists (tt, m). reflexivity. }
      destruct (vector_loop_returns W f Hf G a b m) as (m1 & Hrun1 & Hlen1);
        [lia | lia |].
      destruct (scalar_loop_returns sin (n - G * W) (a + W * G) (b + W * G) m1)
        as (m2 & Hrun2 & _); [rewrite Hlen1; lia | rewrite Hlen1; lia |].
      exists (tt, m2). unfold bind at 1.
      assert (Hloop : repeatM G (vector_step W (needs_alignment v) f) (a, b) m
                      = Some ((a + W * G, b + W * G), m1)).
      { destruct (needs_alignment v) eqn:E; [|exact Hrun1].
        destruct (Nat.lt_ge_cases n W) as [Hlt|Hge].
        - rewrite (HG0 Hlt) in *. exact Hrun1.
        - destruct (Hal eq_refl Hge) as [Ha' Hb'].
          rewrite checked_loop by assumption. exact Hrun1. }
      rewrite Hloop. unfold bind. rewrite Hrun2. reflexivity.
Qed.

(** X3.  With fewer points than lanes a vector kernel is the generic
    kernel: same fault or same final memory on every memory and for every
    pair of addresses, aligned or not. *)
Theorem short_call_is_generic sin v m b a n :
  n < width v ->
  kernel sin v b a n m = volk_32f_sin_32f_generic sin b a n m.
Proof.
  intros Hn. rewrite kernel_shape.
  unfold vector_kernel, volk_32f_sin_32f_generic, for_lt. cbv zeta.
  rewrite Nat.div_small by exact Hn. reflexivity.
Qed.

Lemma short_call_is_generic_witness :
  3 < width a_sse4_1
  /\ kernel sample_sin a_sse4_1 9 1 3 sample_mem
     = volk_32f_sin_32f_generic sample_sin 9 1 3 sample_mem
  /\ aligned (width a_sse4_1) 1 = false.
Proof.
  split; [simpl; lia|]. split; [|reflexivity].
  apply (short_call_is_generic sample_sin a_sse4_1 sample_mem 9 1 3).
  simpl; lia.
Defined.

(** X4.  The values a vector kernel stores depend on the values of the
    input elements and on [num_points] only: two calls of the same kernel
    on inputs that agree element by element store the same outputs,
    wherever the buffers lie, whatever else the memories hold and whether
    or not a call works in place.  The same holds of the generic kernel. *)
Theorem output_depends_on_input_values_only sin m1 b1 a1 m2 b2 a2 n :
  in_bounds m1 b1 a1 n -> no_overlap b1 a1 n ->
  in_bounds m2 b2 a2 n -> no_overlap b2 a2 n ->
  (forall i, i < n -> m1 !! (a1 + i) = m2 !! (a2 + i)) ->
  (exists m1' m2',
     volk_32f_sin_32f_generic sin b1 a1 n m1 = Some (tt, m1')
     /\ volk_32f_sin_32f_generic sin b2 a2 n m2 = Some (tt, m2')
     /\ forall i, i < n -> m1' !! (b1 + i) = m2' !! (b2 + i))
  /\ forall v, alignment_ok v b1 a1 -> alignment_ok v b2 a2 ->
     exists m1' m2',
       kernel sin v b1 a1 n m1 = Some (tt, m1')
       /\ kernel sin v b2 a2 n m2 = Some (tt, m2')
       /\ forall i, i < n -> m1' !! (b1 + i) = m2' !! (b2 + i).
Proof.
  intros Hb1 Hov1 Hb2 Hov2 Hin.
  assert (Hx : forall i, i < n -> exists x,
             m1 !! (a1 + i) = Some x /\ m2 !! (a2 + i) = Some x).
  { intros i Hi. destruct Hb1 as [Ha1 _].
    destruct (lookup_lt_is_Some_2 m1 (a1 + i)) as [x Hx]; [lia|].
    exists x. split; [exact Hx|]. rewrite <- Hin by exact Hi. exact Hx. }
  split.
  - destruct (generic_pointwise sin m1 b1 a1 n Hb1 Hov1) as (m1' & Hr1 & Ho1).
    destruct (generic_pointwise sin m2 b2 a2 n Hb2 Hov2) as (m2' & Hr2 & Ho2).
    exists m1', m2'. split; [exact Hr1|]. split; [exact Hr2|].
    intros i Hi. destruct (Hx i Hi) as (x & Hx1 & Hx2).
    rewrite (Ho1 i x Hi Hx1), (Ho2 i x Hi Hx2). reflexivity.
  - intros v Hal1 Hal2.
    destruct (kernel_pointwise sin v m1 b1 a1 n Hb1 Hov1 Hal1)
      as (m1' & Hr1 & _ & _ & Ho1).
    destruct (kernel_pointwise sin v m2 b2 a2 n Hb2 Hov2 Hal2)
      as (m2' & Hr2 & _ & _ & Ho2).
    exists m1', m2'. split; [exact Hr1|]. split; [exact Hr2|].
    intros i Hi. destruct (Hx i Hi) as (x & Hx1 & Hx2).
    rewrite (Ho1 i x Hi Hx1), (Ho2 i x Hi Hx2). reflexivity.
Qed.

(** An out-of-place call and a call in place on the same eight inputs. *)
Lemma output_depends_on_input_values_only_witness :
  in_bounds sample_mem 8 0 8 /\ no_overlap 8 0 8
  /\ in_bounds (take 8 sample_mem) 0 0 8 /\ no_overlap 0 0 8
  /\ (forall i, i < 8 -> sample_mem !! (0 + i) = take 8 sample_mem !! (0 + i))
  /\ exists m1' m2',
       kernel sample_sin u_avx2 8 0 8 sample_mem = Some (tt, m1')
       /\ kernel sample_sin u_avx2 0 0 8 (take 8 sample_mem) = Some (tt, m2')
       /\ forall i, i < 8 -> m1' !! (8 + i) = m2' !! (0 + i).
Proof.
  assert (Hb1 : in_bounds sample_mem 8 0 8) by (unfold in_bounds; simpl; lia).
  assert (Hov1 : no_overlap 8 0 8) by (unfold no_overlap; lia).
  assert (Hb2 : in_bounds (take 8 sample_mem) 0 0 8)
    by (unfold in_bounds; simpl; lia).
  assert (Hov2 : no_overlap 0 0 8) by (unfold no_overlap; lia).
  assert (Hin : forall i, i < 8 ->
            sample_mem !! (0 + i) = take 8 sample_mem !! (0 + i)).
  { intros i Hi. symmetry. apply lookup_take_lt. exact Hi. }
  split; [exact Hb1|]. split; [exact Hov1|]. split; [exact Hb2|].
  split; [exact Hov2|]. split; [exact Hin|].
  destruct (output_depends_on_input_values_only sample_sin
              sample_mem 8 0 (take 8 sample_mem) 0 0 8 Hb1 Hov1 Hb2 Hov2 Hin)
    as [_ Hk].
  apply (Hk u_avx2); intros H; discriminate H.
Defined.

(** X5.  An output element inside the lane groups does not depend on its
    lane, on its group or on its neighbours: it is what lane 0 of one
    vector iteration gives on a register filled with copies of the input
    element.  An element past the lane groups is the library sine of the
    input element. *)
Theorem each_element_on_its_own sin v m b a n i x :
  in_bounds m b a n -> no_overlap b a n -> alignment_ok v b a ->
  i < n -> m !! (a + i) = Some x ->
  exists m',
    kernel sin v b a n m = Some (tt, m')
    /\ m' !! (b + i)
       = if decide (i < width v * (n / width v))
         then l_sine (iteration v (replicate (width v) x)) !! 0
         else Some (sin x).
Proof.
  intros Hb Hov Hal Hi Hx.
  destruct (kernel_pointwise sin v m b a n Hb Hov Hal)
    as (m' & Hrun & _ & _ & Hout).
  exists m'. split; [exact Hrun|].
  rewrite (Hout i x Hi Hx), lane_of_copies.
  destruct (decide _); reflexivity.
Qed.

Lemma each_element_on_its_own_witness :
  in_bounds sample_mem 8 0 8 /\ no_overlap 8 0 8 /\ alignment_ok a_sse4_1 8 0
  /\ 5 < 8 /\ sample_mem !! (0 + 5) = Some f_five
  /\ exists m',
       kernel sample_sin a_sse4_1 8 0 8 sample_mem = Some (tt, m')
       /\ m' !! (8 + 5)
          = l_sine (iteration a_sse4_1 (replicate 4 f_five)) !! 0.
Proof.
  assert (Hb : in_bounds sample_mem 8 0 8) by (unfold in_bounds; simpl; lia).
  assert (Hov : no_overlap 8 0 8) by (unfold no_overlap; lia).
  assert (Hal : alignment_ok a_sse4_1 8 0) by (intros _; split; reflexivity).
  split; [exact Hb|]. split; [exact Hov|]. split; [exact Hal|].
  split; [lia|]. split; [reflexivity|].
  destruct (each_element_on_its_own sample_sin a_sse4_1 sample_mem 8 0 8 5
              f_five Hb Hov Hal ltac:(lia) eq_refl) as (m' & Hrun & Hout).
  exists m'. split; [exact Hrun|]. exact Hout.
Defined.

(** X6.  Two vector kernels that agree on fusing (the two SSE4.1 and the
    two plain AVX2 kernels; the two FMA kernels) store the same pattern at
    every index that both of them handle in a lane group or both of them
    leave to the scalar loop; they can differ only at the indices from
    [8 * (num_points / 8)] up to [4 * (num_points / 4)], which the SSE4.1
    kernels compute in lanes and the AVX2 kernels hand to the library. *)
Theorem kernels_of_one_arithmetic_agree sin v1 v2 m b a n i :
  in_bounds m b a n -> no_overlap b a n ->
  alignment_ok v1 b a -> alignment_ok v2 b a ->
  fused v1 = fused v2 -> i < n ->
  (i < width v1 * (n / width v1) <-> i < width v2 * (n / width v2)) ->
  exists m1 m2,
    kernel sin v1 b a n m = Some (tt, m1)
    /\ kernel sin v2 b a n m = Some (tt, m2)
    /\ m1 !! (b + i) = m2 !! (b + i).
Proof.
  intros Hb Hov Hal1 Hal2 Hf Hi Hsame.
  destruct (kernel_pointwise sin v1 m b a n Hb Hov Hal1)
    as (m1 & Hr1 & _ & _ & Ho1).
  destruct (kernel_pointwise sin v2 m b a n Hb Hov Hal2)
    as (m2 & Hr2 & _ & _ & Ho2).
  exists m1, m2. split; [exact Hr1|]. split; [exact Hr2|].
  destruct Hb as [Ha _].
  destruct (lookup_lt_is_Some_2 m (a + i)) as [x Hx]; [lia|].
  rewrite (Ho1 i x Hi Hx), (Ho2 i x Hi Hx), Hf.
  destruct (decide (i < width v1 * (n / width v1))) as [H1|H1];
    destruct (decide (i < width v2 * (n / width v2))) as [H2|H2];
    try reflexivity; exfalso; tauto.
Qed.

Lemma kernels_of_one_arithmetic_agree_witness :
  in_bounds sample_mem 8 0 8 /\ no_overlap 8 0 8
  /\ alignment_ok a_sse4_1 8 0 /\ alignment_ok u_avx2 8 0
  /\ fused a_sse4_1 = fused u_avx2 /\ 6 < 8
  /\ (6 < width a_sse4_1 * (8 / width a_sse4_1)
      <-> 6 < width u_avx2 * (8 / width u_avx2))
  /\ exists m1 m2,
       kernel sample_sin a_sse4_1 8 0 8 sample_mem = Some (tt, m1)
       /\ kernel sample_sin u_avx2 8 0 8 sample_mem = Some (tt, m2)
       /\ m1 !! (8 + 6) = m2 !! (8 + 6).
Proof.
  assert (Hb : in_bounds sample_mem 8 0 8) by (unfold in_bounds; simpl; lia).
  assert (Hov : no_overlap 8 0 8) by (unfold no_overlap; lia).
  assert (Hal1 : alignment_ok a_sse4_1 8 0) by (intros _; split; reflexivity).
  assert (Hal2 : alignment_ok u_avx2 8 0) by (intros H; discriminate H).
  assert (Hs : 6 < width a_sse4_1 * (8 / width a_sse4_1)
               <-> 6 < width u_avx2 * (8 / width u_avx2))
    by (simpl; lia).
  split; [exact Hb|]. split; [exact Hov|]. split; [exact Hal1|].
  split; [exact Hal2|]. split; [reflexivity|]. split; [lia|].
  split; [exact Hs|].
  apply (kernels_of_one_arithmetic_agree sample_sin a_sse4_1 u_avx2
           sample_mem 8 0 8 6 Hb Hov Hal1 Hal2 eq_refl ltac:(lia) Hs).
Defined.

(** X7.  A call on [W * g + n] points, [W] the lane count, is the call on
    the first [W * g] points followed by the call on the other [n] at the
    advanced addresses: same fault or same final memory, on every memory
    and for every pair of addresses.  The generic kernel can be split at
    any point. *)
Theorem a_call_splits_at_a_group_boundary sin m b a g n :
  (forall v,
     kernel sin v b a (width v * g + n) m
     = bind (kernel sin v b a (width v * g))
         (fun _ => kernel sin v (b + width v * g) (a + width v * g) n) m)
  /\ volk_32f_sin_32f_generic sin b a (g + n) m
     = bind (volk_32f_sin_32f_generic sin b a g)
         (fun _ => volk_32f_sin_32f_generic sin (b + g) (a + g) n) m.
Proof.
  split.
  - intros v. pose proof (width_pos v) as HW. rewrite !kernel_shape.
    set (W := width v) in *.
    set (f := fun aVal => l_sine (iteration v aVal)).
    assert (Hf : forall x, length x = W -> length (f x) = W)
      by apply iteration_length.
    unfold vector_kernel, for_lt. rewrite !Nat.sub_0_r.
    replace ((W * g + n) / W) with (g + n / W)
      by (rewrite (Nat.mul_comm W g), Nat.div_add_l by lia; reflexivity).
    replace (W * g / W) with g
      by (rewrite (Nat.mul_comm W g), Nat.div_mul by lia; reflexivity).
    replace (W * g + n - (g + n / W) * W) with (n - n / W * W) by lia.
    replace (W * g - g * W) with 0 by lia.
    unfold bind at 1. rewrite repeatM_add. unfold bind, ret. cbn [repeatM].
    destruct (repeatM g (vector_step W (needs_alignment v) f) (a, b) m)
      as [[s m1]|] eqn:E1; [|reflexivity].
    apply (vector_loop_inv W _ f g Hf) in E1. destruct E1 as (-> & _ & _).
    unfold ret.
    destruct (repeatM (n / W) (vector_step W (needs_alignment v) f)
                (a + W * g, b + W * g) m1) as [[[a2 b2] m2]|]; reflexivity.
  - unfold volk_32f_sin_32f_generic, for_lt. cbv zeta. rewrite !Nat.sub_0_r.
    unfold bind at 1. rewrite repeatM_add. unfold bind, ret.
    destruct (repeatM g (scalar_step sin) (a, b) m) as [[s m1]|] eqn:E1;
      [|reflexivity].
    apply scalar_loop_inv in E1. destruct E1 as (-> & _ & _).
    reflexivity.
Qed.

(** X8.  What the precondition on overlap guards against.  Called with the
    output one cell ahead of the input, [bVector = aVector + 1], the
    generic kernel reads back what it has just written: the output element
    of index [i] is the library sine applied [i + 1] times to the first
    input element, and no other input element is used. *)
Theorem output_one_ahead_feeds_on_itself sin m a n x0 :
  a + 1 + n <= length m -> m !! a = Some x0 ->
  exists m',
    volk_32f_sin_32f_generic sin (a + 1) a n m = Some (tt, m')
    /\ forall i, i < n -> m' !! (a + 1 + i) = Some (Nat.iter (S i) sin x0).
Proof.
  intros Hlen Hx.
  destruct (shifted_scalar_loop sin n a m x0 Hlen Hx)
    as (m' & Hrun & _ & _ & Hout).
  exists m'. split; [|exact Hout].
  unfold volk_32f_sin_32f_generic, for_lt. cbv zeta. unfold bind.
  rewrite Nat.sub_0_r, Hrun. reflexivity.
Qed.

Lemma output_one_ahead_feeds_on_itself_witness :
  0 + 1 + 3 <= length [f_one; f_five; f_2_5; f_1_22]
  /\ [f_one; f_five; f_2_5; f_1_22] !! 0 = Some f_one
  /\ exists m',
       volk_32f_sin_32f_generic (fun x => F32.opp x) (0 + 1) 0 3
         [f_one; f_five; f_2_5; f_1_22] = Some (tt, m')
       /\ m' = [f_one; F32.opp f_one; f_one; F32.opp f_one].
Proof.
  split; [simpl; lia|]. split; [reflexivity|].
  destruct (output_one_ahead_feeds_on_itself (fun x => F32.opp x)
              [f_one; f_five; f_2_5; f_1_22] 0 3 f_one ltac:(simpl; lia) eq_refl)
    as (m' & Hrun & _).
  exists m'. split; [exact Hrun|].
  vm_compute in Hrun. injection Hrun as <-. reflexivity.
Defined.

(** ** Lanes *)

Local Open Scope Z_scope.

(** X9.  In every vector kernel a lane whose input has a biased exponent
    of 158 or more (a NaN, an infinity, or a finite number of magnitude
    [2^31] or more) has the integer indefinite [0x80000000] as its floored
    index, since [floor (|x| * 4/pi)] does not fit a signed 32-bit integer,
    and comes out as a NaN: nothing is reduced, the series overflows to
    infinity and the square root is taken of minus infinity. *)
Theorem out_of_range_input_gives_nan v aVal k x :
  length aVal = width v -> aVal !! k = Some x ->
  0 <= x < 2 ^ 32 -> 158 <= F32.exp_field x ->
  l_q (iteration v aVal) !! k = Some F32.sign_bit
  /\ exists y, l_sine (iteration v aVal) !! k = Some y /\ F32.is_nan y = true.
Proof.
  intros Hlen Hk Hx HE.
  destruct (lane_of_iteration v aVal k x Hlen Hk)
    as (_ & Hq & _ & _ & _ & _ & _ & _ & _ & _ & _ & _ & _ & Hs).
  cbv zeta in Hq, Hs.
  destruct (huge_lane (fused v) x Hx HE) as [Hq' Hs'].
  rewrite Hq' in Hq. rewrite Hs' in Hs.
  split; [exact Hq|].
  exists F32.default_nan. split; [exact Hs | reflexivity].
Qed.

Lemma out_of_range_input_gives_nan_witness :
  length [f_one; 0x7F800000; 0x4F000000; 0x7FC00001] = width u_sse4_1
  /\ [f_one; 0x7F800000; 0x4F000000; 0x7FC00001] !! 2%nat = Some 0x4F000000
  /\ 0 <= 0x4F000000 < 2 ^ 32
  /\ 158 <= F32.exp_field 0x4F000000
  /\ F32.exactly 0x4F000000 (2 ^ 31 # 1)
  /\ l_q (iteration u_sse4_1 [f_one; 0x7F800000; 0x4F000000; 0x7FC00001])
       !! 2%nat = Some F32.sign_bit
  /\ exists y,
       l_sine (iteration u_sse4_1 [f_one; 0x7F800000; 0x4F000000; 0x7FC00001])
         !! 2%nat = Some y
       /\ F32.is_nan y = true.
Proof.
  assert (Hx : 0 <= 0x4F000000 < 2 ^ 32) by lia.
  assert (HE : 158 <= F32.exp_field 0x4F000000) by (vm_compute; discriminate).
  split; [reflexivity|]. split; [reflexivity|]. split; [exact Hx|].
  split; [exact HE|]. split; [vm_compute; reflexivity|].
  apply (out_of_range_input_gives_nan u_sse4_1
           [f_one; 0x7F800000; 0x4F000000; 0x7FC00001] 2%nat
           0x4F000000 eq_refl eq_refl Hx HE).
Defined.

(** X10.  How the result for a negative [x] (above [-2^127]) relates to the
    result for [|x|] in another lane of the same register.  Both lanes
    have the same floored index [q].  Where bit 2 of [q] is set the two
    results are the same pattern; where it is clear the result for [x] is
    the result [y] for [|x|] with its sign bit flipped, provided [y] is
    finite, below [2^127] in magnitude and not [+0.0].  The kernels are an
    odd function on the half-periods with bit 2 clear and an even one on
    the others. *)
Theorem negative_input_against_its_mirror v aVal k k' x q :
  length aVal = width v ->
  aVal !! k = Some x -> aVal !! k' = Some (F32.abs x) ->
  0 <= x < 2 ^ 32 -> F32.lt_zero x = true -> F32.exp_field x < 254 ->
  l_q (iteration v aVal) !! k = Some q ->
  exists y z,
    l_q (iteration v aVal) !! k' = Some q
    /\ l_sine (iteration v aVal) !! k' = Some y
    /\ l_sine (iteration v aVal) !! k = Some z
    /\ (Z.testbit q 2 = true -> z = y)
    /\ (Z.testbit q 2 = false ->
        F32.is_nan y = false -> y <> F32.pos_zero -> F32.exp_field y < 254 ->
        z = F32.opp y).
Proof.
  intros Hlen Hk Hk' Hx Hlt HE Hq.
  destruct (lane_of_iteration v aVal k x Hlen Hk)
    as (_ & Hq1 & _ & _ & _ & _ & _ & _ & _ & _ & _ & _ & _ & Hs1).
  destruct (lane_of_iteration v aVal k' _ Hlen Hk')
    as (_ & Hq2 & _ & _ & _ & _ & _ & _ & _ & _ & _ & _ & _ & Hs2).
  cbv zeta in Hq1, Hs1, Hq2, Hs2.
  assert (Hqx : Lane.q (Lane.run (fused v) x) = q) by congruence.
  destruct (lt_zero_true x Hx Hlt) as (_ & Hxnan & _).
  assert (Hxnz : x <> F32.neg_zero) by (intros ->; discriminate Hlt).
  assert (Ha : Lane.strip_sign x = Lane.strip_sign (F32.abs x)).
  { rewrite strip_sign_abs, strip_sign_of_abs by auto. reflexivity. }
  destruct (same_angle_same_blend (fused v) x (F32.abs x) Ha) as [Hqq _].
  exists (Lane.sine (Lane.run (fused v) (F32.abs x))),
         (Lane.sine (Lane.run (fused v) x)).
  split; [rewrite Hq2, <- Hqq, Hqx; reflexivity|].
  split; [exact Hs2|]. split; [exact Hs1|]. split.
  - intros Hbit. apply negative_lane_mirrors; try assumption.
    rewrite Hqx. exact Hbit.
  - intros Hbit Hnan Hnz Hbig.
    apply negative_lane_is_odd; try assumption.
    rewrite Hqx. exact Hbit.
Qed.

Lemma negative_input_against_its_mirror_witness :
  length [0xBF800000; f_one; f_minus_five; f_five] = width a_sse4_1
  /\ [0xBF800000; f_one; f_minus_five; f_five] !! 0%nat = Some 0xBF800000
  /\ [0xBF800000; f_one; f_minus_five; f_five] !! 1%nat
     = Some (F32.abs 0xBF800000)
  /\ 0 <= 0xBF800000 < 2 ^ 32 /\ F32.lt_zero 0xBF800000 = true
  /\ F32.exp_field 0xBF800000 < 254
  /\ l_q (iteration a_sse4_1 [0xBF800000; f_one; f_minus_five; f_five]) !! 0%nat
     = Some 1
  /\ exists y z,
       l_sine (iteration a_sse4_1 [0xBF800000; f_one; f_minus_five; f_five])
         !! 1%nat = Some y
       /\ l_sine (iteration a_sse4_1 [0xBF800000; f_one; f_minus_five; f_five])
            !! 0%nat = Some z
       /\ y = 0x3F576AA5 /\ z = F32.opp y.
Proof.
  assert (Hx : 0 <= 0xBF800000 < 2 ^ 32) by lia.
  assert (HE : F32.exp_field 0xBF800000 < 254) by (vm_compute; reflexivity).
  assert (Hq : l_q (iteration a_sse4_1 [0xBF800000; f_one; f_minus_five; f_five])
                 !! 0%nat = Some 1) by (vm_compute; reflexivity).
  split; [reflexivity|]. split; [reflexivity|]. split; [reflexivity|].
  split; [exact Hx|]. split; [reflexivity|]. split; [exact HE|].
  split; [exact Hq|].
  destruct (negative_input_against_its_mirror a_sse4_1
              [0xBF800000; f_one; f_minus_five; f_five] 0%nat 1%nat
              0xBF800000 1 eq_refl eq_refl eq_refl Hx eq_refl HE Hq)
    as (y & z & _ & Hy & Hz & _ & Hodd).
  exists y, z. split; [exact Hy|]. split; [exact Hz|].
  assert (Hyv : y = 0x3F576AA5).
  { vm_compute in Hy. injection Hy as <-. reflexivity. }
  split; [exact Hyv|].
  apply Hodd; [reflexivity | | |]; rewrite Hyv;
    [reflexivity | discriminate | vm_compute; reflexivity].
Defined.

(** X11.  The index the reduction uses is even in every lane: with [q]
    the floored index, [r = q + (q & 1)] is [q] when [q] is even and the
    next integer (modulo [2^32]) when [q] is odd; read as signed integers,
    as the conversion to float reads them, [r] is [q] or [q + 1] unless
    [q] is the largest one. *)
Theorem rounded_index_is_even v aVal k x :
  length aVal = width v -> aVal !! k = Some x ->
  exists q r,
    l_q (iteration v aVal) !! k = Some q
    /\ l_r (iteration v aVal) !! k = Some r
    /\ 0 <= q < 2 ^ 32 /\ 0 <= r < 2 ^ 32
    /\ Z.even r = true
    /\ r = (if Z.even q then q else (q + 1) mod 2 ^ 32)
    /\ (q <> 0x7FFFFFFF ->
        F32.signed r = F32.signed q + (if Z.even q then 0 else 1)).
Proof.
  intros Hlen Hk.
  destruct (lane_of_iteration v aVal k x Hlen Hk)
    as (_ & Hq & Hr & _).
  cbv zeta in Hq, Hr.
  assert (Hrange : 0 <= Lane.q (Lane.run (fused v) x) < 2 ^ 32)
    by apply cvt_f32_i32_range.
  destruct (odd_round_parity _ Hrange) as (H1 & H2 & H3 & H4).
  exists (Lane.q (Lane.run (fused v) x)), (Lane.r (Lane.run (fused v) x)).
  split; [exact Hq|]. split; [exact Hr|]. split; [exact Hrange|].
  split; [exact H1|]. split; [exact H2|]. split; [exact H3 | exact H4].
Qed.

Lemma rounded_index_is_even_witness :
  length (replicate 8%nat f_2_5) = width u_avx2_fma
  /\ replicate 8%nat f_2_5 !! 3%nat = Some f_2_5
  /\ exists q r,
       l_q (iteration u_avx2_fma (replicate 8%nat f_2_5)) !! 3%nat = Some q
       /\ l_r (iteration u_avx2_fma (replicate 8%nat f_2_5)) !! 3%nat = Some r
       /\ q = 3 /\ r = 4.
Proof.
  split; [reflexivity|]. split; [reflexivity|].
  destruct (rounded_index_is_even u_avx2_fma (replicate 8%nat f_2_5) 3%nat
              f_2_5 eq_refl eq_refl)
    as (q & r & Hq & Hr & _ & _ & _ & Hrq & _).
  exists q, r. split; [exact Hq|]. split; [exact Hr|].
  assert (Hq3 : q = 3).
  { vm_compute in Hq. injection Hq as <-. reflexivity. }
  split; [exact Hq3|]. rewrite Hrq, Hq3. reflexivity.
Defined.

(** X12.  Which octant a lane is in, whether the cosine is blended in and
    whether the sign is flipped do not depend on the kernel: two lanes that
    hold the same input, in any two of the six vector kernels and at any
    positions, have the same absolute angle, the same floored and rounded
    indices and the same two masks.  The fused and the plain kernels can
    differ only in the rounding of the reduced angle and of the series.
    When the two kernels agree on fusing the two lanes agree in their
    result as well. *)
Theorem octant_and_masks_are_shared v1 v2 aVal1 aVal2 k1 k2 x :
  length aVal1 = width v1 -> length aVal2 = width v2 ->
  aVal1 !! k1 = Some x -> aVal2 !! k2 = Some x ->
  let L1 := iteration v1 aVal1 in
  let L2 := iteration v2 aVal2 in
  l_s_abs L1 !! k1 = l_s_abs L2 !! k2
  /\ l_q L1 !! k1 = l_q L2 !! k2
  /\ l_r L1 !! k1 = l_r L2 !! k2
  /\ l_condition1 L1 !! k1 = l_condition1 L2 !! k2
  /\ l_condition2 L1 !! k1 = l_condition2 L2 !! k2
  /\ (fused v1 = fused v2 -> l_sine L1 !! k1 = l_sine L2 !! k2).
Proof.
  intros Hlen1 Hlen2 Hk1 Hk2 L1 L2.
  destruct (lane_of_iteration v1 aVal1 k1 x Hlen1 Hk1)
    as (Ha1 & Hq1 & Hr1 & _ & _ & _ & _ & _ & _ & _ & Hc1 & Hd1 & _ & Hs1).
  destruct (lane_of_iteration v2 aVal2 k2 x Hlen2 Hk2)
    as (Ha2 & Hq2 & Hr2 & _ & _ & _ & _ & _ & _ & _ & Hc2 & Hd2 & _ & Hs2).
  cbv zeta in *. subst L1 L2.
  rewrite Ha1, Ha2, Hq1, Hq2, Hr1, Hr2, Hc1, Hc2, Hd1, Hd2, Hs1, Hs2.
  split; [reflexivity|]. split; [reflexivity|]. split; [reflexivity|].
  split; [reflexivity|]. split; [reflexivity|].
  intros ->. reflexivity.
Qed.

Lemma octant_and_masks_are_shared_witness :
  length [f_one; f_minus_five; f_1_22; f_2_5] = width a_sse4_1
  /\ length (replicate 8%nat f_2_5) = width u_avx2_fma
  /\ [f_one; f_minus_five; f_1_22; f_2_5] !! 3%nat = Some f_2_5
  /\ replicate 8%nat f_2_5 !! 6%nat = Some f_2_5
  /\ l_q (iteration a_sse4_1 [f_one; f_minus_five; f_1_22; f_2_5]) !! 3%nat
     = l_q (iteration u_avx2_fma (replicate 8%nat f_2_5)) !! 6%nat
  /\ l_condition2 (iteration a_sse4_1 [f_one; f_minus_five; f_1_22; f_2_5]) !! 3%nat
     = l_condition2 (iteration u_avx2_fma (replicate 8%nat f_2_5)) !! 6%nat.
Proof.
  split; [reflexivity|]. split; [reflexivity|]. split; [reflexivity|].
  split; [reflexivity|].
  destruct (octant_and_masks_are_shared a_sse4_1 u_avx2_fma
              [f_one; f_minus_five; f_1_22; f_2_5] (replicate 8%nat f_2_5)
              3%nat 6%nat f_2_5 eq_refl eq_refl eq_refl eq_refl)
    as (_ & Hq & _ & _ & Hc & _).
  split; [exact Hq | exact Hc].
Defined.

(** X13.  The two constants the range reduction subtracts, the high part
    [0.78515625] and the low part nearest to [0.241876e-3], add up to less
    than [pi/4]: they fall short of it by between [3.7e-8] and [3.8e-8].
    Each unit of the index leaves that much of the angle unreduced, so that
    from the index 27 on (an angle of about 21) the reduced angle is off by
    more than [1e-6] before any rounding. *)
Theorem reduction_constants_fall_short_of_pi_over_4 :
  exists hi lo : Q,
    F32.value Lane.pio4A = Some hi /\ F32.value Lane.pio4B = Some lo
    /\ (37 / 10 ^ 9 < PI / 4 - Q2R (hi + lo) < 38 / 10 ^ 9)%R
    /\ forall r : Z, 27 <= r ->
         (1 / 10 ^ 6 < IZR r * (PI / 4 - Q2R (hi + lo)))%R.
Proof.
  exists (13172736 # 16777216)%Q, (16621592 # 68719476736)%Q.
  split; [vm_compute; reflexivity|]. split; [vm_compute; reflexivity|].
  assert (Hsum : Q2R ((13172736 # 16777216) + (16621592 # 68719476736))
                 = (13172736 / 16777216 + 16621592 / 68719476736)%R).
  { rewrite Q2R_plus. unfold Q2R. cbn [Qnum Qden]. reflexivity. }
  rewrite Hsum. pose proof pi_over_4_bounds as [Hlo Hhi].
  split; [split; lra|].
  intros r Hr. apply IZR_le in Hr.
  assert (Hd : (37 / 10 ^ 9
                < PI / 4 - (13172736 / 16777216 + 16621592 / 68719476736))%R)
    by lra.
  nra.
Qed.

(** X14.  For every input the magnitude of which is below [15 pi/4] (about
    11.78), the floored index of its lane is the octant of the angle: [q]
    is the integer with [q pi/4 <= |x| < (q + 1) pi/4], in the real
    numbers.  Neither the rounding of the kernel's [4/pi] nor that of the
    product moves an angle of this range across a multiple of [pi/4].  The
    bound is the best one: the first binary32 at or above [15 pi/4],
    [0x413C7EDD], is given the index 14. *)
Theorem floored_index_is_the_octant v aVal k x a :
  length aVal = width v -> aVal !! k = Some x -> 0 <= x < 2 ^ 32 ->
  F32.value (F32.abs x) = Some a -> (Q2R a < 15 * (PI / 4))%R ->
  (exists q,
     l_q (iteration v aVal) !! k = Some q /\ 0 <= q <= 14
     /\ (IZR q * (PI / 4) <= Q2R a < (IZR q + 1) * (PI / 4))%R)
  /\ (exists b,
        F32.value 0x413C7EDD = Some b /\ (15 * (PI / 4) <= Q2R b)%R
        /\ Lane.q (Lane.run (fused v) 0x413C7EDD) = 14).
Proof.
  intros Hlen Hk Hx Hv Hlt. split.
  - destruct (lane_of_iteration v aVal k x Hlen Hk) as (_ & Hq & _).
    cbv zeta in Hq.
    destruct (index_of_lane (fused v) x a Hx Hv Hlt) as (Hidx & Hr & _).
    destruct (octant_of_angle (F32.abs x) a Hr Hv Hlt) as [Hrange Hoct].
    exists (Lane.floor_index (F32.abs x)).
    split; [rewrite Hq, Hidx; reflexivity|]. split; assumption.
  - destruct index_past_the_octants as (Hi & b & Hb & Hge).
    exists b. split; [exact Hb|]. split; [exact Hge|].
    destruct (blend_of_run (fused v) 0x413C7EDD) as (Hq & _).
    rewrite Hq.
    replace (Lane.strip_sign 0x413C7EDD) with 0x413C7EDD
      by (vm_compute; reflexivity).
    exact Hi.
Qed.

Lemma floored_index_is_the_octant_witness :
  exists a,
    length [f_one; f_minus_five; f_1_22; f_2_5] = width a_sse4_1
    /\ [f_one; f_minus_five; f_1_22; f_2_5] !! 1%nat = Some f_minus_five
    /\ 0 <= f_minus_five < 2 ^ 32
    /\ F32.value (F32.abs f_minus_five) = Some a
    /\ (Q2R a < 15 * (PI / 4))%R
    /\ exists q,
         l_q (iteration a_sse4_1 [f_one; f_minus_five; f_1_22; f_2_5]) !! 1%nat
         = Some q
         /\ q = 6
         /\ (IZR q * (PI / 4) <= Q2R a < (IZR q + 1) * (PI / 4))%R.
Proof.
  exists (10485760 # 2097152)%Q.
  assert (Hx : 0 <= f_minus_five < 2 ^ 32) by (vm_compute; split; discriminate || reflexivity).
  assert (Hv : F32.value (F32.abs f_minus_five) = Some (10485760 # 2097152)%Q)
    by (vm_compute; reflexivity).
  assert (Hlt : (Q2R (10485760 # 2097152) < 15 * (PI / 4))%R).
  { pose proof pi_over_4_bounds as [Hpl _].
    unfold Q2R. cbn [Qnum Qden]. lra. }
  split; [reflexivity|]. split; [reflexivity|]. split; [exact Hx|].
  split; [exact Hv|]. split; [exact Hlt|].
  destruct (floored_index_is_the_octant a_sse4_1
              [f_one; f_minus_five; f_1_22; f_2_5] 1%nat f_minus_five
              (10485760 # 2097152)%Q eq_refl eq_refl Hx Hv Hlt)
    as [(q & Hq & _ & Hoct) _].
  exists q. split; [exact Hq|]. split; [|exact Hoct].
  vm_compute in Hq. injection Hq as <-. reflexivity.
Defined.

(** X15.  The symmetry of the kernels, by half-period.  Let [x] be
    negative with [|x|] below [15 pi/4], and let [n] count the multiples of
    [pi] in [|x|]: [n pi <= |x| < (n + 1) pi].  When [n] is odd the lane
    of [x] gets the same bit pattern as a lane holding [|x|]: for
    [-2 pi < x <= -pi] and for [-15 pi/4 < x <= -3 pi] the kernels are an
    even function, where the sine is odd.  When [n] is even the lane of [x] gets the
    result [y] for [|x|] with its sign bit flipped, provided [y] is finite,
    below [2^127] in magnitude and not [+0.0]. *)
Theorem symmetry_by_half_period v aVal k k' x a n :
  length aVal = width v ->
  aVal !! k = Some x -> aVal !! k' = Some (F32.abs x) ->
  0 <= x < 2 ^ 32 -> F32.lt_zero x = true ->
  F32.value (F32.abs x) = Some a -> (Q2R a < 15 * (PI / 4))%R ->
  (IZR n * PI <= Q2R a < (IZR n + 1) * PI)%R ->
  exists y z,
    l_sine (iteration v aVal) !! k' = Some y
    /\ l_sine (iteration v aVal) !! k = Some z
    /\ (Z.odd n = true -> z = y)
    /\ (Z.odd n = false ->
        F32.is_nan y = false -> y <> F32.pos_zero -> F32.exp_field y < 254 ->
        z = F32.opp y).
Proof.
  intros Hlen Hk Hk' Hx Hlt Hv Hsmall Hn.
  destruct (lane_of_iteration v aVal k x Hlen Hk)
    as (_ & _ & _ & _ & _ & _ & _ & _ & _ & _ & _ & _ & _ & Hs1).
  destruct (lane_of_iteration v aVal k' _ Hlen Hk')
    as (_ & _ & _ & _ & _ & _ & _ & _ & _ & _ & _ & _ & _ & Hs2).
  cbv zeta in Hs1, Hs2.
  destruct (index_of_lane (fused v) x a Hx Hv Hsmall) as (Hidx & Hr & HE).
  destruct (octant_of_angle (F32.abs x) a Hr Hv Hsmall) as [Hrange Hoct].
  pose proof (bit_two_by_half_period _ n _ Hrange Hoct Hn) as Hbit.
  rewrite <- Hidx in Hbit.
  exists (Lane.sine (Lane.run (fused v) (F32.abs x))),
         (Lane.sine (Lane.run (fused v) x)).
  split; [exact Hs2|]. split; [exact Hs1|]. split.
  - intros Hodd. apply negative_lane_mirrors; try assumption.
    rewrite Hbit. exact Hodd.
  - intros Hev Hnan Hnz Hbig.
    apply negative_lane_is_odd; try assumption.
    rewrite Hbit. exact Hev.
Qed.

Lemma symmetry_by_half_period_witness :
  exists a,
    length [0xBF800000; f_one; f_minus_five; f_five] = width a_sse4_1
    /\ [0xBF800000; f_one; f_minus_five; f_five] !! 2%nat = Some f_minus_five
    /\ [0xBF800000; f_one; f_minus_five; f_five] !! 3%nat
       = Some (F32.abs f_minus_five)
    /\ 0 <= f_minus_five < 2 ^ 32 /\ F32.lt_zero f_minus_five = true
    /\ F32.value (F32.abs f_minus_five) = Some a
    /\ (Q2R a < 15 * (PI / 4))%R
    /\ (IZR 1 * PI <= Q2R a < (IZR 1 + 1) * PI)%R
    /\ exists y,
         l_sine (iteration a_sse4_1 [0xBF800000; f_one; f_minus_five; f_five])
           !! 3%nat = Some y
         /\ l_sine (iteration a_sse4_1 [0xBF800000; f_one; f_minus_five; f_five])
              !! 2%nat = Some y.
Proof.
  exists (10485760 # 2097152)%Q.
  assert (Hx : 0 <= f_minus_five < 2 ^ 32)
    by (vm_compute; split; discriminate || reflexivity).
  assert (Hv : F32.value (F32.abs f_minus_five) = Some (10485760 # 2097152)%Q)
    by (vm_compute; reflexivity).
  pose proof pi_over_4_bounds as [Hpl Hph].
  assert (Hlt : (Q2R (10485760 # 2097152) < 15 * (PI / 4))%R)
    by (unfold Q2R; cbn [Qnum Qden]; lra).
  assert (Hn : (IZR 1 * PI <= Q2R (10485760 # 2097152) < (IZR 1 + 1) * PI)%R)
    by (unfold Q2R; cbn [Qnum Qden]; lra).
  split; [reflexivity|]. split; [reflexivity|]. split; [reflexivity|].
  split; [exact Hx|]. split; [reflexivity|]. split; [exact Hv|].
  split; [exact Hlt|]. split; [exact Hn|].
  destruct (symmetry_by_half_period a_sse4_1
              [0xBF800000; f_one; f_minus_five; f_five] 2%nat 3%nat
              f_minus_five (10485760 # 2097152)%Q 1
              eq_refl eq_refl eq_refl Hx eq_refl Hv Hlt Hn)
    as (y & z & Hy & Hz & Hsame & _).
  exists y. split; [exact Hy|]. rewrite <- (Hsame eq_refl). exact Hz.
Defined.

Local Open Scope nat_scope.

(** X16.  A vector kernel never overshoots.  Every element a vector loop
    stores (index below [W * (num_points / W)], [W] the lane count) is a
    NaN or a number in [[-1, 1]], for every input whatever: finite of any
    size, infinite or NaN.  After the doublings the kernel holds
    [t]; where [t] is not in [[0, 2]] the square root of [(2 - t) * t] is
    a NaN and the lane stays a NaN, and where it is, the root, [1 - t],
    their blend and the sign flip all stay in [[-1, 1]] under rounding to
    nearest. *)
Theorem vector_output_is_nan_or_within_one sin v m b a n :
  in_bounds m b a n -> no_overlap b a n -> alignment_ok v b a ->
  exists m',
    kernel sin v b a n m = Some (tt, m')
    /\ forall i, i < width v * (n / width v) ->
         exists y, m' !! (b + i) = Some y
           /\ (F32.is_nan y = true
               \/ exists r, F32.value y = Some r /\ (-1 <= Q2R r <= 1)%R).
Proof.
  intros Hb Hov Hal.
  destruct (kernel_pointwise sin v m b a n Hb Hov Hal)
    as (m' & Hrun & _ & _ & Hout).
  exists m'. split; [exact Hrun|]. intros i Hi.
  pose proof (width_pos v) as HW.
  pose proof (group_split n (width v) HW) as [Hle _].
  destruct Hb as [Ha _].
  destruct (lookup_lt_is_Some_2 m (a + i)) as [x Hx]; [lia|].
  exists (Lane.sine (Lane.run (fused v) x)). split.
  - rewrite (Hout i x ltac:(lia) Hx).
    destruct (decide (i < width v * (n / width v))); [reflexivity | contradiction].
  - destruct (lane_in_unit (fused v) x) as [Hnan|Hunit];
      [left; rewrite Hnan; vm_compute; reflexivity|].
    right. apply unit_value, Hunit.
Qed.

Lemma vector_output_is_nan_or_within_one_witness :
  in_bounds sample_mem 8 0 8 /\ no_overlap 8 0 8 /\ alignment_ok a_avx2 8 0
  /\ exists m' y r,
       kernel sample_sin a_avx2 8 0 8 sample_mem = Some (tt, m')
       /\ m' !! (8 + 1) = Some y /\ F32.value y = Some r
       /\ (-1 <= Q2R r <= 1)%R.
Proof.
  assert (Hb : in_bounds sample_mem 8 0 8) by (unfold in_bounds; simpl; lia).
  assert (Hov : no_overlap 8 0 8) by (unfold no_overlap; lia).
  assert (Hal : alignment_ok a_avx2 8 0) by (intros _; split; reflexivity).
  split; [exact Hb|]. split; [exact Hov|]. split; [exact Hal|].
  destruct (vector_output_is_nan_or_within_one sample_sin a_avx2 sample_mem
              8 0 8 Hb Hov Hal) as (m' & Hrun & Hout).
  destruct (Hout 1 ltac:(simpl; lia)) as (y & Hy & Hcase).
  assert (Hm' : m' !! (8 + 1) = Some 0xBF757C0F%Z).
  { vm_compute in Hrun. injection Hrun as <-. reflexivity. }
  assert (Ey : y = 0xBF757C0F%Z) by congruence.
  destruct Hcase as [Hnan | (r & Hr & Hrange)].
  - exfalso. rewrite Ey in Hnan. vm_compute in Hnan. discriminate Hnan.
  - exists m', y, r. auto.
Defined.
